(* ===== verification/_CoqProject ===== *)
-Q . S2P
Prelude.v
Order.v
Json.v
AppErr.v
EmailValidation.v
AmqpUtil.v
Event.v
World.v
Interfaces.v
Filter.v
LogStore.v
LogInvariant.v
LogTyped.v
LogRetry.v
BlockList.v
TemplateStore.v
Renderer.v
Mailer.v
Fetcher.v
Processor.v
ProcessorSpec.v
GroupSpec.v
Delivery.v
Retry.v
Loops.v
AtMostOnce.v
Settle.v
Healthy.v
HealthyStore.v
HealthyGroup.v
Runner.v
Dispatch.v
Config.v
Outbox.v
OutboxSpec.v
OutboxPoll.v
OutboxCut.v
OutboxMain.v
Queue.v
AtLeastOnce.v
EndToEnd.v
WorkersToMail.v
Publisher.v
Api.v
ReplaySpec.v
ApiSpec.v
Routes.v
Startup.v
RequestToMail.v
RetryToMail.v
Syslog.v
CliQueries.v
J2.v
Mcp.v
McpSpec.v
Anctl.v
AnctlApi.v
AnctlDb.v
AnctlSend.v
AnctlMain.v
