(* ===== verification/Prelude.v ===== *)
(** * AnvilNotify, verified

    AnvilNotify (the Rust workspace under [src/src]) delivers e-mail for other
    services.  An event, the envelope naming what happened and to whom to write,
    reaches a RabbitMQ queue from one of three places: a service's
    [outbox_event] table through the outbox worker, the HTTP API's direct send,
    or the API's manual retry.  The consumer takes one delivery after another,
    spawns a task per event, and for each recipient (or for the group) inserts a
    row into [notification_log] under the unique key (event, channel,
    recipient), renders a template, asks the filters, waits for the rate
    limiter, hands one message to a transport and writes the row's status.
    Failures are split into permanent and transient; transient ones go round a
    back-off loop.  Operators read and retry rows, and administer templates and
    the block list, through the API, through the MCP tools mounted beside it,
    and through the command line client [anctl], which also reads the tables
    directly.

    ** Parts and files

    Foundations.
    - [Prelude]: results, the state monad [ST] with its notations ([let!],
      [let?], [;;!]), list loops in the monad, machine-integer arithmetic,
      strings, the tactic [run_st] and the hint databases.
    - [Order]: [ORDER BY] as a stable insertion sort.
    - [Json]: [serde_json::Value] and the interface of derived serialisers.
    - [World]: the tables, caches and traces the service changes ([World]), the
      answers of everything outside it ([Env]), and the primitives that connect
      them ([query], [transaction], [basic_publish], ...).
    - [Interfaces]: the traits [NotificationStore], [TemplateResolver] and
      [BlockListChecker] as classes with their laws.

    Data and pure code, under [crates/common], [crates/recipient_filter].
    - [AppErr]: [error.rs].  [EmailValidation]: [email_validation.rs].
      [AmqpUtil]: [amqp_util.rs] and [append_heartbeat_param].
      [Event]: [event.rs], [log.rs], and [mailer/src/message.rs].
      [Filter]: [recipient_filter/src/lib.rs].

    Stores, under [crates/store/src]; each is an instance of an interface.
    - [LogStore], [LogInvariant], [LogTyped], [LogRetry]: [notification_log.rs].
      [BlockList]: [block_list_store.rs].  [TemplateStore]: [template_store.rs].
      [CliQueries]: [cli_queries.rs], with [LIKE] patterns as PostgreSQL
      documents them.

    Sending, under [crates/mailer], [crates/rate_limiter].
    - [Renderer]: [template.rs].  [Mailer]: the SMTP and webhook senders, the
      registry, the rate limiter.  [Fetcher]: [fetcher.rs].

    The consumer, under [crates/consumer/src].
    - [Processor]: [processor.rs]; [ProcessorSpec] and [GroupSpec] state what
      one attempt at a recipient and at a group promises.
    - [Delivery]: [delivery.rs]; [Retry], [Loops], [AtMostOnce] and [Settle]
      prove its loops, its effect on mail and how deliveries are settled.
    - [Healthy] says what a delivery achieves when its neighbours answer, over
      the interfaces alone; [HealthyStore] discharges its assumptions for the
      real stores, and [HealthyGroup] does both for group events.
    - [Runner]: [runner.rs] as a function of the world, with the topology.
      [Dispatch]: its loop again as a state machine over the events its
      [select!]s wait for, with the semaphore, the concurrent tasks and the
      drain at shutdown; each run of the first is a run of the second.

    The outbox worker, [crates/outbox/src]: [Outbox] is [worker.rs] and
    [config.rs]; [OutboxSpec] and [OutboxPoll] its theorems; [OutboxCut] the
    [select!] in which a shutdown drops a poll half-way; [OutboxMain] is the
    binary, [src/outbox_worker.rs].

    From the outbox to the mail.  [Queue] says what delivering a list of bodies
    does, and [AtLeastOnce] that a body delivered again does nothing more.
    [EndToEnd] composes one poll that succeeds, the broker's routing and the
    consumer; [WorkersToMail] puts in place of the poll any interleaving of
    workers and reapers over any broker.

    The API, [crates/api/src]: [Publisher] is [publisher.rs]; [Api] is
    [errors.rs], [state.rs], [handlers.rs] and the middlewares of [routes.rs];
    [ReplaySpec] and [ApiSpec] are its theorems; [Routes] is the router of
    [routes.rs] and [docs.rs], from a method and a path to a handler behind its
    middlewares.

    The service itself, [src/src]: [Config] is [config.rs] with its validation;
    [Startup] is [main.rs], what a configuration becomes, the reaper task, how
    the tasks end the process, and the bounded shutdown; [RequestToMail] composes a started service's API with
    its consumer, and [RetryToMail] its retry endpoint with the same consumer;
    [Syslog] is [syslog_layer.rs].

    Operators' tools.  [Mcp] and [McpSpec]: [crates/mcp/src], each tool over the
    shared tables and the server's own caches.  Of [crates/anctl/src], [Anctl]
    is [cli.rs], [config.rs] and [output.rs]; [J2] the parser of template files
    in [cmd/template.rs]; [AnctlApi] the commands that call the API, first over
    any client and then over [Routes.serve]; [AnctlDb] the listings; [AnctlSend]
    [cmd/send.rs]; [AnctlMain] [main.rs].

    ** How code becomes definitions

    An operation of type [async fn f(..) -> Result<A, E>] is a function into
    [M (result A E)], where [M X] is [World -> X * World]; [?] is [let?].
    Definitions keep the names of the source; a record's fields carry a short
    prefix ([ne_] of [NotificationEvent], [lr_] of a log row), and the methods
    of [EmailNotificationStore] the prefix [email_].  A SQL statement is a
    function [sql_*] on the tables [Db], run by [query], which fails as a whole
    when the environment says so.  A transaction restores the tables it began
    with when any of its statements or its commit fails.

    The outside answers by the clock of interactions: each call to the
    database, the broker, a transport, the clock or the random generator takes
    the tick [w_tick] and advances it, and [Env] maps ticks to answers.  Opening
    an AMQP connection is the steps the code awaits, connection, channel,
    confirm mode and declarations, each with an answer of its own.  A
    theorem that holds for every [Env] and every starting [World] holds for
    every pattern of database errors, lost connections, confirms and delays.
    Mail handed to a transport, AMQP frames and sleeps are appended to
    [w_sends], [w_amqp] and [w_slept], in order.

    Integers are [Z].  Where the code's width matters its arithmetic is spelt
    out: saturating [u64] multiplication, the wrapping one of the outbox's idle
    wait, the wrap-around cast of an [i32] to [u32], the capped shift of the
    exponential back-off.

    ** Loops, fuel and schedules

    A retry loop is one [*_iteration] repeated by a [Fixpoint] on fuel; [None]
    is a loop that has not returned.  [Retry.retry_loop_returns] says how much
    fuel is enough when the store never reports a duplicate, and
    [Retry.duplicate_livelock] that no fuel is enough when it does: the model
    does not hide that loop.  The recipients of one event run concurrently; a
    schedule, a list of task numbers, says whose turn it is, and a turn is
    atomic.  Theorems quantify over the schedule.  [AtMostOnce.service_step]
    goes further: it is the step relation of the whole service, in which turns
    of any number of deliveries, store operations and reapers interleave.
    [Runner.consume_loop] and [reconnect_loop] and the outbox's polls take fuel
    for the number of deliveries, connections and polls, which the code does
    not bound.

    ** What the theorems show

    - The delivery log.  [LogInvariant.log_wf_invariant], [rows_survive]: keys
      and ids stay unique, details stay attached, rows and their content are
      never lost, counters never fall, whatever fails.
      [LogTyped.log_typed_invariant]: statuses and counters stay readable, so
      no read of the log fails on a row.  [LogRetry] gives the
      exact effect of each conditional update on the log seen as a map.
    - One attempt.  [ProcessorSpec.process_recipient_refines] relates the
      detailed processor to an abstract specification over the log-as-map and
      the list of messages; [existing_row_not_resent], [blocked_never_sent] and
      [GroupSpec.process_group_sends] are what a caller relies on.
    - Many attempts.  [AtMostOnce.at_most_once]: no sequence of turns hands over
      two messages with one event and first To: address, nor, while an id stands
      for one event, two messages of an event with any To: address in common.
      [Retry]: exactly when and how long the loops back off, termination, and
      the livelock.
    - Completeness.  The theorems above hold for every pattern of failures, and
      so of a service that sends nothing.  With an environment that answers
      ([HealthyStore.answers]) a delivery is carried through:
      [HealthyStore.healthy_delivery] and [HealthyGroup.healthy_group_delivery]
      say exactly which rows and which messages it leaves, and
      [redelivery_idempotent] that delivering again changes nothing.  Their
      hypotheses name what is assumed: the database answers, generated ids are
      new, the transport takes these messages, no row of the event is left
      half-way, since such a row is the livelock of [Retry], and a group event
      is new and has a first recipient the configured filter lets through.
      [EndToEnd.outbox_to_mail] carries this from the outbox table through a
      broker that acknowledges to the mail, and
      [RequestToMail.accepted_request_mailed] from an accepted API request, both
      for events of either send mode.
    - Once, for messages that come more than once.
      [AtLeastOnce.repeated_deliveries_mail_once]: a queue in which events are
      repeated leaves the rows and the mail of one delivery each.
      [WorkersToMail.workers_mail_once]: whatever the outbox workers and the
      broker did, the consumer mails each published event once, and every row
      marked PUBLISHED is among them.  Nothing is assumed there of the broker's
      answers to the workers; the database and the consumer's neighbours answer.
    - Settling.  [Settle.settled_once]: a finished delivery is acked or nacked
      exactly once; the other theorems say which, branch by branch.
    - The outbox.  The life cycle of a row under any number of workers, that a
      claim is exclusive, that a published row was confirmed, that a poll
      leaves nothing in progress while the broker stays connected, the order of
      a batch; and that a poll cut short by a shutdown, wherever it is cut,
      loses no row ([OutboxCut.cut_poll_recovered], which assumes that the
      clock advances and a reaper runs).
    - Manual retry and the API.  What a retry endpoint does to the log and the
      queue on every branch; that the message of a retry then spins in the
      consumer for ever ([RetryToMail.manual_retry_never_mailed]); that an
      accepted request is an event the consumer can send; the status summary; the authentication gate; the block list
      seen by the next check.
    - Caches.  The template cache agrees with the table after every operation
      of the store; the block list answers as the table did when its snapshot
      was taken, and as the configured filter would on the same lists.
    - Connections.  Publishing survives one lost connection; the declared
      topology routes an event to the queue, a delayed one back to it and a
      rejected one to the dead letters; the consumer reconnects until it is
      told to stop, pausing twice as long after each short connection
      ([Runner.reconnect_until_shutdown]), never runs more tasks than it may,
      and drains them when the shutdown finds it listening ([Dispatch]); its
      loop is a run of the state machine on the environment's own answers
      ([Dispatch.run_consumer_refines]).
    - The parts together.  [Config.validate_iff] and [Startup.start_contract]:
      which configurations run, and that the parts then agree;
      [Startup.lives_until_signal]: a started service runs until it is told to
      stop, although a part may have failed to bind its port;
      [Startup.accepted_request_reaches_consumer]: from an accepted request
      through the declared topology to an event the consumer sends;
      [Routes.router_gate]: no request without the key gets past the probes and
      the documents, over the whole route table.
    - Operators' tools.  What each way to publish an event sends on every
      branch ([McpSpec.mcp_send_outcome], [AnctlSend.send_outcome]); a template
      uploaded from a file is the one rendered next
      ([AnctlApi.template_create_effective]); what the tools change is not seen
      by the service at once ([McpSpec.mcp_block_entry_delayed]); the commands
      act on the service through their requests only
      ([AnctlMain.commands_only_ask]); [AnctlDb.logs_show].
    - Round trips.  Template files ([J2.j2_round_trip]), syslog lines
      ([Syslog.syslog_round_trip]), paths ([Routes.route_round_trip]).

    Several of these theorems hold of code that does not do what its comments
    say; the divergences are stated as theorems of their own
    ([Retry.duplicate_livelock], [Retry.sent_row_overwritten],
    [GroupSpec.blocked_primary_still_addressed],
    [GroupSpec.group_ignores_block_list], [OutboxPoll.published_row_reopened],
    [Publisher.nacked_publish_succeeds], [Dispatch.exit_with_task_running],
    [Startup.zero_interval_reaps_nothing], [OutboxMain.empty_batch_never_publishes],
    [AnctlApi.blocklist_list_always_fails], [AnctlApi.retry_ignores_api_url]).

    ** Parameters and omissions

    Parameters, as fields of [Env] or classes: the derived serde code
    ([Serialize], [EventCodec], [WireCodec], with the round trip as a law where used), lettre,
    reqwest, lapin, minijinja, governor, base64, HMAC, Unicode case folding
    and trimming, moka's expiry, sqlx's failures and Postgres's generators.
    Their sample instances at the end of [World] make the witnesses concrete.

    Not modelled: log lines and metrics, but for the syslog layer's format; the
    texts of the API documents;
    what axum does before and around the router (percent-decoding and its
    answer to an unknown path are parameters), the reading of configuration
    files and environment variables, the parsing of command lines (clap), the
    MCP protocol (rmcp) and the escaping of URLs by the HTTP client. *)

From stdpp Require Export base gmap sets list strings pretty.
From Stdlib Require Export ZArith Lia Ascii.

(** The development uses Rust's [&&], [||], [!] on [bool]. *)
#[global] Open Scope bool_scope.
#[global] Open Scope Z_scope.

(** ** Results: Rust's [Result<T, E>] *)

Inductive result (A E : Type) : Type :=
  | Ok (a : A)
  | Err (e : E).
Arguments Ok {A E} a.
Arguments Err {A E} e.

Definition result_map {A B E} (f : A → B) (r : result A E) : result B E :=
  match r with Ok a => Ok (f a) | Err e => Err e end.

Definition map_err {A E F} (f : E → F) (r : result A E) : result A F :=
  match r with Ok a => Ok a | Err e => Err (f e) end.

Definition is_ok {A E} (r : result A E) : bool :=
  match r with Ok _ => true | Err _ => false end.

Definition result_bind {A B E} (r : result A E) (f : A → result B E) : result B E :=
  match r with Ok a => f a | Err e => Err e end.

(** [iter().map(f).collect::<Result<Vec<_>, _>>()]: the first error wins. *)
Fixpoint result_mapM {A B E} (f : A → result B E) (l : list A) : result (list B) E :=
  match l with
  | [] => Ok []
  | a :: l => result_bind (f a) (λ b, result_map (cons b) (result_mapM f l))
  end.

(** [Option::transpose] on [Option<Result<T, E>>]. *)
Definition transpose {A E} (o : option (result A E)) : result (option A) E :=
  match o with
  | None => Ok None
  | Some (Ok a) => Ok (Some a)
  | Some (Err e) => Err e
  end.

(** ** State passing

    [ST S A] is code that reads and writes a state of type [S].  [let!] is
    sequencing, [let?] is sequencing with the early return of the [?]
    operator. *)

Definition ST (S A : Type) : Type := S → A * S.

Definition st_ret {S A} (a : A) : ST S A := λ s, (a, s).
Definition st_bind {S A B} (m : ST S A) (f : A → ST S B) : ST S B :=
  λ s, let '(a, s') := m s in f a s'.
Definition st_try {S A B E} (m : ST S (result A E)) (f : A → ST S (result B E)) :
    ST S (result B E) :=
  λ s, let '(r, s') := m s in
       match r with Ok a => f a s' | Err e => (Err e, s') end.
Definition st_get {S A} (f : S → A) : ST S A := λ s, (f s, s).
Definition st_modify {S} (f : S → S) : ST S unit := λ s, (tt, f s).

Declare Scope st_scope.
Delimit Scope st_scope with st.
Notation "'let!' x := m 'in' k" := (st_bind m (fun x => k))
  (at level 200, x pattern, m at level 100, k at level 200, right associativity) : st_scope.
Notation "'let?' x := m 'in' k" := (st_try m (fun x => k))
  (at level 200, x pattern, m at level 100, k at level 200, right associativity) : st_scope.
Notation "m ;;! k" := (st_bind m (fun _ => k))
  (at level 100, k at level 200, right associativity) : st_scope.
#[global] Open Scope st_scope.

(** [for x in l { body }]. *)
Fixpoint st_iter {S A} (f : A → ST S unit) (l : list A) : ST S unit :=
  match l with
  | [] => st_ret tt
  | a :: l => f a ;;! st_iter f l
  end.

(** [for x in l { if keep(x) { v.push(x) } }]. *)
Fixpoint st_filter {S A} (f : A → ST S bool) (l : list A) : ST S (list A) :=
  match l with
  | [] => st_ret []
  | a :: l =>
      let! b := f a in
      let! r := st_filter f l in
      st_ret (if b then a :: r else r)
  end.

(** ** Machine integers *)

Definition u32_max : Z := 2 ^ 32 - 1.
Definition u64_max : Z := 2 ^ 64 - 1.
Definition i32_max : Z := 2 ^ 31 - 1.

(** [x as u32] for an [i32], and wrapping [u32] arithmetic. *)
Definition as_u32 (z : Z) : Z := z mod 2 ^ 32.

(** [u64] arithmetic of a release build, which does not check for overflow. *)
Definition wrap64 (z : Z) : Z := z mod 2 ^ 64.

Lemma wrap64_small z : 0 ≤ z ≤ u64_max → wrap64 z = z.
Proof. intros Hz. apply Z.mod_small. unfold u64_max in Hz. lia. Qed.

(** [u64::saturating_mul]. *)
Definition saturating_mul64 (a b : Z) : Z := Z.min (a * b) u64_max.

(** ** Strings: the [str] methods the sources call

    A [str] is its UTF-8 bytes.  Every character the sources search for is
    ASCII, so byte-wise search agrees with Rust's. *)

Fixpoint contains_char (c : ascii) (s : string) : bool :=
  match s with
  | EmptyString => false
  | String d s => Ascii.eqb c d || contains_char c s
  end.

Fixpoint all_chars (p : ascii → bool) (s : string) : bool :=
  match s with
  | EmptyString => true
  | String d s => p d && all_chars p s
  end.

Fixpoint map_chars (f : ascii → ascii) (s : string) : string :=
  match s with
  | EmptyString => EmptyString
  | String d s => String (f d) (map_chars f s)
  end.

(** [str::split_once(c)]: split at the first occurrence. *)
Fixpoint split_once (c : ascii) (s : string) : option (string * string) :=
  match s with
  | EmptyString => None
  | String d s =>
      if Ascii.eqb c d then Some ("", s)
      else match split_once c s with
           | Some (a, b) => Some (String d a, b)
           | None => None
           end
  end.

(** [str::rsplit_once(c)]: split at the last occurrence. *)
Fixpoint rsplit_once (c : ascii) (s : string) : option (string * string) :=
  match s with
  | EmptyString => None
  | String d s =>
      match rsplit_once c s with
      | Some (a, b) => Some (String d a, b)
      | None => if Ascii.eqb c d then Some ("", s) else None
      end
  end.

(** [str::split(c)]. *)
Fixpoint split_char (c : ascii) (s : string) : list string :=
  match s with
  | EmptyString => [""]
  | String d s =>
      if Ascii.eqb c d then "" :: split_char c s
      else match split_char c s with
           | h :: t => String d h :: t
           | [] => [String d ""]
           end
  end.

Definition starts_with (p s : string) : bool := String.prefix p s.

Fixpoint ends_with_char (c : ascii) (s : string) : bool :=
  match s with
  | EmptyString => false
  | String d "" => Ascii.eqb c d
  | String _ s => ends_with_char c s
  end.

(** [str::ends_with(p)] for a string pattern. *)
Fixpoint ends_with (p s : string) : bool :=
  String.eqb s p || match s with EmptyString => false | String _ s => ends_with p s end.

Definition starts_with_char (c : ascii) (s : string) : bool :=
  match s with EmptyString => false | String d _ => Ascii.eqb c d end.

(** [str::contains(p)] and [str::find(p)] for a string pattern. *)
Fixpoint contains_str (p s : string) : bool :=
  String.prefix p s ||
  match s with EmptyString => false | String _ s => contains_str p s end.

(** The part of [s] up to and including the first occurrence of [p]. *)
Fixpoint through_str (p s : string) : option string :=
  if String.prefix p s then Some p
  else match s with
       | EmptyString => None
       | String d s => match through_str p s with
                       | Some a => Some (String d a)
                       | None => None
                       end
       end.

Definition str_len (s : string) : Z := Z.of_nat (String.length s).
Definition is_empty_str (s : string) : bool := match s with EmptyString => true | _ => false end.

Definition is_ascii (c : ascii) : bool := (N_of_ascii c <? 128)%N.
Definition is_upper (c : ascii) : bool := ((65 <=? N_of_ascii c) && (N_of_ascii c <=? 90))%N.
Definition is_lower (c : ascii) : bool := ((97 <=? N_of_ascii c) && (N_of_ascii c <=? 122))%N.
Definition is_digit (c : ascii) : bool := ((48 <=? N_of_ascii c) && (N_of_ascii c <=? 57))%N.
Definition is_alnum (c : ascii) : bool := is_upper c || is_lower c || is_digit c.
Definition ascii_lower (c : ascii) : ascii :=
  if is_upper c then ascii_of_N (N_of_ascii c + 32) else c.

(** [str::trim] on ASCII text: [White_Space] characters go at both ends. *)
Definition is_white (c : ascii) : bool :=
  let n := Z.of_N (N_of_ascii c) in (n =? 32) || ((9 <=? n) && (n <=? 13)).

Fixpoint trim_start (s : string) : string :=
  match s with
  | EmptyString => EmptyString
  | String c s' => if is_white c then trim_start s' else s
  end.

Fixpoint trim_end (s : string) : string :=
  match s with
  | EmptyString => EmptyString
  | String c s =>
      match trim_end s with
      | EmptyString => if is_white c then EmptyString else String c EmptyString
      | t => String c t
      end
  end.

Definition ascii_trim (s : string) : string := trim_end (trim_start s).

(** [str::strip_prefix]. *)
Fixpoint strip_prefix (p s : string) : option string :=
  match p, s with
  | EmptyString, _ => Some s
  | String c p, String d s => if Ascii.eqb c d then strip_prefix p s else None
  | String _ _, EmptyString => None
  end.

(** [Vec::join]. *)
Fixpoint join (sep : string) (l : list string) : string :=
  match l with
  | [] => ""
  | [s] => s
  | s :: l => s +:+ sep +:+ join sep l
  end.

(** Numbers in messages. *)
Definition show_Z (z : Z) : string := pretty z.
Definition show_nat (n : nat) : string := pretty (N.of_nat n).

#[global] Arguments Ascii.eqb : simpl never.
#[global] Arguments ascii_dec : simpl never.
#[global] Arguments Z.mul : simpl never.
#[global] Arguments Z.add : simpl never.

(** ** Automation *)

(** Case analysis on the innermost [match] or [if] of the goal. *)
Ltac case_goal :=
  match goal with
  | |- context [match ?x with _ => _ end] =>
      lazymatch x with
      | context [match _ with _ => _ end] => fail
      | _ => destruct x eqn:?
      end
  end.

(** The same in a hypothesis. *)
Ltac case_hyp H :=
  match type of H with
  | context [match ?x with _ => _ end] =>
      lazymatch x with
      | context [match _ with _ => _ end] => fail
      | _ => destruct x eqn:?
      end
  end.

(** Unfold the state monad. *)
Ltac run_st := unfold st_bind, st_try, st_ret, st_get, st_modify; simpl.
Tactic Notation "run_st" "in" hyp(H) :=
  unfold st_bind, st_try, st_ret, st_get, st_modify in H; simpl in H.

(** ** Generic lemmas *)

Create HintDb strs.

Lemma str_app_assoc (s t u : string) : (s +:+ t) +:+ u = s +:+ t +:+ u.
Proof.
  induction s as [|c s IH]; [done|].
  change ((String c s +:+ t) +:+ u) with (String c ((s +:+ t) +:+ u)). by rewrite IH.
Qed.

Lemma contains_char_app c s t :
  contains_char c (s +:+ t) = contains_char c s || contains_char c t.
Proof. induction s as [|d s IH]; [done|]. simpl. by rewrite IH, orb_assoc. Qed.

Lemma all_chars_app p s t :
  all_chars p (s +:+ t) = all_chars p s && all_chars p t.
Proof. induction s as [|d s IH]; [done|]. simpl. by rewrite IH, andb_assoc. Qed.

Lemma all_chars_impl (p q : ascii → bool) s :
  (∀ c, p c = true → q c = true) → all_chars p s = true → all_chars q s = true.
Proof.
  intros Hpq. induction s as [|d s IH]; [done|]. simpl.
  intros [? ?]%andb_prop. rewrite Hpq, IH; done.
Qed.

Lemma all_chars_not_contains (p : ascii → bool) c s :
  p c = false → all_chars p s = true → contains_char c s = false.
Proof.
  intros Hc. induction s as [|d s IH]; [done|]. simpl.
  intros [Hd Hs]%andb_prop. rewrite (IH Hs), orb_false_r.
  destruct (Ascii.eqb_spec c d); congruence.
Qed.

Lemma split_once_spec c s a b :
  split_once c s = Some (a, b) →
  s = a +:+ String c b ∧ contains_char c a = false.
Proof.
  revert a b. induction s as [|d s IH]; intros a b; [done|]. simpl.
  destruct (Ascii.eqb_spec c d) as [->|Hne].
  - intros [= <- <-]. done.
  - destruct (split_once c s) as [[a' b']|] eqn:E; [|done].
    intros [= <- <-]. destruct (IH _ _ eq_refl) as [-> Hc]. split; [done|].
    simpl. rewrite Hc. by destruct (Ascii.eqb_spec c d).
Qed.

Lemma split_once_None c s : split_once c s = None ↔ contains_char c s = false.
Proof.
  induction s as [|d s IH]; [done|]. simpl.
  destruct (Ascii.eqb_spec c d) as [->|Hne]; [done|]. simpl.
  rewrite <- IH. by destruct (split_once c s) as [[??]|].
Qed.

Lemma split_once_app c a b :
  contains_char c a = false → split_once c (a +:+ String c b) = Some (a, b).
Proof.
  induction a as [|d a IH]; simpl.
  - intros _. by rewrite Ascii.eqb_refl.
  - intros [Hd Ha]%orb_false_elim. by rewrite Hd, IH.
Qed.

Lemma ends_with_app s t : ends_with t (s +:+ t) = true.
Proof.
  induction s as [|c s IH].
  - change ("" +:+ t) with t. destruct t; cbn [ends_with]; by rewrite String.eqb_refl.
  - change (String c s +:+ t) with (String c (s +:+ t)). simpl. rewrite IH. apply orb_true_r.
Qed.

Lemma rsplit_once_None c s : rsplit_once c s = None ↔ contains_char c s = false.
Proof.
  induction s as [|d s IH]; [done|]. simpl.
  destruct (rsplit_once c s) as [[a b]|].
  - split; [done|]. intros [_ H]%orb_false_elim. by apply IH in H.
  - destruct IH as [IH _]. rewrite (IH eq_refl), orb_false_r.
    by destruct (Ascii.eqb c d).
Qed.

Lemma rsplit_once_spec c s a b :
  rsplit_once c s = Some (a, b) →
  s = a +:+ String c b ∧ contains_char c b = false.
Proof.
  revert a b. induction s as [|d s IH]; intros a b; [done|]. simpl.
  destruct (rsplit_once c s) as [[a' b']|] eqn:E.
  - intros [= <- <-]. by destruct (IH _ _ eq_refl) as [-> Hc].
  - destruct (Ascii.eqb_spec c d) as [->|Hne]; [|done].
    intros [= <- <-]. split; [done|]. by apply rsplit_once_None.
Qed.

Lemma rsplit_once_app c a b :
  contains_char c b = false → rsplit_once c (a +:+ String c b) = Some (a, b).
Proof.
  intros Hb. induction a as [|d a IH]; simpl.
  - apply rsplit_once_None in Hb as ->. by rewrite Ascii.eqb_refl.
  - change (String d a +:+ String c b) with (String d (a +:+ String c b)).
    simpl. by rewrite IH.
Qed.

Lemma str_app_nil s : s +:+ "" = s.
Proof. induction s as [|c s IH]; [done|]. change (String c s +:+ "") with (String c (s +:+ "")). by rewrite IH. Qed.

Lemma split_char_nonempty c s : split_char c s ≠ [].
Proof. destruct s as [|d s]; simpl; [done|]. destruct (Ascii.eqb c d); [done|]. by destruct (split_char c s). Qed.

Lemma split_char_app c a b : split_char c (a +:+ String c b) = split_char c a ++ split_char c b.
Proof.
  induction a as [|d a IH].
  - change ("" +:+ String c b) with (String c b). simpl. by rewrite Ascii.eqb_refl.
  - change (String d a +:+ String c b) with (String d (a +:+ String c b)). simpl. rewrite IH.
    destruct (Ascii.eqb c d); [done|]. destruct (split_char c a) eqn:E; [|done].
    by destruct (split_char_nonempty c a).
Qed.

Lemma split_char_none c a : contains_char c a = false → split_char c a = [a].
Proof.
  induction a as [|d a IH]; [done|]. simpl. intros [Hd Ha]%orb_false_elim. by rewrite Hd, IH.
Qed.

Lemma split_char_clean c d a :
  contains_char d a = false → Forall (λ l, contains_char d l = false) (split_char c a).
Proof.
  induction a as [|e a IH]; [by constructor|]. simpl. intros [He Ha]%orb_false_elim.
  specialize (IH Ha). destruct (Ascii.eqb c e); [by constructor|].
  inversion IH as [|x l Hx Hl]; constructor; simpl; try rewrite He; done.
Qed.

#[export] Hint Rewrite contains_char_app all_chars_app : strs.

Lemma result_mapM_Ok {A B E} (f : A → result B E) l bs :
  result_mapM f l = Ok bs ↔ Forall2 (λ a b, f a = Ok b) l bs.
Proof.
  revert bs. induction l as [|a l IH]; intros bs; simpl.
  - split; [intros [= <-]; constructor | by inversion 1].
  - destruct (f a) as [b|e] eqn:Ha; simpl.
    + destruct (result_mapM f l) as [bs'|e] eqn:Hl; simpl.
      * split.
        -- intros [= <-]. constructor; [done|]. by apply IH.
        -- inversion 1 as [|?? b' bs'' Hb Hbs]; subst.
           apply IH in Hbs. congruence.
      * split; [done|]. inversion 1 as [|????? Hbs]; subst.
        by apply IH in Hbs.
    + split; [done|]. inversion 1; congruence.
Qed.

Lemma st_filter_pure {S A} (f : A → ST S bool) (p : A → bool) l (s : S) :
  (∀ a s, f a s = (p a, s)) →
  st_filter f l s = (base.filter (λ a, p a = true) l, s).
Proof.
  intros Hf. induction l as [|a l IH]; [done|]. simpl.
  unfold st_bind, st_ret. rewrite Hf, IH.
  rewrite filter_cons. by destruct (p a).
Qed.

Lemma NoDup_map_eq {A B} (f : A → B) l x y :
  NoDup (map f l) → x ∈ l → y ∈ l → f x = f y → x = y.
Proof.
  intros Hnd Hx Hy Hf. induction l as [|a l IH]; [by apply not_elem_of_nil in Hx|].
  simpl in Hnd. apply NoDup_cons in Hnd as [Ha Hnd].
  apply elem_of_cons in Hx as [->|Hx], Hy as [->|Hy]; [done| | |by apply IH].
  - destruct Ha. rewrite Hf. apply list_elem_of_fmap. by exists y.
  - destruct Ha. rewrite <- Hf. apply list_elem_of_fmap. by exists x.
Qed.

Lemma as_u32_id z : 0 ≤ z ≤ u32_max → as_u32 z = z.
Proof. unfold as_u32, u32_max. intros. apply Z.mod_small. lia. Qed.

Lemma saturating_mul64_small a b :
  0 ≤ a * b ≤ u64_max → saturating_mul64 a b = a * b.
Proof. unfold saturating_mul64. lia. Qed.
