(* ===== verification/Order.v ===== *)
(** * Stable ordering

    [ORDER BY key] as the stores and the outbox use it: a stable insertion sort
    on an integer key, with the facts their theorems need. *)

From S2P Require Import Prelude.
From Stdlib Require Import Sorting.Sorted.

(** Ties keep the order of the list. *)
Fixpoint insert_by {A} (key : A → Z) (a : A) (l : list A) : list A :=
  match l with
  | [] => [a]
  | b :: l => if key a <? key b then a :: b :: l else b :: insert_by key a l
  end.
Definition order_by {A} (key : A → Z) (l : list A) : list A :=
  fold_left (λ acc a, insert_by key a acc) l [].

Section order.
Context {A : Type} (key : A → Z).

Definition key_sorted : list A → Prop := StronglySorted (λ a b, key a ≤ key b).

Lemma insert_by_perm a l : insert_by key a l ≡ₚ a :: l.
Proof.
  induction l as [|b l IH]; simpl; [done|]. destruct (key a <? key b); [done|].
  rewrite IH. constructor.
Qed.

Lemma insert_by_sorted a l : key_sorted l → key_sorted (insert_by key a l).
Proof.
  induction 1 as [|b l Hl IH Hb]; simpl; [repeat constructor|].
  destruct (key a <? key b) eqn:E.
  - repeat constructor; [done..|lia|]. eapply Forall_impl; [exact Hb|]. simpl. lia.
  - constructor; [exact IH|]. rewrite insert_by_perm. constructor; [lia|done].
Qed.

Lemma insert_by_stable a l k :
  key_sorted l →
  base.filter (λ x, key x = k) (insert_by key a l) = base.filter (λ x, key x = k) (l ++ [a]).
Proof.
  induction 1 as [|b l Hl IH Hb]; [done|]. cbn [insert_by app].
  destruct (key a <? key b) eqn:E; [|by rewrite !filter_cons, IH].
  rewrite !filter_cons, filter_app, filter_cons, filter_nil.
  assert (Hnil : k = key a → base.filter (λ x, key x = k) l = []).
  { intros ->. clear -Hb E. induction Hb; [done|]. rewrite filter_cons.
    case_decide; [lia|done]. }
  repeat case_decide; try lia; rewrite ?app_nil_r; try done. by rewrite Hnil.
Qed.

Lemma order_by_spec l acc :
  key_sorted acc →
  let l' := fold_left (λ acc a, insert_by key a acc) l acc in
  key_sorted l' ∧ l' ≡ₚ acc ++ l
  ∧ ∀ k, base.filter (λ x, key x = k) l' = base.filter (λ x, key x = k) (acc ++ l).
Proof.
  revert acc. induction l as [|a l IH]; intros acc Hs; simpl.
  - rewrite app_nil_r. by split_and!.
  - destruct (IH _ (insert_by_sorted a acc Hs)) as (H1 & H2 & H3). split_and!; [done| |].
    + rewrite H2, insert_by_perm. simpl. by rewrite Permutation_middle.
    + intros k. rewrite H3, filter_app, insert_by_stable by done.
      by rewrite <- filter_app, <- app_assoc.
Qed.

Lemma order_by_sorted l : key_sorted (order_by key l).
Proof. apply (order_by_spec l []). constructor. Qed.
Lemma order_by_perm l : order_by key l ≡ₚ l.
Proof. apply (order_by_spec l []). constructor. Qed.
Lemma order_by_stable l k :
  base.filter (λ x, key x = k) (order_by key l) = base.filter (λ x, key x = k) l.
Proof. apply (order_by_spec l []). constructor. Qed.

Lemma sorted_take_drop n l : key_sorted l → ∀ a b, a ∈ take n l → b ∈ drop n l → key a ≤ key b.
Proof.
  intros Hs. revert n. induction Hs as [|c l Hl IH Hc]; intros n a b.
  - rewrite take_nil. set_solver.
  - destruct n as [|n]; simpl; [set_solver|]. intros [->|Ha]%elem_of_cons Hb; [|by eapply IH].
    rewrite Forall_forall in Hc. apply Hc. rewrite <- (take_drop n l). apply elem_of_app. by right.
Qed.
End order.
