(* ===== verification/Json.v ===== *)
(** * JSON values and serde

    The data type behind [serde_json::Value] with the accessors the sources
    call, and the interface the generated [Serialize]/[Deserialize]
    implementations offer.  The derived code itself is not under [src/]: it is
    a class parameter, with its documented round trip as a law. *)

From S2P Require Import Prelude.

(** [serde_json::Number]. *)
Inductive json_num : Type :=
  | PosInt (n : Z)
  | NegInt (n : Z)
  | Float (repr : string).

(** [serde_json::Value]; an object is its key/value list. *)
Inductive json : Type :=
  | JNull
  | JBool (b : bool)
  | JNum (n : json_num)
  | JStr (s : string)
  | JArr (l : list json)
  | JObj (l : list (string * json)).

Fixpoint assoc {A} (k : string) (l : list (string * A)) : option A :=
  match l with
  | [] => None
  | (k', a) :: l => if String.eqb k k' then Some a else assoc k l
  end.

(** [Value::get(key)]. *)
Definition json_get (k : string) (v : json) : option json :=
  match v with JObj l => assoc k l | _ => None end.

Definition as_str (v : json) : option string :=
  match v with JStr s => Some s | _ => None end.
Definition as_bool (v : json) : option bool :=
  match v with JBool b => Some b | _ => None end.
Definition as_u64 (v : json) : option Z :=
  match v with JNum (PosInt n) => Some n | _ => None end.
Definition as_array (v : json) : option (list json) :=
  match v with JArr l => Some l | _ => None end.
Definition is_null (v : json) : bool :=
  match v with JNull => true | _ => false end.

(** The derived (de)serialisers: [serde_json::to_value] and [from_value]. *)
Class Serialize (A : Type) := to_value : A → result json string.
Class Deserialize (A : Type) := from_value : json → result A string.

(** What a type with both derives promises: a value that was written is read
    back unchanged. *)
Class SerdeRoundTrip (A : Type) `{Serialize A, Deserialize A} :=
  from_to_value : ∀ (a : A) (v : json), to_value a = Ok v → from_value v = Ok a.

(** serde's [Vec<T>]: a JSON array of the elements. *)
#[export] Instance serialize_vec {A} `{Serialize A} : Serialize (list A) :=
  λ l, result_map JArr (result_mapM to_value l).
#[export] Instance deserialize_vec {A} `{Deserialize A} : Deserialize (list A) :=
  λ v, match v with
       | JArr l => result_mapM from_value l
       | _ => Err "invalid type: expected a sequence"
       end.

#[export] Instance vec_round_trip {A} `{SerdeRoundTrip A} : SerdeRoundTrip (list A).
Proof.
  intros l v. unfold to_value, serialize_vec.
  destruct (result_mapM to_value l) as [vs|e] eqn:E; [|done].
  intros [= <-]. change (result_mapM from_value vs = Ok l).
  rewrite result_mapM_Ok. apply result_mapM_Ok in E.
  induction E; constructor; [|done]. by apply from_to_value.
Qed.

Lemma assoc_app {A} k (l1 l2 : list (string * A)) :
  assoc k (l1 ++ l2) = match assoc k l1 with Some a => Some a | None => assoc k l2 end.
Proof.
  induction l1 as [|[k' a] l1 IH]; [done|]. simpl. by destruct (String.eqb k k').
Qed.
