(* ===== verification/AppErr.v ===== *)
(** * The shared error type ([crates/common/src/error.rs])

    [AppError] with its constructors, the permanence test every retry decision
    rests on, and the [Display] text that is stored in [last_error]. *)

From S2P Require Import Prelude.

Module MailerKind.
Inductive MailerKind : Type := Transient | Permanent.
End MailerKind.
Notation MailerKind := MailerKind.MailerKind.

Module AppError.
(** [sqlx::Error] and [serde_json::Error] are represented by their text. *)
Inductive AppError : Type :=
  | Database (e : string)
  | Mailer (message : string) (kind : MailerKind)
  | Template (msg : string)
  | RateLimited (msg : string)
  | Blocked (msg : string)
  | Queue (msg : string)
  | Deserialize (e : string)
  | NotFound (msg : string)
  | Duplicate (msg : string)
  | UnknownStatus (msg : string).
End AppError.
Notation AppError := AppError.AppError.

Definition permanent_mailer (msg : string) : AppError :=
  AppError.Mailer msg MailerKind.Permanent.

Definition transient_mailer (msg : string) : AppError :=
  AppError.Mailer msg MailerKind.Transient.

Definition is_permanent_mailer (e : AppError) : bool :=
  match e with
  | AppError.Mailer _ MailerKind.Permanent => true
  | _ => false
  end.

(** The [#[error("...")]] attributes. *)
Definition app_error_to_string (e : AppError) : string :=
  match e with
  | AppError.Database e => "database error: " +:+ e
  | AppError.Mailer m _ => "mailer error: " +:+ m
  | AppError.Template m => "template error: " +:+ m
  | AppError.RateLimited m => "rate limited by mail provider: " +:+ m
  | AppError.Blocked m => "recipient blocked: " +:+ m
  | AppError.Queue m => "queue error: " +:+ m
  | AppError.Deserialize e => "deserialization error: " +:+ e
  | AppError.NotFound m => "not found: " +:+ m
  | AppError.Duplicate m => "duplicate event (already processed): " +:+ m
  | AppError.UnknownStatus m => "unknown email status value in database: '" +:+ m +:+ "'"
  end.

(** [is_retryable] of [crates/consumer/src/processor.rs]. *)
Definition is_retryable (err : AppError) : bool :=
  match err with
  | AppError.Duplicate _ | AppError.NotFound _ | AppError.Template _
  | AppError.Blocked _ => false
  | AppError.UnknownStatus _ => false
  | _ => if is_permanent_mailer err then false else true
  end.

(** [error_reason_label] of [crates/consumer/src/processor.rs]. *)
Definition error_reason_label (err : AppError) : string :=
  match err with
  | AppError.RateLimited _ => "rate_limited"
  | AppError.Mailer _ MailerKind.Permanent => "permanent"
  | AppError.Mailer _ _ => "transient"
  | AppError.Blocked _ => "blocked"
  | AppError.Database _ => "database"
  | AppError.Template _ => "template"
  | AppError.Queue _ => "queue"
  | AppError.NotFound _ => "not_found"
  | AppError.Deserialize _ => "deserialize"
  | AppError.UnknownStatus _ => "unknown_status"
  | AppError.Duplicate _ => "other"
  end.

#[export] Instance MailerKind_eq_dec : EqDecision MailerKind.
Proof. solve_decision. Defined.
#[export] Instance AppError_eq_dec : EqDecision AppError.
Proof. solve_decision. Defined.

Lemma permanent_not_retryable e : is_permanent_mailer e = true → is_retryable e = false.
Proof. by destruct e as [|? []| | | | | | | |]. Qed.

Lemma rate_limited_retryable m : is_retryable (AppError.RateLimited m) = true.
Proof. done. Qed.
