(* ===== verification/EmailValidation.v ===== *)
(** * Address validation ([crates/common/src/email_validation.rs])

    The boolean checker as the code computes it, a declarative description of
    the accepted addresses, and the proof that the two agree.  Characters are
    tested byte by byte: every byte of a non-ASCII character is at least 128
    and fails the same tests the character fails in Rust. *)

From S2P Require Import Prelude.

(** The punctuation of the [matches!] in [is_valid_local]. *)
Definition local_punct (c : ascii) : bool :=
  contains_char c "!#$%&'*+/=?^_`{|}~-.".

Definition local_char (c : ascii) : bool := is_alnum c || local_punct c.

Definition is_valid_local (local : string) : bool :=
  if is_empty_str local || (64 <? str_len local) then false
  else if starts_with_char "034" local || ends_with_char "034" local then false
  else if starts_with_char "." local || ends_with_char "." local || contains_str ".." local
  then false
  else all_chars local_char local.

Definition domain_char (c : ascii) : bool := is_alnum c || Ascii.eqb c "-".

Definition is_valid_label (label : string) : bool :=
  negb (is_empty_str label)
  && (str_len label <=? 63)
  && negb (starts_with_char "-" label)
  && negb (ends_with_char "-" label)
  && all_chars domain_char label.

Definition is_valid_domain (domain : string) : bool :=
  if is_empty_str domain || (253 <? str_len domain) then false
  else if starts_with_char "[" domain then false
  else
    let labels := split_char "." domain in
    if (length labels =? 1)%nat && negb (String.eqb domain "localhost") then false
    else forallb is_valid_label labels.

Definition is_valid_email (addr : string) : bool :=
  if 254 <? str_len addr then false
  else match split_once "@" addr with
       | None => false
       | Some (local, domain) => is_valid_local local && is_valid_domain domain
       end.

(** ** Reference description *)

Record local_wf (l : string) : Prop := {
  lw_len : 1 ≤ str_len l ≤ 64;
  lw_chars : all_chars local_char l = true;
  lw_first : starts_with_char "." l = false;
  lw_last : ends_with_char "." l = false;
  lw_dots : contains_str ".." l = false;
}.

Record label_wf (l : string) : Prop := {
  bw_len : 1 ≤ str_len l ≤ 63;
  bw_chars : all_chars domain_char l = true;
  bw_first : starts_with_char "-" l = false;
  bw_last : ends_with_char "-" l = false;
}.

Record domain_wf (d : string) : Prop := {
  dw_len : str_len d ≤ 253;
  dw_labels : Forall label_wf (split_char "." d);
  dw_tld : (1 < length (split_char "." d))%nat ∨ d = "localhost";
}.

Definition email_wf (s : string) : Prop :=
  str_len s ≤ 254 ∧ ∃ l d, s = l +:+ "@" +:+ d ∧ local_wf l ∧ domain_wf d.

(** ** Lemmas *)

Lemma str_len_cons c s : str_len (String c s) = 1 + str_len s.
Proof. unfold str_len. simpl. lia. Qed.

Lemma str_len_nonneg s : 0 ≤ str_len s.
Proof. unfold str_len. lia. Qed.

Lemma is_empty_str_len s : is_empty_str s = false ↔ 1 ≤ str_len s.
Proof.
  destruct s as [|c s]; simpl; [done|]. rewrite str_len_cons.
  pose proof (str_len_nonneg s). split; [lia|done].
Qed.

Lemma starts_with_char_false (p : ascii → bool) c s :
  p c = false → all_chars p s = true → starts_with_char c s = false.
Proof.
  destruct s as [|d s]; [done|]. simpl. intros Hc [Hd _]%andb_prop.
  destruct (Ascii.eqb_spec c d); congruence.
Qed.

Lemma ends_with_char_false (p : ascii → bool) c s :
  p c = false → all_chars p s = true → ends_with_char c s = false.
Proof.
  intros Hc. induction s as [|d s IH]; [done|]. simpl. intros [Hd Hs]%andb_prop.
  destruct s as [|e s]; [|by apply IH].
  destruct (Ascii.eqb_spec c d); congruence.
Qed.

Lemma is_valid_local_iff l : is_valid_local l = true ↔ local_wf l.
Proof.
  unfold is_valid_local. split.
  - destruct (is_empty_str l) eqn:E1; [done|]. apply is_empty_str_len in E1.
    destruct (64 <? str_len l) eqn:E2; [done|]. apply Z.ltb_ge in E2. simpl.
    destruct (_ || _) eqn:E3; [done|].
    destruct (starts_with_char "." l || ends_with_char "." l || _) eqn:E4; [done|].
    apply orb_false_elim in E4 as [[E4 E5]%orb_false_elim E6].
    intros Hc. by constructor.
  - intros [Hlen Hc H1 H2 H3].
    destruct (is_empty_str l) eqn:E1.
    { destruct l; [|done]. unfold str_len in Hlen. simpl in Hlen. lia. }
    replace (64 <? str_len l) with false by (symmetry; apply Z.ltb_ge; lia). simpl.
    rewrite (starts_with_char_false local_char _ l), (ends_with_char_false local_char _ l) by done.
    by rewrite H1, H2, H3.
Qed.

Lemma is_valid_label_iff l : is_valid_label l = true ↔ label_wf l.
Proof.
  unfold is_valid_label. rewrite !andb_true_iff, !negb_true_iff, is_empty_str_len, Z.leb_le.
  split; [intros ((((?&?)&?)&?)&?); constructor; auto | intros [[] ? ? ?]; auto].
Qed.

Lemma split_char_chars c (p : ascii → bool) s :
  Forall (λ l, all_chars p l = true) (split_char c s) →
  all_chars (λ d, p d || Ascii.eqb d c) s = true.
Proof.
  induction s as [|d s IH]; [done|]. simpl. rewrite (Ascii.eqb_sym d c).
  destruct (Ascii.eqb c d); simpl.
  - intros [_ H]%Forall_cons. by rewrite orb_true_r, IH.
  - destruct (split_char c s) as [|h t] eqn:E; [by apply split_char_nonempty in E|].
    intros [[Hd Hh]%andb_prop Ht]%Forall_cons. rewrite Hd. simpl.
    apply IH. by constructor.
Qed.

Lemma domain_wf_chars d :
  domain_wf d → all_chars (λ c, domain_char c || Ascii.eqb c ".") d = true.
Proof.
  intros [_ H _]. apply split_char_chars. eapply Forall_impl; [done|].
  by intros ? [].
Qed.

Lemma is_valid_domain_iff d : is_valid_domain d = true ↔ domain_wf d.
Proof.
  unfold is_valid_domain. split.
  - destruct (is_empty_str d) eqn:E1; [done|].
    destruct (253 <? str_len d) eqn:E2; [done|]. apply Z.ltb_ge in E2. simpl.
    destruct (starts_with_char "[" d); [done|].
    destruct (_ && _) eqn:E3; [done|]. intros Hl.
    constructor; [done| |].
    + apply Forall_forall. intros l Hin. apply is_valid_label_iff.
      rewrite forallb_forall in Hl. apply Hl. by apply list_elem_of_In.
    + apply andb_false_iff in E3 as [E3|E3].
      * left. apply Nat.eqb_neq in E3.
        pose proof (split_char_nonempty "." d).
        destruct (split_char "." d); simpl in *; [done|lia].
      * right. apply negb_false_iff in E3. by apply String.eqb_eq.
  - intros Hd. pose proof (domain_wf_chars d Hd) as Hc. destruct Hd as [Hlen Hl Ht].
    destruct (is_empty_str d) eqn:E1.
    { destruct d; [|done]. simpl in Hl. apply Forall_cons in Hl as [[[Hl _] _ _ _] _].
      unfold str_len in Hl. simpl in Hl. lia. }
    replace (253 <? str_len d) with false by (symmetry; apply Z.ltb_ge; lia). simpl.
    rewrite (starts_with_char_false (λ c, domain_char c || Ascii.eqb c ".") "[" d) by done.
    replace ((length (split_char "." d) =? 1)%nat && negb (d =? "localhost")%string) with false.
    + rewrite forallb_forall. intros l Hin%list_elem_of_In.
      apply is_valid_label_iff. revert l Hin. by apply Forall_forall.
    + symmetry. destruct Ht as [Ht| ->]; [|done].
      apply andb_false_iff. left. apply Nat.eqb_neq. lia.
Qed.

Lemma is_valid_email_spec s : is_valid_email s = true ↔ email_wf s.
Proof.
  unfold is_valid_email, email_wf. split.
  - destruct (254 <? str_len s) eqn:E1; [done|]. apply Z.ltb_ge in E1.
    destruct (split_once "@" s) as [[l d]|] eqn:E2; [|done].
    apply split_once_spec in E2 as [-> _].
    intros [Hl Hd]%andb_prop. split; [done|]. exists l, d.
    by rewrite <- is_valid_local_iff, <- is_valid_domain_iff.
  - intros (Hlen & l & d & -> & Hl & Hd).
    replace (254 <? _) with false by (symmetry; apply Z.ltb_ge; done).
    change ("@" +:+ d) with (String "@" d). rewrite split_once_app.
    + rewrite (proj2 (is_valid_local_iff l) Hl). by apply is_valid_domain_iff.
    + destruct Hl. by apply (all_chars_not_contains local_char).
Qed.

(** C38: the checker accepts exactly the well-formed addresses. *)
Theorem is_valid_email_iff s : is_valid_email s = true ↔ email_wf s.
Proof. apply is_valid_email_spec. Qed.

Fixpoint count_char (c : ascii) (s : string) : nat :=
  match s with
  | EmptyString => 0
  | String d s => (if Ascii.eqb c d then 1 else 0) + count_char c s
  end%nat.

Lemma count_char_app c s t : count_char c (s +:+ t) = (count_char c s + count_char c t)%nat.
Proof. induction s as [|d s IH]; [done|]. simpl. rewrite IH. lia. Qed.

Lemma count_char_0 c s : contains_char c s = false → count_char c s = 0%nat.
Proof.
  induction s as [|d s IH]; [done|]. simpl. intros [Hd Hs]%orb_false_elim.
  by rewrite Hd, IH.
Qed.

Lemma email_wf_at s : email_wf s → count_char "@" s = 1%nat.
Proof.
  intros (_ & l & d & -> & [_ Hl _ _ _] & Hd%domain_wf_chars).
  rewrite !count_char_app.
  rewrite (count_char_0 _ l), (count_char_0 _ d); [done| |].
  - by apply (all_chars_not_contains _ "@" _ eq_refl Hd).
  - by apply (all_chars_not_contains local_char).
Qed.

Lemma is_alnum_ascii c : is_alnum c = true → is_ascii c = true.
Proof.
  unfold is_alnum, is_upper, is_lower, is_digit, is_ascii.
  intros H. apply N.ltb_lt.
  repeat (apply orb_prop in H as [H|H]); apply andb_prop in H as [_ H%N.leb_le]; lia.
Qed.

Lemma contains_char_ascii c s :
  all_chars is_ascii s = true → contains_char c s = true → is_ascii c = true.
Proof.
  induction s as [|d s IH]; [done|]. simpl. intros [Hd Hs]%andb_prop [Hc|Hc]%orb_prop; [|auto].
  apply Ascii.eqb_eq in Hc. congruence.
Qed.

Lemma email_wf_ascii s : email_wf s → all_chars is_ascii s = true.
Proof.
  intros (_ & l & d & -> & [_ Hl _ _ _] & Hd%domain_wf_chars).
  rewrite !all_chars_app. rewrite !andb_true_iff. split_and!; [|done|].
  - eapply all_chars_impl, Hl. intros c [H|H]%orb_prop; [by apply is_alnum_ascii|].
    by eapply contains_char_ascii, H.
  - eapply all_chars_impl, Hd. intros c [[H|H]%orb_prop|H]%orb_prop.
    + by apply is_alnum_ascii.
    + by apply Ascii.eqb_eq in H as ->.
    + by apply Ascii.eqb_eq in H as ->.
Qed.

(** An accepted address has exactly one [@] and no byte outside ASCII. *)
Theorem valid_email_shape s :
  is_valid_email s = true → count_char "@" s = 1%nat ∧ all_chars is_ascii s = true.
Proof.
  intros H%is_valid_email_spec. split; [by apply email_wf_at | by apply email_wf_ascii].
Qed.

Lemma valid_email_shape_witness :
  count_char "@" "user+tag@mail.example.com" = 1%nat
  ∧ all_chars is_ascii "user+tag@mail.example.com" = true.
Proof. apply valid_email_shape. vm_compute. reflexivity. Defined.

(** The unit tests of the source file, re-run on the model. *)
Example accepts_localhost : is_valid_email "postmaster@localhost" = true.
Proof. reflexivity. Qed.
Example rejects_single_label : is_valid_email "user@intranet" = false.
Proof. reflexivity. Qed.
Example rejects_consecutive_dots : is_valid_email "us..er@example.com" = false.
Proof. reflexivity. Qed.
Example rejects_ip_literal : is_valid_email "user@[192.168.1.1]" = false.
Proof. reflexivity. Qed.
Example rejects_leading_hyphen : is_valid_email "user@-example.com" = false.
Proof. reflexivity. Qed.
