(* ===== verification/Event.v ===== *)
(** * Events, delivery rows and messages

    The shared data types: the event envelope and its email options
    ([crates/common/src/event.rs]), the delivery-log views
    ([crates/common/src/log.rs]) and the rendered message
    ([crates/mailer/src/message.rs]), with the operations defined on them. *)

From S2P Require Import Prelude Json AppErr.

(** [uuid::Uuid]: its 128 bits.  [DateTime<Utc>]: nanoseconds since the epoch. *)
Notation Uuid := N (only parsing).
Notation DateTime := Z (only parsing).

(** [TimeDelta::num_seconds] and [num_milliseconds] truncate towards zero. *)
Definition num_seconds (d : Z) : Z := Z.quot d 1000000000.
Definition num_milliseconds (d : Z) : Z := Z.quot d 1000000.

(** ** Modes *)

Module SendMode.
Inductive SendMode : Type := Individual | Group.
End SendMode.
Notation SendMode := SendMode.SendMode.

Module GroupRetryMode.
Inductive GroupRetryMode : Type := Whole | Individual.
End GroupRetryMode.
Notation GroupRetryMode := GroupRetryMode.GroupRetryMode.

Module RetryPolicy.
Inductive RetryPolicy : Type := Retry | NoRetry.
End RetryPolicy.
Notation RetryPolicy := RetryPolicy.RetryPolicy.

Definition send_mode_default : SendMode := SendMode.Individual.
Definition group_retry_mode_default : GroupRetryMode := GroupRetryMode.Whole.
Definition retry_policy_default : RetryPolicy := RetryPolicy.Retry.

Definition send_mode_as_str (m : SendMode) : string :=
  match m with SendMode.Individual => "individual" | SendMode.Group => "group" end.

Definition group_retry_mode_as_str (m : GroupRetryMode) : string :=
  match m with GroupRetryMode.Whole => "whole" | GroupRetryMode.Individual => "individual" end.

Definition group_retry_mode_try_from (s : string) : result GroupRetryMode AppError :=
  if String.eqb s "whole" then Ok GroupRetryMode.Whole
  else if String.eqb s "individual" then Ok GroupRetryMode.Individual
  else Err (AppError.UnknownStatus ("unknown group_retry_mode: " +:+ s)).

(** ** Recipients, attachments, options, events *)

Record Recipient : Type := mkRecipient { r_email : string; r_name : option string }.

Record FromOverride : Type := mkFromOverride { fo_email : string; fo_name : option string }.

Record Metadata : Type := mkMetadata { md_source : option string }.

Record AttachmentRef : Type := mkAttachmentRef {
  ar_url : string;
  ar_filename : string;
  ar_content_type : string;
  ar_fetch_token : option string;
  ar_max_age_secs : option Z;
}.

Record EmailOptions : Type := mkEmailOptions {
  eo_send_mode : SendMode;
  eo_group_retry_mode : GroupRetryMode;
  eo_retry_policy : RetryPolicy;
  eo_recipients : list Recipient;
  eo_cc : list Recipient;
  eo_bcc : list Recipient;
  eo_from_override : option FromOverride;
  eo_attachments : list AttachmentRef;
  eo_sender_account : option string;
  eo_send_at : option DateTime;
  eo_priority : option Z;
}.

Record ChannelOverrides : Type := mkChannelOverrides { co_email : option EmailOptions }.

Record NotificationEvent : Type := mkNotificationEvent {
  ne_event_id : Uuid;
  ne_timestamp : DateTime;
  ne_event_type : string;
  ne_payload : json;
  ne_metadata : Metadata;
  ne_channel_overrides : ChannelOverrides;
}.

(** The legacy flat envelope. *)
Record EmailEvent : Type := mkEmailEvent {
  ee_event_id : Uuid;
  ee_timestamp : DateTime;
  ee_event_type : string;
  ee_recipients : list Recipient;
  ee_payload : json;
  ee_from_override : option FromOverride;
  ee_metadata : Metadata;
  ee_cc : list Recipient;
  ee_bcc : list Recipient;
  ee_attachments : list AttachmentRef;
  ee_sender_account : option string;
}.

Definition into_notification_event (e : EmailEvent) : NotificationEvent :=
  {| ne_event_id := ee_event_id e;
     ne_timestamp := ee_timestamp e;
     ne_event_type := ee_event_type e;
     ne_payload := ee_payload e;
     ne_metadata := ee_metadata e;
     ne_channel_overrides := {|
       co_email := Some {|
         eo_recipients := ee_recipients e;
         eo_cc := ee_cc e;
         eo_bcc := ee_bcc e;
         eo_from_override := ee_from_override e;
         eo_attachments := ee_attachments e;
         eo_sender_account := ee_sender_account e;
         eo_send_mode := SendMode.Individual;
         eo_group_retry_mode := GroupRetryMode.Whole;
         eo_retry_policy := retry_policy_default;
         eo_send_at := None;
         eo_priority := None |} |} |}.

(** The visitor of [deserialize_recipients]: an array is a list, an object a
    one-element list, anything else (null included) an error. *)
Definition deserialize_recipients `{Deserialize Recipient} (v : json) :
    result (list Recipient) string :=
  match v with
  | JArr l => result_mapM from_value l
  | JObj _ => result_map (λ r, [r]) (from_value v)
  | _ => Err "expected a recipients array or a single recipient object"
  end.

(** [AttachmentRef::validate]. *)
Definition attachment_age (event_timestamp check_time : DateTime) : Z :=
  Z.max (num_seconds (check_time - event_timestamp)) 0.

Definition attachment_validate (a : AttachmentRef) (event_timestamp check_time : DateTime) :
    result unit string :=
  if is_empty_str (ar_url a) then Err "permanent: attachment url must not be empty"
  else if negb (starts_with "http://" (ar_url a)) && negb (starts_with "https://" (ar_url a))
  then Err ("permanent: attachment url '" +:+ ar_url a +:+ "' must start with http:// or https://")
  else if is_empty_str (ar_filename a) then Err "permanent: attachment filename must not be empty"
  else if contains_char "/" (ar_filename a) || contains_char "\" (ar_filename a)
  then Err ("permanent: attachment filename '" +:+ ar_filename a
            +:+ "' must not contain path separators")
  else if negb (contains_char "/" (ar_content_type a))
  then Err ("permanent: attachment content_type '" +:+ ar_content_type a
            +:+ "' is not a valid MIME type")
  else match ar_max_age_secs a with
       | Some max_age =>
           let age := attachment_age event_timestamp check_time in
           if max_age <? age
           then Err ("permanent: attachment '" +:+ ar_filename a
                     +:+ "' URL has expired (max_age_secs=" +:+ show_Z max_age
                     +:+ ", age=" +:+ show_Z age +:+ "s)")
           else Ok tt
       | None => Ok tt
       end.

(** ** Delivery status and delivery-log views *)

Module NotificationStatus.
Inductive NotificationStatus : Type := Pending | Sent | Failed | Blocked | Skipped.
End NotificationStatus.
Notation NotificationStatus := NotificationStatus.NotificationStatus.

Definition status_as_str (s : NotificationStatus) : string :=
  match s with
  | NotificationStatus.Pending => "PENDING"
  | NotificationStatus.Sent => "SENT"
  | NotificationStatus.Failed => "FAILED"
  | NotificationStatus.Blocked => "BLOCKED"
  | NotificationStatus.Skipped => "SKIPPED"
  end.

Definition status_try_from (s : string) : result NotificationStatus AppError :=
  if String.eqb s "PENDING" then Ok NotificationStatus.Pending
  else if String.eqb s "SENT" then Ok NotificationStatus.Sent
  else if String.eqb s "FAILED" then Ok NotificationStatus.Failed
  else if String.eqb s "BLOCKED" then Ok NotificationStatus.Blocked
  else if String.eqb s "SKIPPED" then Ok NotificationStatus.Skipped
  else Err (AppError.UnknownStatus s).

Record NotificationLogRow : Type := mkNotificationLogRow {
  nr_id : Uuid;
  nr_event_id : Uuid;
  nr_event_type : string;
  nr_channel : string;
  nr_recipient_id : string;
  nr_status : NotificationStatus;
  nr_retry_count : Z;
  nr_total_attempts : Z;
  nr_last_error : option string;
  nr_payload : option json;
  nr_event_timestamp : option DateTime;
  nr_created_at : DateTime;
  nr_updated_at : DateTime;
}.

Record EmailDeliveryDetail : Type := mkEmailDeliveryDetail {
  ed_recipient_email : string;
  ed_recipient_name : option string;
  ed_from_override : option json;
  ed_sender_account : option string;
  ed_send_mode : option string;
  ed_group_retry_mode : option string;
  ed_attachments : option json;
  ed_cc : option json;
  ed_bcc : option json;
  ed_to_recipients : option json;
}.

Record NotificationLog : Type := mkNotificationLog {
  nl_id : Uuid;
  nl_event_id : Uuid;
  nl_event_type : string;
  nl_channel : string;
  nl_status : NotificationStatus;
  nl_retry_count : Z;
  nl_total_attempts : Z;
  nl_last_error : option string;
  nl_payload : option json;
  nl_event_timestamp : option DateTime;
  nl_created_at : DateTime;
  nl_updated_at : DateTime;
  nl_recipient_email : string;
  nl_recipient_name : option string;
  nl_from_override : option json;
  nl_sender_account : option string;
  nl_send_mode : option string;
  nl_group_retry_mode : option string;
  nl_attachments : option json;
  nl_cc : option json;
  nl_bcc : option json;
  nl_to_recipients : option json;
}.

Definition core (l : NotificationLog) : NotificationLogRow :=
  {| nr_id := nl_id l; nr_event_id := nl_event_id l; nr_event_type := nl_event_type l;
     nr_channel := nl_channel l; nr_recipient_id := nl_recipient_email l;
     nr_status := nl_status l; nr_retry_count := nl_retry_count l;
     nr_total_attempts := nl_total_attempts l; nr_last_error := nl_last_error l;
     nr_payload := nl_payload l; nr_event_timestamp := nl_event_timestamp l;
     nr_created_at := nl_created_at l; nr_updated_at := nl_updated_at l |}.

Definition email_detail (l : NotificationLog) : EmailDeliveryDetail :=
  {| ed_recipient_email := nl_recipient_email l; ed_recipient_name := nl_recipient_name l;
     ed_from_override := nl_from_override l; ed_sender_account := nl_sender_account l;
     ed_send_mode := nl_send_mode l; ed_group_retry_mode := nl_group_retry_mode l;
     ed_attachments := nl_attachments l; ed_cc := nl_cc l; ed_bcc := nl_bcc l;
     ed_to_recipients := nl_to_recipients l |}.

(** ** Messages handed to a sender *)

Record MailboxRef : Type := mkMailboxRef { mb_email : string; mb_name : option string }.

Record ResolvedAttachment : Type := mkResolvedAttachment {
  ra_filename : string;
  ra_content_type : string;
  ra_data : list Byte.byte;
}.

Record EmailMessage : Type := mkEmailMessage {
  em_event_id : Uuid;
  em_to_email : string;
  em_to_name : option string;
  em_to_extra : list MailboxRef;
  em_subject : string;
  em_body_html : string;
  em_body_text : string;
  em_from_email_override : option string;
  em_from_name_override : option string;
  em_attachments : list ResolvedAttachment;
  em_cc : list MailboxRef;
  em_bcc : list MailboxRef;
}.

(** The generated and third-party codecs of the envelope's field types, chrono's
    text of a date, and [serde_json::to_vec] of a whole event. *)
Class WireCodec : Type := {
  de_recipient :: Deserialize Recipient;
  de_from_override :: Deserialize FromOverride;
  de_attachment :: Deserialize AttachmentRef;
  de_send_mode :: Deserialize SendMode;
  de_group_retry_mode :: Deserialize GroupRetryMode;
  de_metadata :: Deserialize Metadata;
  de_datetime : json → result DateTime string;
  rfc3339 : DateTime → string;
  encode_event : NotificationEvent → result string string;
}.

#[export] Instance SendMode_eq_dec : EqDecision SendMode.
Proof. solve_decision. Defined.
#[export] Instance GroupRetryMode_eq_dec : EqDecision GroupRetryMode.
Proof. solve_decision. Defined.
#[export] Instance RetryPolicy_eq_dec : EqDecision RetryPolicy.
Proof. solve_decision. Defined.
#[export] Instance NotificationStatus_eq_dec : EqDecision NotificationStatus.
Proof. solve_decision. Defined.

(** ** Properties *)

Lemma status_try_from_spec s st :
  status_try_from s = Ok st ↔ s = status_as_str st.
Proof.
  split.
  - unfold status_try_from. repeat case_match; intros; simplify_eq;
      by match goal with H : String.eqb _ _ = true |- _ => apply String.eqb_eq in H end.
  - intros ->. by destruct st.
Qed.

Lemma status_as_str_inj s1 s2 : status_as_str s1 = status_as_str s2 → s1 = s2.
Proof. by destruct s1, s2. Qed.

Lemma group_retry_mode_round_trip m :
  group_retry_mode_try_from (group_retry_mode_as_str m) = Ok m.
Proof. by destruct m. Qed.

(** What a reference must satisfy to be fetched. *)
Definition attachment_ok (a : AttachmentRef) (event_timestamp check_time : DateTime) : Prop :=
  (starts_with "http://" (ar_url a) = true ∨ starts_with "https://" (ar_url a) = true)
  ∧ ar_filename a ≠ ""
  ∧ contains_char "/" (ar_filename a) = false
  ∧ contains_char "\" (ar_filename a) = false
  ∧ contains_char "/" (ar_content_type a) = true
  ∧ (∀ m, ar_max_age_secs a = Some m → attachment_age event_timestamp check_time ≤ m).

Lemma is_empty_str_true s : is_empty_str s = true ↔ s = "".
Proof. by destruct s. Qed.

(** Validation accepts exactly the references with an http(s) URL, a plain
    file name, a MIME-shaped type and an age within [max_age_secs]; a check time
    before the event counts as age zero. *)
Theorem attachment_validate_iff a t0 t1 :
  attachment_validate a t0 t1 = Ok tt ↔ attachment_ok a t0 t1.
Proof.
  unfold attachment_validate, attachment_ok. split.
  - destruct (is_empty_str (ar_url a)) eqn:E0; [done|].
    destruct (negb _ && negb _) eqn:E1; [done|].
    destruct (is_empty_str (ar_filename a)) eqn:E2; [done|].
    destruct (_ || _) eqn:E3; [done|].
    destruct (contains_char "/" (ar_content_type a)); [|done]. simpl. intros H.
    apply orb_false_elim in E3 as [? ?].
    split_and!; [|by intros He; rewrite He in E2|done..|].
    + destruct (starts_with "http://" _); [by left|].
      destruct (starts_with "https://" _); [by right|done].
    + intros m Hm. rewrite Hm in H.
      destruct (m <? attachment_age t0 t1) eqn:E4; [done|]. by apply Z.ltb_ge.
  - intros (Hurl & Hf & H1 & H2 & H3 & Hage).
    destruct (is_empty_str (ar_url a)) eqn:E0.
    { apply is_empty_str_true in E0. rewrite E0 in Hurl. by destruct Hurl. }
    destruct (negb (starts_with "http://" _) && _) eqn:E1.
    { apply andb_prop in E1 as [E1%negb_true_iff E1'%negb_true_iff]. destruct Hurl; congruence. }
    destruct (is_empty_str (ar_filename a)) eqn:E2.
    { by apply is_empty_str_true in E2. }
    rewrite H1, H2, H3. simpl.
    destruct (ar_max_age_secs a) as [m|]; [|done].
    replace (m <? _) with false; [done|]. symmetry. apply Z.ltb_ge. by apply Hage.
Qed.

(** Promotion of a legacy event keeps its identity, content and recipients and
    schedules it as an immediate individual send with automatic retries. *)
Theorem legacy_promotion e :
  let n := into_notification_event e in
  ne_event_id n = ee_event_id e ∧ ne_payload n = ee_payload e
  ∧ ∃ o, co_email (ne_channel_overrides n) = Some o
    ∧ eo_recipients o = ee_recipients e ∧ eo_cc o = ee_cc e ∧ eo_bcc o = ee_bcc e
    ∧ eo_send_mode o = SendMode.Individual ∧ eo_retry_policy o = RetryPolicy.Retry
    ∧ eo_send_at o = None.
Proof. split_and!; [done..|]. by eexists. Qed.
