(* ===== verification/World.v ===== *)
(** * The state the service acts on and the world around it

    [World] is everything an operation can change: the two databases' tables,
    the caches held in memory, and the traces of what left the process (mail,
    AMQP frames, back-off sleeps).  [Env] is what the sources only call: the
    clock, the database driver's failures, the generators and the third-party
    codecs.  Every interaction with the outside consumes one tick, and every
    answer of the environment is a function of the tick, so a run is a function
    of its starting world. *)

From Stdlib Require Import Strings.Byte.
From S2P Require Import Prelude Json AppErr Event.

(** ** Database rows ([migrations/0001_initial_schema.sql]) *)

Record LogRow : Type := mkLogRow {
  lr_id : Uuid;
  lr_event_id : Uuid;
  lr_event_type : string;
  lr_channel : string;
  lr_recipient_id : string;
  lr_status : string;
  lr_retry_count : Z;
  lr_total_attempts : Z;
  lr_last_error : option string;
  lr_payload : json;
  lr_event_timestamp : DateTime;
  lr_created_at : DateTime;
  lr_updated_at : DateTime;
}.

Record DetailRow : Type := mkDetailRow {
  dr_notification_id : Uuid;
  dr_detail : EmailDeliveryDetail;
}.

Record TemplateRow : Type := mkTemplateRow {
  tr_event_type : string;
  tr_channel : string;
  tr_subject : string;
  tr_body_html : string;
  tr_body_text : string;
  tr_version : Z;
  tr_active : bool;
  tr_updated_at : DateTime;
}.

Record BlockListEntry : Type := mkBlockListEntry {
  bl_id : Z;
  bl_kind : string;
  bl_value : string;
  bl_reason : option string;
  bl_active : bool;
  bl_created_at : DateTime;
}.

Record OutboxDbRow : Type := mkOutboxDbRow {
  ob_id : Uuid;
  ob_event_id : Uuid;
  ob_event_type : string;
  ob_payload : json;
  ob_status : string;
  ob_fail_count : Z;
  ob_created_at : DateTime;
  ob_published_at : option DateTime;
  ob_locked_at : option DateTime;
}.

Record Db : Type := mkDb {
  db_log : list LogRow;
  db_detail : list DetailRow;
  db_templates : list TemplateRow;
  db_blocks : list BlockListEntry;
  db_outbox : list OutboxDbRow;
}.

Definition set_log (f : list LogRow → list LogRow) (d : Db) : Db :=
  mkDb (f (db_log d)) (db_detail d) (db_templates d) (db_blocks d) (db_outbox d).
Definition set_detail (f : list DetailRow → list DetailRow) (d : Db) : Db :=
  mkDb (db_log d) (f (db_detail d)) (db_templates d) (db_blocks d) (db_outbox d).
Definition set_templates (f : list TemplateRow → list TemplateRow) (d : Db) : Db :=
  mkDb (db_log d) (db_detail d) (f (db_templates d)) (db_blocks d) (db_outbox d).
Definition set_blocks (f : list BlockListEntry → list BlockListEntry) (d : Db) : Db :=
  mkDb (db_log d) (db_detail d) (db_templates d) (f (db_blocks d)) (db_outbox d).
Definition set_outbox (f : list OutboxDbRow → list OutboxDbRow) (d : Db) : Db :=
  mkDb (db_log d) (db_detail d) (db_templates d) (db_blocks d) (f (db_outbox d)).

(** ** What leaves the process *)

(** [lapin::BasicProperties], the fields the sources set. *)
Record BasicProperties : Type := mkBasicProperties {
  bp_content_type : option string;
  bp_delivery_mode : option Z;
  bp_message_id : option string;
  bp_expiration : option string;
  bp_priority : option Z;
}.

Definition no_properties : BasicProperties := mkBasicProperties None None None None None.

Module ExchangeKind.
Inductive ExchangeKind : Type := Direct | Fanout.
End ExchangeKind.
Notation ExchangeKind := ExchangeKind.ExchangeKind.

(** The last five are commands; every exchange and actively declared queue is
    durable, a queue's arguments are its field table. *)
Inductive AmqpFrame : Type :=
  | BasicAck
  | BasicNack (requeue : bool)
  | BasicPublish (exchange routing_key : string) (props : BasicProperties) (body : string)
  | ExchangeDeclare (name : string) (kind : ExchangeKind)
  | QueueDeclare (passive : bool) (name : string) (args : list (string * string))
  | QueueBind (queue exchange routing_key : string)
  | BasicQos (prefetch : Z)
  | BasicConsume (queue consumer_tag : string).

(** What [is_not_found] tells apart among the broker's refusals. *)
Inductive BrokerError : Type :=
  | NotFoundReply (e : string)
  | OtherReply (e : string).

Definition broker_text (e : BrokerError) : string :=
  match e with NotFoundReply e | OtherReply e => e end.

(** [anyhow::Error] with one context: [{}] prints the context alone, [{:#}]
    the whole chain. *)
Record Anyhow : Type := mkAnyhow {
  ah_context : string;
  ah_cause : string;
}.

Definition ah_chain (e : Anyhow) : string := ah_context e +:+ ": " +:+ ah_cause e.

(** [lapin::Confirmation]. *)
Inductive Confirmation : Type := ConfirmAck | ConfirmNack | ConfirmNotRequested.

Definition conf_is_ack (c : Confirmation) : bool :=
  match c with ConfirmAck => true | _ => false end.

(** The two implementors of the [EmailSender] trait ([crates/mailer]). *)
Inductive EmailSender : Type :=
  | SmtpSender (host from_email from_name : string)
  | WebhookSender (url : string) (auth_token : option string).

(** A message handed to a sender's transport, and whether it was accepted. *)
Record SendRecord : Type := mkSendRecord {
  sr_sender : EmailSender;
  sr_message : EmailMessage;
  sr_accepted : bool;
}.

(** The MIME message [SmtpSender] composes: [multipart/alternative], wrapped in
    [multipart/mixed] when there are attachments. *)
Record MimePart : Type := mkMimePart {
  mp_filename : string;
  mp_content_type : string;
  mp_data : list Byte.byte;
}.

Inductive MimeBody : Type :=
  | Alternative (text html : string)
  | Mixed (text html : string) (parts : list MimePart).

Record SmtpMail : Type := mkSmtpMail {
  sm_from : string;
  sm_to : list string;
  sm_cc : list string;
  sm_bcc : list string;
  sm_subject : string;
  sm_body : MimeBody;
}.

(** [lettre::transport::smtp::Error]: its public predicates and its text. *)
Record SmtpError : Type := mkSmtpError {
  se_permanent : bool;
  se_transient : bool;
  se_timeout : bool;
  se_tls : bool;
  se_client : bool;
  se_text : string;
}.

(** minijinja's settings, and its errors: whether [kind()] is
    [UndefinedError], and the text. *)
Module AutoEscape.
Inductive AutoEscape : Type := NoEscape | Html.
End AutoEscape.
Notation AutoEscape := AutoEscape.AutoEscape.

Module UndefinedBehavior.
Inductive UndefinedBehavior : Type := Lenient | Strict.
End UndefinedBehavior.
Notation UndefinedBehavior := UndefinedBehavior.UndefinedBehavior.

Record JinjaError : Type := mkJinjaError {
  je_undefined : bool;
  je_text : string;
}.

(** A [reqwest] response: its status and its body, or the error of reading it. *)
Record HttpResponse : Type := mkHttpResponse {
  hr_status : Z;
  hr_body : result (list Byte.byte) string;
}.

Record BlockListSnapshot : Type := mkBlockListSnapshot {
  sn_blocked_emails : gset string;
  sn_blocked_domains : gset string;
  sn_allowed_emails : gset string;
  sn_allowed_domains : gset string;
  sn_allowlist_mode : bool;
}.

Record NotificationTemplate : Type := mkNotificationTemplate {
  nt_subject : string;
  nt_body_html : string;
  nt_body_text : string;
}.

(** How a [moka] cache is built: how many entries it holds and for how long,
    [None] for no limit of time. *)
Record CachePolicy : Type := mkCachePolicy {
  cp_max_capacity : Z;
  cp_time_to_live_secs : option Z;
}.

(** A time to live of zero means no cache at all. *)
Definition cache_policy (max_capacity ttl_secs : Z) : CachePolicy :=
  if ttl_secs =? 0 then mkCachePolicy 0 None else mkCachePolicy max_capacity (Some ttl_secs).

(** ** The world *)

Record World : Type := mkWorld {
  w_tick : nat;
  w_db : Db;
  w_tpl_cache : gmap string NotificationTemplate;
  w_block_cache : option BlockListSnapshot;
  w_sends : list SendRecord;
  w_amqp : list AmqpFrame;
  w_slept : list Z;
  (** The API's [Publisher] holds a connection and a channel. *)
  w_held : bool;
}.

Notation M := (ST World).

Definition set_tick (n : nat) (w : World) : World :=
  mkWorld n (w_db w) (w_tpl_cache w) (w_block_cache w) (w_sends w) (w_amqp w) (w_slept w) (w_held w).
Definition set_db (d : Db) (w : World) : World :=
  mkWorld (w_tick w) d (w_tpl_cache w) (w_block_cache w) (w_sends w) (w_amqp w) (w_slept w) (w_held w).
Definition set_tpl_cache (c : gmap string NotificationTemplate) (w : World) : World :=
  mkWorld (w_tick w) (w_db w) c (w_block_cache w) (w_sends w) (w_amqp w) (w_slept w) (w_held w).
Definition set_block_cache (c : option BlockListSnapshot) (w : World) : World :=
  mkWorld (w_tick w) (w_db w) (w_tpl_cache w) c (w_sends w) (w_amqp w) (w_slept w) (w_held w).
Definition log_send (r : SendRecord) (w : World) : World :=
  mkWorld (w_tick w) (w_db w) (w_tpl_cache w) (w_block_cache w) (w_sends w ++ [r]) (w_amqp w)
    (w_slept w) (w_held w).
Definition log_frame (f : AmqpFrame) (w : World) : World :=
  mkWorld (w_tick w) (w_db w) (w_tpl_cache w) (w_block_cache w) (w_sends w) (w_amqp w ++ [f])
    (w_slept w) (w_held w).
Definition log_sleep (ms : Z) (w : World) : World :=
  mkWorld (w_tick w) (w_db w) (w_tpl_cache w) (w_block_cache w) (w_sends w) (w_amqp w)
    (w_slept w ++ [ms]) (w_held w).
Definition set_held (b : bool) (w : World) : World :=
  mkWorld (w_tick w) (w_db w) (w_tpl_cache w) (w_block_cache w) (w_sends w) (w_amqp w)
    (w_slept w) b.

(** ** The environment *)

Class Env : Type := {
  (** [Utc::now()] and the database's [now()] at a tick. *)
  clock : nat → DateTime;
  (** A query at this tick fails in the driver or the server. *)
  db_err : nat → option string;
  (** [gen_random_uuid()] and [Uuid::now_v7()]. *)
  fresh_uuid : nat → Uuid;
  (** The next value of a [BIGSERIAL] column. *)
  serial : nat → Z;
  (** The moka entry looked up at this tick has neither expired nor been evicted. *)
  cache_live : nat → bool;
  (** The [Display] of [uuid::Uuid]. *)
  uuid_str : Uuid → string;
  (** [str::to_lowercase] on text outside ASCII. *)
  unicode_lowercase : string → string;
  (** [str::trim] on text outside ASCII. *)
  unicode_trim : string → string;
  (** [governor]: a token is available now; [until_ready] wins against shutdown. *)
  token_available : nat → bool;
  token_before_shutdown : nat → bool;
  (** A back-off [select!]: the sleep finishes before the shutdown signal. *)
  sleep_completes : nat → bool;
  (** The service's shutdown token is set. *)
  shutdown_requested : nat → bool;
  (** lettre: parsing a mailbox and a content type, building the message, and
      the server's answer. *)
  parse_mailbox : string → result string string;
  parse_content_type : string → result string string;
  mime_build_err : SmtpMail → option string;
  smtp_transport : nat → string → SmtpMail → option SmtpError;
  (** reqwest: a JSON POST and a GET, each with an optional bearer token. *)
  http_post : nat → string → option string → json → result HttpResponse string;
  http_get : nat → string → option string → result HttpResponse string;
  (** The [Display] of a [StatusCode]: the code and its canonical reason. *)
  status_text : Z → string;
  (** base64 and [String::from_utf8_lossy]. *)
  base64_encode : list Byte.byte → string;
  utf8_lossy : list Byte.byte → string;
  (** minijinja: parsing a source, and rendering one under an environment's
      settings. *)
  jinja_parse : string → option JinjaError;
  jinja_render : AutoEscape → UndefinedBehavior → string → json → result string JinjaError;
  (** lapin: the publish frame is written; the broker's confirmation. *)
  amqp_publish_err : nat → option string;
  amqp_confirm : nat → result Confirmation string;
  (** The confirmation arrives within [CONFIRM_TIMEOUT]; the channel is still
      connected; a step of opening (a connection, a channel, confirm mode) fails. *)
  confirm_in_time : nat → bool;
  channel_connected : nat → bool;
  amqp_open_err : nat → option string;
  (** The broker's answer to a command; the next item of the consumer stream. *)
  amqp_command : nat → AmqpFrame → result unit BrokerError;
  next_delivery : nat → option (result string string);
}.

Section primitives.
Context `{Env}.

(** One interaction with the outside. *)
Definition next_tick : M nat := λ w, (w_tick w, set_tick (S (w_tick w)) w).

(** A query: it fails as a whole and changes nothing, or runs the statement on
    the tables, at the statement's [now()].  A statement that violates a
    constraint is a database error too. *)
Definition query {A} (stmt : nat → Db → result (A * Db) string) : M (result A AppError) :=
  let! t := next_tick in
  match db_err t with
  | Some e => st_ret (Err (AppError.Database e))
  | None =>
      λ w, match stmt t (w_db w) with
           | Ok (a, d) => (Ok a, set_db d w)
           | Err e => (Err (AppError.Database e), w)
           end
  end.

(** [pool.begin()] ... [tx.commit()]: an error, at the commit included, leaves
    the tables as they were. *)
Definition transaction {A} (body : M (result A AppError)) : M (result A AppError) :=
  let! d0 := st_get w_db in
  let? _ := query (λ _ d, Ok (tt, d)) in
  let! r := body in
  match r with
  | Err e => st_modify (set_db d0) ;;! st_ret (Err e)
  | Ok a =>
      let! c := query (λ _ d, Ok (tt, d)) in
      match c with
      | Ok _ => st_ret (Ok a)
      | Err e => st_modify (set_db d0) ;;! st_ret (Err e)
      end
  end.

(** [basic_publish(...).await] without its confirmation. *)
Definition basic_publish (exchange routing_key : string) (props : BasicProperties)
    (body : string) : M (result unit string) :=
  let! t := next_tick in
  match amqp_publish_err t with
  | Some e => st_ret (Err e)
  | None => st_modify (log_frame (BasicPublish exchange routing_key props body)) ;;! st_ret (Ok tt)
  end.

(** [confirm.await]. *)
Definition await_confirm : M (result Confirmation string) :=
  let! t := next_tick in st_ret (amqp_confirm t).

(** A command whose reply is awaited; a refused one leaves no trace. *)
Definition command (f : AmqpFrame) : M (result unit BrokerError) :=
  let! t := next_tick in
  match amqp_command t f with
  | Ok _ => st_modify (log_frame f) ;;! st_ret (Ok tt)
  | Err e => st_ret (Err e)
  end.

(** [.await?] on a command. *)
Definition active (f : AmqpFrame) : M (result unit string) :=
  let! r := command f in st_ret (map_err broker_text r).

(** [Connection::connect(..)], [create_channel()] and [confirm_select(..)], one
    awaited answer each; none leaves a frame of interest behind. *)
Definition amqp_step : M (result unit string) :=
  let! t := next_tick in
  st_ret (match amqp_open_err t with Some e => Err e | None => Ok tt end).

(** [.context(c)]. *)
Definition under_context {A} (c : string) (m : M (result A string)) : M (result A Anyhow) :=
  let! r := m in st_ret (map_err (mkAnyhow c) r).

(** [select! { sleep(delay) => true, shutdown.cancelled() => false }]. *)
Definition sleep_or_shutdown (ms : Z) : M bool :=
  let! t := next_tick in
  st_modify (log_sleep ms) ;;! st_ret (sleep_completes t).

(** [shutdown.is_cancelled()]. *)
Definition is_cancelled : M bool := let! t := next_tick in st_ret (shutdown_requested t).

(** [str::to_lowercase]. *)
Definition to_lowercase (s : string) : string :=
  if all_chars is_ascii s then map_chars ascii_lower s else unicode_lowercase s.

(** [str::trim]. *)
Definition trim (s : string) : string :=
  if all_chars is_ascii s then ascii_trim s else unicode_trim s.

(** [timeout(CONFIRM_TIMEOUT, confirm)]. *)
Definition timed_confirm : M (option (result Confirmation string)) :=
  let! t := next_tick in
  if confirm_in_time t then let! c := await_confirm in st_ret (Some c) else st_ret None.

(** [channel.status().connected()]. *)
Definition is_connected : M bool := let! t := next_tick in st_ret (channel_connected t).

(** [content_type] JSON, [delivery_mode] 2. *)
Definition persistent_json : BasicProperties :=
  mkBasicProperties (Some "application/json") (Some 2) None None None.

Definition CONFIRM_TIMEOUT_SECS : Z := 10.

End primitives.

(** ** Code that keeps a relation between the worlds before and after *)

Definition keeps {A} (R : relation World) (m : M A) : Prop := ∀ w, R w (m w).2.

Create HintDb keeps.

Section keeps.
Context (R : relation World) `{!PreOrder R}.

Lemma keeps_ret {A} (a : A) : keeps R (st_ret a).
Proof. intros w. simpl. reflexivity. Qed.

Lemma keeps_get {A} (f : World → A) : keeps R (st_get f).
Proof. intros w. simpl. reflexivity. Qed.

Lemma keeps_bind {A B} (m : M A) (f : A → M B) :
  keeps R m → (∀ a, keeps R (f a)) → keeps R (st_bind m f).
Proof.
  intros Hm Hf w. unfold st_bind. specialize (Hm w).
  destruct (m w) as [a w']. by etransitivity; [apply Hm|apply Hf].
Qed.

Lemma keeps_try {A B E} (m : M (result A E)) (f : A → M (result B E)) :
  keeps R m → (∀ a, keeps R (f a)) → keeps R (st_try m f).
Proof.
  intros Hm Hf w. unfold st_try. specialize (Hm w).
  destruct (m w) as [[a|e] w']; [|done]. by etransitivity; [apply Hm|apply Hf].
Qed.

Lemma keeps_iter {A} (f : A → M unit) l : (∀ a, keeps R (f a)) → keeps R (st_iter f l).
Proof.
  intros Hf. induction l; simpl; [apply keeps_ret|]. by apply keeps_bind.
Qed.

Lemma keeps_filter {A} (f : A → M bool) l : (∀ a, keeps R (f a)) → keeps R (st_filter f l).
Proof.
  intros Hf. induction l; simpl; [apply keeps_ret|].
  apply keeps_bind; [done|]. intros. apply keeps_bind; [done|]. intros. apply keeps_ret.
Qed.

Lemma keeps_if {A} (b : bool) (m1 m2 : M A) :
  keeps R m1 → keeps R m2 → keeps R (if b then m1 else m2).
Proof. by destruct b. Qed.
End keeps.

#[export] Hint Resolve keeps_ret keeps_get keeps_bind keeps_try keeps_iter keeps_filter keeps_if : keeps.

(** Only the clock moved. *)
Definition ticks_only : relation World := λ w w', w' = set_tick (w_tick w') w.

#[export] Instance ticks_only_preorder : PreOrder ticks_only.
Proof. split; [by intros []|]. intros w1 w2 w3 E1 E2. unfold ticks_only in *. by rewrite E2, E1. Qed.

(** Nothing left the process. *)
Definition quiet : relation World := λ w w',
  w_sends w' = w_sends w ∧ w_amqp w' = w_amqp w ∧ w_slept w' = w_slept w.

#[export] Instance quiet_preorder : PreOrder quiet.
Proof.
  split; [by intros w|]. intros w1 w2 w3 (?&?&?) (?&?&?). unfold quiet. split_and!; congruence.
Qed.

(** The delivery log is untouched. *)
Definition same_log : relation World := λ w w',
  db_log (w_db w') = db_log (w_db w) ∧ db_detail (w_db w') = db_detail (w_db w).

#[export] Instance same_log_preorder : PreOrder same_log.
Proof.
  split; [by intros w|]. intros w1 w2 w3 (?&?) (?&?). unfold same_log. split; congruence.
Qed.

Section primitive_lemmas.
Context `{Env}.

Lemma query_quiet {A} (stmt : nat → Db → result (A * Db) string) : keeps quiet (query stmt).
Proof.
  intros w. unfold query, next_tick. run_st.
  destruct (db_err _); [done|]. simpl. by destruct (stmt _ _) as [[??]|].
Qed.

Lemma transaction_quiet {A} (m : M (result A AppError)) :
  keeps quiet m → keeps quiet (transaction m).
Proof.
  intros Hm. unfold transaction.
  apply keeps_bind; [apply _|apply keeps_get, _|]. intros d0.
  apply keeps_try; [apply _|apply query_quiet|]. intros _.
  apply keeps_bind; [apply _|done|]. intros [a|e]; [|by intros w].
  apply keeps_bind; [apply _|apply query_quiet|]. intros [[]|e]; by intros w.
Qed.

Lemma amqp_step_ticks : keeps ticks_only amqp_step.
Proof. by intros w. Qed.

Lemma active_run f w r w' :
  active f w = (r, w') →
  w' = (if is_ok r then log_frame f else id) (set_tick (S (w_tick w)) w)
  ∧ r = map_err broker_text (amqp_command (w_tick w) f).
Proof.
  unfold active, command, next_tick. run_st. by destruct (amqp_command _ _) as [[]|e]; intros [= <- <-].
Qed.

Lemma under_context_step {A} c (k : unit → M (result A Anyhow)) w :
  (let? u := under_context c amqp_step in k u) w
  = match amqp_open_err (w_tick w) with
    | Some e => (Err (mkAnyhow c e), set_tick (S (w_tick w)) w)
    | None => k tt (set_tick (S (w_tick w)) w)
    end.
Proof.
  unfold st_try, under_context, amqp_step, next_tick. run_st. by destruct (amqp_open_err _).
Qed.

Lemma under_context_active {A} c f (k : unit → M (result A Anyhow)) w :
  (let? u := under_context c (active f) in k u) w
  = match amqp_command (w_tick w) f with
    | Err b => (Err (mkAnyhow c (broker_text b)), set_tick (S (w_tick w)) w)
    | Ok _ => k tt (log_frame f (set_tick (S (w_tick w)) w))
    end.
Proof.
  unfold st_try, under_context, active, command, next_tick. run_st. by destruct (amqp_command _ _) as [[]|b].
Qed.

(** A query either reports a database error and keeps the tables, or runs. *)
Lemma query_spec {A} (stmt : nat → Db → result (A * Db) string) w r w' :
  query stmt w = (r, w') →
  (∃ e, r = Err (AppError.Database e) ∧ w_db w' = w_db w)
  ∨ (∃ a d, r = Ok a ∧ stmt (w_tick w) (w_db w) = Ok (a, d) ∧ w_db w' = d
            ∧ db_err (w_tick w) = None).
Proof.
  unfold query, next_tick. run_st. destruct (db_err (w_tick w)) as [e|].
  - intros [= <- <-]. left. by exists e.
  - simpl. destruct (stmt _ _) as [[a d]|e] eqn:E; intros [= <- <-].
    + right. by exists a, d.
    + left. by exists e.
Qed.

Lemma transaction_spec {A} (m : M (result A AppError)) w r w' :
  transaction m w = (r, w') →
  (∃ e, r = Err e ∧ w_db w' = w_db w)
  ∨ (∃ a w1 w2, r = Ok a ∧ w_db w1 = w_db w ∧ m w1 = (Ok a, w2) ∧ w_db w' = w_db w2).
Proof.
  unfold transaction. run_st.
  destruct (query _ w) as [[[]|e] w1] eqn:Hb;
    destruct (query_spec _ _ _ _ Hb) as [(e0 & He & Hdb)|(? & d & He & [= <- <-] & Hdb & _)];
    simplify_eq; [|intros [= <- <-]; left; by eauto].
  destruct (m w1) as [[a|e] w2] eqn:Hm.
  - destruct (query _ w2) as [[[]|e] w3] eqn:Hc; simpl;
      destruct (query_spec _ _ _ _ Hc) as [(e0 & He & Hdb')|(? & d & He & [= <- <-] & Hdb' & _)];
      simplify_eq; intros [= <- <-]; [right; naive_solver|left; by eauto].
  - simpl. intros [= <- <-]. left. by eauto.
Qed.
End primitive_lemmas.

#[export] Hint Resolve query_quiet transaction_quiet : keeps.

(** ** A sample environment

    Everything works: every query, publish and send succeeds, caches keep
    their entries, templates render to themselves.  The concrete instances of
    the theorems run in it, or in a variation of it. *)

Definition sample_env : Env := {|
  clock t := Z.of_nat t * 1000000000;
  db_err _ := None;
  fresh_uuid t := N.of_nat t;
  serial t := Z.of_nat t;
  cache_live _ := true;
  uuid_str u := pretty u;
  unicode_lowercase s := s;
  unicode_trim s := s;
  token_available _ := true;
  token_before_shutdown _ := true;
  sleep_completes _ := true;
  shutdown_requested _ := false;
  parse_mailbox s := Ok s;
  parse_content_type s := Ok s;
  mime_build_err _ := None;
  smtp_transport _ _ _ := None;
  http_post _ _ _ _ := Ok (mkHttpResponse 200 (Ok []));
  http_get _ _ _ := Ok (mkHttpResponse 200 (Ok []));
  status_text s := show_Z s;
  base64_encode l := String.string_of_list_byte l;
  utf8_lossy l := String.string_of_list_byte l;
  jinja_parse _ := None;
  jinja_render _ _ s _ := Ok s;
  amqp_publish_err _ := None;
  amqp_confirm _ := Ok ConfirmNotRequested;
  confirm_in_time _ := true;
  channel_connected _ := true;
  amqp_open_err _ := None;
  amqp_command _ _ := Ok tt;
  next_delivery _ := None;
|}.

(** The sample environment with another database, cache, mail server or broker. *)
Definition vary (dbe : nat → option string) (live : nat → bool)
    (smtp : nat → string → SmtpMail → option SmtpError)
    (confirm : nat → result Confirmation string) : Env :=
  let E := sample_env in {|
  clock := @clock E; db_err := dbe; fresh_uuid := @fresh_uuid E; serial := @serial E;
  cache_live := live; uuid_str := @uuid_str E; unicode_lowercase := @unicode_lowercase E;
  unicode_trim := @unicode_trim E;
  token_available := @token_available E; token_before_shutdown := @token_before_shutdown E;
  sleep_completes := @sleep_completes E; shutdown_requested := @shutdown_requested E;
  parse_mailbox := @parse_mailbox E; parse_content_type := @parse_content_type E;
  mime_build_err := @mime_build_err E; smtp_transport := smtp; http_post := @http_post E;
  http_get := @http_get E; status_text := @status_text E; base64_encode := @base64_encode E;
  utf8_lossy := @utf8_lossy E; jinja_parse := @jinja_parse E; jinja_render := @jinja_render E;
  amqp_publish_err := @amqp_publish_err E; amqp_confirm := confirm;
  confirm_in_time := @confirm_in_time E; channel_connected := @channel_connected E;
  amqp_open_err := @amqp_open_err E; amqp_command := @amqp_command E;
  next_delivery := @next_delivery E |}.

(** ... or with other answers to connections and publishes. *)
Definition vary_amqp (E : Env) (open_err publish_err : nat → option string) : Env := {|
  clock := @clock E; db_err := @db_err E; fresh_uuid := @fresh_uuid E; serial := @serial E;
  cache_live := @cache_live E; uuid_str := @uuid_str E; unicode_lowercase := @unicode_lowercase E;
  unicode_trim := @unicode_trim E;
  token_available := @token_available E; token_before_shutdown := @token_before_shutdown E;
  sleep_completes := @sleep_completes E; shutdown_requested := @shutdown_requested E;
  parse_mailbox := @parse_mailbox E; parse_content_type := @parse_content_type E;
  mime_build_err := @mime_build_err E; smtp_transport := @smtp_transport E; http_post := @http_post E;
  http_get := @http_get E; status_text := @status_text E; base64_encode := @base64_encode E;
  utf8_lossy := @utf8_lossy E; jinja_parse := @jinja_parse E; jinja_render := @jinja_render E;
  amqp_publish_err := publish_err; amqp_confirm := @amqp_confirm E;
  confirm_in_time := @confirm_in_time E; channel_connected := @channel_connected E;
  amqp_open_err := open_err; amqp_command := @amqp_command E;
  next_delivery := @next_delivery E |}.

Definition db_up : nat → option string := λ _, None.
Definition cache_kept : nat → bool := λ _, true.
Definition smtp_accepts : nat → string → SmtpMail → option SmtpError := λ _ _ _, None.
Definition confirms (c : Confirmation) : nat → result Confirmation string := λ _, Ok c.

Definition acking : Env := vary db_up cache_kept smtp_accepts (confirms ConfirmAck).
Definition nacking : Env := vary db_up cache_kept smtp_accepts (confirms ConfirmNack).

Definition no_json {A} (what : string) : json → result A string := λ _, Err what.

(** A codec that reads bare addresses and writes an event as its id. *)
#[export] Instance sample_wire_codec : WireCodec := {|
  de_recipient v := match v with JStr s => Ok (mkRecipient s None) | _ => Err "expected a string" end;
  de_from_override := no_json "from_override";
  de_attachment := no_json "attachment";
  de_send_mode := no_json "send_mode";
  de_group_retry_mode := no_json "group_retry_mode";
  de_metadata := no_json "metadata";
  de_datetime := no_json "datetime";
  rfc3339 t := pretty t;
  encode_event e := Ok (pretty (ne_event_id e));
|}.

Definition empty_db : Db := mkDb [] [] [] [] [].
Definition world0 (d : Db) : World := mkWorld 0 d ∅ None [] [] [] true.
