(* ===== verification/Interfaces.v ===== *)
(** * The traits between the components

    [NotificationStore] ([crates/store/src/notification_log.rs]),
    [TemplateResolver] ([crates/store/src/template_store.rs]) and
    [BlockListChecker] ([crates/store/src/block_list_store.rs]) as classes: the
    operations the processor calls, and the laws it relies on.  The laws see
    the delivery log only through [cells], a finite map from (event,
    recipient) to the state of its row. *)

From S2P Require Import Prelude Json AppErr Event World.

Module InsertResult.
Inductive InsertResult : Type :=
  | Inserted
  | Duplicate (retry_count : Z) (status : string).
End InsertResult.
Notation InsertResult := InsertResult.InsertResult.

Record EmailInsertPendingArgs : Type := mkInsertArgs {
  ia_event_id : Uuid;
  ia_event_type : string;
  ia_recipient_email : string;
  ia_payload : json;
  ia_event_timestamp : DateTime;
  ia_recipient_name : option string;
  ia_from_override : option json;
  ia_attachments : option json;
  ia_sender_account : option string;
  ia_cc : option json;
  ia_bcc : option json;
  ia_send_mode : string;
  ia_group_retry_mode : option string;
  ia_to_recipients : option json;
}.

Definition CHANNEL_EMAIL : string := "email".

Record EventDeliveryDetail : Type := mkEventDeliveryDetail {
  ev_event_type : string;
  ev_payload : json;
  ev_event_timestamp : DateTime;
  ev_earliest_created_at : DateTime;
  ev_from_override : option json;
  ev_sender_account : option string;
  ev_send_mode : option string;
  ev_group_retry_mode : option string;
  ev_attachments : option json;
  ev_cc : option json;
  ev_bcc : option json;
}.

(** ** Operations *)

(** The trait.  [insert_pending_batch] has a default body in the trait; every
    implementor under [src/] that handles group sends overrides it. *)
Class NotificationStore : Type := {
  insert_pending : EmailInsertPendingArgs → M (result InsertResult AppError);
  insert_pending_batch : list EmailInsertPendingArgs → M (result (list InsertResult) AppError);
  mark_sent : Uuid → string → M (result unit AppError);
  mark_failed : Uuid → string → string → bool → M (result unit AppError);
  reap_stale_pending : Z → M (result (list Uuid) AppError);
  mark_blocked : Uuid → string → string → M (result unit AppError);
  mark_skipped : Uuid → string → string → string → DateTime → json → M (result unit AppError);
  get_by_event_id : Uuid → M (result (list NotificationLog) AppError);
  get_recipients_for_event : Uuid → option (list string) → M (result (list NotificationLog) AppError);
  get_by_event_and_recipient : Uuid → string → M (result NotificationLog AppError);
  reset_for_retry : Uuid → string → M (result unit AppError);
  reset_all_failed_for_event : Uuid → M (result (list string) AppError);
  revert_to_failed : Uuid → list string → string → M (result Z AppError);
  get_event_delivery_detail : Uuid → M (result EventDeliveryDetail AppError);
}.

(** The trait's default [insert_pending_batch]: one insert after the other. *)
Fixpoint insert_pending_batch_default
    (insert : EmailInsertPendingArgs → M (result InsertResult AppError))
    (args : list EmailInsertPendingArgs) : M (result (list InsertResult) AppError) :=
  match args with
  | [] => st_ret (Ok [])
  | a :: args =>
      let? r := insert a in
      let? rs := insert_pending_batch_default insert args in
      st_ret (Ok (r :: rs))
  end.

Class TemplateResolver : Type :=
  resolve_template : string → string → M (result NotificationTemplate AppError).

Class BlockListChecker : Type :=
  block_list_check : string → M (result unit AppError).

(** ** Laws *)

(** What the rest of the service can observe of a delivery row. *)
Record Cell : Type := mkCell {
  c_status : string;
  c_retry_count : Z;
  c_total_attempts : Z;
  c_last_error : option string;
}.

Notation Key := (N * string)%type (only parsing).
Definition arg_key (a : EmailInsertPendingArgs) : Key := (ia_event_id a, ia_recipient_email a).

Definition fresh_cell : Cell := mkCell "PENDING" 0 0 None.

Definition is_terminal (status : string) : bool :=
  match status_try_from status with
  | Ok NotificationStatus.Sent | Ok NotificationStatus.Blocked => true
  | _ => false
  end.

(** One idempotent insert on the abstract log. *)
Definition insert_cell (k : Key) (m : gmap Key Cell) : InsertResult * gmap Key Cell :=
  match m !! k with
  | None => (InsertResult.Inserted, <[k := fresh_cell]> m)
  | Some c => (InsertResult.Duplicate (c_retry_count c) (c_status c), m)
  end.

Fixpoint insert_cells (ks : list Key) (m : gmap Key Cell) : list InsertResult * gmap Key Cell :=
  match ks with
  | [] => ([], m)
  | k :: ks =>
      let '(r, m1) := insert_cell k m in
      let '(rs, m2) := insert_cells ks m1 in
      (r :: rs, m2)
  end.

Definition sent_cell (c : Cell) : Cell :=
  mkCell "SENT" (c_retry_count c) (c_total_attempts c + 1) (c_last_error c).
Definition failed_cell (msg : string) (exhausted : bool) (c : Cell) : Cell :=
  mkCell (if exhausted then "FAILED" else "PENDING") (c_retry_count c + 1)
    (c_total_attempts c + 1) (Some msg).
Definition blocked_cell (reason : string) (c : Cell) : Cell :=
  mkCell "BLOCKED" (c_retry_count c) (c_total_attempts c) (Some reason).
Definition skipped_cell (reason : string) : Cell := mkCell "SKIPPED" 0 0 (Some reason).

(** An update of one row: it is there and changes, or nothing changes. *)
Definition update_post (k : Key) (f : Cell → Cell) (m : gmap Key Cell)
    (r : result unit AppError) (m' : gmap Key Cell) : Prop :=
  match r with
  | Ok _ => is_Some (m !! k) ∧ m' = alter f k m
  | Err (AppError.NotFound _) => m !! k = None ∧ m' = m
  | Err _ => m' = m
  end.

Class NotificationStoreLaws `{NotificationStore} : Type := {
  cells : World → gmap Key Cell;
  cells_same_log w w' : same_log w w' → cells w' = cells w;
  insert_pending_law a w r w' :
    insert_pending a w = (r, w') →
    quiet w w' ∧ match r with
                 | Ok x => insert_cell (arg_key a) (cells w) = (x, cells w')
                 | Err _ => cells w' = cells w
                 end;
  insert_pending_batch_law l w r w' :
    insert_pending_batch l w = (r, w') →
    quiet w w' ∧ match r with
                 | Ok x => insert_cells (map arg_key l) (cells w) = (x, cells w')
                 | Err _ => cells w' = cells w
                 end;
  mark_sent_law e rid w r w' :
    mark_sent e rid w = (r, w') →
    quiet w w' ∧ update_post (e, rid) sent_cell (cells w) r (cells w');
  mark_failed_law e rid msg ex w r w' :
    mark_failed e rid msg ex w = (r, w') →
    quiet w w' ∧ update_post (e, rid) (failed_cell msg ex) (cells w) r (cells w');
  mark_blocked_law e rid reason w r w' :
    mark_blocked e rid reason w = (r, w') →
    quiet w w' ∧ update_post (e, rid) (blocked_cell reason) (cells w) r (cells w');
  mark_skipped_law e ty rid reason ts p w r w' :
    mark_skipped e ty rid reason ts p w = (r, w') →
    quiet w w' ∧ match r with
                 | Ok _ => cells w' = match cells w !! (e, rid) with
                                      | None => <[(e, rid) := skipped_cell reason]> (cells w)
                                      | Some _ => cells w
                                      end
                 | Err _ => cells w' = cells w
                 end;
  get_by_event_and_recipient_law e rid w r w' :
    get_by_event_and_recipient e rid w = (r, w') →
    quiet w w' ∧ cells w' = cells w
    ∧ match r with
      | Ok l => ∃ c, cells w !! (e, rid) = Some c ∧ status_try_from (c_status c) = Ok (nl_status l)
      | Err _ => True
      end;
}.

(** A read-only neighbour: nothing leaves the process, the log stays. *)
Definition aside : relation World := λ w w', quiet w w' ∧ same_log w w'.

#[export] Instance aside_preorder : PreOrder aside.
Proof.
  split; [by intros w|]. intros w1 w2 w3 [] []. split; by etransitivity.
Qed.

Class TemplateResolverLaws `{TemplateResolver} : Prop :=
  resolve_aside ty ch : keeps aside (resolve_template ty ch).

Class BlockListCheckerLaws `{BlockListChecker} : Prop :=
  block_check_aside email : keeps aside (block_list_check email).

(** ** Facts about the abstract log *)

Lemma insert_cell_lookup k m x m' :
  insert_cell k m = (x, m') → is_Some (m' !! k).
Proof.
  unfold insert_cell. destruct (m !! k) as [c|] eqn:E; intros [= <- <-]; [by rewrite E|].
  by rewrite lookup_insert_eq.
Qed.

Lemma insert_cell_mono k m x m' k' :
  insert_cell k m = (x, m') → is_Some (m !! k') → m' !! k' = m !! k'.
Proof.
  unfold insert_cell. destruct (m !! k) as [c|] eqn:E; intros [= <- <-] [c' Hc']; [done|].
  rewrite lookup_insert_ne; [done|]. congruence.
Qed.

Lemma insert_cells_mono ks m xs m' k' :
  insert_cells ks m = (xs, m') → is_Some (m !! k') → m' !! k' = m !! k'.
Proof.
  revert m xs m'. induction ks as [|k ks IH]; intros m xs m'; simpl; [by intros [= <- <-]|].
  destruct (insert_cell k m) as [x m1] eqn:E1. destruct (insert_cells ks m1) as [xs' m2] eqn:E2.
  intros [= <- <-] Hk. pose proof (insert_cell_mono _ _ _ _ _ E1 Hk) as H1.
  rewrite (IH _ _ _ E2); [done|]. by rewrite H1.
Qed.

Lemma insert_cells_head k ks m xs m' :
  insert_cells (k :: ks) m = (xs, m') → is_Some (m' !! k).
Proof.
  cbn [insert_cells]. destruct (insert_cell k m) as [x m1] eqn:E1.
  destruct (insert_cells ks m1) as [ys m2] eqn:E2. intros [= _ <-].
  pose proof (insert_cell_lookup _ _ _ _ E1) as Hl. by rewrite (insert_cells_mono _ _ _ _ _ E2 Hl).
Qed.

Lemma insert_cells_all ks m xs m' k : insert_cells ks m = (xs, m') → k ∈ ks → is_Some (m' !! k).
Proof.
  revert m xs m'. induction ks as [|k0 ks IH]; intros m xs m' Hins Hk; [by apply not_elem_of_nil in Hk|].
  apply elem_of_cons in Hk as [->|Hk]; [by eapply insert_cells_head|]. revert Hins. cbn [insert_cells].
  destruct (insert_cell k0 m) as [x m1]. destruct (insert_cells ks m1) as [ys m2] eqn:E2.
  intros [= _ <-]. by eapply IH.
Qed.

Lemma update_post_mono k f m r m' k' :
  update_post k f m r m' → is_Some (m !! k') → is_Some (m' !! k').
Proof.
  unfold update_post. destruct r as [?|[]].
  1: { intros [_ ->]. by rewrite lookup_alter_is_Some. }
  all: naive_solver.
Qed.

Lemma update_post_other k f m r m' k' :
  update_post k f m r m' → k ≠ k' → m' !! k' = m !! k'.
Proof.
  unfold update_post. destruct r as [?|[]].
  1: { intros [_ ->] ?. by rewrite lookup_alter_ne. }
  all: naive_solver.
Qed.
