(* ===== verification/Filter.v ===== *)
(** * The configured recipient filter ([crates/recipient_filter/src/lib.rs]) *)

From S2P Require Import Prelude Json AppErr Event World.

Record FilterConfig : Type := mkFilterConfig {
  fc_blocked_emails : list string;
  fc_blocked_domains : list string;
  fc_allowed_emails : list string;
  fc_allowed_domains : list string;
}.

Record RecipientFilter : Type := mkRecipientFilter {
  rf_blocked_emails : gset string;
  rf_blocked_domains : gset string;
  rf_allowed_emails : gset string;
  rf_allowed_domains : gset string;
  rf_allowlist_mode : bool;
}.

(** [domain_of]: what follows the last [@]. *)
Definition domain_of (email : string) : option string :=
  match rsplit_once "@" email with Some (_, d) => Some d | None => None end.

(** [HashSet::is_empty] and [contains]. *)
Definition set_is_empty (s : gset string) : bool := bool_decide (s = ∅).
Definition contains (s : gset string) (x : string) : bool := bool_decide (x ∈ s).

Section filter.
Context `{Env}.

(** [RecipientFilter::new]. *)
Definition norm (v : list string) : gset string := list_to_set (map to_lowercase v).

Definition filter_new (cfg : FilterConfig) : RecipientFilter :=
  let allowed_emails := norm (fc_allowed_emails cfg) in
  let allowed_domains := norm (fc_allowed_domains cfg) in
  let allowlist_mode := negb (set_is_empty allowed_emails) || negb (set_is_empty allowed_domains) in
  {| rf_blocked_emails := norm (fc_blocked_emails cfg);
     rf_blocked_domains := norm (fc_blocked_domains cfg);
     rf_allowed_emails := allowed_emails;
     rf_allowed_domains := allowed_domains;
     rf_allowlist_mode := allowlist_mode |}.

(** [RecipientFilter::check]. *)
Definition filter_check (f : RecipientFilter) (email : string) : result unit AppError :=
  let email_lc := to_lowercase email in
  let domain := domain_of email_lc in
  if contains (rf_blocked_emails f) email_lc
  then Err (AppError.Blocked (email +:+ " is on the blocked-email list"))
  else
    let blocked_domain :=
      match domain with Some d => contains (rf_blocked_domains f) d | None => false end in
    if blocked_domain
    then Err (AppError.Blocked (email +:+ ": domain '" +:+ default "" domain
                                +:+ "' is on the blocked-domain list"))
    else if rf_allowlist_mode f then
      let email_allowed := contains (rf_allowed_emails f) email_lc in
      let domain_allowed :=
        match domain with Some d => contains (rf_allowed_domains f) d | None => false end in
      if negb email_allowed && negb domain_allowed
      then Err (AppError.Blocked (email
             +:+ " is not on the allowed-email/domain list (allowlist mode active)"))
      else Ok tt
    else Ok tt.

(** [RecipientFilter::is_passthrough]. *)
Definition is_passthrough (f : RecipientFilter) : bool :=
  set_is_empty (rf_blocked_emails f) && set_is_empty (rf_blocked_domains f)
  && negb (rf_allowlist_mode f).

(** ** What the filter promises *)

Definition listed (l : list string) (x : string) : Prop := ∃ s, s ∈ l ∧ to_lowercase s = x.

(** The documented rule: never a blocked address or domain; and when any
    allow-list entry is configured, only the listed addresses and domains. *)
Definition may_receive (cfg : FilterConfig) (email : string) : Prop :=
  let e := to_lowercase email in
  ¬ listed (fc_blocked_emails cfg) e
  ∧ (∀ d, domain_of e = Some d → ¬ listed (fc_blocked_domains cfg) d)
  ∧ (fc_allowed_emails cfg = [] ∧ fc_allowed_domains cfg = []
     ∨ listed (fc_allowed_emails cfg) e
     ∨ ∃ d, domain_of e = Some d ∧ listed (fc_allowed_domains cfg) d).

Lemma contains_true s x : contains s x = true ↔ x ∈ s.
Proof. unfold contains. apply bool_decide_eq_true. Qed.
Lemma contains_false s x : contains s x = false ↔ x ∉ s.
Proof. unfold contains. apply bool_decide_eq_false. Qed.

Lemma elem_of_norm v x : x ∈ norm v ↔ listed v x.
Proof.
  unfold norm, listed. rewrite elem_of_list_to_set, list_elem_of_fmap. naive_solver.
Qed.

Lemma norm_empty v : set_is_empty (norm v) = true ↔ v = [].
Proof.
  unfold set_is_empty. rewrite bool_decide_eq_true. split; [|by intros ->].
  destruct v as [|a v]; [done|]. intros He.
  assert (to_lowercase a ∈ norm (a :: v)) as Hin
    by (apply elem_of_norm; exists a; split; [constructor|done]).
  rewrite He in Hin. set_solver.
Qed.

Lemma allowlist_mode_new cfg :
  rf_allowlist_mode (filter_new cfg) = false ↔ fc_allowed_emails cfg = [] ∧ fc_allowed_domains cfg = [].
Proof.
  simpl. rewrite orb_false_iff, !negb_false_iff, !norm_empty. done.
Qed.

(** The decision without its messages. *)
Definition passes (f : RecipientFilter) (email : string) : bool :=
  let e := to_lowercase email in
  let in_domain s := match domain_of e with Some d => contains s d | None => false end in
  negb (contains (rf_blocked_emails f) e) && negb (in_domain (rf_blocked_domains f))
  && (negb (rf_allowlist_mode f) || contains (rf_allowed_emails f) e
      || in_domain (rf_allowed_domains f)).

Lemma filter_check_passes f email : is_ok (filter_check f email) = passes f email.
Proof.
  unfold filter_check, passes. cbv zeta.
  destruct (contains (rf_blocked_emails f) _); [done|].
  destruct (domain_of _) as [d|].
  - destruct (contains (rf_blocked_domains f) d); [done|].
    destruct (rf_allowlist_mode f); [|done]. simpl.
    by destruct (contains (rf_allowed_emails f) _), (contains (rf_allowed_domains f) d).
  - destruct (rf_allowlist_mode f); [|done]. simpl.
    by destruct (contains (rf_allowed_emails f) _).
Qed.

(** The filter reports nothing but [Blocked]. *)
Lemma filter_check_err f email e : filter_check f email = Err e → ∃ r, e = AppError.Blocked r.
Proof. unfold filter_check. cbv zeta. intros Hc. repeat case_hyp Hc; simplify_eq; by eexists. Qed.

Lemma in_domain_iff o (s : gset string) :
  match o with Some d => contains s d | None => false end = true ↔ ∃ d, o = Some d ∧ d ∈ s.
Proof. destruct o; [rewrite contains_true|]; naive_solver. Qed.

(** A compiled filter lets an address through exactly when the configured
    lists allow it: block-list entries always win, and a non-empty allow-list
    drops whatever it does not name, all compared case-insensitively. *)
Theorem filter_check_iff cfg email :
  filter_check (filter_new cfg) email = Ok tt ↔ may_receive cfg email.
Proof.
  transitivity (passes (filter_new cfg) email = true).
  { rewrite <- filter_check_passes. destruct (filter_check _ _) as [[]|]; naive_solver. }
  unfold passes, may_receive. cbv zeta.
  rewrite !andb_true_iff, !orb_true_iff, !negb_true_iff, !contains_true.
  rewrite contains_false, allowlist_mode_new, <- not_true_iff_false, !in_domain_iff. simpl.
  rewrite elem_of_norm. setoid_rewrite elem_of_norm. naive_solver.
Qed.

(** Two spellings of an address that differ in case only are treated alike. *)
Theorem filter_case_insensitive f e1 e2 :
  to_lowercase e1 = to_lowercase e2 → is_ok (filter_check f e1) = is_ok (filter_check f e2).
Proof. intros He. rewrite !filter_check_passes. unfold passes. by rewrite He. Qed.

(** A filter with no rules lets every address through. *)
Lemma passthrough_allows f email : is_passthrough f = true → filter_check f email = Ok tt.
Proof.
  unfold is_passthrough. rewrite !andb_true_iff, negb_true_iff. unfold set_is_empty.
  rewrite !bool_decide_eq_true. intros [[He Hd] Hm].
  destruct (filter_check f email) as [[]|e] eqn:E; [done|].
  pose proof (filter_check_passes f email) as Hp. rewrite E in Hp.
  unfold passes in Hp. rewrite Hm, He, Hd in Hp. simpl in Hp. revert Hp.
  replace (contains ∅ _) with false; [|symmetry; apply contains_false; set_solver].
  destruct (domain_of _); [|done].
  replace (contains ∅ _) with false; [done|symmetry; apply contains_false; set_solver].
Qed.

End filter.

Lemma filter_case_insensitive_witness :
  is_ok (filter_check (H := sample_env)
           (filter_new (H := sample_env) (mkFilterConfig ["Bad@Example.com"] [] [] [])) "BAD@example.COM")
  = is_ok (filter_check (H := sample_env)
           (filter_new (H := sample_env) (mkFilterConfig ["Bad@Example.com"] [] [] [])) "bad@example.com").
Proof. apply (filter_case_insensitive (H := sample_env)). reflexivity. Defined.

Example blocked_wins :
  is_ok (filter_check (H := sample_env) (filter_new (H := sample_env)
    (mkFilterConfig ["banned@example.com"] [] [] ["example.com"])) "Banned@example.com") = false.
Proof. vm_compute. reflexivity. Qed.
Example allow_mode :
  map (λ e, is_ok (filter_check (H := sample_env) (filter_new (H := sample_env)
    (mkFilterConfig [] [] [] ["example.com"])) e)) ["user@example.com"; "user@other.com"]
  = [true; false].
Proof. vm_compute. reflexivity. Qed.
