(* ===== verification/LogStore.v ===== *)
(** * The delivery log store ([crates/store/src/notification_log.rs])

    [EmailNotificationStore]: every SQL statement of the file as a pure
    function on the tables, run by [query], the two inserts of [insert_pending]
    inside one [transaction].  The file ends with the instance of the
    [NotificationStore] interface and the proof of its laws. *)

From S2P Require Import Prelude Order Json AppErr Event World Interfaces.

(** ** SQL helpers *)

(** [event_id = e AND channel = c AND recipient_id = r]. *)
Definition key_matches (e : Uuid) (c r : string) (row : LogRow) : bool :=
  N.eqb (lr_event_id row) e && String.eqb (lr_channel row) c
  && String.eqb (lr_recipient_id row) r.

Definition event_matches (e : Uuid) (c : string) (row : LogRow) : bool :=
  N.eqb (lr_event_id row) e && String.eqb (lr_channel row) c.

(** [UPDATE notification_log SET f WHERE p], with the rows it touched. *)
Definition update_where (p : LogRow → bool) (f : LogRow → LogRow) (rows : list LogRow) :
    list LogRow :=
  map (λ r, if p r then f r else r) rows.

Definition selected (p : LogRow → bool) (rows : list LogRow) : list LogRow :=
  base.filter (λ r, p r = true) rows.

(** [INT + 1] overflows for a selected row. *)
Definition any_overflow (p : LogRow → bool) (get : LogRow → Z) (rows : list LogRow) : bool :=
  existsb (λ r, p r && (i32_max <=? get r)) rows.

Definition out_of_range : string := "integer out of range".
Definition unique_violation : string := "duplicate key value violates unique constraint".

(** [LEFT JOIN email_notification_log e ON e.notification_id = n.id]. *)
Definition find_detail (id : Uuid) (details : list DetailRow) : option EmailDeliveryDetail :=
  match List.find (λ d, N.eqb (dr_notification_id d) id) details with
  | Some d => Some (dr_detail d)
  | None => None
  end.

(** [COALESCE(e.recipient_email, n.recipient_id)]. *)
Definition joined_email (row : LogRow) (d : option EmailDeliveryDetail) : string :=
  match d with Some d => ed_recipient_email d | None => lr_recipient_id row end.

(** [NotificationLog { .. }] from a joined row. *)
Definition to_log (row : LogRow) (d : option EmailDeliveryDetail) : result NotificationLog AppError :=
  let opt {A} (f : EmailDeliveryDetail → option A) : option A :=
    match d with Some d => f d | None => None end in
  result_map (λ st,
    {| nl_id := lr_id row; nl_event_id := lr_event_id row; nl_event_type := lr_event_type row;
       nl_channel := CHANNEL_EMAIL; nl_status := st; nl_retry_count := lr_retry_count row;
       nl_total_attempts := lr_total_attempts row; nl_last_error := lr_last_error row;
       nl_payload := Some (lr_payload row); nl_event_timestamp := Some (lr_event_timestamp row);
       nl_created_at := lr_created_at row; nl_updated_at := lr_updated_at row;
       nl_recipient_email := joined_email row d; nl_recipient_name := opt ed_recipient_name;
       nl_from_override := opt ed_from_override; nl_sender_account := opt ed_sender_account;
       nl_send_mode := opt ed_send_mode; nl_group_retry_mode := opt ed_group_retry_mode;
       nl_attachments := opt ed_attachments; nl_cc := opt ed_cc; nl_bcc := opt ed_bcc;
       nl_to_recipients := opt ed_to_recipients |})
    (status_try_from (lr_status row)).

Section store.
Context `{Env}.

(** ** Statements *)

Record InsertedRow : Type := mkInsertedRow {
  ir_id : Uuid;
  ir_retry_count : Z;
  ir_status : string;
  ir_was_conflict : bool;
}.

(** The upsert on [notification_log]: on a conflict the row is returned
    untouched; otherwise a PENDING row with the column defaults is added. *)
Definition sql_insert_log (a : EmailInsertPendingArgs) (t : nat) (d : Db) :
    result (InsertedRow * Db) string :=
  match List.find (key_matches (ia_event_id a) CHANNEL_EMAIL (ia_recipient_email a)) (db_log d) with
  | Some r => Ok (mkInsertedRow (lr_id r) (lr_retry_count r) (lr_status r) true, d)
  | None =>
      let id := fresh_uuid t in
      if existsb (λ r, N.eqb (lr_id r) id) (db_log d) then Err unique_violation
      else Ok (mkInsertedRow id 0 "PENDING" false,
               set_log (λ l, l ++ [mkLogRow id (ia_event_id a) (ia_event_type a) CHANNEL_EMAIL
                 (ia_recipient_email a) "PENDING" 0 0 None (ia_payload a)
                 (ia_event_timestamp a) (clock t) (clock t)]) d)
  end.

(** The detail row, keyed by the log row's id. *)
Definition sql_insert_detail (id : Uuid) (a : EmailInsertPendingArgs) (t : nat) (d : Db) :
    result (unit * Db) string :=
  if existsb (λ r, N.eqb (dr_notification_id r) id) (db_detail d) then Err unique_violation
  else Ok (tt, set_detail (λ l, l ++ [mkDetailRow id
         {| ed_recipient_email := ia_recipient_email a;
            ed_recipient_name := ia_recipient_name a;
            ed_from_override := ia_from_override a;
            ed_sender_account := ia_sender_account a;
            ed_send_mode := Some (ia_send_mode a);
            ed_group_retry_mode := ia_group_retry_mode a;
            ed_attachments := ia_attachments a;
            ed_cc := ia_cc a; ed_bcc := ia_bcc a;
            ed_to_recipients := ia_to_recipients a |}]) d).

(** An [UPDATE] of the row with the key; the result is [rows_affected]. *)
Definition sql_update (p : LogRow → bool) (f : LogRow → LogRow) (d : Db) : Z * Db :=
  (Z.of_nat (length (selected p (db_log d))), set_log (update_where p f) d).

Definition set_sent (t : nat) (r : LogRow) : LogRow :=
  mkLogRow (lr_id r) (lr_event_id r) (lr_event_type r) (lr_channel r) (lr_recipient_id r)
    "SENT" (lr_retry_count r) (lr_total_attempts r + 1) (lr_last_error r)
    (lr_payload r) (lr_event_timestamp r) (lr_created_at r) (clock t).

Definition set_failed (msg status : string) (t : nat) (r : LogRow) : LogRow :=
  mkLogRow (lr_id r) (lr_event_id r) (lr_event_type r) (lr_channel r) (lr_recipient_id r)
    status (lr_retry_count r + 1) (lr_total_attempts r + 1) (Some msg)
    (lr_payload r) (lr_event_timestamp r) (lr_created_at r) (clock t).

(** Status and error only ([mark_blocked], [revert_to_failed], the reaper). *)
Definition set_status (status msg : string) (t : nat) (r : LogRow) : LogRow :=
  mkLogRow (lr_id r) (lr_event_id r) (lr_event_type r) (lr_channel r) (lr_recipient_id r)
    status (lr_retry_count r) (lr_total_attempts r) (Some msg)
    (lr_payload r) (lr_event_timestamp r) (lr_created_at r) (clock t).

Definition set_reset (t : nat) (r : LogRow) : LogRow :=
  mkLogRow (lr_id r) (lr_event_id r) (lr_event_type r) (lr_channel r) (lr_recipient_id r)
    "PENDING" 0 (lr_total_attempts r) None
    (lr_payload r) (lr_event_timestamp r) (lr_created_at r) (clock t).

(** ** Operations of [EmailNotificationStore] *)

(** The pair of inserts both entry points run inside their transaction. *)
Definition insert_row_pair (a : EmailInsertPendingArgs) : M (result InsertResult AppError) :=
  let? row := query (sql_insert_log a) in
  if ir_was_conflict row
  then st_ret (Ok (InsertResult.Duplicate (ir_retry_count row) (ir_status row)))
  else
    let? _ := query (sql_insert_detail (ir_id row) a) in
    st_ret (Ok InsertResult.Inserted).

Definition email_insert_pending (a : EmailInsertPendingArgs) : M (result InsertResult AppError) :=
  transaction (insert_row_pair a).

Fixpoint insert_batch_rows (args : list EmailInsertPendingArgs) :
    M (result (list InsertResult) AppError) :=
  match args with
  | [] => st_ret (Ok [])
  | a :: args =>
      let? r := insert_row_pair a in
      let? rs := insert_batch_rows args in
      st_ret (Ok (r :: rs))
  end.

Definition email_insert_pending_batch (args : list EmailInsertPendingArgs) :
    M (result (list InsertResult) AppError) :=
  transaction (insert_batch_rows args).

(** [rows_affected() == 0] becomes [NotFound]. *)
Definition require_row (n : Z) (msg : string) : M (result unit AppError) :=
  if n =? 0 then st_ret (Err (AppError.NotFound msg)) else st_ret (Ok tt).

Definition row_name (event_id : Uuid) (recipient_id : string) : string :=
  uuid_str event_id +:+ "/" +:+ recipient_id.

Definition email_mark_sent (event_id : Uuid) (recipient_id : string) : M (result unit AppError) :=
  let p := key_matches event_id CHANNEL_EMAIL recipient_id in
  let? n := query (λ t d,
    if any_overflow p lr_total_attempts (db_log d) then Err out_of_range
    else Ok (sql_update p (set_sent t) d)) in
  require_row n ("mark_sent: no row for " +:+ row_name event_id recipient_id).

Definition email_mark_failed (event_id : Uuid) (recipient_id error_msg : string)
    (exhausted : bool) : M (result unit AppError) :=
  let status := if exhausted then "FAILED" else "PENDING" in
  let p := key_matches event_id CHANNEL_EMAIL recipient_id in
  let? n := query (λ t d,
    if any_overflow p lr_retry_count (db_log d) || any_overflow p lr_total_attempts (db_log d)
    then Err out_of_range
    else Ok (sql_update p (set_failed error_msg status t) d)) in
  require_row n ("mark_failed: no row for " +:+ row_name event_id recipient_id).

Definition email_mark_blocked (event_id : Uuid) (recipient_id reason : string) :
    M (result unit AppError) :=
  let p := key_matches event_id CHANNEL_EMAIL recipient_id in
  let? n := query (λ t d, Ok (sql_update p (set_status "BLOCKED" reason t) d)) in
  require_row n ("mark_blocked: no row for " +:+ row_name event_id recipient_id).

Definition sql_insert_skipped (event_id : Uuid) (event_type recipient_id reason : string)
    (ts : DateTime) (payload : json) (t : nat) (d : Db) : result (unit * Db) string :=
  match List.find (key_matches event_id CHANNEL_EMAIL recipient_id) (db_log d) with
  | Some _ => Ok (tt, d)
  | None =>
      let id := fresh_uuid t in
      if existsb (λ r, N.eqb (lr_id r) id) (db_log d) then Err unique_violation
      else Ok (tt, set_log (λ l, l ++ [mkLogRow id event_id event_type CHANNEL_EMAIL recipient_id
                 "SKIPPED" 0 0 (Some reason) payload ts (clock t) (clock t)]) d)
  end.

Definition email_mark_skipped (event_id : Uuid) (event_type recipient_id reason : string)
    (ts : DateTime) (payload : json) : M (result unit AppError) :=
  query (sql_insert_skipped event_id event_type recipient_id reason ts payload).

(** ** Reads *)

Definition select_rows (p : LogRow → option EmailDeliveryDetail → bool) (d : Db) :
    list (LogRow * option EmailDeliveryDetail) :=
  base.filter (λ rd, p rd.1 rd.2 = true)
    (map (λ r, (r, find_detail (lr_id r) (db_detail d))) (db_log d)).

(** No row is [NotFound]; otherwise each is read, the first bad status fails. *)
Definition collect_logs (event_id : Uuid) (rows : list (LogRow * option EmailDeliveryDetail)) :
    M (result (list NotificationLog) AppError) :=
  match rows with
  | [] => st_ret (Err (AppError.NotFound (uuid_str event_id)))
  | _ => st_ret (result_mapM (λ rd, to_log rd.1 rd.2) rows)
  end.

Definition email_get_by_event_id (event_id : Uuid) : M (result (list NotificationLog) AppError) :=
  let? rows := query (λ _ d,
    Ok (take 500 (order_by (λ rd, lr_created_at rd.1)
          (select_rows (λ r _, event_matches event_id CHANNEL_EMAIL r) d)), d)) in
  collect_logs event_id rows.

Definition email_get_recipients_for_event (event_id : Uuid) (only_emails : option (list string)) :
    M (result (list NotificationLog) AppError) :=
  match only_emails with
  | Some ((_ :: _) as emails) =>
      let? rows := query (λ _ d,
        Ok (take 500 (order_by (λ rd, lr_created_at rd.1)
              (select_rows (λ r e, event_matches event_id CHANNEL_EMAIL r
                                   && existsb (String.eqb (joined_email r e)) emails) d)), d)) in
      collect_logs event_id rows
  | _ => email_get_by_event_id event_id
  end.

Definition email_get_by_event_and_recipient (event_id : Uuid) (recipient_id : string) :
    M (result NotificationLog AppError) :=
  let? row := query (λ _ d,
    Ok (match List.find (key_matches event_id CHANNEL_EMAIL recipient_id) (db_log d) with
        | Some r => Some (r, find_detail (lr_id r) (db_detail d))
        | None => None
        end, d)) in
  match row with
  | None => st_ret (Err (AppError.NotFound (row_name event_id recipient_id)))
  | Some (r, e) => st_ret (to_log r e)
  end.

(** ** Manual retry *)

Definition is_status (s : string) (r : LogRow) : bool := String.eqb (lr_status r) s.

Definition email_reset_for_retry (event_id : Uuid) (recipient_id : string) :
    M (result unit AppError) :=
  let? n := query (λ t d,
    Ok (sql_update (λ r, key_matches event_id CHANNEL_EMAIL recipient_id r
                         && (is_status "FAILED" r || is_status "BLOCKED" r)) (set_reset t) d)) in
  require_row n ("No FAILED or BLOCKED record for " +:+ row_name event_id recipient_id).

Definition email_reset_all_failed_for_event (event_id : Uuid) :
    M (result (list string) AppError) :=
  query (λ t d,
    let p := λ r, event_matches event_id CHANNEL_EMAIL r && is_status "FAILED" r in
    Ok (map lr_recipient_id (selected p (db_log d)), set_log (update_where p (set_reset t)) d)).

Definition email_revert_to_failed (event_id : Uuid) (recipient_ids : list string)
    (reason : string) : M (result Z AppError) :=
  query (λ t d,
    Ok (sql_update (λ r, event_matches event_id CHANNEL_EMAIL r
                         && existsb (String.eqb (lr_recipient_id r)) recipient_ids
                         && is_status "PENDING" r) (set_status "FAILED" reason t) d)).

(** The rows are inner-joined; the debug-build assertions are not modelled. *)
Definition email_get_event_delivery_detail (event_id : Uuid) :
    M (result EventDeliveryDetail AppError) :=
  let? rows := query (λ _ d,
    Ok (order_by (λ rd, lr_created_at rd.1)
          (select_rows (λ r e, event_matches event_id CHANNEL_EMAIL r
                               && match e with Some _ => true | None => false end) d), d)) in
  match rows with
  | (first, Some e) :: _ =>
      st_ret (Ok {| ev_event_type := lr_event_type first;
                    ev_payload := lr_payload first;
                    ev_event_timestamp := lr_event_timestamp first;
                    ev_earliest_created_at :=
                      fold_left (λ m rd, Z.min m (lr_created_at rd.1)) rows (lr_created_at first);
                    ev_from_override := ed_from_override e;
                    ev_sender_account := ed_sender_account e;
                    ev_send_mode := ed_send_mode e;
                    ev_group_retry_mode := ed_group_retry_mode e;
                    ev_attachments := ed_attachments e;
                    ev_cc := ed_cc e;
                    ev_bcc := ed_bcc e |})
  | _ => st_ret (Err (AppError.NotFound (uuid_str event_id)))
  end.

(** ** The stale-PENDING reaper *)

Definition reaper_message : string :=
  "Orphaned by stale-PENDING reaper: PENDING row exceeded timeout with no AMQP message to drive it. Trigger a manual retry when the broker is healthy.".

Definition is_stale (timeout_secs now : Z) (r : LogRow) : bool :=
  is_status "PENDING" r && String.eqb (lr_channel r) CHANNEL_EMAIL
  && (lr_updated_at r <? now - timeout_secs * 1000000000).

(** A [HashSet] filter over the ids: the first occurrence of each id. *)
Fixpoint dedup (seen : list N) (l : list N) : list N :=
  match l with
  | [] => []
  | x :: l => if existsb (N.eqb x) seen then dedup seen l else x :: dedup (x :: seen) l
  end.

Definition email_reap_stale_pending (timeout_secs : Z) : M (result (list Uuid) AppError) :=
  let? ids := query (λ t d,
    let p := is_stale timeout_secs (clock t) in
    Ok (map lr_event_id (selected p (db_log d)),
        set_log (update_where p (set_status "FAILED" reaper_message t)) d)) in
  st_ret (Ok (dedup [] ids)).

#[export] Instance EmailNotificationStore : NotificationStore := {|
  insert_pending := email_insert_pending;
  insert_pending_batch := email_insert_pending_batch;
  mark_sent := email_mark_sent;
  mark_failed := email_mark_failed;
  reap_stale_pending := email_reap_stale_pending;
  mark_blocked := email_mark_blocked;
  mark_skipped := email_mark_skipped;
  get_by_event_id := email_get_by_event_id;
  get_recipients_for_event := email_get_recipients_for_event;
  get_by_event_and_recipient := email_get_by_event_and_recipient;
  reset_for_retry := email_reset_for_retry;
  reset_all_failed_for_event := email_reset_all_failed_for_event;
  revert_to_failed := email_revert_to_failed;
  get_event_delivery_detail := email_get_event_delivery_detail;
|}.

(** ** The abstract view *)

Definition cell_of (r : LogRow) : Cell :=
  mkCell (lr_status r) (lr_retry_count r) (lr_total_attempts r) (lr_last_error r).

Fixpoint log_cells (rows : list LogRow) : gmap Key Cell :=
  match rows with
  | [] => ∅
  | r :: rows =>
      if String.eqb (lr_channel r) CHANNEL_EMAIL
      then <[(lr_event_id r, lr_recipient_id r) := cell_of r]> (log_cells rows)
      else log_cells rows
  end.

Lemma key_matches_iff e rid r :
  key_matches e CHANNEL_EMAIL rid r = true ↔
  lr_channel r = CHANNEL_EMAIL ∧ (lr_event_id r, lr_recipient_id r) = (e, rid).
Proof.
  unfold key_matches. rewrite !andb_true_iff, N.eqb_eq, !String.eqb_eq. naive_solver.
Qed.

Lemma log_cells_find e rid rows :
  log_cells rows !! (e, rid)
  = match List.find (key_matches e CHANNEL_EMAIL rid) rows with
    | Some r => Some (cell_of r)
    | None => None
    end.
Proof.
  induction rows as [|r rows IH]; simpl; [apply lookup_empty|].
  destruct (key_matches e CHANNEL_EMAIL rid r) eqn:E.
  - apply key_matches_iff in E as [-> Hk]. simpl. rewrite Hk. apply lookup_insert_eq.
  - rewrite <- IH. destruct (String.eqb_spec (lr_channel r) CHANNEL_EMAIL) as [Hc|]; [|done].
    apply lookup_insert_ne. intros Hk.
    assert (key_matches e CHANNEL_EMAIL rid r = true) by (by apply key_matches_iff). congruence.
Qed.

Lemma log_cells_app rows r :
  lr_channel r = CHANNEL_EMAIL →
  log_cells rows !! (lr_event_id r, lr_recipient_id r) = None →
  log_cells (rows ++ [r]) = <[(lr_event_id r, lr_recipient_id r) := cell_of r]> (log_cells rows).
Proof.
  intros Hc. induction rows as [|r' rows IH]; simpl.
  - intros _. by rewrite Hc.
  - destruct (String.eqb (lr_channel r') CHANNEL_EMAIL); [|done].
    intros [Hn Hne]%lookup_insert_None. rewrite IH by done. by apply insert_insert_ne.
Qed.

Lemma log_cells_update e rid f g rows :
  (∀ r, key_matches e CHANNEL_EMAIL rid r = true →
        lr_channel (f r) = lr_channel r ∧ lr_event_id (f r) = lr_event_id r
        ∧ lr_recipient_id (f r) = lr_recipient_id r ∧ cell_of (f r) = g (cell_of r)) →
  log_cells (update_where (key_matches e CHANNEL_EMAIL rid) f rows)
  = alter g (e, rid) (log_cells rows).
Proof.
  intros Hf. induction rows as [|r rows IH]; simpl.
  - by rewrite alter_empty.
  - destruct (key_matches e CHANNEL_EMAIL rid r) eqn:E.
    + destruct (Hf r E) as (-> & -> & -> & ->). apply key_matches_iff in E as [-> Hk].
      simpl. rewrite IH, Hk. by rewrite alter_insert_eq, insert_alter_eq.
    + destruct (String.eqb_spec (lr_channel r) CHANNEL_EMAIL) as [Hc|]; [|done].
      rewrite IH. rewrite alter_insert_ne; [done|]. intros Hk.
      assert (key_matches e CHANNEL_EMAIL rid r = true) by (by apply key_matches_iff). congruence.
Qed.

Definition email_cells (w : World) : gmap Key Cell := log_cells (db_log (w_db w)).

(** ** The laws *)

Lemma insert_row_pair_cells a w x w' :
  insert_row_pair a w = (Ok x, w') → insert_cell (arg_key a) (email_cells w) = (x, email_cells w').
Proof.
  unfold insert_row_pair, email_cells, insert_cell, arg_key. run_st.
  destruct (query (sql_insert_log a) w) as [[row|e] w1] eqn:Hq; [|done].
  apply query_spec in Hq as [(?&?&?)|(row' & d & [= <-] & Hs & Hd & _)]; [done|].
  revert Hs. unfold sql_insert_log. rewrite log_cells_find.
  destruct (List.find _ _) as [r|] eqn:Hf.
  - intros [= <- <-]. simpl. intros [= <- <-]. by rewrite Hd.
  - destruct (existsb _ _); [done|]. intros [= <- <-]. simpl.
    destruct (query (sql_insert_detail _ a) w1) as [[[]|e] w2] eqn:Hq2; [|done].
    apply query_spec in Hq2 as [(?&?&?)|([] & d2 & _ & Hs2 & Hd2 & _)]; [done|].
    intros [= <- <-]. f_equal. revert Hs2. unfold sql_insert_detail.
    destruct (existsb _ _); [done|]. intros [= <-]. rewrite Hd2, Hd. simpl.
    rewrite log_cells_app; [done..|]. simpl. rewrite log_cells_find. by rewrite Hf.
Qed.

Lemma insert_batch_rows_cells l w xs w' :
  insert_batch_rows l w = (Ok xs, w') →
  insert_cells (map arg_key l) (email_cells w) = (xs, email_cells w').
Proof.
  revert w xs w'. induction l as [|a l IH]; intros w xs w'; cbn [insert_batch_rows map insert_cells].
  - by intros [= <- <-].
  - run_st. destruct (insert_row_pair a w) as [[x|e] w1] eqn:E1; [|done].
    apply insert_row_pair_cells in E1 as ->.
    destruct (insert_batch_rows l w1) as [[xs'|e] w2] eqn:E2; [|done].
    apply IH in E2 as ->. by intros [= <- <-].
Qed.

Lemma insert_row_pair_quiet a : keeps quiet (insert_row_pair a).
Proof.
  unfold insert_row_pair. apply keeps_try; [apply _|auto with keeps|]. intros row.
  destruct (ir_was_conflict row); [auto using keeps_ret with typeclass_instances|].
  apply keeps_try; [apply _|auto with keeps|]. intros _. apply keeps_ret, _.
Qed.

Lemma insert_batch_rows_quiet l : keeps quiet (insert_batch_rows l).
Proof.
  induction l as [|a l IH]; [apply keeps_ret, _|].
  apply keeps_try; [apply _|apply insert_row_pair_quiet|]. intros r.
  apply keeps_try; [apply _|done|]. intros rs. apply keeps_ret, _.
Qed.

Lemma selected_nil p rows : selected p rows = [] ↔ List.find p rows = None.
Proof.
  unfold selected. induction rows as [|r rows IH]; [done|]. simpl.
  rewrite filter_cons. destruct (p r); [by case_decide|]. by case_decide.
Qed.

(** An update by key followed by the row-count test. *)
Lemma update_by_key e rid (stmt : nat → Db → result (Z * Db) string) f g msg w r w' :
  (∀ t d n d', stmt t d = Ok (n, d') →
     (n, d') = sql_update (key_matches e CHANNEL_EMAIL rid) (f t) d) →
  (∀ t x, key_matches e CHANNEL_EMAIL rid x = true →
        lr_channel (f t x) = lr_channel x ∧ lr_event_id (f t x) = lr_event_id x
        ∧ lr_recipient_id (f t x) = lr_recipient_id x ∧ cell_of (f t x) = g (cell_of x)) →
  (let? n := query stmt in require_row n msg) w = (r, w') →
  quiet w w' ∧ update_post (e, rid) g (email_cells w) r (email_cells w').
Proof.
  intros Hst Hf Hrun. split.
  { change w' with ((r, w').2). rewrite <- Hrun.
    apply (keeps_try quiet); [apply query_quiet|]. intros n.
    unfold require_row. by destruct (n =? 0); intros ?. }
  revert Hrun. run_st. destruct (query stmt w) as [[n|er] w1] eqn:Hq.
  - apply query_spec in Hq as [(?&?&?)|(n' & d & [= <-] & Hs & Hd & _)]; [done|].
    apply Hst in Hs. unfold sql_update in Hs. injection Hs as -> Hd'. subst d.
    unfold require_row, email_cells. intros Hr.
    pose proof (log_cells_find e rid (db_log (w_db w))) as Hfind.
    destruct (Z.of_nat _ =? 0) eqn:Hn; injection Hr as <- <-; rewrite Hd; simpl.
    + assert (Hnone : selected (key_matches e CHANNEL_EMAIL rid) (db_log (w_db w)) = []).
      { apply length_zero_iff_nil. lia. }
      apply selected_nil in Hnone. rewrite Hnone in Hfind. split; [done|].
      rewrite (log_cells_update _ _ _ g) by auto. by apply alter_id'.
    + split; [|by apply log_cells_update; auto]. rewrite Hfind.
      destruct (List.find _ _) as [x|] eqn:Hx; [done|].
      apply selected_nil in Hx. by rewrite Hx in Hn.
  - apply query_spec in Hq as [(e0 & He & Hd)|(?&?&?&?)]; [|done]. simplify_eq.
    intros [= <- <-]. simpl. unfold email_cells. by rewrite Hd.
Qed.

Lemma query_same_log {A} (f : Db → A) : keeps aside (query (λ _ d, Ok (f d, d))).
Proof.
  intros w. split; [apply query_quiet|].
  destruct (query _ w) as [r w1] eqn:Hq.
  apply query_spec in Hq as [(e & -> & Hd)|(a & d & -> & [= <- <-] & Hd & _)];
    unfold same_log; simpl; by rewrite Hd.
Qed.

Lemma get_one_aside e rid : keeps aside (email_get_by_event_and_recipient e rid).
Proof.
  apply keeps_try; [apply _|apply query_same_log|]. intros [[r d]|]; apply keeps_ret, _.
Qed.

Lemma get_one_status e rid w l w' :
  email_get_by_event_and_recipient e rid w = (Ok l, w') →
  ∃ c, email_cells w !! (e, rid) = Some c ∧ status_try_from (c_status c) = Ok (nl_status l).
Proof.
  unfold email_get_by_event_and_recipient, email_cells. run_st.
  destruct (query _ w) as [[row|er] w1] eqn:Hq; [|done].
  apply query_spec in Hq as [(?&?&?)|(row' & d & [= <-] & [= <- <-] & _)]; [done|].
  rewrite log_cells_find. destruct (List.find _ _) as [r|]; [|done].
  unfold to_log, st_ret. intros [= Hl <-]. eexists. split; [done|]. simpl.
  destruct (status_try_from (lr_status r)); [|done]. by injection Hl as <-.
Qed.

#[export] Instance EmailNotificationStore_laws : NotificationStoreLaws.
Proof.
  unshelve econstructor; [exact email_cells|..].
  - intros w w' [Hl _]. unfold email_cells. by rewrite Hl.
  - intros a w r w' Hrun. split.
    { change w' with ((r, w').2). rewrite <- Hrun. apply transaction_quiet, insert_row_pair_quiet. }
    apply transaction_spec in Hrun as [(e & -> & Hd)|(x & w1 & w2 & -> & H1 & H2 & H3)].
    + unfold email_cells. by rewrite Hd.
    + apply insert_row_pair_cells in H2. unfold email_cells in *. by rewrite H3, <- H1.
  - intros l w r w' Hrun. split.
    { change w' with ((r, w').2). rewrite <- Hrun. apply transaction_quiet, insert_batch_rows_quiet. }
    apply transaction_spec in Hrun as [(e & -> & Hd)|(x & w1 & w2 & -> & H1 & H2 & H3)].
    + unfold email_cells. by rewrite Hd.
    + apply insert_batch_rows_cells in H2. unfold email_cells in *. by rewrite H3, <- H1.
  - intros e rid w r w'. apply (update_by_key _ _ _ set_sent).
    + intros t d n d'. by destruct (any_overflow _ _ _); intros [= <- <-].
    + done.
  - intros e rid msg ex w r w'. apply (update_by_key _ _ _ (set_failed msg (if ex then "FAILED" else "PENDING"))).
    + intros t d n d'. by destruct (_ || _); intros [= <- <-].
    + done.
  - intros e rid reason w r w'. apply (update_by_key _ _ _ (set_status "BLOCKED" reason)).
    + by intros t d n d' [= <- <-].
    + done.
  - intros e ty rid reason ts p w r w' Hrun. split.
    { change w' with ((r, w').2). rewrite <- Hrun. apply query_quiet. }
    apply query_spec in Hrun as [(er & -> & Hd)|([] & d & -> & Hs & Hd & _)]; unfold email_cells;
      rewrite Hd; [done|].
    revert Hs. unfold sql_insert_skipped. rewrite log_cells_find.
    destruct (List.find _ _) as [x|] eqn:Hf; [by intros [= <-]|].
    destruct (existsb _ _); [done|]. intros [= <-]. simpl.
    rewrite log_cells_app; [done..|]. simpl. rewrite log_cells_find. by rewrite Hf.
  - intros e rid w r w' Hrun. pose proof (get_one_aside e rid w) as Ha.
    change (get_by_event_and_recipient e rid w) with (email_get_by_event_and_recipient e rid w) in Hrun.
    rewrite Hrun in Ha. destruct Ha as [Hq [Hl _]]. split; [done|]. split.
    { unfold email_cells. simpl in Hl. by rewrite Hl. }
    destruct r as [l|]; [|done]. by eapply get_one_status.
Defined.

End store.
