(* ===== verification/LogInvariant.v ===== *)
(** * Invariants of the delivery log

    What every operation of [EmailNotificationStore] preserves, whatever the
    order they are called in and wherever the database fails: keys and ids stay
    unique, detail rows stay attached, rows are never lost and their identity
    and content columns never change, the lifetime counter never goes down. *)

From S2P Require Import Prelude Json AppErr Event World Interfaces LogStore.

Definition row_key (r : LogRow) : N * string * string :=
  (lr_event_id r, lr_channel r, lr_recipient_id r).

(** The tables' constraints, and a detail row mirrors its log row. *)
Record log_wf (d : Db) : Prop := {
  wf_ids : NoDup (map lr_id (db_log d));
  wf_keys : NoDup (map row_key (db_log d));
  wf_detail_ids : NoDup (map dr_notification_id (db_detail d));
  wf_attached x : x ∈ db_detail d →
    ∃ r, r ∈ db_log d ∧ lr_id r = dr_notification_id x
         ∧ ed_recipient_email (dr_detail x) = lr_recipient_id r;
}.

Record row_evolves (r r' : LogRow) : Prop := {
  re_id : lr_id r' = lr_id r;
  re_key : row_key r' = row_key r;
  re_type : lr_event_type r' = lr_event_type r;
  re_payload : lr_payload r' = lr_payload r;
  re_event_timestamp : lr_event_timestamp r' = lr_event_timestamp r;
  re_created_at : lr_created_at r' = lr_created_at r;
  re_attempts : lr_total_attempts r ≤ lr_total_attempts r';
}.

(** Rows may be updated in place and added at the end, details only added. *)
Definition log_evolves (d d' : Db) : Prop :=
  (∃ old new, Forall2 row_evolves (db_log d) old ∧ db_log d' = old ++ new)
  ∧ (∃ new, db_detail d' = db_detail d ++ new)
  ∧ (log_wf d → log_wf d').

#[export] Instance row_evolves_preorder : PreOrder row_evolves.
Proof.
  split; [by intros r|]. intros r1 r2 r3 [] []. constructor; (congruence || lia).
Qed.

#[export] Instance log_evolves_preorder : PreOrder log_evolves.
Proof.
  split.
  - intros d. split_and!; [exists (db_log d), []|by exists []; rewrite app_nil_r|done].
    by rewrite app_nil_r.
  - intros d1 d2 d3 ((o1 & n1 & H1 & E1) & (m1 & D1) & W1) ((o2 & n2 & H2 & E2) & (m2 & D2) & W2).
    split_and!; [|exists (m1 ++ m2); by rewrite D2, D1, app_assoc|auto].
    rewrite E1 in H2. apply Forall2_app_inv_l in H2 as (o2' & n1' & H2a & H2b & ->).
    exists o2', (n1' ++ n2). split; [|by rewrite E2, app_assoc].
    by transitivity o1.
Qed.

(** The relation lifted to worlds. *)
Definition db_evolves : relation World := λ w w', log_evolves (w_db w) (w_db w').
#[export] Instance db_evolves_preorder : PreOrder db_evolves.
Proof. split; [intros w; red; reflexivity|intros w1 w2 w3 ??; red; by etransitivity]. Qed.

(** ** Statements *)

Lemma update_evolves p f d :
  (∀ r, row_evolves r (f r)) → log_evolves d (set_log (update_where p f) d).
Proof.
  intros Hf.
  assert (Hr : ∀ r, row_evolves r (if p r then f r else r)) by (intros r; by destruct (p r)).
  assert (Hmap : ∀ {B} (g : LogRow → B), (∀ r, g (if p r then f r else r) = g r) →
            map g (update_where p f (db_log d)) = map g (db_log d)).
  { intros B g Hg. unfold update_where. rewrite map_map. by apply map_ext. }
  split_and!; [|by exists []; rewrite app_nil_r|].
  - exists (update_where p f (db_log d)), []. rewrite app_nil_r. split; [|done].
    clear Hmap. unfold update_where. induction (db_log d); simpl; [apply Forall2_nil_2|].
    by apply Forall2_cons_2.
  - intros [Hi Hk Hd Ha]. constructor; simpl.
    + rewrite Hmap; [done|]. intros r. apply (Hr r).
    + rewrite Hmap; [done|]. intros r. apply (Hr r).
    + done.
    + intros x (r & Hin & H1 & H2)%Ha. exists (if p r then f r else r). split_and!.
      * unfold update_where. apply list_elem_of_fmap. by exists r.
      * by rewrite (re_id _ _ (Hr r)).
      * pose proof (re_key _ _ (Hr r)) as Hkey. unfold row_key in Hkey. congruence.
Qed.

Lemma existsb_not_in {A} (g : A → N) (x : N) l :
  existsb (λ r, N.eqb (g r) x) l = false → x ∉ map g l.
Proof.
  intros He (r & -> & Hin)%list_elem_of_fmap.
  assert (existsb (λ r', N.eqb (g r') (g r)) l = true); [|congruence].
  apply existsb_exists. exists r. split; [by apply list_elem_of_In|apply N.eqb_refl].
Qed.

Lemma find_key_not_in e c rid l :
  List.find (key_matches e c rid) l = None → (e, c, rid) ∉ map row_key l.
Proof.
  intros Hf (r & Hk & Hin)%list_elem_of_fmap.
  pose proof (find_none _ _ Hf r) as Hn. rewrite <- list_elem_of_In in Hn. specialize (Hn Hin).
  unfold row_key in Hk. injection Hk as -> -> ->. unfold key_matches in Hn.
  by rewrite N.eqb_refl, !String.eqb_refl in Hn.
Qed.

Lemma append_evolves row d :
  existsb (λ r, N.eqb (lr_id r) (lr_id row)) (db_log d) = false →
  List.find (key_matches (lr_event_id row) (lr_channel row) (lr_recipient_id row)) (db_log d) = None →
  log_evolves d (set_log (λ l, l ++ [row]) d).
Proof.
  intros Hid Hkey. split_and!; [|by exists []; rewrite app_nil_r|].
  - exists (db_log d), [row]. done.
  - intros [Hi Hk Hd Ha]. constructor; simpl; try done.
    + rewrite map_app. apply NoDup_app. split_and!; [done| |apply NoDup_singleton].
      intros x Hx ->%list_elem_of_singleton. by apply existsb_not_in in Hid.
    + rewrite map_app. apply NoDup_app. split_and!; [done| |apply NoDup_singleton].
      intros x Hx ->%list_elem_of_singleton. by apply find_key_not_in in Hkey.
    + intros x (r & Hin & ?)%Ha. exists r. split; [set_solver|done].
Qed.

Section ops.
Context `{Env}.

Lemma query_evolves {A} (stmt : nat → Db → result (A * Db) string) :
  (∀ t d a d', stmt t d = Ok (a, d') → log_evolves d d') → keeps db_evolves (query stmt).
Proof.
  intros Hs w. destruct (query stmt w) as [r w1] eqn:Hq. unfold db_evolves. simpl.
  apply query_spec in Hq as [(e & _ & ->)|(a & d & _ & Hst & -> & _)]; [reflexivity|eauto].
Qed.

Lemma transaction_evolves {A} (m : M (result A AppError)) :
  keeps db_evolves m → keeps db_evolves (transaction m).
Proof.
  intros Hm w. destruct (transaction m w) as [r w'] eqn:Ht. unfold db_evolves. simpl.
  apply transaction_spec in Ht as [(e & _ & ->)|(a & w1 & w2 & _ & H1 & H2 & ->)]; [reflexivity|].
  rewrite <- H1. pose proof (Hm w1) as Hw. by rewrite H2 in Hw.
Qed.

(** The pair of inserts adds a log row and its detail row, or nothing. *)
Lemma insert_pair_evolves a : keeps db_evolves (insert_row_pair a).
Proof.
  intros w. unfold insert_row_pair. run_st.
  destruct (query (sql_insert_log a) w) as [[row|e] w1] eqn:Hq;
    apply query_spec in Hq as [(?&?&Hd)|(row' & d & Hr & Hs & Hd & _)]; simplify_eq;
    unfold db_evolves; simpl; [|by rewrite Hd].
  revert Hs. unfold sql_insert_log. destruct (List.find _ _) as [r|] eqn:Hf.
  { intros [= <- Hd]. simpl. by rewrite <- Hd. }
  destruct (existsb _ _) eqn:Hid; [done|]. intros [= <- Hd]. simpl.
  set (row := mkLogRow _ _ _ _ _ _ _ _ _ _ _ _ _) in Hd.
  pose proof (append_evolves row (w_db w) Hid Hf) as Happ. rewrite Hd in Happ.
  etransitivity; [exact Happ|]. clear Happ.
  destruct (query (sql_insert_detail _ a) w1) as [r w2] eqn:Hq2.
  apply query_spec in Hq2 as [(?&->&Hd2)|([] & d2 & -> & Hs2 & Hd2 & _)]; simpl;
    rewrite Hd2; [reflexivity|].
  revert Hs2. unfold sql_insert_detail. destruct (existsb _ (db_detail _)) eqn:Hx; [done|].
  intros [= <-]. split_and!; simpl.
  - exists (db_log (w_db w1)), []. rewrite app_nil_r. split; [|done].
    by apply Forall_Forall2_diag, Forall_true.
  - by eexists.
  - intros [Hi Hk Hdi Ha]. constructor; simpl; try done.
    + rewrite map_app. apply NoDup_app. split_and!; [done| |apply NoDup_singleton].
      intros x Hin ->%list_elem_of_singleton. by apply existsb_not_in in Hx.
    + intros x [Hin| ->%list_elem_of_singleton]%elem_of_app; [by apply Ha|].
      exists row. split_and!; [|done..]. rewrite <- Hd. simpl. set_solver.
Qed.

Lemma insert_batch_evolves l : keeps db_evolves (insert_batch_rows l).
Proof.
  induction l as [|a l IH]; [apply keeps_ret, _|].
  apply keeps_try; [apply _|apply insert_pair_evolves|]. intros r.
  apply keeps_try; [apply _|done|]. intros rs. apply keeps_ret, _.
Qed.

Lemma set_sent_evolves t r : row_evolves r (set_sent t r).
Proof. constructor; simpl; (done || lia). Qed.
Lemma set_failed_evolves m st t r : row_evolves r (set_failed m st t r).
Proof. constructor; simpl; (done || lia). Qed.
Lemma set_status_evolves st m t r : row_evolves r (set_status st m t r).
Proof. constructor; simpl; (done || lia). Qed.
Lemma set_reset_evolves t r : row_evolves r (set_reset t r).
Proof. constructor; simpl; (done || lia). Qed.

Lemma require_row_evolves n msg : keeps db_evolves (require_row n msg).
Proof. unfold require_row. destruct (n =? 0); apply keeps_ret, _. Qed.

Lemma skipped_evolves e ty rid reason ts p t d a d' :
  sql_insert_skipped e ty rid reason ts p t d = Ok (a, d') → log_evolves d d'.
Proof.
  unfold sql_insert_skipped. destruct (List.find _ _) eqn:Hf; [by intros [= _ <-]|].
  destruct (existsb _ _) eqn:Hid; [done|]. intros [= _ <-]. by apply append_evolves.
Qed.

End ops.

#[export] Hint Resolve query_evolves transaction_evolves insert_pair_evolves insert_batch_evolves
  require_row_evolves update_evolves set_sent_evolves set_failed_evolves set_status_evolves
  set_reset_evolves : keeps.

Section lifecycle.
Context `{Env}.

(** The state-changing operations of the store, as events of a run. *)
Inductive store_op : Type :=
  | OpInsert (a : EmailInsertPendingArgs)
  | OpInsertBatch (l : list EmailInsertPendingArgs)
  | OpSent (e : Uuid) (rid : string)
  | OpFailed (e : Uuid) (rid msg : string) (exhausted : bool)
  | OpBlocked (e : Uuid) (rid reason : string)
  | OpSkipped (e : Uuid) (ty rid reason : string) (ts : DateTime) (p : json)
  | OpReset (e : Uuid) (rid : string)
  | OpResetAll (e : Uuid)
  | OpRevert (e : Uuid) (rids : list string) (reason : string)
  | OpReap (timeout_secs : Z).

Definition run_op (o : store_op) (w : World) : World :=
  match o with
  | OpInsert a => (email_insert_pending a w).2
  | OpInsertBatch l => (email_insert_pending_batch l w).2
  | OpSent e rid => (email_mark_sent e rid w).2
  | OpFailed e rid msg ex => (email_mark_failed e rid msg ex w).2
  | OpBlocked e rid reason => (email_mark_blocked e rid reason w).2
  | OpSkipped e ty rid reason ts p => (email_mark_skipped e ty rid reason ts p w).2
  | OpReset e rid => (email_reset_for_retry e rid w).2
  | OpResetAll e => (email_reset_all_failed_for_event e w).2
  | OpRevert e rids reason => (email_revert_to_failed e rids reason w).2
  | OpReap s => (email_reap_stale_pending s w).2
  end.

Lemma update_query_evolves (p : nat → LogRow → bool) (f : nat → LogRow → LogRow)
    (guard : Db → bool) (msg : string) :
  (∀ t r, row_evolves r (f t r)) →
  keeps db_evolves (query (λ t d, if guard d then Err msg else Ok (sql_update (p t) (f t) d))).
Proof.
  intros Hf. apply query_evolves. intros t d n d'. destruct (guard d); [done|].
  intros [= _ <-]. by apply update_evolves.
Qed.

Lemma run_op_evolves o w : db_evolves w (run_op o w).
Proof.
  destruct o; simpl.
  - revert w. change (keeps db_evolves (email_insert_pending a)). apply transaction_evolves, insert_pair_evolves.
  - revert w. change (keeps db_evolves (email_insert_pending_batch l)). apply transaction_evolves, insert_batch_evolves.
  - revert w. change (keeps db_evolves (email_mark_sent e rid)).
    apply keeps_try; [apply _| |eauto with keeps]. apply (update_query_evolves (λ _, _)). eauto with keeps.
  - revert w. change (keeps db_evolves (email_mark_failed e rid msg exhausted)).
    apply keeps_try; [apply _| |eauto with keeps].
    apply (update_query_evolves (λ _, _) _ (λ d, _ || _)). eauto with keeps.
  - revert w. change (keeps db_evolves (email_mark_blocked e rid reason)).
    apply keeps_try; [apply _| |eauto with keeps].
    apply (update_query_evolves (λ _, _) _ (λ _, false) ""). eauto with keeps.
  - apply query_evolves. intros *. apply skipped_evolves.
  - revert w. change (keeps db_evolves (email_reset_for_retry e rid)).
    apply keeps_try; [apply _| |eauto with keeps].
    apply (update_query_evolves (λ _, _) _ (λ _, false) ""). eauto with keeps.
  - apply query_evolves. intros t d a d' [= _ <-]. eauto with keeps.
  - apply (update_query_evolves (λ _, _) _ (λ _, false) ""). eauto with keeps.
  - revert w. change (keeps db_evolves (email_reap_stale_pending timeout_secs)).
    apply keeps_try; [apply _| |intros; apply keeps_ret, _].
    apply query_evolves. intros t d a d' [= _ <-]. eauto with keeps.
Qed.

(** One operation of any process sharing the database. *)
Definition store_step (w w' : World) : Prop := ∃ o, w' = run_op o w.

Lemma store_run_evolves w w' : rtc store_step w w' → db_evolves w w'.
Proof.
  induction 1 as [|w1 w2 w3 [o ->] _ IH]; [reflexivity|].
  etransitivity; [apply run_op_evolves|exact IH].
Qed.

(** C10: along any run of store operations, from any process and with failures
    anywhere, row ids and idempotency keys stay unique and every detail row
    stays attached to the log row whose recipient it mirrors. *)
Theorem log_wf_invariant w w' :
  rtc store_step w w' → log_wf (w_db w) → log_wf (w_db w').
Proof. intros Hr. by apply store_run_evolves in Hr as (_ & _ & ?). Qed.

(** C11: no run of store operations loses a row, changes what a row is about, or
    lowers its lifetime attempt counter. *)
Theorem rows_survive w w' r :
  rtc store_step w w' → r ∈ db_log (w_db w) →
  ∃ r', r' ∈ db_log (w_db w') ∧ row_evolves r r'.
Proof.
  intros Hr Hin. apply store_run_evolves in Hr as ((old & new & H1 & ->) & _).
  apply list_elem_of_lookup in Hin as [i Hi].
  destruct (Forall2_lookup_l _ _ _ _ _ H1 Hi) as (r' & Hi' & Hev).
  exists r'. split; [|done]. apply elem_of_app. left. by eapply list_elem_of_lookup_2.
Qed.

End lifecycle.

(** ** A concrete run *)

Definition sample_args (e : Uuid) (rid : string) : EmailInsertPendingArgs :=
  mkInsertArgs e "ORDER_CONFIRMATION" rid (JObj []) 0 None None None None None None "individual" None None.

Definition sample_insert : World :=
  run_op (H := sample_env) (OpInsert (sample_args 7 "a@example.com")) (world0 empty_db).

Lemma log_wf_empty : log_wf empty_db.
Proof. constructor; simpl; try constructor. intros x Hx. by apply not_elem_of_nil in Hx. Qed.

Lemma log_wf_invariant_witness : log_wf (w_db sample_insert).
Proof.
  apply (log_wf_invariant (H := sample_env) (world0 empty_db) sample_insert); [|apply log_wf_empty].
  apply rtc_once. eexists. reflexivity.
Defined.

Definition sample_row : LogRow :=
  mkLogRow 1 7 "ORDER_CONFIRMATION" "email" "a@example.com" "PENDING" 0 0 None (JObj []) 0
    1000000000 1000000000.

Lemma rows_survive_witness :
  ∃ r', r' ∈ db_log (w_db (run_op (H := sample_env) (OpSent 7 "a@example.com") sample_insert))
        ∧ row_evolves sample_row r'.
Proof.
  apply (rows_survive (H := sample_env) sample_insert).
  - apply rtc_once. eexists. reflexivity.
  - assert (Hr : db_log (w_db sample_insert) = [sample_row]) by (vm_compute; reflexivity).
    rewrite Hr. constructor.
Defined.

Example sample_sent :
  map lr_status (db_log (w_db (run_op (H := sample_env) (OpSent 7 "a@example.com") sample_insert)))
  = ["SENT"].
Proof. vm_compute. reflexivity. Qed.
