(* ===== verification/LogTyped.v ===== *)
(** * The delivery log is well typed ([crates/store/src/notification_log.rs])

    What the column types and checks of the table promise and the Rust types
    rely on: every status is one [NotificationStatus] knows, counters stay in
    [0, i32::MAX] and a row's retries never exceed its attempts.  Every store
    operation preserves it, and on such a log no read fails on a status. *)

From S2P Require Import Prelude Order Json AppErr Event World Interfaces LogStore LogInvariant.

Record row_typed (r : LogRow) : Prop := {
  rt_channel : lr_channel r = CHANNEL_EMAIL;
  rt_status : is_ok (status_try_from (lr_status r)) = true;
  rt_retries : 0 ≤ lr_retry_count r ≤ lr_total_attempts r;
  rt_attempts : lr_total_attempts r ≤ i32_max;
}.

Definition log_typed (d : Db) : Prop := Forall row_typed (db_log d).

Definition keeps_typed : relation World := λ w w', log_typed (w_db w) → log_typed (w_db w').
#[export] Instance keeps_typed_preorder : PreOrder keeps_typed.
Proof. split; [intros w H; exact H|]. intros w1 w2 w3 H1 H2 H. by apply H2, H1. Qed.

(** ** Row updates *)

Definition known_status (s : string) : Prop := is_ok (status_try_from s) = true.

Lemma set_sent_typed `{Env} t r :
  lr_total_attempts r < i32_max → row_typed r → row_typed (set_sent t r).
Proof. intros Ho []. by constructor; simpl; try lia. Qed.

Lemma set_failed_typed `{Env} msg st t r :
  known_status st → lr_total_attempts r < i32_max → row_typed r → row_typed (set_failed msg st t r).
Proof. intros Hs Ho []. by constructor; simpl; try lia. Qed.

Lemma set_status_typed `{Env} st msg t r :
  known_status st → row_typed r → row_typed (set_status st msg t r).
Proof. intros Hs []. by constructor. Qed.

Lemma set_reset_typed `{Env} t r : row_typed r → row_typed (set_reset t r).
Proof. intros []. constructor; simpl; [done..|lia|done]. Qed.

Lemma update_where_typed p f rows :
  (∀ r, r ∈ rows → p r = true → row_typed r → row_typed (f r)) →
  Forall row_typed rows → Forall row_typed (update_where p f rows).
Proof.
  intros Hf Hall. unfold update_where. rewrite Forall_map. rewrite Forall_forall in Hall |- *.
  intros r Hr. simpl. destruct (p r) eqn:Hp; [|by apply Hall]. by apply Hf; [..|apply Hall].
Qed.

Lemma no_overflow p get rows r :
  any_overflow p get rows = false → r ∈ rows → p r = true → get r < i32_max.
Proof.
  intros Ho Hin Hp. destruct (Z.ltb_spec (get r) i32_max) as [|Hge]; [done|exfalso].
  enough (any_overflow p get rows = true) by congruence. unfold any_overflow. apply existsb_exists.
  exists r. split; [by apply list_elem_of_In|]. rewrite Hp. by apply Z.leb_le.
Qed.

Section ops.
Context `{Env}.

Lemma query_typed {A} (stmt : nat → Db → result (A * Db) string) :
  (∀ t d a d', stmt t d = Ok (a, d') → log_typed d → log_typed d') → keeps keeps_typed (query stmt).
Proof.
  intros Hs w. unfold keeps_typed. destruct (query stmt w) as [r w'] eqn:Hq. simpl.
  apply query_spec in Hq as [(e & _ & ->)|(a & d & _ & Hst & -> & _)]; [done|]. by eapply Hs.
Qed.

Lemma transaction_typed {A} (m : M (result A AppError)) :
  keeps keeps_typed m → keeps keeps_typed (transaction m).
Proof.
  intros Hm w. unfold keeps_typed. destruct (transaction m w) as [r w'] eqn:Ht. simpl.
  apply transaction_spec in Ht as [(e & _ & ->)|(a & w1 & w2 & _ & H1 & H2 & ->)]; [done|].
  specialize (Hm w1). unfold keeps_typed in Hm. rewrite H1, H2 in Hm. exact Hm.
Qed.

Lemma append_typed d row : row_typed row → log_typed d → log_typed (set_log (λ l, l ++ [row]) d).
Proof. intros Hr Hd. apply Forall_app. by split; [|constructor]. Qed.

Lemma fresh_row_typed id e ty rid st err p ts now :
  known_status st → row_typed (mkLogRow id e ty CHANNEL_EMAIL rid st 0 0 err p ts now now).
Proof. by constructor. Qed.

Lemma insert_pair_typed a : keeps keeps_typed (insert_row_pair a).
Proof.
  apply keeps_try; [apply _| |].
  - apply query_typed. intros t d row d'. unfold sql_insert_log. destruct (List.find _ _); [by intros [= _ <-]|].
    destruct (existsb _ _); [done|]. intros [= _ <-]. apply append_typed. by apply fresh_row_typed.
  - intros row. destruct (ir_was_conflict row); [apply keeps_ret, _|].
    apply keeps_try; [apply _| |intros; apply keeps_ret, _].
    apply query_typed. intros t d u d'. unfold sql_insert_detail. destruct (existsb _ _); [done|].
    by intros [= _ <-].
Qed.

Lemma insert_batch_typed l : keeps keeps_typed (insert_batch_rows l).
Proof.
  induction l as [|a l IH]; [apply keeps_ret, _|].
  apply keeps_try; [apply _|apply insert_pair_typed|]. intros r.
  apply keeps_try; [apply _|exact IH|]. intros rs. apply keeps_ret, _.
Qed.

Lemma require_row_typed n msg : keeps keeps_typed (require_row n msg).
Proof. unfold require_row. destruct (n =? 0); apply keeps_ret, _. Qed.

(** A guarded [UPDATE] whose guard excludes what the new row could break. *)
Lemma update_query_typed (p : nat → LogRow → bool) (f : nat → LogRow → LogRow)
    (guard : Db → bool) (msg : string) :
  (∀ t d r, guard d = false → r ∈ db_log d → p t r = true → row_typed r → row_typed (f t r)) →
  keeps keeps_typed (query (λ t d, if guard d then Err msg else Ok (sql_update (p t) (f t) d))).
Proof.
  intros Hf. apply query_typed. intros t d n d'. destruct (guard d) eqn:Hg; [done|].
  intros [= _ <-]. apply update_where_typed. intros r Hin Hp. by apply (Hf t d).
Qed.

#[local] Hint Resolve set_status_typed set_reset_typed : core.

Lemma run_op_typed o w : keeps_typed w (run_op o w).
Proof.
  destruct o; simpl; revert w.
  - change (keeps keeps_typed (email_insert_pending a)). apply transaction_typed, insert_pair_typed.
  - change (keeps keeps_typed (email_insert_pending_batch l)). apply transaction_typed, insert_batch_typed.
  - change (keeps keeps_typed (email_mark_sent e rid)).
    apply keeps_try; [apply _| |intros; apply require_row_typed].
    apply (update_query_typed (λ _, _)). intros t d r Hg Hin Hp. apply set_sent_typed.
    by eapply no_overflow.
  - change (keeps keeps_typed (email_mark_failed e rid msg exhausted)).
    apply keeps_try; [apply _| |intros; apply require_row_typed].
    apply (update_query_typed (λ _, _) _ (λ d, _ || _)). intros t d r Hg Hin Hp.
    apply orb_false_elim in Hg as [_ Hg]. apply set_failed_typed; [by destruct exhausted|].
    by eapply no_overflow.
  - change (keeps keeps_typed (email_mark_blocked e rid reason)).
    apply keeps_try; [apply _| |intros; apply require_row_typed].
    apply (update_query_typed (λ _, _) _ (λ _, false) ""). intros. by apply set_status_typed.
  - change (keeps keeps_typed (email_mark_skipped e ty rid reason ts p)).
    apply query_typed. intros t d u d'. unfold sql_insert_skipped.
    destruct (List.find _ _); [by intros [= _ <-]|]. destruct (existsb _ _); [done|].
    intros [= _ <-]. apply append_typed. by apply fresh_row_typed.
  - change (keeps keeps_typed (email_reset_for_retry e rid)).
    apply keeps_try; [apply _| |intros; apply require_row_typed].
    apply (update_query_typed (λ _, _) _ (λ _, false) ""). eauto.
  - change (keeps keeps_typed (email_reset_all_failed_for_event e)).
    apply query_typed. intros t d u d' [= _ <-]. apply update_where_typed. eauto.
  - change (keeps keeps_typed (email_revert_to_failed e rids reason)).
    apply (update_query_typed (λ _, _) _ (λ _, false) ""). intros. by apply set_status_typed.
  - change (keeps keeps_typed (email_reap_stale_pending timeout_secs)).
    apply keeps_try; [apply _| |intros; apply keeps_ret, _].
    apply query_typed. intros t d u d' [= _ <-]. apply update_where_typed. intros. by apply set_status_typed.
Qed.

(** ** Reads *)

(** The reads' only errors on a typed log. *)
Definition reads_cleanly {A} (r : result A AppError) : Prop :=
  match r with
  | Ok _ | Err (AppError.NotFound _) | Err (AppError.Database _) => True
  | Err _ => False
  end.

Lemma to_log_typed r e : row_typed r → ∃ l, to_log r e = Ok l.
Proof. intros [_ Hs _ _]. unfold to_log. destruct (status_try_from _); [by eexists|done]. Qed.

Lemma collect_typed event_id rows w :
  Forall (λ rd : LogRow * option EmailDeliveryDetail, row_typed rd.1) rows →
  reads_cleanly (collect_logs event_id rows w).1.
Proof.
  intros Hall. assert (Hok : ∃ ls, result_mapM (λ rd, to_log rd.1 rd.2) rows = Ok ls).
  { induction Hall as [|rd rows Hr _ [ls IH]]; [by eexists|]. simpl.
    destruct (to_log_typed rd.1 rd.2 Hr) as [l ->]. simpl. rewrite IH. by eexists. }
  destruct Hok as [ls Hok]. unfold collect_logs. destruct rows; [done|]. run_st.
  simpl in Hok. by rewrite Hok.
Qed.

Lemma selected_typed p key d :
  log_typed d →
  Forall (λ rd : LogRow * option EmailDeliveryDetail, row_typed rd.1)
    (take 500 (order_by key (select_rows p d))).
Proof.
  intros Hd. apply Forall_take. rewrite order_by_perm, Forall_forall. intros rd.
  intros [_ (r & -> & Hr)%list_elem_of_fmap]%list_elem_of_filter. simpl.
  unfold log_typed in Hd. rewrite Forall_forall in Hd. by apply Hd.
Qed.

(** A listing query followed by the reading of its rows. *)
Lemma read_typed event_id (sel : Db → list (LogRow * option EmailDeliveryDetail)) w :
  (∀ d, log_typed d → Forall (λ rd, row_typed rd.1) (sel d)) → log_typed (w_db w) →
  reads_cleanly (st_try (query (λ _ d, Ok (sel d, d))) (collect_logs event_id) w).1.
Proof.
  intros Hsel Hd. unfold st_try. destruct (query _ w) as [r w1] eqn:Hq.
  apply query_spec in Hq as [(e & -> & _)|(rows & d & -> & [= <- <-] & _)]; [done|].
  by apply collect_typed, Hsel.
Qed.

Lemma get_by_event_id_typed event_id w :
  log_typed (w_db w) → reads_cleanly (email_get_by_event_id event_id w).1.
Proof. apply read_typed. intros d. apply selected_typed. Qed.

(** C12: the delivery log is well typed for ever: any run of store operations, from any
    process and with failures anywhere, leaves every row with a status the
    code knows and counters in the range of an [i32]; so no read of the log
    ever fails on a row, but for a database error or an absent row. *)
Theorem log_typed_invariant w w' :
  rtc store_step w w' → log_typed (w_db w) →
  log_typed (w_db w')
  ∧ (∀ event_id, reads_cleanly (email_get_by_event_id event_id w').1)
  ∧ (∀ event_id only, reads_cleanly (email_get_recipients_for_event event_id only w').1)
  ∧ (∀ event_id rid, reads_cleanly (email_get_by_event_and_recipient event_id rid w').1).
Proof.
  intros Hr Hd. assert (Hd' : log_typed (w_db w')).
  { revert Hd. induction Hr as [|w1 w2 w3 [o ->] _ IH]; [done|]. intros Hd. by apply IH, run_op_typed. }
  split_and!; [done|..].
  - intros e. by apply get_by_event_id_typed.
  - intros e [[|m emails]|]; [by apply get_by_event_id_typed| |by apply get_by_event_id_typed].
    apply read_typed; [|done]. intros d. apply selected_typed.
  - intros e rid. unfold email_get_by_event_and_recipient, st_try.
    destruct (query _ w') as [r w1] eqn:Hq.
    apply query_spec in Hq as [(m & -> & _)|(row & d & -> & [= <- _] & _)]; [done|].
    destruct (List.find _ _) as [r|] eqn:Hf; [|done]. apply List.find_some in Hf as [Hin _].
    rewrite <- list_elem_of_In in Hin. unfold log_typed in Hd'. rewrite Forall_forall in Hd'.
    destruct (to_log_typed r (find_detail (lr_id r) (db_detail (w_db w'))) (Hd' r Hin)) as [l Hl].
    simpl. by rewrite Hl.
Qed.
End ops.

Lemma log_typed_invariant_witness :
  log_typed (w_db sample_insert)
  ∧ reads_cleanly (email_get_by_event_id (H := sample_env) 7 sample_insert).1.
Proof.
  destruct (log_typed_invariant (H := sample_env) (world0 empty_db) sample_insert) as (H1 & H2 & _).
  - apply rtc_once. by exists (OpInsert (sample_args 7 "a@example.com")).
  - constructor.
  - split; [exact H1|apply H2].
Defined.

(** The row the run inserted is there, and it is read. *)
Example typed_row_read :
  length (db_log (w_db sample_insert)) = 1%nat
  ∧ is_ok (email_get_by_event_id (H := sample_env) 7 sample_insert).1 = true.
Proof. by vm_compute. Qed.

(** A status the code does not know makes the read of the whole event fail. *)
Example untyped_row_unreadable :
  let r := mkLogRow 1 7 "T" "email" "a@example.com" "QUEUED" 0 0 None JNull 0 0 0 in
  (email_get_by_event_id (H := sample_env) 7 (world0 (set_log (λ _, [r]) empty_db))).1
  = Err (AppError.UnknownStatus "QUEUED").
Proof. vm_compute. reflexivity. Qed.
