(* ===== verification/LogRetry.v ===== *)
(** * Manual retry, compensation and the stale-PENDING reaper

    The conditional updates of the delivery log ([reset_for_retry],
    [reset_all_failed_for_event], [revert_to_failed], [reap_stale_pending]) on
    the abstract log, and what an operator may rely on. *)

From S2P Require Import Prelude Json AppErr Event World Interfaces LogStore LogInvariant.

(** An update whose condition reads the key and the abstract cell only. *)
Lemma log_cells_update_lookup p f (P : Key → Cell → bool) (g : Cell → Cell) rows k :
  (∀ r, lr_channel r = CHANNEL_EMAIL →
        p r = P (lr_event_id r, lr_recipient_id r) (cell_of r)) →
  (∀ r, lr_channel (f r) = lr_channel r ∧ lr_event_id (f r) = lr_event_id r
        ∧ lr_recipient_id (f r) = lr_recipient_id r ∧ cell_of (f r) = g (cell_of r)) →
  log_cells (update_where p f rows) !! k
  = (λ c, if P k c then g c else c) <$> log_cells rows !! k.
Proof.
  intros Hp Hf. induction rows as [|r rows IH]; [done|]. simpl.
  assert (Hch : lr_channel (if p r then f r else r) = lr_channel r)
    by (destruct (p r); [apply Hf|done]).
  rewrite Hch. destruct (String.eqb_spec (lr_channel r) CHANNEL_EMAIL) as [Hc|]; [|done].
  specialize (Hp r Hc). destruct (Hf r) as (_ & He & Hr & Hcell).
  assert (Hkey : (lr_event_id (if p r then f r else r), lr_recipient_id (if p r then f r else r))
                 = (lr_event_id r, lr_recipient_id r)) by (destruct (p r); congruence).
  rewrite Hkey. destruct (decide ((lr_event_id r, lr_recipient_id r) = k)) as [<-|Hne].
  - rewrite !lookup_insert_eq. simpl. rewrite <- Hp. by destruct (p r); rewrite ?Hcell.
  - by rewrite !lookup_insert_ne.
Qed.

Definition reset_cell (c : Cell) : Cell := mkCell "PENDING" 0 (c_total_attempts c) None.
Definition status_cell (st msg : string) (c : Cell) : Cell :=
  mkCell st (c_retry_count c) (c_total_attempts c) (Some msg).
Definition can_retry (c : Cell) : bool :=
  String.eqb (c_status c) "FAILED" || String.eqb (c_status c) "BLOCKED".

Lemma selected_In p rows r : r ∈ selected p rows ↔ r ∈ rows ∧ p r = true.
Proof. unfold selected. rewrite list_elem_of_filter. tauto. Qed.

Section retry.
Context `{Env}.

Lemma reset_for_retry_cells e rid w r w' :
  email_reset_for_retry e rid w = (r, w') →
  match r with
  | Ok _ => ∃ x, x ∈ db_log (w_db w) ∧ key_matches e CHANNEL_EMAIL rid x = true
                 ∧ can_retry (cell_of x) = true
                 ∧ ∀ k, email_cells w' !! k
                        = (λ c, if bool_decide (k = (e, rid)) && can_retry c then reset_cell c else c)
                            <$> email_cells w !! k
  | Err (AppError.NotFound _) =>
      ∀ x, x ∈ db_log (w_db w) → key_matches e CHANNEL_EMAIL rid x = true →
           can_retry (cell_of x) = false
  | Err _ => w_db w' = w_db w
  end.
Proof.
  unfold email_reset_for_retry. run_st.
  set (p := λ r, key_matches e CHANNEL_EMAIL rid r && _).
  destruct (query _ w) as [[n|er] w1] eqn:Hq;
    apply query_spec in Hq as [(e0 & He & Hd)|(n' & d & He & Hs & Hd & _)];
    try done; injection He as ->.
  2: { by intros [= <- <-]. }
  revert Hs. unfold sql_update. intros [= <- Hdb]. unfold require_row.
  destruct (Z.of_nat _ =? 0) eqn:Hz; unfold st_ret; intros [= <- <-].
  - intros x Hx Hk. destruct (can_retry (cell_of x)) eqn:Hc; [|done]. exfalso.
    assert (Hin : x ∈ selected p (db_log (w_db w))).
    { apply selected_In. split; [done|]. unfold p. by rewrite Hk. }
    apply list_elem_of_lookup in Hin as [i Hi]. destruct (selected p _); [done|]. simpl in Hz. lia.
  - destruct (selected p (db_log (w_db w))) as [|x l] eqn:Hsel; [done|].
    assert (Hin : x ∈ selected p (db_log (w_db w))) by (rewrite Hsel; constructor).
    apply selected_In in Hin as [Hin [Hk Hc]%andb_prop].
    exists x. split_and!; [done..|]. intros k. unfold email_cells. rewrite Hd, <- Hdb. simpl.
    rewrite (log_cells_update_lookup p (set_reset (w_tick w))
      (λ k c, bool_decide (k = (e, rid)) && can_retry c) reset_cell); [done| |done].
    intros y Hy. unfold p. f_equal. apply eq_true_iff_eq.
    rewrite key_matches_iff, bool_decide_eq_true. naive_solver.
Qed.

Lemma revert_cells e rids reason w n w' k :
  email_revert_to_failed e rids reason w = (Ok n, w') →
  email_cells w' !! k
  = (λ c, if N.eqb k.1 e && existsb (String.eqb k.2) rids && String.eqb (c_status c) "PENDING"
          then status_cell "FAILED" reason c else c) <$> email_cells w !! k.
Proof.
  unfold email_revert_to_failed. intros Hq.
  apply query_spec in Hq as [(?&?&?)|(n' & d & He & Hs & Hd & _)]; [done|].
  revert Hs. unfold sql_update. intros [= <- Hdb]. unfold email_cells. rewrite Hd, <- Hdb. simpl.
  apply (log_cells_update_lookup _ _ (λ k c, N.eqb k.1 e && existsb (String.eqb k.2) rids
                                      && String.eqb (c_status c) "PENDING")); [|done].
  intros r Hc. unfold event_matches, is_status. by rewrite Hc, String.eqb_refl, andb_true_r.
Qed.

(** With unique keys the row an update selects is the cell of its key. *)
Lemma cell_of_row d r :
  log_wf d → r ∈ db_log d → lr_channel r = CHANNEL_EMAIL →
  log_cells (db_log d) !! (lr_event_id r, lr_recipient_id r) = Some (cell_of r).
Proof.
  intros [_ Hk _ _]. revert Hk. induction (db_log d) as [|x rows IH]; [by intros _ ?%not_elem_of_nil|].
  simpl. intros [Hx Hk]%NoDup_cons [->|Hin]%elem_of_cons Hc.
  - rewrite Hc. simpl. apply lookup_insert_eq.
  - destruct (String.eqb_spec (lr_channel x) CHANNEL_EMAIL) as [Hcx|]; [|by apply IH].
    rewrite lookup_insert_ne; [by apply IH|]. intros [= He Hr]. apply Hx.
    apply list_elem_of_fmap. exists r. split; [|done]. unfold row_key. congruence.
Qed.

(** Exactly the selected cells changed, by [f]. *)
Definition reworked (sel : Key → Cell → bool) (f : Cell → Cell) (w w' : World) : Prop :=
  ∀ k, email_cells w' !! k = (λ c, if sel k c then f c else c) <$> email_cells w !! k.

Definition retryable_row (e : Uuid) (rid : string) (k : Key) (c : Cell) : bool :=
  bool_decide (k = (e, rid)) && can_retry c.
Definition failed_row (e : Uuid) (k : Key) (c : Cell) : bool :=
  N.eqb k.1 e && String.eqb (c_status c) "FAILED".

Lemma update_where_none p f rows : selected p rows = [] → update_where p f rows = rows.
Proof.
  unfold selected, update_where. induction rows as [|r rows IH]; [done|]. simpl.
  rewrite filter_cons. case_decide as Hp; [done|]. intros Hs. rewrite IH by done.
  by destruct (p r).
Qed.

(** [reset_for_retry] resets the row, or changes nothing. *)
Lemma reset_one_spec e rid w r w' :
  log_wf (w_db w) →
  email_reset_for_retry e rid w = (r, w') →
  match r with
  | Ok _ => (∃ c, email_cells w !! (e, rid) = Some c ∧ can_retry c = true)
            ∧ reworked (retryable_row e rid) reset_cell w w'
  | Err _ => w_db w' = w_db w
  end.
Proof.
  intros Hwf Hrun. pose proof (reset_for_retry_cells _ _ _ _ _ Hrun) as Hcells.
  destruct r as [[]|er].
  - destruct Hcells as (x & Hin & [Hch Hk]%key_matches_iff & Hc & Hcells). split; [|exact Hcells].
    exists (cell_of x). split; [|done]. unfold email_cells. rewrite <- Hk. by apply cell_of_row.
  - clear Hcells. revert Hrun. unfold email_reset_for_retry. run_st.
    set (p := λ r, key_matches e CHANNEL_EMAIL rid r && _).
    destruct (query _ w) as [[n|e0] w1] eqn:Hq;
      apply query_spec in Hq as [(? & He & Hd)|(n' & d & He & Hs & Hd & _)]; try done.
    2: { by intros [= _ <-]. }
    injection He as ->. unfold sql_update in Hs. injection Hs as <- Hdb. unfold require_row.
    destruct (Z.of_nat _ =? 0) eqn:Hz; [|done]. intros [= _ <-]. rewrite Hd, <- Hdb.
    assert (Hsel : selected p (db_log (w_db w)) = []) by (apply length_zero_iff_nil; lia).
    unfold set_log. rewrite update_where_none by done. by destruct (w_db w).
Qed.

(** [reset_all_failed_for_event] resets the FAILED rows and returns them. *)
Lemma reset_all_spec e w r w' :
  log_wf (w_db w) →
  email_reset_all_failed_for_event e w = (r, w') →
  match r with
  | Ok rids =>
      (∀ m, m ∈ rids ↔ ∃ c, email_cells w !! (e, m) = Some c ∧ c_status c = "FAILED")
      ∧ reworked (failed_row e) reset_cell w w'
  | Err _ => w_db w' = w_db w
  end.
Proof.
  intros Hwf Hq. unfold email_reset_all_failed_for_event in Hq.
  apply query_spec in Hq as [(er & -> & Hd)|(rids & d & -> & Hs & Hd & _)]; [done|].
  injection Hs as <- Hdb. split.
  - intros m. rewrite list_elem_of_fmap. unfold email_cells. rewrite log_cells_find. split.
    + intros (x & -> & [Hin [Hm Hst]%andb_prop]%selected_In).
      unfold event_matches in Hm. apply andb_prop in Hm as [He%N.eqb_eq Hc%String.eqb_eq].
      exists (cell_of x). split; [|by apply String.eqb_eq].
      rewrite <- log_cells_find, <- He. by apply cell_of_row.
    + destruct (List.find _ _) as [x|] eqn:Hf; [|by intros (?&?&?)].
      intros (c & [= <-] & Hst). apply find_some in Hf as [Hin Hk]. apply list_elem_of_In in Hin.
      apply key_matches_iff in Hk as [Hch [= He Hr]]. exists x. split; [done|].
      apply selected_In. split; [done|]. unfold event_matches, is_status.
      apply andb_true_intro. split; [|by apply String.eqb_eq].
      rewrite He, Hch. by rewrite N.eqb_refl, String.eqb_refl.
  - intros k. unfold email_cells. rewrite Hd, <- Hdb. simpl.
    rewrite (log_cells_update_lookup _ (set_reset (w_tick w)) (failed_row e) reset_cell); [done| |done].
    intros y Hy. unfold event_matches, failed_row, is_status. by rewrite Hy, String.eqb_refl, andb_true_r.
Qed.

(** When re-publishing fails after [reset_for_retry], [revert_to_failed]
    leaves exactly that row FAILED with the reason, its attempt history intact,
    every other row as it was before the retry, and the row can be reset again. *)
Theorem retry_compensation e rid reason w w1 w2 n :
  log_wf (w_db w) →
  email_reset_for_retry e rid w = (Ok tt, w1) →
  email_revert_to_failed e [rid] reason w1 = (Ok n, w2) →
  ∃ c, email_cells w !! (e, rid) = Some c ∧ can_retry c = true
    ∧ let c' := mkCell "FAILED" 0 (c_total_attempts c) (Some reason) in
      email_cells w2 = <[(e, rid) := c']> (email_cells w) ∧ can_retry c' = true.
Proof.
  intros Hwf H1 H2. apply reset_for_retry_cells in H1 as (x & Hin & Hk & Hc & H1).
  apply key_matches_iff in Hk as [Hch Hk].
  pose proof (cell_of_row _ _ Hwf Hin Hch) as Hcell. rewrite Hk in Hcell.
  exists (cell_of x). split_and!; [done..|]. split; [|done].
  apply map_eq. intros k. rewrite (revert_cells _ _ _ _ _ _ _ H2), H1.
  destruct (decide (k = (e, rid))) as [->|Hne].
  - rewrite lookup_insert_eq. unfold email_cells. rewrite Hcell. simpl.
    rewrite bool_decide_true, Hc by done. simpl. by rewrite N.eqb_refl, String.eqb_refl.
  - rewrite lookup_insert_ne by done. rewrite bool_decide_false by done. simpl.
    destruct (email_cells w !! k) as [c|]; [|done]. simpl.
    destruct (N.eqb_spec k.1 e) as [He|]; [|done].
    destruct (String.eqb_spec k.2 rid) as [Hr|]; [|done].
    destruct k as [k1 k2]. simpl in *. congruence.
Qed.

(** ** The reaper *)

Lemma dedup_elem seen l x : x ∈ dedup seen l ↔ x ∈ l ∧ x ∉ seen.
Proof.
  revert seen. induction l as [|y l IH]; intros seen; simpl; [set_solver|].
  destruct (existsb (N.eqb y) seen) eqn:E.
  - apply existsb_exists in E as (z & Hz & ->%N.eqb_eq). apply list_elem_of_In in Hz.
    rewrite IH. set_solver.
  - assert (y ∉ seen).
    { intros Hy. assert (existsb (N.eqb y) seen = true); [|congruence].
      apply existsb_exists. exists y. split; [by apply list_elem_of_In|apply N.eqb_refl]. }
    rewrite elem_of_cons, IH. destruct (decide (x = y)); set_solver.
Qed.

Lemma dedup_NoDup seen l : NoDup (dedup seen l).
Proof.
  revert seen. induction l as [|y l IH]; intros seen; simpl; [constructor|].
  destruct (existsb _ _); [done|]. constructor; [|done]. rewrite dedup_elem. set_solver.
Qed.

(** What the reaper makes of a row at a tick. *)
Definition reaped (secs : Z) (t : nat) (r : LogRow) : LogRow :=
  if is_stale secs (clock t) r then set_status "FAILED" reaper_message t r else r.

(** The reaper turns exactly the PENDING email rows older than the timeout
    into FAILED, leaves every other row alone, and reports each affected event
    once. *)
Theorem reap_exact secs w ids w' :
  email_reap_stale_pending secs w = (Ok ids, w') →
  db_log (w_db w') = map (reaped secs (w_tick w)) (db_log (w_db w))
  ∧ NoDup ids
  ∧ ∀ e, e ∈ ids ↔ ∃ r, r ∈ db_log (w_db w) ∧ is_stale secs (clock (w_tick w)) r = true
                        ∧ lr_event_id r = e.
Proof.
  unfold email_reap_stale_pending. run_st. destruct (query _ w) as [[l|er] w1] eqn:Hq; [|done].
  apply query_spec in Hq as [(?&?&?)|(l' & d & [= <-] & Hs & Hd & _)]; [done|].
  injection Hs as Hl Hdb. intros [= <- <-]. split_and!.
  - by rewrite Hd, <- Hdb.
  - apply dedup_NoDup.
  - intros e. rewrite dedup_elem, <- Hl, list_elem_of_fmap.
    setoid_rewrite selected_In. set_solver.
Qed.

End retry.

(** ** Concrete runs *)

Definition failed_world : World :=
  run_op (H := sample_env) (OpFailed 7 "a@example.com" "mailer error: 550" true) sample_insert.

Lemma retry_compensation_witness :
  ∃ c, email_cells failed_world !! (7%N, "a@example.com") = Some c ∧ can_retry c = true
    ∧ let c' := mkCell "FAILED" 0 (c_total_attempts c) (Some "publish failed") in
      email_cells (run_op (H := sample_env) (OpRevert 7 ["a@example.com"] "publish failed")
                     (run_op (H := sample_env) (OpReset 7 "a@example.com") failed_world))
      = <[(7%N, "a@example.com") := c']> (email_cells failed_world) ∧ can_retry c' = true.
Proof.
  apply (retry_compensation (H := sample_env) 7 "a@example.com" "publish failed" failed_world
           (run_op (H := sample_env) (OpReset 7 "a@example.com") failed_world) _ 1).
  - apply (store_run_evolves (H := sample_env) (world0 empty_db) failed_world);
      [|apply log_wf_empty].
    eapply rtc_l; [eexists; reflexivity|]. apply rtc_once. eexists. reflexivity.
  - vm_compute. reflexivity.
  - vm_compute. reflexivity.
Defined.

Lemma reap_exact_witness :
  let w := sample_insert in
  let w' := (email_reap_stale_pending (H := sample_env) 0 w).2 in
  db_log (w_db w') = map (reaped (H := sample_env) 0 (w_tick w)) (db_log (w_db w))
  ∧ NoDup [7%N]
  ∧ ∀ e, e ∈ [7%N] ↔ ∃ r, r ∈ db_log (w_db w)
      ∧ is_stale 0 (clock (Env := sample_env) (w_tick w)) r = true ∧ lr_event_id r = e.
Proof. apply (reap_exact (H := sample_env) 0). vm_compute. reflexivity. Defined.
