(* ===== verification/BlockList.v ===== *)
(** * The runtime block list ([crates/store/src/block_list_store.rs])

    [BlockListStore]: the admin operations on the [block_list] table and the
    cached snapshot [check] reads.  A moka lookup answers while the entry has
    neither expired nor been evicted ([cache_live]); a zero TTL never keeps
    one. *)

From S2P Require Import Prelude Json AppErr Event World Interfaces Filter.

Section block_list.
Context `{Env}.

(** ** The snapshot *)

Definition empty_snapshot : BlockListSnapshot := mkBlockListSnapshot ∅ ∅ ∅ ∅ false.

(** One row of [SELECT kind, value ... WHERE active = TRUE]. *)
Definition add_to_snapshot (snap : BlockListSnapshot) (row : string * string) : BlockListSnapshot :=
  let '(kind, value) := row in
  if String.eqb kind "blocked_email" then
    mkBlockListSnapshot ({[value]} ∪ sn_blocked_emails snap) (sn_blocked_domains snap)
      (sn_allowed_emails snap) (sn_allowed_domains snap) (sn_allowlist_mode snap)
  else if String.eqb kind "blocked_domain" then
    mkBlockListSnapshot (sn_blocked_emails snap) ({[value]} ∪ sn_blocked_domains snap)
      (sn_allowed_emails snap) (sn_allowed_domains snap) (sn_allowlist_mode snap)
  else if String.eqb kind "allowed_email" then
    mkBlockListSnapshot (sn_blocked_emails snap) (sn_blocked_domains snap)
      ({[value]} ∪ sn_allowed_emails snap) (sn_allowed_domains snap) true
  else if String.eqb kind "allowed_domain" then
    mkBlockListSnapshot (sn_blocked_emails snap) (sn_blocked_domains snap)
      (sn_allowed_emails snap) ({[value]} ∪ sn_allowed_domains snap) true
  else snap.

Definition active_rows (d : Db) : list (string * string) :=
  map (λ b, (bl_kind b, bl_value b)) (base.filter (λ b, bl_active b = true) (db_blocks d)).

Definition snapshot_of (d : Db) : BlockListSnapshot :=
  fold_left add_to_snapshot (active_rows d) empty_snapshot.

(** [new]: the cache holds the whole snapshot as its one entry. *)
Definition block_cache_new (ttl_secs : Z) : CachePolicy := cache_policy 1 ttl_secs.

(** [self.cache.get(CACHE_KEY)]. *)
Definition block_cache_get : M (option BlockListSnapshot) :=
  let! t := next_tick in
  let! c := st_get w_block_cache in
  st_ret (if cache_live t then c else None).

Definition snapshot : M (result BlockListSnapshot AppError) :=
  let! hit := block_cache_get in
  match hit with
  | Some snap => st_ret (Ok snap)
  | None =>
      let? rows := query (λ _ d, Ok (active_rows d, d)) in
      let snap := fold_left add_to_snapshot rows empty_snapshot in
      st_modify (set_block_cache (Some snap)) ;;!
      st_ret (Ok snap)
  end.

(** ** [check] *)

Definition snapshot_check (snap : BlockListSnapshot) (email : string) : result unit AppError :=
  let email_lc := to_lowercase email in
  let domain := match rsplit_once "@" email_lc with Some (_, d) => Some d | None => None end in
  if contains (sn_blocked_emails snap) email_lc
  then Err (AppError.Blocked (email +:+ " is on the blocked-email list"))
  else
    let blocked_domain :=
      match domain with Some d => contains (sn_blocked_domains snap) d | None => false end in
    if blocked_domain
    then Err (AppError.Blocked (email +:+ ": domain '" +:+ default "" domain
                                +:+ "' is on the blocked-domain list"))
    else if sn_allowlist_mode snap then
      let ok := contains (sn_allowed_emails snap) email_lc
                || match domain with Some d => contains (sn_allowed_domains snap) d | None => false end in
      if negb ok
      then Err (AppError.Blocked (email +:+ " is not on the allowed list (allowlist mode active)"))
      else Ok tt
    else Ok tt.

Definition check (email : string) : M (result unit AppError) :=
  let? snap := snapshot in
  st_ret (snapshot_check snap email).

Definition invalidate : M unit := st_modify (set_block_cache None).

(** [is_empty]: an error counts as not empty. *)
Definition is_empty : M bool :=
  let! s := snapshot in
  st_ret (match s with
          | Ok s => set_is_empty (sn_blocked_emails s) && set_is_empty (sn_blocked_domains s)
                    && negb (sn_allowlist_mode s)
          | Err _ => false
          end).

(** ** Admin operations *)

Definition kinds : list string := ["blocked_email"; "blocked_domain"; "allowed_email"; "allowed_domain"].

(** [ON CONFLICT (kind, lower(value))]. *)
Definition same_entry (kind value_lc : string) (b : BlockListEntry) : bool :=
  String.eqb (bl_kind b) kind && String.eqb (to_lowercase (bl_value b)) value_lc.

Definition reactivate (reason : option string) (b : BlockListEntry) : BlockListEntry :=
  mkBlockListEntry (bl_id b) (bl_kind b) (bl_value b) reason true (bl_created_at b).

Definition sql_add_entry (kind value_lc : string) (reason : option string) (t : nat) (d : Db) :
    result (BlockListEntry * Db) string :=
  if negb (existsb (String.eqb kind) kinds) then Err "violates check constraint"
  else
    let same := same_entry kind (to_lowercase value_lc) in
    match List.find same (db_blocks d) with
    | Some b =>
        Ok (reactivate reason b,
            set_blocks (map (λ b, if same b then reactivate reason b else b)) d)
    | None =>
        if existsb (λ b, bl_id b =? serial t) (db_blocks d) then Err "duplicate key"
        else
          let b := mkBlockListEntry (serial t) kind value_lc reason true (clock t) in
          Ok (b, set_blocks (λ l, l ++ [b]) d)
    end.

Definition add_entry (kind value : string) (reason : option string) :
    M (result BlockListEntry AppError) :=
  let value_lc := to_lowercase value in
  let? row := query (sql_add_entry kind value_lc reason) in
  invalidate ;;!
  st_ret (Ok row).

Definition remove_entry (id : Z) : M (result unit AppError) :=
  let? n := query (λ _ d,
    let p := λ b, (bl_id b =? id) && bl_active b in
    Ok (length (base.filter (λ b, p b = true) (db_blocks d)),
        set_blocks (map (λ b, if p b
          then mkBlockListEntry (bl_id b) (bl_kind b) (bl_value b) (bl_reason b) false (bl_created_at b)
          else b)) d)) in
  if (n =? 0)%nat
  then st_ret (Err (AppError.NotFound ("No active block_list entry with id " +:+ show_Z id)))
  else invalidate ;;! st_ret (Ok tt).

(** Sorted by the primary key. *)
Fixpoint insert_by_id (b : BlockListEntry) (l : list BlockListEntry) : list BlockListEntry :=
  match l with
  | [] => [b]
  | c :: l => if bl_id b <? bl_id c then b :: c :: l else c :: insert_by_id b l
  end.

Definition list_entries : M (result (list BlockListEntry) AppError) :=
  query (λ _ d,
    Ok (fold_left (λ acc b, insert_by_id b acc)
          (base.filter (λ b, bl_active b = true) (db_blocks d)) [], d)).

#[export] Instance BlockListStore : BlockListChecker := check.

(** ** Laws *)

Lemma block_cache_get_aside : keeps aside block_cache_get.
Proof. by intros w. Qed.

Lemma snapshot_aside : keeps aside snapshot.
Proof.
  apply keeps_bind; [apply _|apply block_cache_get_aside|]. intros [s|]; [apply keeps_ret, _|].
  apply keeps_try; [apply _| |].
  - intros w. split; [apply query_quiet|]. destruct (query _ w) as [r w1] eqn:Hq.
    apply query_spec in Hq as [(e & -> & Hd)|(a & d & -> & [= <- <-] & Hd & _)];
      unfold same_log; simpl; by rewrite Hd.
  - intros rows. apply keeps_bind; [apply _|by intros w|]. intros []. apply keeps_ret, _.
Qed.

#[export] Instance BlockListStore_laws : BlockListCheckerLaws.
Proof.
  intros email. apply keeps_try; [apply _|apply snapshot_aside|]. intros. apply keeps_ret, _.
Qed.

(** ** The cache *)

(** What is cached is what the table says. *)
Definition block_cache_ok (w : World) : Prop :=
  ∀ s, w_block_cache w = Some s → s = snapshot_of (w_db w).

Lemma snapshot_spec w r w' :
  snapshot w = (r, w') → block_cache_ok w →
  block_cache_ok w' ∧ w_db w' = w_db w
  ∧ (r = Ok (snapshot_of (w_db w)) ∨ ∃ e, r = Err (AppError.Database e)).
Proof.
  unfold snapshot, block_cache_get, next_tick. run_st. intros Hrun Hok.
  destruct (if cache_live _ then _ else _) as [s|] eqn:Hhit.
  - injection Hrun as <- <-. split_and!; [done..|]. left. f_equal. apply Hok.
    by destruct (cache_live _).
  - destruct (query _ _) as [[rows|e] w1] eqn:Hq.
    + pose proof (f_equal (λ x, w_block_cache x.2) Hq) as _.
      apply query_spec in Hq as [(?&?&?)|(rows' & d & [= <-] & [= <- <-] & Hd & _)]; [done|].
      injection Hrun as <- <-. simpl in *. split_and!; [|done|by left].
      intros s [= <-]. simpl. by rewrite Hd.
    + assert (Hc : w_block_cache w1 = w_block_cache w).
      { revert Hq. unfold query, next_tick. run_st. by destruct (db_err _); intros [= _ <-]. }
      apply query_spec in Hq as [(e0 & He & Hd)|(?&?&?&?)]; [|done].
      injection Hrun as <- <-. simpl in *. split_and!; [|done|right; naive_solver].
      intros s. rewrite Hc, Hd. apply Hok.
Qed.

(** C37: as long as the cache mirrors the table, [check] answers what the active
    rows of the table say, or reports a database error; and the mirror is kept. *)
Theorem check_reflects_table email w r w' :
  block_cache_ok w → check email w = (r, w') →
  block_cache_ok w' ∧ w_db w' = w_db w
  ∧ (r = snapshot_check (snapshot_of (w_db w)) email ∨ ∃ e, r = Err (AppError.Database e)).
Proof.
  unfold check. run_st. intros Hok. destruct (snapshot w) as [[s|e] w1] eqn:Hs; intros [= <- <-];
    destruct (snapshot_spec _ _ _ Hs Hok) as (? & ? & [Hr|Hr]); split_and!; try done;
    [left|right..]; naive_solver.
Qed.

Lemma map_none_selected (p : BlockListEntry → bool) f l :
  base.filter (λ b, p b = true) l = [] → map (λ b, if p b then f b else b) l = l.
Proof.
  induction l as [|b l IH]; [done|]. simpl. rewrite filter_cons.
  destruct (p b) eqn:Hb; case_decide; try done. intros Hl. by rewrite IH.
Qed.

(** The admin operations never leave a stale snapshot behind: after
    [add_entry] and [remove_entry], failed ones included, whatever is cached is
    what the table says. *)
Theorem admin_keeps_cache w :
  block_cache_ok w →
  (∀ kind value reason, block_cache_ok (add_entry kind value reason w).2)
  ∧ (∀ id, block_cache_ok (remove_entry id w).2).
Proof.
  assert (Hfail : ∀ {A} (stmt : nat → Db → result (A * Db) string) e w1,
    query stmt w = (Err e, w1) → block_cache_ok w → block_cache_ok w1).
  { intros A stmt e w1 Hq Hok. pose proof Hq as Hq'.
    apply query_spec in Hq as [(e0 & He & Hd)|(?&?&?&?)]; [|done].
    intros s Hs. rewrite Hd. apply Hok. rewrite <- Hs. revert Hq'.
    unfold query, next_tick. run_st. destruct (db_err _); [by intros [= _ <-]|]. simpl.
    by destruct (stmt _ _) as [[??]|]; intros [= _ <-]. }
  intros Hok. split.
  - intros kind value reason. unfold add_entry, invalidate. run_st.
    destruct (query _ w) as [[b|e] w1] eqn:Hq; [by intros s|]. by eapply Hfail.
  - intros id. unfold remove_entry, invalidate. run_st.
    destruct (query _ w) as [[n|e] w1] eqn:Hq; [|by eapply Hfail].
    destruct (n =? 0)%nat eqn:Hn; [|by intros s].
    pose proof Hq as Hq'.
    apply query_spec in Hq as [(?&?&?)|(n' & d & [= <-] & Hs & Hd & _)]; [done|].
    injection Hs as Hn' Hdb. simpl. apply Nat.eqb_eq in Hn. subst n.
    intros s Hsn. assert (Hc : w_block_cache w1 = w_block_cache w).
    { revert Hq'. unfold query, next_tick. run_st. destruct (db_err _); [done|]. intros Heq. by apply (f_equal (λ x, w_block_cache x.2)) in Heq. }
    rewrite Hc in Hsn. rewrite (Hok s Hsn), Hd, <- Hdb. unfold snapshot_of, active_rows.
    simpl. rewrite map_none_selected by (by apply length_zero_iff_nil). done.
Qed.

(** ** What the snapshot holds *)

Lemma fold_snapshot_members rows snap :
  let s := fold_left add_to_snapshot rows snap in
  (∀ x, x ∈ sn_blocked_emails s ↔ x ∈ sn_blocked_emails snap ∨ ("blocked_email", x) ∈ rows)
  ∧ (∀ x, x ∈ sn_blocked_domains s ↔ x ∈ sn_blocked_domains snap ∨ ("blocked_domain", x) ∈ rows)
  ∧ (∀ x, x ∈ sn_allowed_emails s ↔ x ∈ sn_allowed_emails snap ∨ ("allowed_email", x) ∈ rows)
  ∧ (∀ x, x ∈ sn_allowed_domains s ↔ x ∈ sn_allowed_domains snap ∨ ("allowed_domain", x) ∈ rows)
  ∧ (sn_allowlist_mode s = true ↔ sn_allowlist_mode snap = true
     ∨ ∃ x, ("allowed_email", x) ∈ rows ∨ ("allowed_domain", x) ∈ rows).
Proof.
  revert snap. induction rows as [|[kind v] rows IH]; intros snap; simpl; [set_solver|].
  destruct (IH (add_to_snapshot snap (kind, v))) as (H1 & H2 & H3 & H4 & H5).
  setoid_rewrite H1. setoid_rewrite H2. setoid_rewrite H3. setoid_rewrite H4. rewrite H5.
  clear. unfold add_to_snapshot. setoid_rewrite elem_of_cons.
  destruct (String.eqb_spec kind "blocked_email") as [->|]; [simpl; set_solver|].
  destruct (String.eqb_spec kind "blocked_domain") as [->|]; [simpl; set_solver|].
  destruct (String.eqb_spec kind "allowed_email") as [->|]; [simpl; set_solver|].
  destruct (String.eqb_spec kind "allowed_domain") as [->|]; [simpl; set_solver|].
  set_solver.
Qed.

(** The configuration with the table's active entries. *)
Definition values_of (kind : string) (d : Db) : list string :=
  map snd (base.filter (λ kv, kv.1 = kind) (active_rows d)).

Definition config_of (d : Db) : FilterConfig :=
  mkFilterConfig (values_of "blocked_email" d) (values_of "blocked_domain" d)
    (values_of "allowed_email" d) (values_of "allowed_domain" d).

Lemma elem_of_values kind d x : x ∈ values_of kind d ↔ (kind, x) ∈ active_rows d.
Proof.
  unfold values_of. rewrite list_elem_of_fmap. setoid_rewrite list_elem_of_filter. split.
  - by intros ([k v] & -> & [= ->] & Hin).
  - intros Hin. by exists (kind, x).
Qed.

(** Entries are stored in lower case, as [add_entry] writes them. *)
Definition values_lower (d : Db) : Prop :=
  ∀ kv, kv ∈ active_rows d → to_lowercase kv.2 = kv.2.

Lemma listed_values kind d x :
  values_lower d → listed (values_of kind d) x ↔ (kind, x) ∈ active_rows d.
Proof.
  intros Hl. unfold listed. setoid_rewrite elem_of_values. split.
  - intros (s & Hin & <-). pose proof (Hl _ Hin) as He. simpl in He. by rewrite He.
  - intros Hin. exists x. split; [done|]. apply (Hl _ Hin).
Qed.

Lemma snapshot_check_passes snap email :
  is_ok (snapshot_check snap email)
  = passes (mkRecipientFilter (sn_blocked_emails snap) (sn_blocked_domains snap)
              (sn_allowed_emails snap) (sn_allowed_domains snap) (sn_allowlist_mode snap)) email.
Proof.
  rewrite <- filter_check_passes. unfold snapshot_check, filter_check, domain_of. cbv zeta. simpl.
  destruct (contains (sn_blocked_emails snap) _); [done|].
  set (domain := match rsplit_once _ _ with Some _ => _ | None => _ end).
  destruct (match domain with Some d => contains (sn_blocked_domains snap) d | None => false end);
    [done|].
  destruct (sn_allowlist_mode snap); [|done].
  by destruct (contains (sn_allowed_emails snap) _),
       (match domain with Some d => contains (sn_allowed_domains snap) d | None => false end).
Qed.

(** The two filters implement one rule: on a table of lower-case entries the
    database block list accepts exactly what the configuration filter built
    from the same entries accepts. *)
Theorem block_list_is_filter d email :
  values_lower d →
  is_ok (snapshot_check (snapshot_of d) email)
  = is_ok (filter_check (filter_new (config_of d)) email).
Proof.
  intros Hl. rewrite snapshot_check_passes, filter_check_passes.
  destruct (fold_snapshot_members (active_rows d) empty_snapshot) as (H1 & H2 & H3 & H4 & H5).
  fold (snapshot_of d) in *.
  assert (Hset : ∀ k (s : gset string),
    (∀ x, x ∈ s ↔ x ∈ (∅ : gset string) ∨ (k, x) ∈ active_rows d) → s = norm (values_of k d)).
  { intros k s Hs. apply set_eq. intros x. rewrite Hs, elem_of_norm, listed_values by done. set_solver. }
  apply Hset in H1, H2, H3, H4. unfold passes. simpl. rewrite H1, H2, H3, H4.
  replace (sn_allowlist_mode (snapshot_of d)) with (rf_allowlist_mode (filter_new (config_of d)));
    [done|].
  apply eq_true_iff_eq. rewrite H5. simpl. rewrite <- not_false_iff_true.
  change (negb _ || negb _) with (rf_allowlist_mode (filter_new (config_of d))).
  rewrite allowlist_mode_new. simpl.
  assert (He : ∀ k, values_of k d = [] ↔ ¬ ∃ x, (k, x) ∈ active_rows d).
  { intros k. setoid_rewrite <- elem_of_values. destruct (values_of k d); [set_solver|].
    split; [done|]. intros Hn. exfalso. apply Hn. eexists. constructor. }
  rewrite !He. split.
  - intros Hn. right. destruct (values_of "allowed_email" d) as [|x l] eqn:Ha.
    + destruct (values_of "allowed_domain" d) as [|x l] eqn:Hd.
      * exfalso. apply Hn. by rewrite <- !He.
      * exists x. right. apply elem_of_values. rewrite Hd. constructor.
    + exists x. left. apply elem_of_values. rewrite Ha. constructor.
  - intros [|[x Hx]]; naive_solver.
Qed.

End block_list.

(** ** Concrete runs *)

Definition blocking_db : Db :=
  set_blocks (λ _, [mkBlockListEntry 1 "blocked_domain" "spam.io" None true 0;
                    mkBlockListEntry 2 "blocked_email" "old@example.com" None false 0]) empty_db.

Lemma check_reflects_table_witness :
  let w := world0 blocking_db in
  let '(r, w') := check (H := sample_env) "A@SPAM.io" w in
  block_cache_ok w' ∧ w_db w' = w_db w
  ∧ (r = snapshot_check (H := sample_env) (snapshot_of (w_db w)) "A@SPAM.io"
     ∨ ∃ e, r = Err (AppError.Database e)).
Proof. apply (check_reflects_table (H := sample_env)); [by intros s|reflexivity]. Defined.

Lemma admin_keeps_cache_witness :
  let w := world0 blocking_db in
  (∀ kind value reason, block_cache_ok (add_entry (H := sample_env) kind value reason w).2)
  ∧ (∀ id, block_cache_ok (remove_entry (H := sample_env) id w).2).
Proof. apply (admin_keeps_cache (H := sample_env)). by intros s. Defined.

Lemma block_list_is_filter_witness :
  is_ok (snapshot_check (H := sample_env) (snapshot_of blocking_db) "A@SPAM.io")
  = is_ok (filter_check (H := sample_env) (filter_new (H := sample_env) (config_of blocking_db)) "A@SPAM.io").
Proof.
  apply (block_list_is_filter (H := sample_env)). intros kv Hin.
  replace (active_rows blocking_db) with [("blocked_domain", "spam.io")] in Hin by reflexivity.
  apply list_elem_of_singleton in Hin as ->. reflexivity.
Defined.

(** Blocked at once after [add_entry], allowed again after [remove_entry]. *)
Example block_then_unblock :
  let w1 := (add_entry (H := sample_env) "blocked_email" "Bad@Example.com" None (world0 empty_db)).2 in
  let '(r1, w2) := check (H := sample_env) "bad@example.com" w1 in
  let w3 := (remove_entry (H := sample_env) 0 w2).2 in
  (is_ok r1, is_ok (check (H := sample_env) "bad@example.com" w3).1) = (false, true).
Proof. vm_compute. reflexivity. Qed.
