(* ===== verification/TemplateStore.v ===== *)
(** * The template store ([crates/store/src/template_store.rs])

    [TemplateStore]: the [notification_template] table, its versioned upsert
    and patch, and the cache [resolve] fills, keyed ["{channel}:{event_type}"]. *)

From S2P Require Import Prelude Json AppErr Event World Interfaces.

Definition cache_key (channel event_type : string) : string := channel +:+ ":" +:+ event_type.

Definition tpl_matches (event_type channel : string) (r : TemplateRow) : bool :=
  String.eqb (tr_event_type r) event_type && String.eqb (tr_channel r) channel.

Definition content (r : TemplateRow) : NotificationTemplate :=
  mkNotificationTemplate (tr_subject r) (tr_body_html r) (tr_body_text r).

(** [SELECT ... WHERE type = $1 AND channel = $2 AND active = TRUE]. *)
Definition find_active (event_type channel : string) (d : Db) : option NotificationTemplate :=
  match List.find (λ r, tpl_matches event_type channel r && tr_active r) (db_templates d) with
  | Some r => Some (content r)
  | None => None
  end.

(** [... IS DISTINCT FROM ... OR ...]. *)
Definition content_differs (r : TemplateRow) (t : NotificationTemplate) : bool :=
  negb (String.eqb (tr_subject r) (nt_subject t))
  || negb (String.eqb (tr_body_html r) (nt_body_html t))
  || negb (String.eqb (tr_body_text r) (nt_body_text t)).

(** The [SET] clause both [upsert] and [patch] run on an existing row. *)
Definition rewrite_row (t : NotificationTemplate) (active : bool) (now : DateTime)
    (r : TemplateRow) : TemplateRow :=
  let changed := content_differs r t in
  {| tr_event_type := tr_event_type r; tr_channel := tr_channel r;
     tr_subject := nt_subject t; tr_body_html := nt_body_html t; tr_body_text := nt_body_text t;
     tr_version := if changed then tr_version r + 1 else tr_version r;
     tr_active := active;
     tr_updated_at := if changed then now else tr_updated_at r |}.

(** [version + 1] overflows [INT]. *)
Definition version_overflow (t : NotificationTemplate) (r : TemplateRow) : bool :=
  content_differs r t && (i32_max <=? tr_version r).

(** Byte-wise order, for [ORDER BY] under the C collation. *)
Fixpoint str_ltb (a b : string) : bool :=
  match a, b with
  | EmptyString, EmptyString => false
  | EmptyString, String _ _ => true
  | String _ _, EmptyString => false
  | String c a, String d b =>
      (N_of_ascii c <? N_of_ascii d)%N || (Ascii.eqb c d && str_ltb a b)
  end.

Fixpoint insert_tpl (lt : TemplateRow → TemplateRow → bool) (r : TemplateRow)
    (l : list TemplateRow) : list TemplateRow :=
  match l with
  | [] => [r]
  | x :: l => if lt r x then r :: x :: l else x :: insert_tpl lt r l
  end.
Definition order_tpl (lt : TemplateRow → TemplateRow → bool) (l : list TemplateRow) :=
  fold_left (λ acc r, insert_tpl lt r acc) l [].

Section template_store.
Context `{Env}.

(** [new_with_ttl] and [new]: the cache the store is built with.  What it still
    holds at a given moment is [cache_live] of the environment. *)
Definition template_cache_new (ttl_secs : Z) : CachePolicy := cache_policy 1024 ttl_secs.
Definition template_cache_default : CachePolicy := template_cache_new 300.

(** [self.cache.get(&key)]. *)
Definition tpl_cache_get (key : string) : M (option NotificationTemplate) :=
  let! t := next_tick in
  let! c := st_get w_tpl_cache in
  st_ret (if cache_live t then c !! key else None).

Definition resolve (event_type channel : string) : M (result NotificationTemplate AppError) :=
  let key := cache_key channel event_type in
  let! hit := tpl_cache_get key in
  match hit with
  | Some tpl => st_ret (Ok tpl)
  | None =>
      let? row := query (λ _ d, Ok (find_active event_type channel d, d)) in
      match row with
      | None =>
          st_ret (Err (AppError.Template ("Unknown event type '" +:+ event_type
            +:+ "' for channel '" +:+ channel +:+ "' — add a row to notification_template")))
      | Some tpl =>
          st_modify (λ w, set_tpl_cache (<[key := tpl]> (w_tpl_cache w)) w) ;;!
          st_ret (Ok tpl)
      end
  end.

Definition list_templates : M (result (list TemplateRow) AppError) :=
  query (λ _ d, Ok (order_tpl (λ a b, str_ltb (tr_event_type a) (tr_event_type b)
    || String.eqb (tr_event_type a) (tr_event_type b) && str_ltb (tr_channel a) (tr_channel b))
    (db_templates d), d)).

Definition get (event_type : string) : M (result (list TemplateRow) AppError) :=
  query (λ _ d, Ok (order_tpl (λ a b, str_ltb (tr_channel a) (tr_channel b))
    (base.filter (λ r, tr_event_type r = event_type) (db_templates d)), d)).

(** Every key with the suffix [":{event_type}"] goes. *)
Definition invalidate (event_type : string) : M unit :=
  st_modify (λ w, set_tpl_cache
    (base.filter (λ kv, ends_with (":" +:+ event_type) kv.1 = false) (w_tpl_cache w)) w).

Definition invalidate_all : M unit := st_modify (set_tpl_cache ∅).

Definition sql_upsert (event_type channel : string) (t : NotificationTemplate) (active : bool)
    (tick : nat) (d : Db) : result ((Z * bool) * Db) string :=
  let m := tpl_matches event_type channel in
  match List.find m (db_templates d) with
  | Some r =>
      if version_overflow t r then Err "integer out of range"
      else Ok ((tr_version (rewrite_row t active (clock tick) r), false),
               set_templates (map (λ r, if m r then rewrite_row t active (clock tick) r else r)) d)
  | None =>
      Ok ((1, true), set_templates (λ l, l ++ [mkTemplateRow event_type channel (nt_subject t)
            (nt_body_html t) (nt_body_text t) 1 active (clock tick)]) d)
  end.

Definition upsert (event_type channel subject body_html body_text : string) (active : bool) :
    M (result (Z * bool) AppError) :=
  let? row := query (sql_upsert event_type channel
                       (mkNotificationTemplate subject body_html body_text) active) in
  invalidate event_type ;;!
  st_ret (Ok row).

(** [COALESCE($n, column)]. *)
Definition patched (subject body_html body_text : option string) (r : TemplateRow) :
    NotificationTemplate :=
  mkNotificationTemplate (default (tr_subject r) subject) (default (tr_body_html r) body_html)
    (default (tr_body_text r) body_text).

Definition patch_row (subject body_html body_text : option string) (active : option bool)
    (now : DateTime) (r : TemplateRow) : TemplateRow :=
  rewrite_row (patched subject body_html body_text r) (default (tr_active r) active) now r.

Definition sql_patch (event_type channel : string) (subject body_html body_text : option string)
    (active : option bool) (tick : nat) (d : Db) : result (option (Z * bool) * Db) string :=
  let m := tpl_matches event_type channel in
  let upd := patch_row subject body_html body_text active (clock tick) in
  match List.find m (db_templates d) with
  | Some r =>
      if version_overflow (patched subject body_html body_text r) r then Err "integer out of range"
      else Ok (Some (tr_version (upd r), tr_active (upd r)),
               set_templates (map (λ r, if m r then upd r else r)) d)
  | None => Ok (None, d)
  end.

Definition patch (event_type channel : string) (subject body_html body_text : option string)
    (active : option bool) : M (result (option (Z * bool)) AppError) :=
  let? row := query (sql_patch event_type channel subject body_html body_text active) in
  (if match row with Some _ => true | None => false end then invalidate event_type else st_ret tt) ;;!
  st_ret (Ok row).

#[export] Instance TemplateStore : TemplateResolver := resolve.

(** ** Laws *)

#[export] Instance TemplateStore_laws : TemplateResolverLaws.
Proof.
  intros ty ch. apply keeps_bind; [apply _|by intros w|]. intros [tpl|]; [apply keeps_ret, _|].
  apply keeps_try; [apply _| |].
  - intros w. split; [apply query_quiet|]. destruct (query _ w) as [r w1] eqn:Hq.
    apply query_spec in Hq as [(e & -> & Hd)|(a & d & -> & [= <- <-] & Hd & _)];
      unfold same_log; simpl; by rewrite Hd.
  - intros [tpl|]; [|apply keeps_ret, _].
    apply keeps_bind; [apply _|by intros w|]. intros []. apply keeps_ret, _.
Qed.

(** ** The cache *)

(** A cached entry is the content of the active row it is named after. *)
Definition tpl_cache_ok (w : World) : Prop :=
  ∀ ch ty tpl, contains_char ":" ch = false →
    w_tpl_cache w !! cache_key ch ty = Some tpl → find_active ty ch (w_db w) = Some tpl.

Lemma cache_key_inj ch1 ty1 ch2 ty2 :
  contains_char ":" ch1 = false → contains_char ":" ch2 = false →
  cache_key ch1 ty1 = cache_key ch2 ty2 → ch1 = ch2 ∧ ty1 = ty2.
Proof.
  intros H1 H2 Hk. pose proof (split_once_app ":" ch1 ty1 H1) as E1.
  pose proof (split_once_app ":" ch2 ty2 H2) as E2.
  unfold cache_key in Hk. change (":" +:+ ty1) with (String ":" ty1) in Hk.
  change (":" +:+ ty2) with (String ":" ty2) in Hk. rewrite Hk, E2 in E1. by injection E1 as -> ->.
Qed.

(** A query leaves the caches alone. *)
Lemma query_caches {A} (stmt : nat → Db → result (A * Db) string) w :
  w_tpl_cache (query stmt w).2 = w_tpl_cache w ∧ w_block_cache (query stmt w).2 = w_block_cache w.
Proof.
  unfold query, next_tick. run_st. destruct (db_err _); [done|]. simpl.
  by destruct (stmt _ _) as [[??]|].
Qed.

Lemma resolve_spec ty ch w r w' :
  contains_char ":" ch = false → tpl_cache_ok w → resolve ty ch w = (r, w') →
  tpl_cache_ok w' ∧ w_db w' = w_db w
  ∧ match r with
    | Ok tpl => find_active ty ch (w_db w) = Some tpl
    | Err (AppError.Template _) => find_active ty ch (w_db w) = None
    | Err e => ∃ m, e = AppError.Database m
    end.
Proof.
  intros Hch Hok. unfold resolve, tpl_cache_get, next_tick. run_st.
  destruct (if cache_live _ then _ else _) as [tpl|] eqn:Hhit.
  - intros [= <- <-]. split_and!; [done..|]. apply Hok; [done|]. by destruct (cache_live _).
  - pose proof (query_caches (λ _ d, Ok (find_active ty ch d, d)) (set_tick (S (w_tick w)) w)) as [Hc _].
    destruct (query _ _) as [[row|e] w1] eqn:Hq; simpl in Hc.
    + apply query_spec in Hq as [(?&?&?)|(row' & d & [= <-] & [= <- <-] & Hd & _)]; [done|].
      simpl in Hd. destruct (find_active ty ch (w_db w)) as [tpl|] eqn:Hf; intros [= <- <-].
      * split_and!; [|done..]. intros ch' ty' tpl' Hch' Hl. simpl in *. rewrite Hd.
        destruct (decide (cache_key ch ty = cache_key ch' ty')) as [Hk|Hk].
        -- apply cache_key_inj in Hk as [<- <-]; [|done..]. rewrite lookup_insert_eq in Hl. congruence.
        -- rewrite lookup_insert_ne in Hl by done. rewrite Hc in Hl. by apply Hok.
      * split_and!; [|done..]. intros ch' ty' tpl' Hch' Hl. rewrite Hc in Hl. rewrite Hd. by apply Hok.
    + apply query_spec in Hq as [(e0 & [= ->] & Hd)|(?&?&?&?)]; [|done]. simpl in Hd.
      intros [= <- <-]. split_and!; [|done|by eexists].
      intros ch' ty' tpl' Hch' Hl. rewrite Hc in Hl. rewrite Hd. by apply Hok.
Qed.

(** ** Writes *)

Lemma tpl_matches_iff ty ch r :
  tpl_matches ty ch r = true ↔ tr_event_type r = ty ∧ tr_channel r = ch.
Proof. unfold tpl_matches. by rewrite andb_true_iff, !String.eqb_eq. Qed.

(** [d'] holds the same templates as [d] for every other event type. *)
Definition same_other_types (ty : string) (d d' : Db) : Prop :=
  ∀ ty' ch', ty' ≠ ty → find_active ty' ch' d' = find_active ty' ch' d.

Lemma find_active_map ty ch f d ty' ch' :
  (∀ r, tr_event_type (f r) = tr_event_type r ∧ tr_channel (f r) = tr_channel r) →
  ty' ≠ ty →
  find_active ty' ch' (set_templates (map (λ r, if tpl_matches ty ch r then f r else r)) d)
  = find_active ty' ch' d.
Proof.
  intros Hf Hne. unfold find_active. simpl. induction (db_templates d) as [|r l IH]; [done|]. simpl.
  destruct (tpl_matches ty ch r) eqn:Hm.
  - apply tpl_matches_iff in Hm as [Ht _]. destruct (Hf r) as [Hft _].
    assert (Hno : ∀ x, tr_event_type x = ty → tpl_matches ty' ch' x = false).
    { intros x Hx. apply not_true_iff_false. rewrite tpl_matches_iff. intros [? _]. congruence. }
    rewrite (Hno r), (Hno (f r)) by congruence. exact IH.
  - by destruct (tpl_matches ty' ch' r && tr_active r).
Qed.

Lemma find_active_updated ty ch f d (t : NotificationTemplate) a :
  (∀ r, tr_event_type (f r) = tr_event_type r ∧ tr_channel (f r) = tr_channel r
        ∧ content (f r) = t ∧ tr_active (f r) = a) →
  is_Some (List.find (tpl_matches ty ch) (db_templates d)) →
  find_active ty ch (set_templates (map (λ r, if tpl_matches ty ch r then f r else r)) d)
  = if a then Some t else None.
Proof.
  intros Hf. unfold find_active. simpl. induction (db_templates d) as [|r l IH]; simpl.
  { by intros [? ?]. }
  destruct (tpl_matches ty ch r) eqn:Hm.
  - intros _. destruct (Hf r) as (H1 & H2 & H3 & H4).
    assert (Hm' : tpl_matches ty ch (f r) = true).
    { apply tpl_matches_iff. rewrite H1, H2. by apply tpl_matches_iff. }
    rewrite Hm', H4. destruct a; simpl; [by rewrite H3|].
    clear IH. induction l as [|x l IH]; [done|]. simpl.
    destruct (tpl_matches ty ch x) eqn:Hx; [|by rewrite Hx].
    destruct (Hf x) as (_ & _ & _ & ->). by rewrite andb_false_r.
  - rewrite Hm. simpl. exact IH.
Qed.

Lemma sql_upsert_other ty ch t a tick d x d' :
  sql_upsert ty ch t a tick d = Ok (x, d') → same_other_types ty d d'.
Proof.
  unfold sql_upsert. destruct (List.find _ _) as [r|] eqn:Hf.
  - destruct (version_overflow _ _); [done|]. intros [= _ <-] ty' ch' Hne.
    by apply find_active_map.
  - intros [= _ <-] ty' ch' Hne. unfold find_active. simpl.
    induction (db_templates d) as [|r l IH]; simpl.
    + replace (tpl_matches ty' ch' _) with false; [done|]. symmetry.
      apply not_true_iff_false. rewrite tpl_matches_iff. simpl. intros [? _]. congruence.
    + simpl in Hf. destruct (tpl_matches ty ch r); [done|].
      destruct (tpl_matches ty' ch' r && tr_active r); [done|]. by apply IH.
Qed.

Lemma sql_patch_other ty ch s h x a tick d y d' :
  sql_patch ty ch s h x a tick d = Ok (y, d') → same_other_types ty d d'.
Proof.
  unfold sql_patch. destruct (List.find _ _) as [r|] eqn:Hf; [|by intros [= _ <-]].
  destruct (version_overflow _ _); [done|]. intros [= _ <-] ty' ch' Hne.
  by apply find_active_map.
Qed.

Lemma sql_upsert_active ty ch t a tick d x d' :
  sql_upsert ty ch t a tick d = Ok (x, d') →
  find_active ty ch d' = if a then Some t else None.
Proof.
  unfold sql_upsert. destruct (List.find _ _) as [r|] eqn:Hf.
  - destruct (version_overflow _ _); [done|]. intros [= _ <-].
    apply find_active_updated; [|by rewrite Hf]. intros y. split_and!; [done..|by destruct t|done].
  - intros [= _ <-]. unfold find_active. simpl. induction (db_templates d) as [|r l IH]; simpl.
    + replace (tpl_matches ty ch _) with true by (symmetry; by apply tpl_matches_iff).
      simpl. by destruct a, t.
    + simpl in Hf. destruct (tpl_matches ty ch r) eqn:Hm; [done|]. simpl. by apply IH.
Qed.

(** A write to one event type followed by its invalidation. *)
Lemma write_invalidate_ok {A} (stmt : nat → Db → result (A * Db) string) ty w a w1 :
  (∀ t d x d', stmt t d = Ok (x, d') → same_other_types ty d d') →
  tpl_cache_ok w → query stmt w = (Ok a, w1) → tpl_cache_ok (invalidate ty w1).2.
Proof.
  intros Hs Hok Hq. pose proof (query_caches stmt w) as [Hc _]. rewrite Hq in Hc. simpl in Hc.
  apply query_spec in Hq as [(?&?&?)|(x & d & _ & Hst & Hd & _)]; [done|].
  intros ch' ty' tpl Hch. simpl. intros [Hl Hend]%map_lookup_filter_Some. simpl in Hend.
  assert (Hne : ty' ≠ ty).
  { intros ->. unfold cache_key in Hend. by rewrite ends_with_app in Hend. }
  rewrite Hd. erewrite Hs by done. apply Hok; [done|]. by rewrite <- Hc.
Qed.

Lemma query_fail_ok {A} (stmt : nat → Db → result (A * Db) string) w e w1 :
  tpl_cache_ok w → query stmt w = (Err e, w1) → tpl_cache_ok w1.
Proof.
  intros Hok Hq. pose proof (query_caches stmt w) as [Hc _]. rewrite Hq in Hc. simpl in Hc.
  apply query_spec in Hq as [(e0 & _ & Hd)|(?&?&?&?)]; [|done].
  intros ch' ty' tpl Hch Hl. rewrite Hd. apply Hok; [done|]. by rewrite <- Hc.
Qed.

(** The template cache never serves content the table does not hold: every
    operation, successful or not, keeps each cached entry equal to the active
    row it is named after. *)
Theorem template_cache_coherent w ty ch :
  tpl_cache_ok w →
  (contains_char ":" ch = false → tpl_cache_ok (resolve ty ch w).2)
  ∧ (∀ s h x a, tpl_cache_ok (upsert ty ch s h x a w).2)
  ∧ (∀ s h x a, tpl_cache_ok (patch ty ch s h x a w).2)
  ∧ tpl_cache_ok (invalidate ty w).2 ∧ tpl_cache_ok (invalidate_all w).2.
Proof.
  intros Hok. split_and!.
  - intros Hch. destruct (resolve ty ch w) as [r w'] eqn:Hr. by eapply resolve_spec.
  - intros s h x a. unfold upsert. run_st. destruct (query _ w) as [[row|e] w1] eqn:Hq.
    + eapply (write_invalidate_ok _ ty); [|exact Hok|exact Hq]. intros *. apply sql_upsert_other.
    + by eapply query_fail_ok.
  - intros s h x a. unfold patch. run_st. destruct (query _ w) as [[row|e] w1] eqn:Hq.
    + destruct row as [row|].
      * eapply (write_invalidate_ok _ ty); [|exact Hok|exact Hq]. intros *. apply sql_patch_other.
      * simpl. pose proof (query_caches (sql_patch ty ch s h x a) w) as [Hc _].
        rewrite Hq in Hc. simpl in Hc.
        apply query_spec in Hq as [(?&?&?)|(row' & d & [= <-] & Hs & Hd & _)]; [done|].
        revert Hs. unfold sql_patch. destruct (List.find _ _); [by destruct (version_overflow _ _)|].
        intros [= Hdb]. intros ch' ty' tpl Hch Hl. rewrite Hd, <- Hdb. apply Hok; [done|]. by rewrite <- Hc.
    + by eapply query_fail_ok.
  - intros ch' ty' tpl Hch. simpl. intros [Hl _]%map_lookup_filter_Some. by apply Hok.
  - intros ch' ty' tpl Hch. simpl. intros Hl. by rewrite lookup_empty in Hl.
Qed.

(** An upsert takes effect at once: the next [resolve] returns the new
    content, or reports the event type unknown when it was stored inactive,
    whatever was cached before. *)
Theorem upsert_takes_effect ty ch s h x active w v w1 r w2 :
  contains_char ":" ch = false → tpl_cache_ok w →
  upsert ty ch s h x active w = (Ok v, w1) → resolve ty ch w1 = (r, w2) →
  match r with
  | Ok tpl => active = true ∧ tpl = mkNotificationTemplate s h x
  | Err (AppError.Template _) => active = false
  | Err e => ∃ m, e = AppError.Database m
  end.
Proof.
  intros Hch Hok Hu Hr. unfold upsert in Hu. revert Hu. run_st.
  destruct (query _ w) as [[row|e] w0] eqn:Hq; [|done]. intros [= -> <-].
  assert (Hok1 : tpl_cache_ok (invalidate ty w0).2).
  { eapply (write_invalidate_ok _ ty); [|exact Hok|exact Hq]. intros *. apply sql_upsert_other. }
  apply query_spec in Hq as [(?&?&?)|(v' & d & _ & Hst & Hd & _)]; [done|].
  apply sql_upsert_active in Hst.
  destruct (resolve_spec _ _ _ _ _ Hch Hok1 Hr) as (_ & _ & Hspec). simpl in Hspec.
  rewrite Hd, Hst in Hspec. destruct active; destruct r as [tpl|[]]; naive_solver.
Qed.

(** Storing the same content again changes nothing: the version is the one
    already stored and no row is touched. *)
Theorem upsert_same_content ty ch t a tick tick' d x d1 :
  sql_upsert ty ch t a tick d = Ok (x, d1) →
  sql_upsert ty ch t a tick' d1 = Ok ((x.1, false), d1).
Proof.
  assert (Hsame : ∀ r, content_differs (rewrite_row t a (clock tick) r) t = false).
  { intros r. unfold content_differs, rewrite_row. simpl. by rewrite !String.eqb_refl. }
  assert (Hid : ∀ r, tpl_matches ty ch r = true → content_differs r t = false → tr_active r = a →
                rewrite_row t a (clock tick') r = r).
  { intros r _ Hd Ha. unfold rewrite_row. rewrite Hd. unfold content_differs in Hd.
    apply orb_false_elim in Hd as [[H1 H2]%orb_false_elim H3].
    apply negb_false_iff, String.eqb_eq in H1, H2, H3. destruct r. simpl in *. congruence. }
  unfold sql_upsert at 1. destruct (List.find _ (db_templates d)) as [r|] eqn:Hf.
  - destruct (version_overflow t r); [done|]. intros [= <- <-].
    set (upd := rewrite_row t a (clock tick)).
    unfold sql_upsert. cbn [set_templates db_templates].
    assert (Hfind : List.find (tpl_matches ty ch)
              (map (λ r, if tpl_matches ty ch r then upd r else r) (db_templates d)) = Some (upd r)).
    { revert Hf. induction (db_templates d) as [|y l IH]; [done|]. simpl.
      destruct (tpl_matches ty ch y) eqn:Hm.
      - intros [= ->]. change (tpl_matches ty ch (upd r)) with (tpl_matches ty ch r). by rewrite Hm.
      - rewrite Hm. exact IH. }
    pose proof (find_some _ _ Hf) as [_ Hmr].
    rewrite Hfind. unfold version_overflow. rewrite (Hsame r : content_differs (upd r) t = false).
    rewrite (Hid (upd r)) by done. cbn [andb fst]. f_equal. f_equal.
    unfold set_templates. simpl. f_equal. rewrite map_map. apply map_ext. intros y.
    destruct (tpl_matches ty ch y) eqn:Hm; [|by rewrite Hm].
    change (tpl_matches ty ch (upd y)) with (tpl_matches ty ch y). rewrite Hm. by apply Hid.
  - intros [= <- <-]. unfold sql_upsert. cbn [set_templates db_templates].
    set (row := mkTemplateRow ty ch _ _ _ 1 a (clock tick)).
    assert (Hrow : tpl_matches ty ch row = true) by (by apply tpl_matches_iff).
    assert (Hd : content_differs row t = false).
    { unfold content_differs, row. simpl. by rewrite !String.eqb_refl. }
    assert (Hfind : List.find (tpl_matches ty ch) (db_templates d ++ [row]) = Some row).
    { revert Hf. induction (db_templates d) as [|y l IH]; simpl; [by rewrite Hrow|].
      by destruct (tpl_matches ty ch y). }
    rewrite Hfind. unfold version_overflow. rewrite Hd, (Hid row) by done. cbn [andb fst].
    f_equal. f_equal.
    unfold set_templates. simpl. f_equal. rewrite map_app. simpl. rewrite Hrow, Hid by done. f_equal.
    clear Hfind. revert Hf. induction (db_templates d) as [|y l IH]; [done|]. simpl.
    destruct (tpl_matches ty ch y); [done|]. intros Hl. by rewrite IH.
Qed.

End template_store.

(** ** Concrete runs *)

Definition order_tpl_row : TemplateRow :=
  mkTemplateRow "ORDER" "email" "Old" "<p>old</p>" "old" 3 true 0.
Definition tpl_world : World := world0 (set_templates (λ _, [order_tpl_row]) empty_db).
(** After a first [resolve]: the old content is cached. *)
Definition tpl_cached : World := (resolve (H := sample_env) "ORDER" "email" tpl_world).2.

Lemma tpl_cached_ok : tpl_cache_ok tpl_cached.
Proof.
  apply (resolve_spec (H := sample_env) "ORDER" "email" tpl_world
           (resolve (H := sample_env) "ORDER" "email" tpl_world).1); [done| |].
  - intros ch ty tpl _ Hl.
    change (w_tpl_cache tpl_world) with (∅ : gmap string NotificationTemplate) in Hl.
    by rewrite lookup_empty in Hl.
  - unfold tpl_cached. apply surjective_pairing.
Qed.

Lemma template_cache_coherent_witness :
  tpl_cache_ok (upsert (H := sample_env) "ORDER" "email" "New" "<p>new</p>" "new" true tpl_cached).2.
Proof.
  apply (proj1 (proj2 (template_cache_coherent (H := sample_env) tpl_cached "ORDER" "email" tpl_cached_ok))).
Defined.

Lemma upsert_takes_effect_witness :
  let '(_, w1) := upsert (H := sample_env) "ORDER" "email" "New" "<p>new</p>" "new" true tpl_cached in
  true = true ∧ mkNotificationTemplate "New" "<p>new</p>" "new"
    = mkNotificationTemplate "New" "<p>new</p>" "new".
Proof.
  apply (upsert_takes_effect (H := sample_env) "ORDER" "email" "New" "<p>new</p>" "new" true
    tpl_cached (4, false)
    (upsert (H := sample_env) "ORDER" "email" "New" "<p>new</p>" "new" true tpl_cached).2
    (Ok (mkNotificationTemplate "New" "<p>new</p>" "new"))
    (resolve (H := sample_env) "ORDER" "email"
      (upsert (H := sample_env) "ORDER" "email" "New" "<p>new</p>" "new" true tpl_cached).2).2);
    [reflexivity|apply tpl_cached_ok|vm_compute; reflexivity|vm_compute; reflexivity].
Defined.

Lemma upsert_same_content_witness :
  let d1 := set_templates (λ _, [mkTemplateRow "ORDER" "email" "S" "H" "T" 4 false 1000000000])
              empty_db in
  sql_upsert (H := sample_env) "ORDER" "email" (mkNotificationTemplate "S" "H" "T") false 9 d1
  = Ok ((4, false), d1).
Proof.
  apply (upsert_same_content (H := sample_env) "ORDER" "email" (mkNotificationTemplate "S" "H" "T")
           false 1 9 (w_db tpl_world) (4, false)).
  vm_compute. reflexivity.
Defined.
