(* ===== verification/Renderer.v ===== *)
(** * The template renderer ([crates/mailer/src/template.rs])

    The two minijinja environments the service renders in, the three phases of
    a rendering and the error each reports.  The engine itself, its parser and
    its interpreter, is a parameter: [jinja_parse] and [jinja_render]. *)

From S2P Require Import Prelude Json AppErr Event World.

(** [minijinja::Environment]: the settings the sources make and the templates
    added so far, by name. *)
Record Environment : Type := mkEnvironment {
  env_auto_escape : AutoEscape;
  env_undefined : UndefinedBehavior;
  env_templates : gmap string string;
}.

Section renderer.
Context `{Env}.

Definition html_env : Environment := mkEnvironment AutoEscape.Html UndefinedBehavior.Strict ∅.
Definition text_env : Environment := mkEnvironment AutoEscape.NoEscape UndefinedBehavior.Strict ∅.

(** [Environment::add_template_owned]: the source is parsed when it is added. *)
Definition add_template_owned (name source : string) (env : Environment) :
    result Environment JinjaError :=
  match jinja_parse source with
  | Some e => Err e
  | None => Ok (mkEnvironment (env_auto_escape env) (env_undefined env)
                  (<[name := source]> (env_templates env)))
  end.

(** [Environment::get_template]. *)
Definition get_template (name : string) (env : Environment) : result string JinjaError :=
  match env_templates env !! name with
  | Some source => Ok source
  | None => Err (mkJinjaError false ("template not found: template " +:+ name +:+ " does not exist"))
  end.

Definition template_err (phase : string) (err : JinjaError) : AppError :=
  AppError.Template
    (if je_undefined err then "undefined variable during " +:+ phase +:+ ": " +:+ je_text err
     else "template " +:+ phase +:+ " error: " +:+ je_text err).

Definition render_with_env (env : Environment) (template : string) (payload : json) :
    result string AppError :=
  result_bind (map_err (template_err "parse") (add_template_owned "t" template env)) (λ env,
  result_bind (map_err (template_err "load") (get_template "t" env)) (λ tmpl,
  map_err (template_err "render")
    (jinja_render (env_auto_escape env) (env_undefined env) tmpl payload))).

Definition render_template (template : string) (payload : json) : result string AppError :=
  render_with_env text_env template payload.
Definition render_html_template (template : string) (payload : json) : result string AppError :=
  render_with_env html_env template payload.

(** ** Properties *)

(** The load phase cannot fail, as its comment says: what is left is a parse
    error of the source or an error of rendering it, under the environment's
    settings. *)
Lemma render_with_env_phases env template payload :
  render_with_env env template payload
  = match jinja_parse template with
    | Some e => Err (template_err "parse" e)
    | None => map_err (template_err "render")
                (jinja_render (env_auto_escape env) (env_undefined env) template payload)
    end.
Proof.
  unfold render_with_env, add_template_owned. destruct (jinja_parse template); [done|].
  simpl. unfold get_template. simpl. by rewrite lookup_insert_eq.
Qed.

(** Subjects and text bodies are rendered without escaping, HTML bodies with
    it, both with undefined variables an error; a failure is always a template
    error, which no retry loop retries. *)
Theorem rendering_contract template payload :
  (∀ s, render_template template payload = Ok s ↔
     jinja_parse template = None
     ∧ jinja_render AutoEscape.NoEscape UndefinedBehavior.Strict template payload = Ok s)
  ∧ (∀ s, render_html_template template payload = Ok s ↔
     jinja_parse template = None
     ∧ jinja_render AutoEscape.Html UndefinedBehavior.Strict template payload = Ok s)
  ∧ ∀ e, render_template template payload = Err e ∨ render_html_template template payload = Err e →
     (∃ detail, e = AppError.Template detail) ∧ is_retryable e = false.
Proof.
  unfold render_template, render_html_template. rewrite !render_with_env_phases. simpl.
  destruct (jinja_parse template) as [p|].
  { split_and!; [naive_solver..|]. intros e [[= <-]|[= <-]]; split; by eauto. }
  split_and!.
  - destruct (jinja_render _ _ _ _); naive_solver.
  - destruct (jinja_render _ _ _ _); naive_solver.
  - intros e [He|He]; destruct (jinja_render _ _ _ _); simpl in He; simplify_eq; split; by eauto.
Qed.
End renderer.
