(* ===== verification/Mailer.v ===== *)
(** * Mail transports ([crates/mailer], [crates/rate_limiter])

    [SmtpSender] and [WebhookSender] behind the [EmailSender] trait, how each
    classifies the failures of its transport, the registry of named accounts
    and the shared rate limiter. *)

From S2P Require Import Prelude Json AppErr Event World.

(** ** SMTP configuration ([smtp.rs]) *)

Module SmtpTlsMode.
Inductive SmtpTlsMode : Type := Smtps | Starttls | None.
End SmtpTlsMode.
Notation SmtpTlsMode := SmtpTlsMode.SmtpTlsMode.

Record SmtpConfig : Type := mkSmtpConfig {
  sc_host : string;
  sc_port : Z;
  sc_username : string;
  sc_password : string;
  sc_from_email : string;
  sc_from_name : string;
  sc_tls_mode : option SmtpTlsMode;
  sc_connection_timeout_ms : Z;
  sc_read_timeout_ms : Z;
  sc_write_timeout_ms : Z;
  sc_pool_size : Z;
}.

(** [SmtpConfigRaw]: the deserialised form, a field that may be left out as an
    option, and its conversion. *)
Record SmtpConfigRaw : Type := mkSmtpConfigRaw {
  sr_host : string;
  sr_port : Z;
  sr_username : option string;
  sr_password : option string;
  sr_from_email : string;
  sr_from_name : string;
  sr_tls_mode : option SmtpTlsMode;
  sr_connection_timeout_ms : option Z;
  sr_read_timeout_ms : option Z;
  sr_write_timeout_ms : option Z;
  sr_pool_size : option Z;
}.

Definition default_connection_timeout_ms : Z := 5000.
Definition default_read_timeout_ms : Z := 10000.
Definition default_write_timeout_ms : Z := 10000.
Definition default_pool_size : Z := 5.

Definition smtp_config_of_raw (r : SmtpConfigRaw) : SmtpConfig :=
  {| sc_host := sr_host r;
     sc_port := sr_port r;
     sc_username := default "" (sr_username r);
     sc_password := default "" (sr_password r);
     sc_from_email := sr_from_email r;
     sc_from_name := sr_from_name r;
     sc_tls_mode := sr_tls_mode r;
     sc_connection_timeout_ms := default default_connection_timeout_ms (sr_connection_timeout_ms r);
     sc_read_timeout_ms := default default_read_timeout_ms (sr_read_timeout_ms r);
     sc_write_timeout_ms := default default_write_timeout_ms (sr_write_timeout_ms r);
     sc_pool_size := default default_pool_size (sr_pool_size r) |}.

Definition effective_tls_mode (cfg : SmtpConfig) : SmtpTlsMode :=
  match sc_tls_mode cfg with
  | Some m => m
  | None =>
      if sc_port cfg =? 465 then SmtpTlsMode.Smtps
      else if (sc_port cfg =? 587) || (sc_port cfg =? 25) then SmtpTlsMode.Starttls
      else SmtpTlsMode.None
  end.

(** What [SmtpSender::new] configures lettre's transport with.  The read and
    write timeouts of the configuration are not among it. *)
Record SmtpTransport : Type := mkSmtpTransport {
  st_mode : SmtpTlsMode;
  st_port : Z;
  st_timeout_ms : Z;
  st_max_pool : Z;
  st_credentials : option (string * string);
}.

Definition build_transport (cfg : SmtpConfig) : SmtpTransport :=
  let with_creds := negb (is_empty_str (sc_username cfg)) in
  {| st_mode := effective_tls_mode cfg;
     st_port := sc_port cfg;
     st_timeout_ms := sc_connection_timeout_ms cfg;
     st_max_pool := sc_pool_size cfg;
     st_credentials := if with_creds then Some (sc_username cfg, sc_password cfg) else None |}.

(** [relay] and [starttls_relay] may fail; [builder_dangerous] cannot. *)
Definition smtp_sender_new (relay_err : string → option string) (cfg : SmtpConfig) :
    result (SmtpTransport * EmailSender) AppError :=
  let ok := Ok (build_transport cfg, SmtpSender (sc_host cfg) (sc_from_email cfg) (sc_from_name cfg)) in
  match effective_tls_mode cfg with
  | SmtpTlsMode.Smtps | SmtpTlsMode.Starttls =>
      match relay_err (sc_host cfg) with
      | Some e => Err (transient_mailer e)
      | None => ok
      end
  | SmtpTlsMode.None => ok
  end.

(** [TokenResult] of the rate limiter. *)
Module TokenResult.
Inductive TokenResult : Type := Acquired | AcquiredAfterWait | Shutdown.
End TokenResult.

Section mailer.
Context `{Env}.

(** ** [SmtpSender::send] *)

Definition format_mailbox (email : string) (name : option string) : result string string :=
  match name with
  | Some n => if is_empty_str n then parse_mailbox email
              else parse_mailbox (n +:+ " <" +:+ email +:+ ">")
  | None => parse_mailbox email
  end.

Definition format_all (what : string) (l : list MailboxRef) : result (list string) AppError :=
  map_err (λ e, permanent_mailer ("invalid " +:+ what +:+ " address: " +:+ e))
    (result_mapM (λ r, format_mailbox (mb_email r) (mb_name r)) l).

Definition mime_part (a : ResolvedAttachment) : result MimePart AppError :=
  match parse_content_type (ra_content_type a) with
  | Ok ct => Ok (mkMimePart (ra_filename a) ct (ra_data a))
  | Err e => Err (permanent_mailer ("attachment '" +:+ ra_filename a
      +:+ "' has invalid content-type '" +:+ ra_content_type a +:+ "': " +:+ e))
  end.

Definition mime_body (msg : EmailMessage) : result MimeBody AppError :=
  match em_attachments msg with
  | [] => Ok (Alternative (em_body_text msg) (em_body_html msg))
  | atts => result_map (Mixed (em_body_text msg) (em_body_html msg)) (result_mapM mime_part atts)
  end.

(** Everything [send] does before it calls the transport. *)
Definition smtp_compose (self_from_email self_from_name : string) (msg : EmailMessage) :
    result SmtpMail AppError :=
  let from_email := default self_from_email (em_from_email_override msg) in
  let from_name := default self_from_name (em_from_name_override msg) in
  result_bind (map_err transient_mailer (format_mailbox from_email (Some from_name))) (λ from,
  result_bind (map_err transient_mailer (format_mailbox (em_to_email msg) (em_to_name msg))) (λ to,
  result_bind (format_all "cc" (em_cc msg)) (λ cc,
  result_bind (format_all "bcc" (em_bcc msg)) (λ bcc,
  result_bind (mime_body msg) (λ body,
  result_bind (format_all "to" (em_to_extra msg)) (λ extra,
    let mail := mkSmtpMail from (to :: extra) cc bcc (em_subject msg) body in
    match mime_build_err mail with
    | Some e => Err (transient_mailer e)
    | None => Ok mail
    end)))))).

Definition classify_smtp_error (err : SmtpError) : AppError :=
  if se_permanent err then permanent_mailer ("SMTP " +:+ se_text err)
  else if se_transient err then transient_mailer ("SMTP transient: " +:+ se_text err)
  else if se_timeout err || se_tls err then transient_mailer (se_text err)
  else if se_client err then permanent_mailer ("SMTP client error: " +:+ se_text err)
  else transient_mailer (se_text err).

(** ** [WebhookSender::send] ([webhook.rs]) *)

Definition json_opt_str (o : option string) : json :=
  match o with Some s => JStr s | None => JNull end.
Definition json_mailbox (r : MailboxRef) : json :=
  JObj [("email", JStr (mb_email r)); ("name", json_opt_str (mb_name r))].

Definition webhook_body (msg : EmailMessage) : json :=
  JObj [("event_id", JStr (uuid_str (em_event_id msg)));
        ("to_email", JStr (em_to_email msg));
        ("to_name", json_opt_str (em_to_name msg));
        ("to_extra", JArr (map json_mailbox (em_to_extra msg)));
        ("subject", JStr (em_subject msg));
        ("body_html", JStr (em_body_html msg));
        ("body_text", JStr (em_body_text msg));
        ("from_email_override", json_opt_str (em_from_email_override msg));
        ("from_name_override", json_opt_str (em_from_name_override msg));
        ("attachments", JArr (map (λ a,
           JObj [("filename", JStr (ra_filename a));
                 ("content_type", JStr (ra_content_type a));
                 ("data", JStr (base64_encode (ra_data a)))]) (em_attachments msg)));
        ("cc", JArr (map json_mailbox (em_cc msg)));
        ("bcc", JArr (map json_mailbox (em_bcc msg)))].

(** [StatusCode::is_success] and its siblings. *)
Definition is_success (status : Z) : bool := (200 <=? status) && (status <=? 299).
Definition is_client_error (status : Z) : bool := (400 <=? status) && (status <=? 499).
Definition is_server_error (status : Z) : bool := (500 <=? status) && (status <=? 599).

(** At most 512 bytes of the error body are quoted. *)
Definition truncate_body (raw : list Byte.byte) : string :=
  let text := utf8_lossy (take 512 raw) in
  if (512 <? length raw)%nat
  then text +:+ "… (" +:+ show_nat (length raw) +:+ " bytes total)"
  else text.

Definition classify_webhook (resp : HttpResponse) : result unit AppError :=
  let status := hr_status resp in
  if is_success status then Ok tt
  else
    let raw := match hr_body resp with Ok b => b | Err _ => [] end in
    let truncated := truncate_body raw in
    if status =? 429 then Err (AppError.RateLimited ("webhook HTTP 429: " +:+ truncated))
    else if is_client_error status
    then Err (permanent_mailer ("webhook HTTP " +:+ status_text status +:+ ": " +:+ truncated))
    else Err (transient_mailer ("webhook HTTP " +:+ status_text status +:+ ": " +:+ truncated)).

Record WebhookConfig : Type := mkWebhookConfig {
  wc_url : string;
  wc_auth_token : option string;
}.

(** [WebhookSender::new]; the shared HTTP client is [http_post]. *)
Definition webhook_sender_new (cfg : WebhookConfig) : EmailSender :=
  WebhookSender (wc_url cfg) (wc_auth_token cfg).

(** [with_default_client]: building the client may fail. *)
Definition with_default_client (client_err : option string) (cfg : WebhookConfig) :
    result EmailSender string :=
  match client_err with
  | Some e => Err e
  | None => Ok (webhook_sender_new cfg)
  end.

(** ** [EmailSender::send] *)

(** The transport call: from here on the message may have been delivered. *)
Definition hand_over (s : EmailSender) (msg : EmailMessage) (answer : nat → result unit AppError) :
    M (result unit AppError) :=
  let! t := next_tick in
  let r := answer t in
  st_modify (log_send (mkSendRecord s msg (is_ok r))) ;;!
  st_ret r.

Definition smtp_send (host from_email from_name : string) (msg : EmailMessage) :
    M (result unit AppError) :=
  match smtp_compose from_email from_name msg with
  | Err e => st_ret (Err e)
  | Ok mail =>
      hand_over (SmtpSender host from_email from_name) msg (λ t,
        match smtp_transport t host mail with
        | Some e => Err (classify_smtp_error e)
        | None => Ok tt
        end)
  end.

Definition webhook_send (url : string) (auth_token : option string) (msg : EmailMessage) :
    M (result unit AppError) :=
  hand_over (WebhookSender url auth_token) msg (λ t,
    match http_post t url auth_token (webhook_body msg) with
    | Err e => Err (transient_mailer e)
    | Ok resp => classify_webhook resp
    end).

Definition send (s : EmailSender) (msg : EmailMessage) : M (result unit AppError) :=
  match s with
  | SmtpSender host from_email from_name => smtp_send host from_email from_name msg
  | WebhookSender url auth_token => webhook_send url auth_token msg
  end.

(** ** The rate limiter ([crates/rate_limiter/src/lib.rs]) *)

Record RateLimitConfig : Type := mkRateLimitConfig {
  rl_emails_per_second : Z;
  rl_burst_size : Z;
}.

Definition default_emails_per_second : Z := 10.
Definition default_burst_size : Z := 20.
Definition rate_limit_config_default : RateLimitConfig :=
  mkRateLimitConfig default_emails_per_second default_burst_size.

(** [None] is pass-through; [Some] is governor's quota (rate, burst). *)
Definition MailRateLimiter : Type := option (Z * Z).

Definition rate_limiter_new (cfg : RateLimitConfig) : MailRateLimiter :=
  if rl_emails_per_second cfg =? 0 then None
  else Some (rl_emails_per_second cfg, Z.max (rl_burst_size cfg) 1).

Definition is_disabled (rl : MailRateLimiter) : bool :=
  match rl with None => true | Some _ => false end.

Definition wait_for_token (rl : MailRateLimiter) : M TokenResult.TokenResult :=
  match rl with
  | None => st_ret TokenResult.Acquired
  | Some _ =>
      let! t := next_tick in
      if token_available t then st_ret TokenResult.Acquired
      else
        let! t := next_tick in
        st_ret (if token_before_shutdown t
                then TokenResult.AcquiredAfterWait else TokenResult.Shutdown)
  end.

(** ** The sender registry ([registry.rs]) *)

Definition SenderRegistry : Type := gmap string EmailSender.

Definition registry_new : SenderRegistry := ∅.

Definition registry_register (name : string) (s : EmailSender) (r : SenderRegistry) :
    SenderRegistry := <[name := s]> r.

Definition registry_resolve (r : SenderRegistry) (account_name : option string) :
    option EmailSender :=
  match account_name with
  | None => None
  | Some name => r !! name
  end.

(** ** Properties *)

(** A webhook answer is success exactly for 2xx, a rate-limit signal exactly
    for 429, permanent exactly for the other 4xx, and retryable otherwise. *)
Theorem webhook_classification resp :
  let s := hr_status resp in
  match classify_webhook resp with
  | Ok _ => 200 ≤ s ≤ 299
  | Err (AppError.RateLimited _) => s = 429
  | Err e =>
      if is_permanent_mailer e then 400 ≤ s ≤ 499 ∧ s ≠ 429
      else is_retryable e = true ∧ ¬ 200 ≤ s ≤ 299 ∧ ¬ 400 ≤ s ≤ 499
  end.
Proof.
  unfold classify_webhook, is_success, is_client_error. cbv zeta.
  destruct ((200 <=? hr_status resp) && _) eqn:E1; [lia|].
  destruct (hr_status resp =? 429) eqn:E2; [lia|].
  destruct ((400 <=? hr_status resp) && _) eqn:E3; simpl; [lia|]. split; [done|lia].
Qed.

(** An SMTP failure is permanent exactly when the server said so, or the
    client rejected the message with no transient sign; it is never taken for a
    rate limit, so it stays on the normal retry schedule. *)
Theorem smtp_classification err :
  let e := classify_smtp_error err in
  is_permanent_mailer e
    = se_permanent err || negb (se_transient err || se_timeout err || se_tls err) && se_client err
  ∧ is_retryable e = negb (is_permanent_mailer e)
  ∧ error_reason_label e ≠ "rate_limited".
Proof.
  unfold classify_smtp_error.
  by destruct (se_permanent err), (se_transient err), (se_timeout err), (se_tls err), (se_client err).
Qed.

Lemma format_all_Ok what l addrs :
  format_all what l = Ok addrs ↔ Forall2 (λ r a, format_mailbox (mb_email r) (mb_name r) = Ok a) l addrs.
Proof.
  unfold format_all. rewrite <- result_mapM_Ok.
  destruct (result_mapM _ l); simpl; split; congruence.
Qed.

(** A composed message is addressed to exactly the message's To, CC and BCC
    boxes in order, comes from the override when there is one, and is wrapped
    in [multipart/mixed] exactly when it has attachments, one part each. *)
Theorem smtp_compose_addresses from_email from_name msg mail :
  smtp_compose from_email from_name msg = Ok mail →
  let boxes l addrs := Forall2 (λ r a, format_mailbox (mb_email r) (mb_name r) = Ok a) l addrs in
  boxes (mkMailboxRef (em_to_email msg) (em_to_name msg) :: em_to_extra msg) (sm_to mail)
  ∧ boxes (em_cc msg) (sm_cc mail) ∧ boxes (em_bcc msg) (sm_bcc mail)
  ∧ format_mailbox (default from_email (em_from_email_override msg))
      (Some (default from_name (em_from_name_override msg))) = Ok (sm_from mail)
  ∧ sm_subject mail = em_subject msg
  ∧ match sm_body mail with
    | Alternative t h => em_attachments msg = [] ∧ t = em_body_text msg ∧ h = em_body_html msg
    | Mixed t h parts =>
        em_attachments msg ≠ [] ∧ t = em_body_text msg ∧ h = em_body_html msg
        ∧ Forall2 (λ a p, mime_part a = Ok p) (em_attachments msg) parts
    end.
Proof.
  unfold smtp_compose. cbv zeta.
  destruct (format_mailbox (default _ _) _) as [from|] eqn:Hf; [|done]. simpl.
  destruct (format_mailbox (em_to_email msg) _) as [to|] eqn:Ht; [|done]. simpl.
  destruct (format_all "cc" _) as [cc|] eqn:Hcc; [|done]. apply format_all_Ok in Hcc. simpl.
  destruct (format_all "bcc" _) as [bcc|] eqn:Hbcc; [|done]. apply format_all_Ok in Hbcc. simpl.
  destruct (mime_body msg) as [body|] eqn:Hb; [|done]. simpl.
  destruct (format_all "to" _) as [extra|] eqn:Hx; [|done]. apply format_all_Ok in Hx. simpl.
  destruct (mime_build_err _); [done|]. intros [= <-]. simpl.
  split_and!; try done; [by constructor|].
  revert Hb. unfold mime_body. destruct (em_attachments msg) as [|a atts] eqn:Ha.
  - by intros [= <-].
  - destruct (result_mapM mime_part (a :: atts)) as [parts|] eqn:Hp; simpl; [|done].
    intros [= <-]. apply result_mapM_Ok in Hp. by split_and!.
Qed.

(** Sending records at most one hand-over, and touches nothing else. *)
Lemma send_spec s msg w r w' :
  send s msg w = (r, w') →
  w_db w' = w_db w ∧ w_amqp w' = w_amqp w ∧ w_slept w' = w_slept w
  ∧ (w_sends w' = w_sends w ∧ is_ok r = false
     ∨ w_sends w' = w_sends w ++ [mkSendRecord s msg (is_ok r)]).
Proof.
  destruct s as [host fe fn|url tok]; simpl; unfold smtp_send, webhook_send.
  - destruct (smtp_compose fe fn msg); intros [= <- <-]; split_and!; auto.
  - intros [= <- <-]. split_and!; auto.
Qed.

(** The limiter never blocks when disabled, and otherwise only gives up on a
    shutdown that came before a token. *)
Theorem rate_limiter_modes cfg w :
  let r := (wait_for_token (rate_limiter_new cfg) w).1 in
  (rl_emails_per_second cfg = 0 ∧ r = TokenResult.Acquired
   ∧ (wait_for_token (rate_limiter_new cfg) w).2 = w)
  ∨ (rl_emails_per_second cfg ≠ 0
     ∧ (∃ rate burst, rate_limiter_new cfg = Some (rate, burst) ∧ 1 ≤ burst)
     ∧ (r = TokenResult.Shutdown ↔
        token_available (w_tick w) = false ∧ token_before_shutdown (S (w_tick w)) = false)).
Proof.
  unfold wait_for_token, rate_limiter_new, next_tick. run_st.
  destruct (rl_emails_per_second cfg =? 0) eqn:E.
  { left. split_and!; [lia|done..]. }
  right. split_and!; [lia| |].
  { eexists _, _. split; [done|]. lia. }
  simpl. destruct (token_available (w_tick w)); simpl; [naive_solver|].
  destruct (token_before_shutdown _); naive_solver.
Qed.

End mailer.

(** ** A concrete message *)

Definition sample_message : EmailMessage :=
  mkEmailMessage 7 "a@example.com" (Some "Alice") [mkMailboxRef "b@example.com" None] "Hello"
    "<p>Hi</p>" "Hi" None (Some "Shop") [mkResolvedAttachment "a.pdf" "application/pdf" []]
    [mkMailboxRef "c@example.com" None] [].

Definition sample_mail : SmtpMail :=
  mkSmtpMail "Shop <no-reply@example.com>" ["Alice <a@example.com>"; "b@example.com"]
    ["c@example.com"] [] "Hello"
    (Mixed "Hi" "<p>Hi</p>" [mkMimePart "a.pdf" "application/pdf" []]).

Lemma smtp_compose_addresses_witness :
  let boxes l addrs :=
    Forall2 (λ r a, format_mailbox (H := sample_env) (mb_email r) (mb_name r) = Ok a) l addrs in
  boxes [mkMailboxRef "a@example.com" (Some "Alice"); mkMailboxRef "b@example.com" None]
    (sm_to sample_mail).
Proof.
  apply (smtp_compose_addresses (H := sample_env) "no-reply@example.com" "No Reply" sample_message
           sample_mail).
  reflexivity.
Defined.
