(* ===== verification/Fetcher.v ===== *)
(** * The attachment fetcher ([crates/mailer/src/fetcher.rs])

    Validation before any network call, one GET per attempt, independent
    retries per attachment, and the choice of the error that decides whether
    the event is re-queued.  The fetches of an event run concurrently in the
    code; here they run in the order of the references, each answer being the
    environment's. *)

From Stdlib Require Import Strings.Byte.
From S2P Require Import Prelude Json AppErr Event World Mailer.

Definition MAX_ATTACHMENT_BYTES : Z := 10 * 1024 * 1024.
Definition FETCH_MAX_RETRIES : nat := 3.

(** Nothing mailed, published or written. *)
Definition untouched : relation World := λ w w',
  w_sends w' = w_sends w ∧ w_amqp w' = w_amqp w ∧ w_db w' = w_db w.

#[export] Instance untouched_preorder : PreOrder untouched.
Proof.
  split; [by intros w|]. intros w1 w2 w3 (?&?&?) (?&?&?). unfold untouched. split_and!; congruence.
Qed.

Section fetcher.
Context `{Env}.

Definition is_rate_status (status : Z) : bool := status =? 429.

(** [fetch_one] on the response; the content-type cross-check only warns. *)
Definition classify_fetch (a : AttachmentRef) (max_bytes : Z) (resp : HttpResponse) :
    result (list Byte.byte) AppError :=
  let status := hr_status resp in
  if is_rate_status status
  then Err (AppError.RateLimited ("attachment '" +:+ ar_filename a +:+ "' source returned HTTP 429"))
  else if is_client_error status
  then Err (permanent_mailer ("attachment '" +:+ ar_filename a +:+ "' fetch returned HTTP "
                              +:+ status_text status +:+ " (" +:+ ar_url a +:+ ")"))
  else if is_server_error status
  then Err (transient_mailer ("attachment '" +:+ ar_filename a +:+ "' fetch returned HTTP "
                              +:+ status_text status +:+ " — will retry"))
  else
    match hr_body resp with
    | Err e => Err (transient_mailer ("attachment '" +:+ ar_filename a +:+ "' read error: " +:+ e))
    | Ok bytes =>
        if max_bytes <? Z.of_nat (length bytes)
        then Err (permanent_mailer ("attachment '" +:+ ar_filename a +:+ "' exceeds size limit ("
                    +:+ show_nat (length bytes) +:+ " > " +:+ show_Z max_bytes +:+ " bytes)"))
        else Ok bytes
    end.

Definition fetch_one (a : AttachmentRef) (max_bytes : Z) : M (result (list Byte.byte) AppError) :=
  let! t := next_tick in
  st_ret (match http_get t (ar_url a) (ar_fetch_token a) with
          | Err e => Err (transient_mailer ("attachment fetch network error '"
                            +:+ ar_filename a +:+ "': " +:+ e))
          | Ok resp => classify_fetch a max_bytes resp
          end).

Definition fetch_delay_ms (attempt : nat) : Z :=
  1000 * Z.shiftl 1 (Z.min (Z.of_nat attempt - 1) 3).

Definition shutdown_err (what : string) (a : AttachmentRef) : AppError :=
  transient_mailer ("shutdown requested during " +:+ what +:+ " of '" +:+ ar_filename a +:+ "'").

(** The body of [for attempt in 0..=FETCH_MAX_RETRIES] from [attempt] on, with
    [n] attempts left and the last error so far. *)
Fixpoint fetch_attempts (a : AttachmentRef) (max_bytes : Z) (attempt n : nat)
    (last_err : option AppError) : M (result ResolvedAttachment AppError) :=
  match n with
  | O =>
      st_ret (Err (default (transient_mailer ("attachment '" +:+ ar_filename a
        +:+ "' fetch failed after " +:+ show_nat FETCH_MAX_RETRIES +:+ " retries")) last_err))
  | S n =>
      let! cancelled := is_cancelled in
      if cancelled then st_ret (Err (shutdown_err "fetch" a))
      else
        let! go_on := (match attempt with
                       | O => st_ret true
                       | _ => sleep_or_shutdown (fetch_delay_ms attempt)
                       end) in
        if negb go_on then st_ret (Err (shutdown_err "fetch retry" a))
        else
          let! r := fetch_one a max_bytes in
          match r with
          | Ok data => st_ret (Ok (mkResolvedAttachment (ar_filename a) (ar_content_type a) data))
          | Err e =>
              if is_permanent_mailer e then st_ret (Err e)
              else fetch_attempts a max_bytes (S attempt) n (Some e)
          end
  end.

Definition fetch_one_with_retry (a : AttachmentRef) (max_bytes : Z) :
    M (result ResolvedAttachment AppError) :=
  fetch_attempts a max_bytes 0 (S FETCH_MAX_RETRIES) None.

(** Step 1: metadata of every reference, before any network call. *)
Fixpoint validate_all (refs : list AttachmentRef) (event_timestamp : DateTime) :
    M (result unit AppError) :=
  match refs with
  | [] => st_ret (Ok tt)
  | a :: refs =>
      let! t := next_tick in
      match attachment_validate a event_timestamp (clock t) with
      | Err m => st_ret (Err (permanent_mailer m))
      | Ok _ =>
          let! cancelled := is_cancelled in
          if cancelled
          then st_ret (Err (transient_mailer "shutdown requested during attachment validation"))
          else validate_all refs event_timestamp
      end
  end.

(** Step 2: [join_all]. *)
Fixpoint fetch_all (refs : list AttachmentRef) (max_bytes : Z) :
    M (list (result ResolvedAttachment AppError)) :=
  match refs with
  | [] => st_ret []
  | a :: refs =>
      let! r := fetch_one_with_retry a max_bytes in
      let! rs := fetch_all refs max_bytes in
      st_ret (r :: rs)
  end.

(** Step 3: the resolved attachments, or the representative error. *)
Definition prefer_transient (acc e : AppError) : AppError :=
  if is_permanent_mailer acc && negb (is_permanent_mailer e) then e else acc.

Fixpoint partition_results {A} (results : list (result A AppError)) : list A * list AppError :=
  match results with
  | [] => ([], [])
  | r :: results =>
      let '(oks, errs) := partition_results results in
      match r with Ok a => (a :: oks, errs) | Err e => (oks, e :: errs) end
  end.

Definition collect_results {A} (results : list (result A AppError)) : result (list A) AppError :=
  let '(resolved, errors) := partition_results results in
  match errors with
  | [] => Ok resolved
  | e :: errors => Err (fold_left prefer_transient errors e)
  end.

Definition fetch_attachments_with_limit (refs : list AttachmentRef) (event_timestamp : DateTime)
    (max_bytes : Z) : M (result (list ResolvedAttachment) AppError) :=
  let? _ := validate_all refs event_timestamp in
  let! results := fetch_all refs max_bytes in
  st_ret (collect_results results).

Definition fetch_attachments (refs : list AttachmentRef) (event_timestamp : DateTime) :
    M (result (list ResolvedAttachment) AppError) :=
  fetch_attachments_with_limit refs event_timestamp MAX_ATTACHMENT_BYTES.

(** ** Properties *)

Lemma partition_spec {A} (l : list (result A AppError)) oks errs :
  partition_results l = (oks, errs) →
  (errs = [] → l = map Ok oks) ∧ (∀ e, e ∈ errs ↔ Err e ∈ l).
Proof.
  revert oks errs. induction l as [|r l IH]; intros oks errs; simpl.
  - intros [= <- <-]. split; [done|set_solver].
  - destruct (partition_results l) as [oks' errs'] eqn:E. destruct (IH _ _ eq_refl) as [H1 H2].
    destruct r as [a|e0]; intros [= <- <-].
    + split; [intros He; simpl; by rewrite <- H1|]. intros e. rewrite elem_of_cons, H2. naive_solver.
    + split; [done|]. intros e. rewrite !elem_of_cons, H2. naive_solver.
Qed.

Lemma prefer_transient_fold errs e :
  let r := fold_left prefer_transient errs e in
  r ∈ e :: errs ∧ (is_permanent_mailer r = true ↔ ∀ x, x ∈ e :: errs → is_permanent_mailer x = true).
Proof.
  revert e. induction errs as [|x errs IH]; intros e; simpl; [set_solver|].
  destruct (IH (prefer_transient e x)) as [H1 H2]. rewrite H2. clear H2. revert H1.
  unfold prefer_transient. destruct (is_permanent_mailer e) eqn:He, (is_permanent_mailer x) eqn:Hx;
    simpl; intros H1; (split; [set_solver|]).
  - split; intros Hall y Hy; [|apply Hall; set_solver].
    apply elem_of_cons in Hy as [->|[->|Hy]%elem_of_cons]; [done|done|]. apply Hall. set_solver.
  - split; intros Hall; [specialize (Hall x)|specialize (Hall x)];
      rewrite Hall in Hx by set_solver; done.
  - split; intros Hall; [specialize (Hall e)|specialize (Hall e)];
      rewrite Hall in He by set_solver; done.
  - split; intros Hall; [specialize (Hall e)|specialize (Hall e)];
      rewrite Hall in He by set_solver; done.
Qed.

(** The fetch of an event succeeds exactly when every attachment did, in
    order; otherwise it reports one of the errors, and reports a permanent one
    only when all of them are permanent, so a retry that may help is not given
    up. *)
Theorem representative_error {A} (results : list (result A AppError)) :
  match collect_results results with
  | Ok l => results = map Ok l
  | Err e => Err e ∈ results
             ∧ (is_permanent_mailer e = true ↔
                ∀ x, Err x ∈ results → is_permanent_mailer x = true)
  end.
Proof.
  unfold collect_results. destruct (partition_results results) as [oks errs] eqn:E.
  destruct (partition_spec _ _ _ E) as [H1 H2]. destruct errs as [|e errs]; [by apply H1|].
  destruct (prefer_transient_fold errs e) as [H3 H4]. split; [by apply H2|].
  rewrite H4. setoid_rewrite H2. done.
Qed.

(** Loop facts: the delays slept are a prefix of the schedule, and what is
    returned is a fetched body of at most [max_bytes], or an error. *)
Definition schedule_from (attempt n : nat) : list Z :=
  map fetch_delay_ms (seq attempt n).

Lemma classify_fetch_size a m resp data :
  classify_fetch a m resp = Ok data → Z.of_nat (length data) ≤ m.
Proof.
  unfold classify_fetch. destruct (is_rate_status _); [done|].
  destruct (is_client_error _); [done|]. destruct (is_server_error _); [done|].
  destruct (hr_body resp) as [b|]; [|done]. destruct (m <? _) eqn:E; [done|].
  intros [= <-]. lia.
Qed.

Lemma fetch_attempts_spec a m attempt n last w r w' :
  fetch_attempts a m (S attempt) n last w = (r, w') →
  (∃ k, w_slept w' = w_slept w ++ take k (schedule_from (S attempt) n))
  ∧ w_sends w' = w_sends w ∧ w_amqp w' = w_amqp w ∧ w_db w' = w_db w
  ∧ match r with
    | Ok x => ra_filename x = ar_filename a ∧ ra_content_type x = ar_content_type a
              ∧ Z.of_nat (length (ra_data x)) ≤ m
    | Err _ => True
    end.
Proof.
  revert attempt last w. induction n as [|n IH]; intros attempt last w.
  - intros [= <- <-]. split_and!; try done. exists O. by rewrite app_nil_r.
  - cbn [fetch_attempts]. unfold is_cancelled, sleep_or_shutdown, next_tick. run_st.
    destruct (shutdown_requested _).
    { intros [= <- <-]. split_and!; try done. exists O. by rewrite app_nil_r. }
    destruct (sleep_completes _); simpl.
    + unfold fetch_one, next_tick. run_st.
      destruct (http_get _ _ _) as [resp|e]; simpl.
      * destruct (classify_fetch a m resp) as [data|e] eqn:Hc.
        { intros [= <- <-]. simpl. split_and!; try done; [exists 1%nat; done|].
          by eapply classify_fetch_size. }
        destruct (is_permanent_mailer e).
        { intros [= <- <-]. simpl. split_and!; try done. by exists 1%nat. }
        intros ((k & Hk) & ? & ? & ? & ?)%IH. simpl in *. split_and!; try done.
        exists (S k). by rewrite Hk, <- app_assoc.
      * intros ((k & Hk) & ? & ? & ? & ?)%IH. simpl in *. split_and!; try done.
        exists (S k). by rewrite Hk, <- app_assoc.
    + intros [= <- <-]. simpl. split_and!; try done. by exists 1%nat.
Qed.

Lemma fetch_retry_spec a m w :
  let '(r, w') := fetch_one_with_retry a m w in
  (∃ k, w_slept w' = w_slept w ++ take k [1000; 2000; 4000])
  ∧ w_sends w' = w_sends w ∧ w_amqp w' = w_amqp w ∧ w_db w' = w_db w
  ∧ match r with
    | Ok x => ra_filename x = ar_filename a ∧ ra_content_type x = ar_content_type a
              ∧ Z.of_nat (length (ra_data x)) ≤ m
    | Err _ => True
    end.
Proof.
  destruct (fetch_one_with_retry a m w) as [r w'] eqn:Hrun. revert Hrun.
  change [1000; 2000; 4000] with (schedule_from 1 FETCH_MAX_RETRIES).
  unfold fetch_one_with_retry. generalize FETCH_MAX_RETRIES. intros n. cbn [fetch_attempts].
  unfold is_cancelled, fetch_one, next_tick. run_st.
  destruct (shutdown_requested _).
  { intros [= <- <-]. split_and!; try done. exists O. by rewrite app_nil_r. }
  assert (Hrest : ∀ e w1, fetch_attempts a m 1 n (Some e) w1 = (r, w') → w_slept w1 = w_slept w →
    w_sends w1 = w_sends w → w_amqp w1 = w_amqp w → w_db w1 = w_db w →
    (∃ k, w_slept w' = w_slept w ++ take k (schedule_from 1 n))
    ∧ w_sends w' = w_sends w ∧ w_amqp w' = w_amqp w ∧ w_db w' = w_db w
    ∧ match r with
      | Ok x => ra_filename x = ar_filename a ∧ ra_content_type x = ar_content_type a
                ∧ Z.of_nat (length (ra_data x)) ≤ m
      | Err _ => True
      end).
  { intros e w1 (Hs & ? & ? & ? & ?)%fetch_attempts_spec <- <- <- <-. by split_and!. }
  destruct (http_get _ _ _) as [resp|e]; simpl.
  - destruct (classify_fetch a m resp) as [data|e] eqn:Hc.
    + intros [= <- <-]. simpl. split_and!; try done; [exists O; by rewrite app_nil_r|].
      by eapply classify_fetch_size.
    + destruct (is_permanent_mailer e); [|intros Hr; by eapply Hrest].
      intros [= <- <-]. simpl. split_and!; try done. exists O. by rewrite app_nil_r.
  - intros Hr. by eapply Hrest.
Qed.

(** One attachment costs at most four GETs, 1, 2 and 4 seconds apart, writes
    nothing, and a success is a body within the size limit under the declared
    name and type. *)
Theorem fetch_retry_bounded a m w :
  let '(r, w') := fetch_one_with_retry a m w in
  (∃ k, w_slept w' = w_slept w ++ take k [1000; 2000; 4000])
  ∧ w_sends w' = w_sends w ∧ w_amqp w' = w_amqp w ∧ w_db w' = w_db w
  ∧ match r with
    | Ok x => ra_filename x = ar_filename a ∧ ra_content_type x = ar_content_type a
              ∧ Z.of_nat (length (ra_data x)) ≤ m
    | Err _ => True
    end.
Proof. apply fetch_retry_spec. Qed.

Lemma validate_all_quiet refs ts w r w' :
  validate_all refs ts w = (r, w') → quiet w w' ∧ w_db w' = w_db w.
Proof.
  revert w. induction refs as [|a refs IH]; intros w; simpl; [by intros [= _ <-]|].
  unfold is_cancelled, next_tick. run_st.
  destruct (attachment_validate _ _ _); [|by intros [= _ <-]].
  destruct (shutdown_requested _); [by intros [= _ <-]|]. intros Hr. by apply IH in Hr.
Qed.

(** Fetching mails nothing, publishes nothing and writes nothing. *)
Lemma fetch_one_untouched a m : keeps untouched (fetch_one_with_retry a m).
Proof.
  intros w. pose proof (fetch_retry_spec a m w) as Hf.
  destruct (fetch_one_with_retry a m w). by destruct Hf as (_ & ? & ? & ? & _).
Qed.

Lemma fetch_all_untouched refs m : keeps untouched (fetch_all refs m).
Proof.
  induction refs as [|a refs IH]; simpl; [apply keeps_ret, _|].
  apply keeps_bind; [apply _|apply fetch_one_untouched|]. intros r.
  apply keeps_bind; [apply _|exact IH|]. intros rs. apply keeps_ret, _.
Qed.

Lemma fetch_untouched refs ts m : keeps untouched (fetch_attachments_with_limit refs ts m).
Proof.
  apply keeps_try; [apply _| |].
  - intros w. destruct (validate_all refs ts w) as [r w'] eqn:Hv.
    apply validate_all_quiet in Hv as [(? & ? & _) ?]. by split_and!.
  - intros _. apply keeps_bind; [apply _|apply fetch_all_untouched|]. intros rs. apply keeps_ret, _.
Qed.

End fetcher.
