(* ===== verification/Processor.v ===== *)
(** * The per-attempt processor ([crates/consumer/src/processor.rs])

    One attempt at one recipient ([process_recipient]) or at a group
    ([process_group]): validation, template, idempotent insert, filters, rate
    limit, send, status write.  Metrics and log lines are left out.  The store,
    the template resolver and the block list are the interfaces of
    [Interfaces.v]; the derived serialisers are parameters. *)

From S2P Require Import Prelude Json AppErr EmailValidation Event World Interfaces Filter.
From S2P Require Import Renderer Mailer.

Record EffectiveCcBcc : Type := mkEffectiveCcBcc {
  ecb_cc : list Recipient;
  ecb_bcc : list Recipient;
}.

(** The concrete members of [ProcessorContext]. *)
Record ProcessorContext : Type := mkProcessorContext {
  pc_sender : EmailSender;
  pc_sender_registry : SenderRegistry;
  pc_filter : RecipientFilter;
  pc_rate_limiter : MailRateLimiter;
}.

Module RecipientOutcome.
Inductive RecipientOutcome : Type :=
  | Sent
  | Blocked (reason : string)
  | Skipped
  | Duplicate (retry_count : Z)
  | Failed (e : AppError)
  | GroupFailedWithIndividualRows (e : AppError).
End RecipientOutcome.
Notation RecipientOutcome := RecipientOutcome.RecipientOutcome.

(** Which rows a successful send marks [SENT]. *)
Module SendTargets.
Inductive SendTargets : Type :=
  | Individual (event_id : Uuid) (email : string)
  | Group (event_id : Uuid) (primary_email : string) (secondaries : list string)
      (retry_mode : GroupRetryMode).
End SendTargets.
Notation SendTargets := SendTargets.SendTargets.

Record RenderedTemplates : Type := mkRenderedTemplates {
  rt_subject : string;
  rt_body_html : string;
  rt_body_text : string;
}.

Record SerializedEmailFields : Type := mkSerializedEmailFields {
  sf_from_override : option json;
  sf_attachments : option json;
  sf_cc : option json;
  sf_bcc : option json;
}.

Definition to_mailbox (r : Recipient) : MailboxRef := mkMailboxRef (r_email r) (r_name r).

Definition resolve_from_override (ov : option FromOverride) : option string * option string :=
  match ov with
  | None => (None, None)
  | Some o => (Some (fo_email o), fo_name o)
  end.

Definition resolve_sender (registry : SenderRegistry) (global_sender : EmailSender)
    (sender_account : option string) : EmailSender :=
  match registry_resolve registry sender_account with
  | Some s => s
  | None => global_sender
  end.

Definition build_email_message (event : NotificationEvent) (primary : Recipient)
    (extra_recipients : list MailboxRef) (rendered : RenderedTemplates)
    (from_override : option string * option string) (attachments : list ResolvedAttachment)
    (effective_cc effective_bcc : list Recipient) : EmailMessage :=
  {| em_event_id := ne_event_id event;
     em_to_email := r_email primary;
     em_to_name := r_name primary;
     em_to_extra := extra_recipients;
     em_subject := rt_subject rendered;
     em_body_html := rt_body_html rendered;
     em_body_text := rt_body_text rendered;
     em_from_email_override := from_override.1;
     em_from_name_override := from_override.2;
     em_attachments := attachments;
     em_cc := map to_mailbox effective_cc;
     em_bcc := map to_mailbox effective_bcc |}.

Section processor.
Context `{Env}.
Context `{Serialize Recipient, Serialize FromOverride, Serialize AttachmentRef}.
Context `{NotificationStore, TemplateResolver, BlockListChecker}.

(** ** Rendering and serialisation *)

(** All three parts are rendered; the first error in this order is reported. *)
Definition render_all_templates (subject_tpl html_tpl text_tpl : string) (payload : json) :
    result RenderedTemplates AppError :=
  let sr := render_template subject_tpl payload in
  let hr := render_html_template html_tpl payload in
  let tr := render_template text_tpl payload in
  match sr, hr, tr with
  | Ok s, Ok h, Ok t => Ok (mkRenderedTemplates s h t)
  | Err e, _, _ => Err e
  | _, Err e, _ => Err e
  | _, _, Err e => Err e
  end.

Definition serialize_recipient_list (list : list Recipient) (field : string) :
    result (option json) AppError :=
  match list with
  | [] => Ok None
  | _ => map_err (λ e, permanent_mailer ("failed to serialize " +:+ field +:+ ": " +:+ e))
           (result_map Some (to_value list))
  end.

Definition serialize_email_fields (email_opts : EmailOptions)
    (effective_cc effective_bcc : list Recipient) : result SerializedEmailFields AppError :=
  result_bind
    (map_err (λ e, permanent_mailer ("failed to serialize from_override: " +:+ e))
      (transpose (option_map to_value (eo_from_override email_opts)))) (λ from_override,
  result_bind
    (match eo_attachments email_opts with
     | [] => Ok None
     | atts => map_err (λ e, permanent_mailer ("failed to serialize attachments: " +:+ e))
                 (result_map Some (to_value atts))
     end) (λ attachments,
  result_bind (serialize_recipient_list effective_cc "cc") (λ cc,
  result_bind (serialize_recipient_list effective_bcc "bcc") (λ bcc,
    Ok (mkSerializedEmailFields from_override attachments cc bcc))))).

(** ** Sending *)

Definition acquire_rate_limit_token (rl : MailRateLimiter) : M (result unit RecipientOutcome) :=
  let! r := wait_for_token rl in
  match r with
  | TokenResult.Acquired | TokenResult.AcquiredAfterWait => st_ret (Ok tt)
  | TokenResult.Shutdown =>
      st_ret (Err (RecipientOutcome.Failed
                     (AppError.Queue "service shutdown during rate-limit wait")))
  end.

(** A failed [mark_sent] is logged and otherwise ignored. *)
Definition mark_sent_for_targets (targets : SendTargets) : M unit :=
  match targets with
  | SendTargets.Individual event_id email =>
      mark_sent event_id email ;;! st_ret tt
  | SendTargets.Group event_id primary_email secondaries _ =>
      mark_sent event_id primary_email ;;!
      st_iter (λ email, mark_sent event_id email ;;! st_ret tt) secondaries
  end.

Definition execute_send (ctx : ProcessorContext) (msg : EmailMessage)
    (sender_account : option string) (targets : SendTargets) : M RecipientOutcome :=
  let! token := acquire_rate_limit_token (pc_rate_limiter ctx) in
  match token with
  | Err outcome => st_ret outcome
  | Ok _ =>
      let sender := resolve_sender (pc_sender_registry ctx) (pc_sender ctx) sender_account in
      let! r := send sender msg in
      match r with
      | Ok _ =>
          mark_sent_for_targets targets ;;!
          st_ret RecipientOutcome.Sent
      | Err e =>
          st_ret (match targets with
                  | SendTargets.Individual _ _ => RecipientOutcome.Failed e
                  | SendTargets.Group _ _ _ GroupRetryMode.Individual =>
                      RecipientOutcome.GroupFailedWithIndividualRows e
                  | SendTargets.Group _ _ _ GroupRetryMode.Whole => RecipientOutcome.Failed e
                  end)
      end
  end.

(** ** Steps 1, 2, 2c and the serialisation: all before the database write *)

Record Prepared : Type := mkPrepared {
  pr_rendered : RenderedTemplates;
  pr_from : option string * option string;
  pr_fields : SerializedEmailFields;
}.

Definition check_from (from_email_override : option string) : result unit AppError :=
  match from_email_override with
  | Some addr =>
      if is_valid_email addr then Ok tt
      else Err (permanent_mailer ("invalid from_override email address: " +:+ addr))
  | None => Ok tt
  end.

Definition prepare (event : NotificationEvent) (email_opts : EmailOptions)
    (cc_bcc : EffectiveCcBcc) : M (result Prepared AppError) :=
  let? tpl := resolve_template (ne_event_type event) CHANNEL_EMAIL in
  let from := resolve_from_override (eo_from_override email_opts) in
  st_ret (
    result_bind (check_from from.1) (λ _,
    result_bind (render_all_templates (nt_subject tpl) (nt_body_html tpl) (nt_body_text tpl)
                   (ne_payload event)) (λ rendered,
    result_bind (serialize_email_fields email_opts (ecb_cc cc_bcc) (ecb_bcc cc_bcc)) (λ fields,
      Ok (mkPrepared rendered from fields))))).

(** ** [process_recipient] *)

Definition recipient_args (event : NotificationEvent) (email_opts : EmailOptions)
    (recipient : Recipient) (fields : SerializedEmailFields) : EmailInsertPendingArgs :=
  {| ia_event_id := ne_event_id event;
     ia_event_type := ne_event_type event;
     ia_recipient_email := r_email recipient;
     ia_recipient_name := r_name recipient;
     ia_payload := ne_payload event;
     ia_from_override := sf_from_override fields;
     ia_attachments := sf_attachments fields;
     ia_sender_account := eo_sender_account email_opts;
     ia_cc := sf_cc fields;
     ia_bcc := sf_bcc fields;
     ia_send_mode := send_mode_as_str (eo_send_mode email_opts);
     ia_group_retry_mode := None;
     ia_to_recipients := None;
     ia_event_timestamp := ne_timestamp event |}.

(** What a [Duplicate] insert result means for the attempt. *)
Definition duplicate_outcome (retry_count : Z) (status : string) : RecipientOutcome :=
  match status_try_from status with
  | Ok NotificationStatus.Sent | Ok NotificationStatus.Blocked => RecipientOutcome.Skipped
  | Ok _ => RecipientOutcome.Duplicate retry_count
  | Err e => RecipientOutcome.Failed e
  end.

Definition block_recipient (event_id : Uuid) (email reason : string) : M RecipientOutcome :=
  mark_blocked event_id email reason ;;!
  st_ret (RecipientOutcome.Blocked reason).

(** Step 4: the configured filter's reason to drop the address, if any. *)
Definition config_block_reason (f : RecipientFilter) (email : string) : option string :=
  if is_passthrough f then None
  else match filter_check f email with
       | Err (AppError.Blocked reason) => Some reason
       | _ => None
       end.

(** Steps 4 to 7, on a freshly inserted row. *)
Definition filter_and_send (ctx : ProcessorContext) (event : NotificationEvent)
    (email_opts : EmailOptions) (recipient : Recipient) (attachments : list ResolvedAttachment)
    (cc_bcc : EffectiveCcBcc) (p : Prepared) : M RecipientOutcome :=
  match config_block_reason (pc_filter ctx) (r_email recipient) with
  | Some reason => block_recipient (ne_event_id event) (r_email recipient) reason
  | None =>
      let! b := block_list_check (r_email recipient) in
      match b with
      | Err (AppError.Blocked reason) =>
          block_recipient (ne_event_id event) (r_email recipient) reason
      | _ =>
          let msg := build_email_message event recipient [] (pr_rendered p) (pr_from p) attachments
                       (ecb_cc cc_bcc) (ecb_bcc cc_bcc) in
          execute_send ctx msg (eo_sender_account email_opts)
            (SendTargets.Individual (ne_event_id event) (r_email recipient))
      end
  end.

Definition process_recipient (ctx : ProcessorContext) (event : NotificationEvent)
    (email_opts : EmailOptions) (recipient : Recipient) (attachments : list ResolvedAttachment)
    (cc_bcc : EffectiveCcBcc) : M RecipientOutcome :=
  if negb (is_valid_email (r_email recipient))
  then st_ret (RecipientOutcome.Failed (permanent_mailer
                 ("invalid recipient email address: " +:+ r_email recipient)))
  else
    let! prep := prepare event email_opts cc_bcc in
    match prep with
    | Err e => st_ret (RecipientOutcome.Failed e)
    | Ok p =>
        let! ins := insert_pending (recipient_args event email_opts recipient (pr_fields p)) in
        match ins with
        | Err e => st_ret (RecipientOutcome.Failed e)
        | Ok (InsertResult.Duplicate retry_count status) =>
            st_ret (duplicate_outcome retry_count status)
        | Ok InsertResult.Inserted =>
            filter_and_send ctx event email_opts recipient attachments cc_bcc p
        end
    end.

(** ** [process_group] *)

(** Steps 0a and 0b. *)
Definition validate_group (email_opts : EmailOptions) (max_recipients : nat) :
    result Recipient AppError :=
  match eo_recipients email_opts with
  | [] => Err (permanent_mailer "group send: recipients list is empty")
  | (primary :: _) as recipients =>
      if (max_recipients <? length recipients)%nat
      then Err (permanent_mailer ("group send: recipient count "
             +:+ show_nat (length recipients) +:+ " exceeds maximum allowed ("
             +:+ show_nat max_recipients +:+ ")"))
      else match List.find (λ r, negb (is_valid_email (r_email r))) recipients with
           | Some r => Err (permanent_mailer ("invalid recipient email address: " +:+ r_email r))
           | None => Ok primary
           end
  end.

(** The full To: list is stored on the primary row of a whole-group send. *)
Definition group_to_recipients (email_opts : EmailOptions) : result (option json) AppError :=
  match eo_group_retry_mode email_opts with
  | GroupRetryMode.Whole =>
      map_err (λ e, permanent_mailer ("failed to serialize to_recipients: " +:+ e))
        (result_map Some (to_value (eo_recipients email_opts)))
  | GroupRetryMode.Individual => Ok None
  end.

Definition make_args (event : NotificationEvent) (email_opts : EmailOptions)
    (fields : SerializedEmailFields) (to_recipients : option json) (r : Recipient) :
    EmailInsertPendingArgs :=
  {| ia_event_id := ne_event_id event;
     ia_event_type := ne_event_type event;
     ia_recipient_email := r_email r;
     ia_recipient_name := r_name r;
     ia_payload := ne_payload event;
     ia_from_override := sf_from_override fields;
     ia_attachments := sf_attachments fields;
     ia_sender_account := eo_sender_account email_opts;
     ia_cc := sf_cc fields;
     ia_bcc := sf_bcc fields;
     ia_send_mode := send_mode_as_str (eo_send_mode email_opts);
     ia_group_retry_mode := Some (group_retry_mode_as_str (eo_group_retry_mode email_opts));
     ia_to_recipients := to_recipients;
     ia_event_timestamp := ne_timestamp event |}.

(** Step 3a: every recipient in individual mode, the primary alone in whole
    mode. *)
Definition rows_to_insert (email_opts : EmailOptions) (primary : Recipient) : list Recipient :=
  match eo_group_retry_mode email_opts with
  | GroupRetryMode.Individual => eo_recipients email_opts
  | GroupRetryMode.Whole => [primary]
  end.

(** Step 3c: the secondaries a prior attempt already finished with. *)
Fixpoint already_sent (secondaries : list Recipient) (results : list InsertResult) : gset string :=
  match secondaries, results with
  | r :: secondaries, result :: results =>
      match result with
      | InsertResult.Duplicate _ status =>
          match status_try_from status with
          | Ok NotificationStatus.Sent | Ok NotificationStatus.Blocked =>
              {[r_email r]} ∪ already_sent secondaries results
          | _ => already_sent secondaries results
          end
      | InsertResult.Inserted => already_sent secondaries results
      end
  | _, _ => ∅
  end.

Definition already_sent_emails (email_opts : EmailOptions) (results : list InsertResult) :
    gset string :=
  match eo_group_retry_mode email_opts with
  | GroupRetryMode.Individual => already_sent (tail (eo_recipients email_opts)) results
  | GroupRetryMode.Whole => ∅
  end.

(** Step 4: each address the configured filter blocks is marked; the others,
    and those the filter cannot decide, are kept. *)
Definition allow_to_recipient (ctx : ProcessorContext) (event_id : Uuid) (r : Recipient) : M bool :=
  match filter_check (pc_filter ctx) (r_email r) with
  | Ok _ => st_ret true
  | Err (AppError.Blocked reason) => mark_blocked event_id (r_email r) reason ;;! st_ret false
  | Err _ => st_ret true
  end.

(** Steps 4 to 7, once the primary row is freshly inserted. *)
Definition filter_and_send_group (ctx : ProcessorContext) (event : NotificationEvent)
    (email_opts : EmailOptions) (primary : Recipient) (attachments : list ResolvedAttachment)
    (cc_bcc : EffectiveCcBcc) (p : Prepared) (already_sent : gset string) : M RecipientOutcome :=
  let! allowed := st_filter (allow_to_recipient ctx (ne_event_id event)) (eo_recipients email_opts) in
  match allowed with
  | [] => st_ret (RecipientOutcome.Blocked "all TO recipients blocked by filter")
  | _ =>
      let recipients := base.filter (λ r, r_email r ∉ already_sent) allowed in
      let to_extra := map to_mailbox (drop 1 recipients) in
      let msg := build_email_message event primary to_extra (pr_rendered p) (pr_from p) attachments
                   (ecb_cc cc_bcc) (ecb_bcc cc_bcc) in
      let secondaries := match eo_group_retry_mode email_opts with
                         | GroupRetryMode.Individual => map r_email (drop 1 recipients)
                         | GroupRetryMode.Whole => []
                         end in
      execute_send ctx msg (eo_sender_account email_opts)
        (SendTargets.Group (ne_event_id event) (r_email primary) secondaries
           (eo_group_retry_mode email_opts))
  end.

(** Step 3b: the primary row is the first of the batch; [Ok] with the others'
    results when it is new. *)
Definition inspect_primary (ins : result (list InsertResult) AppError) :
    result (list InsertResult) RecipientOutcome :=
  match ins with
  | Err e => Err (RecipientOutcome.Failed e)
  | Ok [] => Err (RecipientOutcome.Failed (permanent_mailer "insert_pending_batch returned empty results"))
  | Ok (InsertResult.Duplicate retry_count status :: _) => Err (duplicate_outcome retry_count status)
  | Ok (InsertResult.Inserted :: results) => Ok results
  end.

Definition process_group (ctx : ProcessorContext) (event : NotificationEvent)
    (email_opts : EmailOptions) (attachments : list ResolvedAttachment)
    (cc_bcc : EffectiveCcBcc) (max_recipients : nat) : M RecipientOutcome :=
  match validate_group email_opts max_recipients with
  | Err e => st_ret (RecipientOutcome.Failed e)
  | Ok primary =>
      let! prep := prepare event email_opts cc_bcc in
      match prep with
      | Err e => st_ret (RecipientOutcome.Failed e)
      | Ok p =>
          match group_to_recipients email_opts with
          | Err e => st_ret (RecipientOutcome.Failed e)
          | Ok to_recipients =>
              let! ins := insert_pending_batch
                (map (make_args event email_opts (pr_fields p) to_recipients)
                   (rows_to_insert email_opts primary)) in
              match inspect_primary ins with
              | Err outcome => st_ret outcome
              | Ok results =>
                  filter_and_send_group ctx event email_opts primary attachments cc_bcc p
                    (already_sent_emails email_opts results)
              end
          end
      end
  end.

End processor.
