(* ===== verification/ProcessorSpec.v ===== *)
(** * What one attempt promises

    An abstract specification of [process_recipient] on the delivery log seen
    as a map and the list of messages handed to a transport, the proof that the
    processor refines it against any lawful store, template resolver and block
    list, and the corresponding facts of [process_group]. *)

From S2P Require Import Prelude Json AppErr EmailValidation Event World Interfaces Filter.
From S2P Require Import LogStore LogInvariant BlockList TemplateStore Mailer Processor.

(** ** The specification *)

(** [attempt_spec k m o m' msgs]: from the log [m], an attempt at the row [k]
    may end with outcome [o] in the log [m'], having handed over [msgs]. *)
Inductive attempt_spec (k : Key) (m : gmap Key Cell) :
    RecipientOutcome → gmap Key Cell → list SendRecord → Prop :=
  | spec_failed_before e :
      attempt_spec k m (RecipientOutcome.Failed e) m []
  | spec_skipped c :
      m !! k = Some c → is_terminal (c_status c) = true →
      attempt_spec k m RecipientOutcome.Skipped m []
  | spec_duplicate c :
      m !! k = Some c → is_terminal (c_status c) = false →
      attempt_spec k m (RecipientOutcome.Duplicate (c_retry_count c)) m []
  | spec_blocked reason m' :
      m !! k = None →
      m' = <[k := blocked_cell reason fresh_cell]> m ∨ m' = <[k := fresh_cell]> m →
      attempt_spec k m (RecipientOutcome.Blocked reason) m' []
  | spec_not_handed_over e :
      m !! k = None →
      attempt_spec k m (RecipientOutcome.Failed e) (<[k := fresh_cell]> m) []
  | spec_rejected e s msg :
      m !! k = None → (em_event_id msg, em_to_email msg) = k → em_to_extra msg = [] →
      attempt_spec k m (RecipientOutcome.Failed e) (<[k := fresh_cell]> m)
        [mkSendRecord s msg false]
  | spec_sent s msg m' :
      m !! k = None → (em_event_id msg, em_to_email msg) = k → em_to_extra msg = [] →
      m' = <[k := sent_cell fresh_cell]> m ∨ m' = <[k := fresh_cell]> m →
      attempt_spec k m RecipientOutcome.Sent m' [mkSendRecord s msg true].

(** No broker frame and no sleep. *)
Definition same_broker (w w' : World) : Prop := w_amqp w' = w_amqp w ∧ w_slept w' = w_slept w.

#[export] Instance same_broker_preorder : PreOrder same_broker.
Proof. split; [by intros w|]. intros w1 w2 w3 [] []. split; congruence. Qed.

Lemma quiet_same_broker w w' : quiet w w' → same_broker w w'.
Proof. intros (_ & ? & ?). by split. Qed.

Section spec.
Context `{Env}.
Context `{Serialize Recipient, Serialize FromOverride, Serialize AttachmentRef}.
Context `{!NotificationStore, !NotificationStoreLaws}.
Context `{!TemplateResolver, !TemplateResolverLaws, !BlockListChecker, !BlockListCheckerLaws}.

(** Either [update_post] changed the row, or the log is as it was. *)
Lemma update_post_cases k f m r m' :
  update_post k f m r m' → m' = alter f k m ∨ m' = m.
Proof. unfold update_post. destruct r as [?|[]]; naive_solver. Qed.

Lemma alter_fresh (k : Key) (f : Cell → Cell) (m : gmap Key Cell) c :
  m !! k = None → alter f k (<[k := c]> m) = <[k := f c]> m.
Proof. intros _. by rewrite alter_insert_eq. Qed.

Lemma aside_cells w w' : aside w w' → cells w' = cells w.
Proof. intros [_ ?]. by apply cells_same_log. Qed.

Lemma prepare_aside event opts ccbcc : keeps aside (prepare event opts ccbcc).
Proof.
  apply keeps_try; [apply _|apply resolve_aside|]. intros tpl. apply keeps_ret, _.
Qed.

Lemma wait_for_token_db rl w :
  w_db (wait_for_token rl w).2 = w_db w ∧ quiet w (wait_for_token rl w).2.
Proof.
  unfold wait_for_token, next_tick. destruct rl; [|done]. run_st.
  by destruct (token_available _).
Qed.

Lemma acquire_spec rl w r w' :
  acquire_rate_limit_token rl w = (r, w') →
  quiet w w' ∧ cells w' = cells w
  ∧ match r with Ok _ => True | Err o => ∃ e, o = RecipientOutcome.Failed e end.
Proof.
  unfold acquire_rate_limit_token. run_st. pose proof (wait_for_token_db rl w) as [Hd Hq].
  destruct (wait_for_token rl w) as [t w1] eqn:Hw. simpl in *.
  assert (Hc : cells w1 = cells w) by (apply cells_same_log; unfold same_log; by rewrite Hd).
  destruct t; intros [= <- <-]; split_and!; (done || by eexists).
Qed.

Lemma send_cells s msg w r w' :
  send s msg w = (r, w') →
  cells w' = cells w ∧ same_broker w w'
  ∧ (w_sends w' = w_sends w ∧ is_ok r = false
     ∨ w_sends w' = w_sends w ++ [mkSendRecord s msg (is_ok r)]).
Proof.
  intros (Hd & ? & ? & ?)%send_spec. split_and!; [|by split|done].
  apply cells_same_log. unfold same_log. by rewrite Hd.
Qed.

(** The individual send on a fresh row. *)
Lemma execute_send_individual ctx msg acct e rid m w o w' :
  m !! (e, rid) = None → cells w = <[(e, rid) := fresh_cell]> m →
  (em_event_id msg, em_to_email msg) = (e, rid) → em_to_extra msg = [] →
  execute_send ctx msg acct (SendTargets.Individual e rid) w = (o, w') →
  same_broker w w' ∧ ∃ msgs, w_sends w' = w_sends w ++ msgs
                             ∧ attempt_spec (e, rid) m o (cells w') msgs.
Proof.
  intros Hm Hw Hmsg Hx. unfold execute_send. run_st.
  destruct (acquire_rate_limit_token _ w) as [tok w1] eqn:Ha.
  destruct (acquire_spec _ _ _ _ Ha) as (Hq1 & Hc1 & Ho). destruct tok as [[]|o1].
  - set (s := resolve_sender _ _ _). destruct (send s msg w1) as [r w2] eqn:Hs.
    destruct (send_cells _ _ _ _ _ Hs) as (Hc2 & Hb2 & Hsends).
    assert (Hb : same_broker w w2) by (etransitivity; [by apply quiet_same_broker|done]).
    assert (Hcells : cells w2 = <[(e, rid) := fresh_cell]> m) by congruence.
    destruct Hq1 as (Hs1 & _). destruct r as [[]|err].
    + run_st. destruct (mark_sent e rid w2) as [rm w3] eqn:Hmark.
      intros [= <- <-]. apply mark_sent_law in Hmark as [Hq3 Hpost%update_post_cases].
      split; [etransitivity; [exact Hb|by apply quiet_same_broker]|].
      destruct Hq3 as (Hs3 & _). destruct Hsends as [[_ ?]|Hsends]; [done|].
      exists [mkSendRecord s msg true]. split; [by rewrite Hs3, Hsends, Hs1|].
      apply spec_sent; [done..|]. rewrite Hcells in Hpost.
      destruct Hpost as [->| ->]; [left|by right]. by apply alter_fresh.
    + simpl. intros [= <- <-]. split; [done|]. rewrite Hcells.
      destruct Hsends as [[Hsends _]|Hsends].
      * exists []. rewrite app_nil_r. split; [congruence|]. by apply spec_not_handed_over.
      * exists [mkSendRecord s msg false]. split; [by rewrite Hsends, Hs1|]. by apply spec_rejected.
  - intros [= <- <-]. destruct Ho as [err ->]. split; [by apply quiet_same_broker|].
    exists []. rewrite app_nil_r. destruct Hq1 as (-> & _). split; [done|].
    rewrite Hc1, Hw. by apply spec_not_handed_over.
Qed.

Lemma block_recipient_spec e rid reason m w o w' :
  m !! (e, rid) = None → cells w = <[(e, rid) := fresh_cell]> m →
  block_recipient e rid reason w = (o, w') →
  same_broker w w' ∧ ∃ msgs, w_sends w' = w_sends w ++ msgs
                             ∧ attempt_spec (e, rid) m o (cells w') msgs.
Proof.
  intros Hm Hw. unfold block_recipient. run_st.
  destruct (mark_blocked e rid reason w) as [r w1] eqn:Hb. intros [= <- <-].
  apply mark_blocked_law in Hb as [Hq Hpost%update_post_cases].
  split; [by apply quiet_same_broker|]. exists []. rewrite app_nil_r.
  destruct Hq as (-> & _). split; [done|]. apply spec_blocked; [done|].
  rewrite Hw in Hpost. destruct Hpost as [->| ->]; [left|by right]. by apply alter_fresh.
Qed.

Lemma filter_and_send_spec ctx event opts rcp atts ccbcc p m w o w' :
  let k := (ne_event_id event, r_email rcp) in
  m !! k = None → cells w = <[k := fresh_cell]> m →
  filter_and_send ctx event opts rcp atts ccbcc p w = (o, w') →
  same_broker w w' ∧ ∃ msgs, w_sends w' = w_sends w ++ msgs ∧ attempt_spec k m o (cells w') msgs.
Proof.
  cbv zeta. intros Hm Hw. unfold filter_and_send.
  destruct (config_block_reason _ _) as [reason|]; [by apply block_recipient_spec|].
  run_st. destruct (block_list_check (r_email rcp) w) as [b w1] eqn:Hb.
  pose proof (block_check_aside (r_email rcp) w) as Ha. rewrite Hb in Ha. simpl in Ha.
  assert (Hw1 : cells w1 = <[(ne_event_id event, r_email rcp) := fresh_cell]> m)
    by (by rewrite (aside_cells _ _ Ha)).
  destruct Ha as [Hq1 _]. pose proof (quiet_same_broker _ _ Hq1) as Hb1. destruct Hq1 as (Hs1 & _).
  assert (Hgo : ∀ o w',
    (same_broker w1 w' ∧ ∃ msgs, w_sends w' = w_sends w1 ++ msgs
       ∧ attempt_spec (ne_event_id event, r_email rcp) m o (cells w') msgs) →
    same_broker w w' ∧ ∃ msgs, w_sends w' = w_sends w ++ msgs
       ∧ attempt_spec (ne_event_id event, r_email rcp) m o (cells w') msgs).
  { rewrite Hs1. intros ?? [? ?]. split; [by etransitivity|done]. }
  destruct b as [[]|[]]; intros Hrun; apply Hgo; revert Hrun;
    first [by apply execute_send_individual | by apply block_recipient_spec].
Qed.

Lemma process_recipient_spec ctx event opts rcp atts ccbcc w :
  let '(o, w') := process_recipient ctx event opts rcp atts ccbcc w in
  same_broker w w'
  ∧ ∃ msgs, w_sends w' = w_sends w ++ msgs
            ∧ attempt_spec (ne_event_id event, r_email rcp) (cells w) o (cells w') msgs.
Proof.
  destruct (process_recipient _ _ _ _ _ _ w) as [o w'] eqn:Hrun. revert Hrun.
  unfold process_recipient. destruct (negb _).
  { intros [= <- <-]. split; [done|]. exists []. rewrite app_nil_r. split; [done|constructor]. }
  run_st. destruct (prepare event opts ccbcc w) as [prep w1] eqn:Hp.
  pose proof (prepare_aside event opts ccbcc w) as Ha. rewrite Hp in Ha. simpl in Ha.
  pose proof (aside_cells _ _ Ha) as Hc1. destruct Ha as [Hq1 _].
  pose proof (quiet_same_broker _ _ Hq1) as Hb1. destruct Hq1 as (Hs1 & _).
  destruct prep as [p|e].
  2: { intros [= <- <-]. split; [done|]. exists []. rewrite app_nil_r, Hs1, Hc1. split; [done|constructor]. }
  destruct (insert_pending _ w1) as [ins w2] eqn:Hi.
  apply insert_pending_law in Hi as [Hq2 Hpost].
  pose proof (quiet_same_broker _ _ Hq2) as Hb2. destruct Hq2 as (Hs2 & _).
  assert (Hb : same_broker w w2) by by etransitivity.
  destruct ins as [x|e].
  2: { intros [= <- <-]. split; [done|]. exists []. rewrite app_nil_r, Hpost, Hc1, Hs2, Hs1.
       split; [done|constructor]. }
  rewrite Hc1 in Hpost. unfold insert_cell, arg_key in Hpost. simpl in Hpost.
  destruct (cells w !! _) as [c|] eqn:Hk; injection Hpost as <- Hc2.
  - intros [= <- <-]. split; [done|]. exists []. rewrite app_nil_r, Hs2, Hs1, <- Hc2. split; [done|].
    unfold duplicate_outcome.
    destruct (status_try_from (c_status c)) as [[]|e] eqn:Hst;
      first [ by apply spec_failed_before
            | by apply (spec_skipped _ _ c); [|unfold is_terminal; rewrite Hst]
            | by apply (spec_duplicate _ _ c); [|unfold is_terminal; rewrite Hst] ].
  - intros Hrun. apply (filter_and_send_spec _ _ _ _ _ _ _ (cells w)) in Hrun as [Hb3 Hmsgs]; [|done..].
    split; [by etransitivity|]. by rewrite Hs2, Hs1 in Hmsgs.
Qed.

(** C2: whatever fails around it, one attempt at a recipient does one of the
    things the specification allows: it hands a message to a transport only
    right after inserting the row, at most once, addressed to that recipient
    alone, and leaves every other row of the log untouched. *)
Theorem process_recipient_refines ctx event opts rcp atts ccbcc w :
  let '(o, w') := process_recipient ctx event opts rcp atts ccbcc w in
  same_broker w w'
  ∧ ∃ msgs, w_sends w' = w_sends w ++ msgs
            ∧ attempt_spec (ne_event_id event, r_email rcp) (cells w) o (cells w') msgs.
Proof. apply process_recipient_spec. Qed.

(** ** Consequences *)

Lemma attempt_spec_frame k m o m' msgs k' :
  attempt_spec k m o m' msgs → k' ≠ k → m' !! k' = m !! k'.
Proof.
  destruct 1 as [| | | ? ? _ [->| ->]|?|?|? ? ? _ _ _ [->| ->]]; intros; try done;
    by rewrite lookup_insert_ne.
Qed.

Lemma attempt_spec_present k m o m' msgs :
  attempt_spec k m o m' msgs → is_Some (m !! k) → m' = m ∧ msgs = [].
Proof. destruct 1; intros [c0 Hc0]; (done || congruence). Qed.

Lemma attempt_spec_once k m o m' msgs :
  attempt_spec k m o m' msgs →
  msgs = [] ∨ m !! k = None ∧ is_Some (m' !! k)
              ∧ ∃ r, msgs = [r] ∧ (em_event_id (sr_message r), em_to_email (sr_message r)) = k
                     ∧ em_to_extra (sr_message r) = [].
Proof.
  destruct 1 as [| | | | |e s msg ? Hk|s msg m' ? Hk ? Hm]; try (by left).
  - right. split_and!; [done|by rewrite lookup_insert_eq|by eexists].
  - right. split_and!; [done| |by eexists]. destruct Hm as [->| ->]; by rewrite lookup_insert_eq.
Qed.

(** A recipient whose row exists is never sent to again: a terminal row is
    skipped or reported failed, a non-terminal one is reported as a duplicate,
    and neither the log nor the outbound mail changes. *)
Theorem existing_row_not_resent ctx event opts rcp atts ccbcc w c :
  cells w !! (ne_event_id event, r_email rcp) = Some c →
  let '(o, w') := process_recipient ctx event opts rcp atts ccbcc w in
  w_sends w' = w_sends w ∧ cells w' = cells w
  ∧ match o with
    | RecipientOutcome.Skipped => is_terminal (c_status c) = true
    | RecipientOutcome.Duplicate n => is_terminal (c_status c) = false ∧ n = c_retry_count c
    | RecipientOutcome.Failed _ => True
    | _ => False
    end.
Proof.
  intros Hk. pose proof (process_recipient_spec ctx event opts rcp atts ccbcc w) as Href.
  destruct (process_recipient _ _ _ _ _ _ w) as [o w']. destruct Href as (_ & msgs & Hs & Hspec).
  destruct (attempt_spec_present _ _ _ _ _ Hspec) as [Hc ->]; [by eexists|].
  rewrite app_nil_r in Hs. split_and!; [done..|]. destruct Hspec; try congruence; naive_solver.
Qed.

(** The block list rejects the address when this attempt asks: after rendering
    the template and inserting the row. *)
Definition list_rejects (event : NotificationEvent) (opts : EmailOptions) (rcp : Recipient)
    (ccbcc : EffectiveCcBcc) (w : World) (reason : string) : Prop :=
  ∀ p w1 w2, prepare event opts ccbcc w = (Ok p, w1) →
    insert_pending (recipient_args event opts rcp (pr_fields p)) w1 = (Ok InsertResult.Inserted, w2) →
    (block_list_check (r_email rcp) w2).1 = Err (AppError.Blocked reason).

(** C26: an attempt at a single recipient hands nothing to a transport when the
    configured filter rejects the address, or when the block list does as the
    attempt asks it, and then it ends as blocked, skipped, a duplicate or
    failed.  (An attempt at a group promises less:
    [GroupSpec.group_ignores_block_list].) *)
Theorem blocked_never_sent ctx event opts rcp atts ccbcc w reason :
  config_block_reason (pc_filter ctx) (r_email rcp) = Some reason
  ∨ list_rejects event opts rcp ccbcc w reason →
  let '(o, w') := process_recipient ctx event opts rcp atts ccbcc w in
  w_sends w' = w_sends w
  ∧ match o with
    | RecipientOutcome.Sent => False
    | RecipientOutcome.Blocked r => r = reason ∨ config_block_reason (pc_filter ctx) (r_email rcp) = Some r
    | _ => True
    end.
Proof.
  intros Hblk. unfold process_recipient. destruct (negb _); [done|]. run_st.
  destruct (prepare event opts ccbcc w) as [prep w1] eqn:Hp.
  pose proof (prepare_aside event opts ccbcc w) as [[Hs1 _] _]. rewrite Hp in Hs1. simpl in Hs1.
  destruct prep as [p|e]; [|done].
  destruct (insert_pending _ w1) as [ins w2] eqn:Hi.
  pose proof Hi as Hlaw. apply insert_pending_law in Hlaw as [[Hs2 _] _].
  destruct ins as [[|n st]|e]; [|simpl; split; [congruence|]|split; [congruence|done]].
  2: { unfold duplicate_outcome. by destruct (status_try_from st) as [[]|]. }
  assert (Hblock : ∀ r w3, w_sends w3 = w_sends w2 →
    let '(o, w') := block_recipient (ne_event_id event) (r_email rcp) r w3 in
    w_sends w' = w_sends w ∧ o = RecipientOutcome.Blocked r).
  { intros r w3 Hs3. unfold block_recipient. run_st.
    destruct (mark_blocked _ _ r w3) as [x w4] eqn:Hm. apply mark_blocked_law in Hm as [[Hs4 _] _].
    split; [congruence|done]. }
  unfold filter_and_send. destruct (config_block_reason (pc_filter ctx) (r_email rcp)) as [r|] eqn:Hc.
  { specialize (Hblock r w2 eq_refl). destruct (block_recipient _ _ r w2) as [o w'].
    destruct Hblock as [? ->]. split; [done|]. by right. }
  destruct Hblk as [|Hblk]; [done|]. run_st. specialize (Hblk p w1 w2 Hp Hi).
  pose proof (block_check_aside (r_email rcp) w2) as [[Hs3 _] _].
  destruct (block_list_check _ w2) as [b w3]. simpl in Hblk, Hs3. subst b.
  specialize (Hblock reason w3 Hs3). destruct (block_recipient _ _ reason w3) as [o w'].
  destruct Hblock as [? ->]. split; [done|]. by left.
Qed.

(** An attempt that fails before the idempotent insert (bad address, unknown
    or broken template, bad From override) leaves no trace in the log, so the
    failure the retry loop then records finds no row to mark. *)
Theorem early_failure_leaves_no_row ctx event opts rcp atts ccbcc w msg exhausted :
  cells w !! (ne_event_id event, r_email rcp) = None →
  is_valid_email (r_email rcp) = false
  ∨ (∃ e, (prepare event opts ccbcc w).1 = Err e) →
  let '(o, w') := process_recipient ctx event opts rcp atts ccbcc w in
  let '(r, w'') := mark_failed (ne_event_id event) (r_email rcp) msg exhausted w' in
  (∃ e, o = RecipientOutcome.Failed e) ∧ cells w'' = cells w ∧ is_ok r = false.
Proof.
  intros Hk Hbad.
  assert (Hmark : ∀ w', cells w' = cells w →
    let '(r, w'') := mark_failed (ne_event_id event) (r_email rcp) msg exhausted w' in
    cells w'' = cells w ∧ is_ok r = false).
  { intros w' Hc. destruct (mark_failed _ _ _ _ w') as [r w''] eqn:Hm.
    apply mark_failed_law in Hm as [_ Hpost]. rewrite Hc in Hpost. unfold update_post in Hpost.
    rewrite Hk in Hpost. destruct r as [?|[]]; [by destruct Hpost as [[? ?] _]|naive_solver..]. }
  unfold process_recipient. destruct (is_valid_email (r_email rcp)) eqn:Hv; simpl.
  - destruct Hbad as [|[e He]]; [done|]. run_st.
    pose proof (aside_cells _ _ (prepare_aside event opts ccbcc w)) as Hc.
    destruct (prepare event opts ccbcc w) as [prep w1]. simpl in He, Hc. subst prep.
    specialize (Hmark w1 Hc). destruct (mark_failed _ _ _ _ w1). split; [by eexists|done].
  - specialize (Hmark w eq_refl). destruct (mark_failed _ _ _ _ w). split; [by eexists|done].
Qed.

End spec.

(** ** A concrete service

    The implementations of the three interfaces, in the sample environment or a
    variation of it, with written-out serialisers for the derived ones. *)

Definition sample_opt (o : option string) : json :=
  match o with Some s => JStr s | None => JNull end.
#[export] Instance sample_ser_recipient : Serialize Recipient :=
  λ r, Ok (JObj [("email", JStr (r_email r)); ("name", sample_opt (r_name r))]).
#[export] Instance sample_ser_from : Serialize FromOverride :=
  λ r, Ok (JObj [("email", JStr (fo_email r)); ("name", sample_opt (fo_name r))]).
#[export] Instance sample_ser_attachment : Serialize AttachmentRef :=
  λ r, Ok (JObj [("url", JStr (ar_url r)); ("filename", JStr (ar_filename r))]).

Definition sample_sender : EmailSender := SmtpSender "mail" "no-reply@example.com" "Shop".
Definition open_filter : RecipientFilter := mkRecipientFilter ∅ ∅ ∅ ∅ false.
Definition sample_ctx : ProcessorContext := mkProcessorContext sample_sender ∅ open_filter None.

Definition rcp (email : string) : Recipient := mkRecipient email None.
Definition sample_opts (mode : SendMode) (retry : GroupRetryMode) (to : list Recipient) :
    EmailOptions :=
  mkEmailOptions mode retry RetryPolicy.Retry to [] [] None [] None None None.
Definition sample_event (opts : EmailOptions) : NotificationEvent :=
  mkNotificationEvent 7 0 "ORDER" (JObj []) (mkMetadata None) (mkChannelOverrides (Some opts)).
Definition no_copies : EffectiveCcBcc := mkEffectiveCcBcc [] [].

Definition sample_world : World :=
  world0 (set_templates (λ _, [mkTemplateRow "ORDER" "email" "Order" "<p>ok</p>" "ok" 1 true 0]) empty_db).

(** One attempt with the real store, template store and block list. *)
Definition run_recipient (env : Env) (ctx : ProcessorContext) (to : Recipient) (w : World) :
    RecipientOutcome * World :=
  let opts := sample_opts SendMode.Individual GroupRetryMode.Whole [to] in
  process_recipient (H := env) (H3 := EmailNotificationStore (H := env))
    (H4 := TemplateStore (H := env)) (H5 := BlockListStore (H := env))
    ctx (sample_event opts) opts to [] no_copies w.

Definition row_states (w : World) : list (string * string) :=
  map (λ r, (lr_recipient_id r, lr_status r)) (db_log (w_db w)).

Example sample_delivery :
  let '(o, w) := run_recipient sample_env sample_ctx (rcp "a@example.com") sample_world in
  (o, row_states w, length (w_sends w)) = (RecipientOutcome.Sent, [("a@example.com", "SENT")], 1%nat).
Proof. vm_compute. reflexivity. Qed.

Example sample_redelivery :
  let '(_, w1) := run_recipient sample_env sample_ctx (rcp "a@example.com") sample_world in
  let '(o, w2) := run_recipient sample_env sample_ctx (rcp "a@example.com") w1 in
  (o, length (w_sends w2)) = (RecipientOutcome.Skipped, 1%nat).
Proof. vm_compute. reflexivity. Qed.

#[local] Existing Instance sample_env.

(** A row left PENDING by an earlier failed attempt. *)
Definition pending_world : World :=
  (email_insert_pending (H := sample_env) (sample_args 7 "a@example.com") sample_world).2.

Lemma existing_row_not_resent_witness :
  let '(o, w') := run_recipient sample_env sample_ctx (rcp "a@example.com") pending_world in
  w_sends w' = w_sends pending_world
  ∧ email_cells w' = email_cells pending_world
  ∧ match o with
    | RecipientOutcome.Skipped => is_terminal "PENDING" = true
    | RecipientOutcome.Duplicate n => is_terminal "PENDING" = false ∧ n = 0
    | RecipientOutcome.Failed _ => True
    | _ => False
    end.
Proof.
  unfold run_recipient.
  refine (existing_row_not_resent (H := sample_env) sample_ctx
    (sample_event (sample_opts SendMode.Individual GroupRetryMode.Whole [rcp "a@example.com"]))
    (sample_opts SendMode.Individual GroupRetryMode.Whole [rcp "a@example.com"])
    (rcp "a@example.com") [] no_copies pending_world fresh_cell _).
  vm_compute. reflexivity.
Defined.

Definition blocking_ctx : ProcessorContext :=
  mkProcessorContext sample_sender ∅
    (mkRecipientFilter {["a@example.com"]} ∅ ∅ ∅ false) None.

(** The address is in the database's list. *)
Definition listed_world : World :=
  set_db (set_blocks (λ _, [mkBlockListEntry 1 "blocked_email" "a@example.com" None true 0])
            (w_db sample_world)) sample_world.

(** Rejected by the filter, and by the list behind an open filter. *)
Lemma blocked_never_sent_witness :
  let blocked ctx w reason :=
    let '(o, w') := run_recipient sample_env ctx (rcp "a@example.com") w in
    w_sends w' = w_sends w
    ∧ match o with
      | RecipientOutcome.Sent => False
      | RecipientOutcome.Blocked r =>
          r = reason ∨ config_block_reason (H := sample_env) (pc_filter ctx) "a@example.com" = Some r
      | _ => True
      end in
  blocked blocking_ctx sample_world "a@example.com is on the blocked-email list"
  ∧ blocked sample_ctx listed_world "a@example.com is on the blocked-email list".
Proof.
  unfold run_recipient. split.
  2: { refine (blocked_never_sent (H := sample_env) sample_ctx
         (sample_event (sample_opts SendMode.Individual GroupRetryMode.Whole [rcp "a@example.com"]))
         (sample_opts SendMode.Individual GroupRetryMode.Whole [rcp "a@example.com"])
         (rcp "a@example.com") [] no_copies listed_world _ _).
       right. intros p w1 w2 Hp Hi. vm_compute in Hp. injection Hp as <- <-.
       vm_compute in Hi. injection Hi as <-. vm_compute. reflexivity. }
  refine (blocked_never_sent (H := sample_env) blocking_ctx
    (sample_event (sample_opts SendMode.Individual GroupRetryMode.Whole [rcp "a@example.com"]))
    (sample_opts SendMode.Individual GroupRetryMode.Whole [rcp "a@example.com"])
    (rcp "a@example.com") [] no_copies sample_world "a@example.com is on the blocked-email list" _).
  left. vm_compute. reflexivity.
Defined.

Lemma early_failure_leaves_no_row_witness :
  let '(o, w') := run_recipient sample_env sample_ctx (rcp "not-an-address") sample_world in
  let '(r, w'') := email_mark_failed (H := sample_env) 7 "not-an-address" "invalid" true w' in
  (∃ e, o = RecipientOutcome.Failed e) ∧ email_cells w'' = email_cells sample_world
  ∧ is_ok r = false.
Proof.
  unfold run_recipient.
  refine (early_failure_leaves_no_row (H := sample_env) sample_ctx
    (sample_event (sample_opts SendMode.Individual GroupRetryMode.Whole [rcp "not-an-address"]))
    (sample_opts SendMode.Individual GroupRetryMode.Whole [rcp "not-an-address"])
    (rcp "not-an-address") [] no_copies sample_world "invalid" true _ _).
  - vm_compute. reflexivity.
  - left. vm_compute. reflexivity.
Defined.

Lemma process_recipient_refines_witness :
  let '(o, w') := run_recipient sample_env sample_ctx (rcp "a@example.com") sample_world in
  same_broker sample_world w'
  ∧ ∃ msgs, w_sends w' = w_sends sample_world ++ msgs
            ∧ attempt_spec (7%N, "a@example.com") (email_cells sample_world) o (email_cells w') msgs.
Proof.
  unfold run_recipient.
  refine (process_recipient_refines (H := sample_env) sample_ctx
    (sample_event (sample_opts SendMode.Individual GroupRetryMode.Whole [rcp "a@example.com"]))
    (sample_opts SendMode.Individual GroupRetryMode.Whole [rcp "a@example.com"])
    (rcp "a@example.com") [] no_copies sample_world).
Defined.
