(* ===== verification/GroupSpec.v ===== *)
(** * What one group attempt promises

    The facts of [process_group] against any lawful store: when it sends, to
    whom, and which rows it may touch; and the concrete runs that show where a
    blocked primary recipient is still addressed. *)

From S2P Require Import Prelude Json AppErr EmailValidation Event World Interfaces Filter.
From S2P Require Import LogStore LogInvariant BlockList TemplateStore Mailer Processor ProcessorSpec.

(** The rows of an event. *)
Definition event_key (event : NotificationEvent) (r : Recipient) : Key :=
  (ne_event_id event, r_email r).

(** No row outside the group is touched and none of the group's disappears. *)
Definition group_frame (event : NotificationEvent) (rs : list Recipient)
    (m m' : gmap Key Cell) : Prop :=
  (∀ k, k ∉ map (event_key event) rs → m' !! k = m !! k)
  ∧ (∀ k, is_Some (m !! k) → is_Some (m' !! k)).

#[export] Instance group_frame_preorder event rs : PreOrder (group_frame event rs).
Proof.
  split; [by split|]. intros m1 m2 m3 [H1 H2] [H3 H4]. split; [|by eauto].
  intros k Hk. by rewrite H3, H1.
Qed.

Lemma insert_cells_frame event rs (rs' : list Recipient) m xs m' :
  (∀ r, r ∈ rs' → r ∈ rs) →
  insert_cells (map (event_key event) rs') m = (xs, m') → group_frame event rs m m'.
Proof.
  revert m xs m'. induction rs' as [|r rs' IH]; intros m xs m' Hin; simpl; [by intros [= _ <-]|].
  destruct (insert_cell (event_key event r) m) as [x m1] eqn:E1.
  destruct (insert_cells (map (event_key event) rs') m1) as [xs' m2] eqn:E2.
  intros [= <- <-]. transitivity m1; [|eapply IH; [|exact E2]; set_solver].
  split.
  - intros k Hk. revert E1. unfold insert_cell.
    destruct (m !! event_key event r); intros [= _ <-]; [done|].
    rewrite lookup_insert_ne; [done|]. intros <-. apply Hk. apply list_elem_of_fmap.
    exists r. set_solver.
  - intros k Hk. by rewrite (insert_cell_mono _ _ _ _ _ E1).
Qed.

Lemma update_post_frame event rs rid f m r m' :
  update_post (ne_event_id event, rid) f m r m' → (∃ x, x ∈ rs ∧ r_email x = rid) →
  group_frame event rs m m'.
Proof.
  intros Hpost (x & Hx & <-). split.
  - intros k Hk. eapply update_post_other; [exact Hpost|]. intros <-. apply Hk.
    apply list_elem_of_fmap. by exists x.
  - intros k. by eapply update_post_mono.
Qed.

(** Step 3c finds every secondary whose row was already terminal. *)
Lemma already_sent_spec (event : NotificationEvent) (rs : list Recipient) (m m0 : gmap Key Cell) xs m' r c :
  (∀ k, is_Some (m0 !! k) → m !! k = m0 !! k) →
  insert_cells (map (event_key event) rs) m = (xs, m') →
  r ∈ rs → m0 !! event_key event r = Some c → is_terminal (c_status c) = true →
  r_email r ∈ already_sent rs xs.
Proof.
  revert m xs m'. induction rs as [|x rs IH]; intros m xs m' Hm; simpl; [set_solver|].
  destruct (insert_cell (event_key event x) m) as [y m1] eqn:E1.
  destruct (insert_cells (map (event_key event) rs) m1) as [ys m2] eqn:E2.
  intros [= <- <-] Hr Hc Hterm.
  assert (Hm1 : ∀ k, is_Some (m0 !! k) → m1 !! k = m0 !! k).
  { intros k Hk. rewrite <- (Hm k Hk). apply (insert_cell_mono _ _ _ _ _ E1). by rewrite Hm. }
  assert (Hrest : r_email r ∈ already_sent rs ys → r_email r ∈
    match y with
    | InsertResult.Inserted => already_sent rs ys
    | InsertResult.Duplicate _ status =>
        match status_try_from status with
        | Ok NotificationStatus.Sent | Ok NotificationStatus.Blocked => {[r_email x]} ∪ already_sent rs ys
        | _ => already_sent rs ys
        end
    end).
  { intros Hin. destruct y as [|? st]; [done|]. destruct (status_try_from st) as [[]|]; set_solver. }
  apply elem_of_cons in Hr as [->|Hr]; [|by eauto].
  revert E1. unfold insert_cell. rewrite (Hm _ (mk_is_Some _ _ Hc)), Hc. intros [= <- _].
  unfold is_terminal in Hterm. destruct (status_try_from (c_status c)) as [[]|]; set_solver.
Qed.

Section spec.
Context `{Env}.
Context `{Serialize Recipient, Serialize FromOverride, Serialize AttachmentRef}.
Context `{!NotificationStore, !NotificationStoreLaws}.
Context `{!TemplateResolver, !TemplateResolverLaws, !BlockListChecker, !BlockListCheckerLaws}.

(** What partitioning the To: list keeps. *)
Definition not_blocked (f : RecipientFilter) (email : string) : Prop :=
  ∀ reason, filter_check f email ≠ Err (AppError.Blocked reason).

Lemma allow_filter_spec ctx event rs l w l' w' :
  (∀ r, r ∈ l → r ∈ rs) →
  st_filter (allow_to_recipient ctx (ne_event_id event)) l w = (l', w') →
  quiet w w' ∧ group_frame event rs (cells w) (cells w')
  ∧ (∀ r, r ∈ l' → r ∈ l ∧ not_blocked (pc_filter ctx) (r_email r))
  ∧ l' `sublist_of` l.
Proof.
  revert w l' w'. induction l as [|r l IH]; intros w l' w' Hin; simpl.
  { intros [= <- <-]. split_and!; try done. set_solver. }
  run_st. destruct (allow_to_recipient ctx (ne_event_id event) r w) as [b w1] eqn:Ha.
  destruct (st_filter _ l w1) as [l1 w2] eqn:Hf. intros [= <- <-].
  destruct (IH w1 l1 w2) as (Hq2 & Hg2 & Hl2 & Hs2); [set_solver|done|].
  assert (Hone : quiet w w1 ∧ group_frame event rs (cells w) (cells w1)
                 ∧ (b = true → not_blocked (pc_filter ctx) (r_email r))).
  { revert Ha. unfold allow_to_recipient, not_blocked. run_st.
    destruct (filter_check _ _) as [[]|e] eqn:Hc.
    - intros [= <- <-]. by split_and!.
    - destruct (filter_check_err _ _ _ Hc) as [reason ->].
      destruct (mark_blocked _ _ _ w) as [x w3] eqn:Hm. intros [= <- <-].
      apply mark_blocked_law in Hm as [Hq Hpost]. split_and!; [done| |done].
      eapply update_post_frame; [exact Hpost|]. exists r. split; [set_solver|done]. }
  destruct Hone as (Hq1 & Hg1 & Hb). split_and!.
  - by etransitivity.
  - by etransitivity.
  - intros x Hx. destruct b; [apply elem_of_cons in Hx as [->|Hx]|];
      [split; [set_solver|auto]|destruct (Hl2 _ Hx); split; [set_solver|done]..].
  - destruct b; [by constructor|by constructor].
Qed.

Lemma mark_all_spec event rs emails w :
  (∀ e, e ∈ emails → ∃ x, x ∈ rs ∧ r_email x = e) →
  let w' := (st_iter (λ email, mark_sent (ne_event_id event) email ;;! st_ret tt) emails w).2 in
  quiet w w' ∧ group_frame event rs (cells w) (cells w').
Proof.
  cbv zeta. revert w. induction emails as [|e emails IH]; intros w Hin; [by split|]. simpl. run_st.
  destruct (mark_sent (ne_event_id event) e w) as [x w1] eqn:Hm.
  apply mark_sent_law in Hm as [Hq Hpost].
  assert (Hg : group_frame event rs (cells w) (cells w1)).
  { eapply update_post_frame; [exact Hpost|]. apply Hin. constructor. }
  destruct (IH w1) as [Hq' Hg']; [set_solver|]. split; by etransitivity.
Qed.

Lemma execute_send_group ctx event rs msg acct primary secs mode w o w' :
  primary ∈ rs → (∀ e, e ∈ secs → ∃ x, x ∈ rs ∧ r_email x = e) →
  execute_send ctx msg acct (SendTargets.Group (ne_event_id event) (r_email primary) secs mode) w
    = (o, w') →
  same_broker w w' ∧ group_frame event rs (cells w) (cells w')
  ∧ (w_sends w' = w_sends w ∧ o ≠ RecipientOutcome.Sent
     ∨ ∃ s acc, w_sends w' = w_sends w ++ [mkSendRecord s msg acc]
                ∧ (acc = true ↔ o = RecipientOutcome.Sent)).
Proof.
  intros Hp Hsecs. unfold execute_send. run_st.
  destruct (acquire_rate_limit_token _ w) as [tok w1] eqn:Ha.
  destruct (acquire_spec _ _ _ _ Ha) as (Hq1 & Hc1 & Ho).
  pose proof (quiet_same_broker _ _ Hq1) as Hb1. destruct Hq1 as (Hs1 & _). destruct tok as [[]|o1].
  - set (s := resolve_sender _ _ _). destruct (send s msg w1) as [r w2] eqn:Hs.
    destruct (send_cells _ _ _ _ _ Hs) as (Hc2 & Hb2 & Hsends).
    destruct r as [[]|err].
    + run_st. destruct (mark_sent (ne_event_id event) (r_email primary) w2) as [x w3] eqn:Hm.
      apply mark_sent_law in Hm as [Hq3 Hpost].
      assert (Hg3 : group_frame event rs (cells w2) (cells w3))
        by (eapply update_post_frame; [exact Hpost|by exists primary]).
      pose proof (mark_all_spec event rs secs w3 Hsecs) as [Hq4 Hg4]. unfold st_bind in *.
      destruct (st_iter _ secs w3) as [u w4]. simpl in *. intros [= <- <-].
      split_and!.
      * etransitivity; [exact Hb1|]. etransitivity; [exact Hb2|].
        etransitivity; by apply quiet_same_broker.
      * rewrite <- Hc1, <- Hc2. by etransitivity.
      * right. destruct Hsends as [[_ ?]|Hsends]; [done|]. exists s, true. split; [|done].
        destruct Hq3 as (Hs3 & _), Hq4 as (Hs4 & _). by rewrite Hs4, Hs3, Hsends, Hs1.
    + intros Hrun. injection Hrun as <- <-. split_and!; [by etransitivity|by rewrite Hc2, Hc1|].
      destruct Hsends as [[Hsends _]|Hsends].
      * left. split; [congruence|]. by destruct mode.
      * right. exists s, false. split; [by rewrite Hsends, Hs1|]. by destruct mode.
  - intros [= <- <-]. destruct Ho as [e ->]. split_and!; [done|by rewrite Hc1|].
    left. split; congruence.
Qed.

(** Steps 4 to 7, on a fresh primary row. *)
Lemma filter_and_send_group_spec ctx event opts primary atts ccbcc p sent rest w o w' :
  eo_recipients opts = primary :: rest →
  filter_and_send_group ctx event opts primary atts ccbcc p sent w = (o, w') →
  same_broker w w' ∧ group_frame event (eo_recipients opts) (cells w) (cells w')
  ∧ (w_sends w' = w_sends w ∧ o ≠ RecipientOutcome.Sent
     ∨ ∃ s msg acc,
         w_sends w' = w_sends w ++ [mkSendRecord s msg acc]
         ∧ (acc = true ↔ o = RecipientOutcome.Sent)
         ∧ em_event_id msg = ne_event_id event ∧ em_to_email msg = r_email primary
         ∧ ∀ mb, mb ∈ em_to_extra msg → ∃ r, r ∈ eo_recipients opts ∧ mb = to_mailbox r
             ∧ not_blocked (pc_filter ctx) (r_email r) ∧ r_email r ∉ sent).
Proof.
  intros Hrs. unfold filter_and_send_group. run_st.
  destruct (st_filter _ (eo_recipients opts) w) as [allowed w3] eqn:Hf.
  destruct (allow_filter_spec ctx event (eo_recipients opts) _ _ _ _ (λ r h, h) Hf)
    as (Hq3 & Hg3 & Hall & _).
  pose proof (quiet_same_broker _ _ Hq3) as Hb3. destruct Hq3 as (Hs3 & _).
  destruct allowed as [|a allowed]; [intros [= <- <-]; split_and!; [done..|by left]|].
  set (recs := base.filter _ (a :: allowed)). intros Hrun.
  assert (Hrecs : ∀ r, r ∈ drop 1 recs → r ∈ eo_recipients opts
             ∧ not_blocked (pc_filter ctx) (r_email r) ∧ r_email r ∉ sent).
  { intros r Hr. assert (r ∈ recs) as [Hn Hin]%list_elem_of_filter
      by (destruct recs; [done|set_solver]). destruct (Hall _ Hin). by split_and!. }
  apply (execute_send_group ctx event (eo_recipients opts)) in Hrun as (Hb4 & Hg4 & Hsend).
  2: { rewrite Hrs. constructor. }
  2: { intros em Hem. destruct (eo_group_retry_mode opts); [by apply not_elem_of_nil in Hem|].
       apply list_elem_of_fmap in Hem as (r & -> & Hr). exists r. split; [|done].
       by apply Hrecs. }
  split_and!; [by etransitivity|by etransitivity|].
  destruct Hsend as [[Hsend Ho]|(s & acc & Hsend & Hacc)]; [left; split; [congruence|done]|right].
  eexists s, _, acc. split; [rewrite Hsend, Hs3; reflexivity|].
  split_and!; [done..|]. simpl. intros mb (r & -> & Hr)%list_elem_of_fmap.
  exists r. destruct (Hrecs _ Hr) as (? & ? & ?). by split_and!.
Qed.

Lemma group_mode_of_fallback ctx event opts primary atts ccbcc p sent w e w' :
  filter_and_send_group ctx event opts primary atts ccbcc p sent w
    = (RecipientOutcome.GroupFailedWithIndividualRows e, w') →
  eo_group_retry_mode opts = GroupRetryMode.Individual.
Proof.
  unfold filter_and_send_group. run_st. destruct (st_filter _ (eo_recipients opts) w) as [[|a allowed] w3]; [done|].
  unfold execute_send. run_st. destruct (acquire_rate_limit_token _ w3) as [tok w4] eqn:Ha.
  apply acquire_spec in Ha as (_ & _ & Ho). destruct tok as [u|o1].
  - destruct (send _ _ w4) as [[u'|err] w5]; [unfold st_bind, st_ret; by repeat case_match|].
    by destruct (eo_group_retry_mode opts).
  - destruct Ho as [err ->]. done.
Qed.

(** What a group attempt from [w] to [w'] with outcome [o] may have done. *)
Definition group_post (ctx : ProcessorContext) (event : NotificationEvent) (opts : EmailOptions)
    (w : World) (o : RecipientOutcome) (w' : World) : Prop :=
  same_broker w w'
  ∧ group_frame event (eo_recipients opts) (cells w) (cells w')
  ∧ (w_sends w' = w_sends w ∧ o ≠ RecipientOutcome.Sent
     ∨ ∃ s msg acc primary rest,
         w_sends w' = w_sends w ++ [mkSendRecord s msg acc]
         ∧ (acc = true ↔ o = RecipientOutcome.Sent)
         ∧ eo_recipients opts = primary :: rest
         ∧ cells w !! event_key event primary = None
         ∧ is_Some (cells w' !! event_key event primary)
         ∧ em_event_id msg = ne_event_id event ∧ em_to_email msg = r_email primary
         ∧ ∀ mb, mb ∈ em_to_extra msg → ∃ r, r ∈ eo_recipients opts ∧ mb = to_mailbox r
             ∧ not_blocked (pc_filter ctx) (r_email r)
             ∧ (eo_group_retry_mode opts = GroupRetryMode.Individual → ∀ c,
                cells w !! event_key event r = Some c → is_terminal (c_status c) = false)).

(** An attempt that hands nothing over only has to keep to the group's rows. *)
Lemma group_post_untouched ctx event opts w o w' :
  same_broker w w' → group_frame event (eo_recipients opts) (cells w) (cells w') →
  w_sends w' = w_sends w → o ≠ RecipientOutcome.Sent → group_post ctx event opts w o w'.
Proof. intros. split_and!; [done..|]. by left. Qed.

Lemma validate_group_head opts max primary :
  validate_group opts max = Ok primary → ∃ rest, eo_recipients opts = primary :: rest.
Proof.
  unfold validate_group. destruct (eo_recipients opts) as [|x rest]; [done|].
  destruct (_ <? _)%nat; [done|]. destruct (List.find _ _); [done|]. intros [= ->]. by eexists.
Qed.

Lemma rows_to_insert_head opts primary rest :
  eo_recipients opts = primary :: rest →
  rows_to_insert opts primary
  = primary :: match eo_group_retry_mode opts with
               | GroupRetryMode.Individual => rest
               | GroupRetryMode.Whole => []
               end.
Proof. intros Hrs. unfold rows_to_insert. rewrite Hrs. by destruct (eo_group_retry_mode opts). Qed.

Lemma rows_to_insert_sub opts primary rest r :
  eo_recipients opts = primary :: rest → r ∈ rows_to_insert opts primary →
  r ∈ eo_recipients opts.
Proof.
  intros Hrs. rewrite (rows_to_insert_head _ _ _ Hrs), Hrs.
  destruct (eo_group_retry_mode opts); set_solver.
Qed.

(** When the primary row is reported inserted its cell was absent, is present
    afterwards, and the batch results name every terminal row of the group. *)
Lemma group_insert_fresh (event : NotificationEvent) (opts : EmailOptions) (primary : Recipient)
    (rest : list Recipient) (xs : list InsertResult) (m m' : gmap Key Cell) :
  eo_recipients opts = primary :: rest →
  insert_cells (map (event_key event) (rows_to_insert opts primary)) m
    = (InsertResult.Inserted :: xs, m') →
  m !! event_key event primary = None ∧ is_Some (m' !! event_key event primary)
  ∧ ∀ r c, eo_group_retry_mode opts = GroupRetryMode.Individual → r ∈ eo_recipients opts →
      r_email r ∉ already_sent_emails opts xs →
      m !! event_key event r = Some c → is_terminal (c_status c) = false.
Proof.
  intros Hrs Hins. rewrite (rows_to_insert_head _ _ _ Hrs) in Hins.
  pose proof (insert_cells_head _ _ _ _ _ Hins) as Hpres. revert Hins. simpl.
  destruct (insert_cell _ m) as [x m1] eqn:E1.
  destruct (insert_cells _ m1) as [ys m2] eqn:E2. intros [= -> <- <-].
  assert (Hkey : m !! event_key event primary = None).
  { revert E1. unfold insert_cell. by destruct (m !! event_key event primary). }
  split_and!; [done|done|]. intros r c Hmode Hin Hns Hc.
  apply not_true_iff_false. intros Hterm. apply Hns.
  rewrite Hmode in E2. rewrite Hrs in Hin.
  unfold already_sent_emails. rewrite Hmode, Hrs. simpl.
  apply elem_of_cons in Hin as [->|Hin]; [congruence|].
  eapply (already_sent_spec event rest m1 m); [|exact E2|done..].
  intros k Hk. by apply (insert_cell_mono _ _ _ _ _ E1).
Qed.

Lemma process_group_spec ctx event opts atts ccbcc max w :
  let '(o, w') := process_group ctx event opts atts ccbcc max w in
  group_post ctx event opts w o w'.
Proof.
  destruct (process_group _ _ _ _ _ _ w) as [o w'] eqn:Hrun. revert Hrun. unfold process_group, inspect_primary.
  destruct (validate_group opts max) as [primary|e] eqn:Hv;
    [|intros [= <- <-]; by apply group_post_untouched].
  apply validate_group_head in Hv as [rest Hrs]. run_st.
  destruct (prepare event opts ccbcc w) as [prep w1] eqn:Hp.
  pose proof (prepare_aside event opts ccbcc w) as Ha. rewrite Hp in Ha. simpl in Ha.
  pose proof (aside_cells _ _ Ha) as Hc1. destruct Ha as [Hq1 _].
  pose proof (quiet_same_broker _ _ Hq1) as Hb1. destruct Hq1 as (Hs1 & _).
  destruct prep as [p|e];
    [|intros [= <- <-]; apply group_post_untouched; [done|by rewrite Hc1|done..]].
  destruct (group_to_recipients opts) as [trs|e];
    [|intros [= <- <-]; apply group_post_untouched; [done|by rewrite Hc1|done..]].
  destruct (insert_pending_batch _ w1) as [ins w2] eqn:Hi.
  apply insert_pending_batch_law in Hi as [Hq2 Hpost].
  pose proof (quiet_same_broker _ _ Hq2) as Hb2. destruct Hq2 as (Hs2 & _).
  assert (Hb : same_broker w w2) by by etransitivity.
  assert (Hs : w_sends w2 = w_sends w) by congruence.
  destruct ins as [xs|e];
    [|intros [= <- <-]; apply group_post_untouched; [done|by rewrite Hpost, Hc1|done..]].
  rewrite map_map, Hc1 in Hpost.
  change (map (λ x, arg_key (make_args event opts (pr_fields p) trs x)))
    with (map (event_key event)) in Hpost.
  pose proof (insert_cells_frame event (eo_recipients opts) _ _ _ _
                (λ r, rows_to_insert_sub opts primary rest r Hrs) Hpost) as Hg2.
  destruct xs as [|[|n st] xs]; [intros [= <- <-]; by apply group_post_untouched| |].
  - destruct (group_insert_fresh _ _ _ _ _ _ _ Hrs Hpost) as (Hkey & Hpres & Hterm).
    intros Hrun. apply (filter_and_send_group_spec _ _ _ _ _ _ _ _ rest) in Hrun
      as (Hb3 & Hg3 & Hsend); [|done].
    split_and!; [by etransitivity|by etransitivity|].
    destruct Hsend as [[Hsend Ho]|(s & msg & acc & Hsend & Hacc & Hid & Hto & Hx)];
      [left; split; [congruence|done]|right].
    exists s, msg, acc, primary, rest. split; [by rewrite Hsend, Hs|].
    split_and!; [done..|by apply (proj2 Hg3)|done|done|].
    intros mb (r & Hin & -> & Hnb & Hns)%Hx. exists r. split_and!; [done..|].
    intros Hmode c Hc. by eapply Hterm.
  - unfold duplicate_outcome. intros [= <- <-].
    apply group_post_untouched; [done..|by destruct (status_try_from st) as [[]|]].
Qed.

(** Individual sends replace a group's only when every recipient has a row. *)
Lemma group_fallback_rows ctx event opts atts ccbcc max w e w' :
  process_group ctx event opts atts ccbcc max w = (RecipientOutcome.GroupFailedWithIndividualRows e, w') →
  ∀ r, r ∈ eo_recipients opts → is_Some (cells w' !! event_key event r).
Proof.
  unfold process_group, inspect_primary.
  destruct (validate_group opts max) as [primary|e1] eqn:Hv; [|done].
  apply validate_group_head in Hv as [rest Hrs]. run_st.
  destruct (prepare event opts ccbcc w) as [[p|e1] w1]; [|done].
  destruct (group_to_recipients opts) as [trs|e1]; [|done].
  destruct (insert_pending_batch _ w1) as [ins w2] eqn:Hi.
  apply insert_pending_batch_law in Hi as [_ Hpost]. destruct ins as [xs|e1]; [|done].
  rewrite map_map in Hpost.
  change (map (λ x, arg_key (make_args event opts (pr_fields p) trs x)))
    with (map (event_key event)) in Hpost.
  destruct xs as [|[|n st] xs]; [done| |by unfold duplicate_outcome; destruct (status_try_from st) as [[]|]].
  intros Hrun r Hr. pose proof (group_mode_of_fallback _ _ _ _ _ _ _ _ _ _ _ Hrun) as Hmode.
  apply (filter_and_send_group_spec _ _ _ _ _ _ _ _ rest) in Hrun as (_ & [_ Hkept] & _); [|done].
  apply Hkept. apply (insert_cells_all _ _ _ _ _ Hpost). apply list_elem_of_fmap_2.
  unfold rows_to_insert. by rewrite Hmode.
Qed.

(** C23: one group attempt hands over at most one message, and only when the
    primary row was just inserted; it is addressed to the primary, the extra
    To: boxes are recipients of the event that the filter does not block and,
    with per-recipient rows, whose own row was not already terminal (in [Whole]
    mode the others have no rows, and may have been written to before:
    [AtMostOnce.reordered_group_writes_twice]); and no row outside the group
    changes. *)
Theorem process_group_sends ctx event opts atts ccbcc max w :
  let '(o, w') := process_group ctx event opts atts ccbcc max w in
  group_post ctx event opts w o w'.
Proof. apply process_group_spec. Qed.

End spec.

(** ** Concrete groups *)

#[local] Existing Instance sample_env.

Definition group_of_three : list Recipient :=
  [rcp "p@example.com"; rcp "q@example.com"; rcp "r@example.com"].

Definition run_group (ctx : ProcessorContext) (mode : GroupRetryMode) (to : list Recipient)
    (w : World) : RecipientOutcome * World :=
  let opts := sample_opts SendMode.Group mode to in
  process_group ctx (sample_event opts) opts [] no_copies 100 w.

(** The To: addresses of the messages handed over. *)
Definition to_addresses (w : World) : list (list string) :=
  map (λ r, em_to_email (sr_message r) :: map mb_email (em_to_extra (sr_message r))) (w_sends w).

Definition sample_group_opts : EmailOptions :=
  sample_opts SendMode.Group GroupRetryMode.Individual group_of_three.

Lemma process_group_sends_witness :
  let '(o, w') := process_group sample_ctx (sample_event sample_group_opts) sample_group_opts []
                    no_copies 100 sample_world in
  group_post sample_ctx (sample_event sample_group_opts) sample_group_opts sample_world o w'.
Proof.
  pose proof (process_group_sends sample_ctx (sample_event sample_group_opts) sample_group_opts []
                no_copies 100 sample_world) as Hgroup.
  exact Hgroup.
Defined.

Example group_delivered :
  let '(o, w) := run_group sample_ctx GroupRetryMode.Individual group_of_three sample_world in
  (o, to_addresses w, row_states w)
  = (RecipientOutcome.Sent, [["p@example.com"; "q@example.com"; "r@example.com"]],
     [("p@example.com", "SENT"); ("q@example.com", "SENT"); ("r@example.com", "SENT")]).
Proof. vm_compute. reflexivity. Qed.

(** Validation looks at every recipient, the primary included, and at the size. *)
Example group_validation :
  let opts := sample_opts SendMode.Group GroupRetryMode.Whole in
  map (λ '(to, max), is_ok (validate_group (opts to) max))
    [(group_of_three, 3%nat); (group_of_three, 2%nat); ([], 3%nat);
     (rcp "nobody" :: group_of_three, 9%nat); (group_of_three ++ [rcp "nobody"], 9%nat)]
  = [true; false; false; false; false].
Proof. vm_compute. reflexivity. Qed.

(** When the configured filter blocks the first recipient of a group, the
    message still goes to that address, the first allowed recipient is left out
    of the To: header, and the blocked row ends up [SENT]. *)
Theorem blocked_primary_still_addressed :
  let ctx := mkProcessorContext sample_sender ∅
               (mkRecipientFilter {["p@example.com"]} ∅ ∅ ∅ false) None in
  let '(o, w) := run_group ctx GroupRetryMode.Individual group_of_three sample_world in
  o = RecipientOutcome.Sent
  ∧ to_addresses w = [["p@example.com"; "r@example.com"]]
  ∧ row_states w = [("p@example.com", "SENT"); ("q@example.com", "PENDING");
                    ("r@example.com", "SENT")].
Proof. vm_compute. by split_and!. Qed.

(** A group send does not consult the database block list for its To:
    addresses: an address blocked there is mailed, while the same address sent
    to individually is not. *)
Theorem group_ignores_block_list :
  let w := set_db (set_blocks (λ _, [mkBlockListEntry 1 "blocked_email" "q@example.com" None true 0])
                     (w_db sample_world)) sample_world in
  to_addresses (run_group sample_ctx GroupRetryMode.Whole group_of_three w).2
    = [["p@example.com"; "q@example.com"; "r@example.com"]]
  ∧ to_addresses (run_recipient sample_env sample_ctx (rcp "q@example.com") w).2 = [].
Proof. vm_compute. by split. Qed.
