(* ===== verification/Retry.v ===== *)
(** * The retry loops

    Bounds on the back-off, termination of the loops while the store never
    answers [Duplicate], and what happens when it does: a loop that meets a
    row which is neither new nor terminal turns forever. *)

From S2P Require Import Prelude Json AppErr EmailValidation Event World Interfaces Filter.
From S2P Require Import LogStore LogInvariant BlockList TemplateStore Mailer Fetcher Processor ProcessorSpec.
From S2P Require Import GroupSpec Delivery.

(** ** Back-off *)

Lemma shift_pow n : 0 ≤ n → Z.shiftl 1 n = 2 ^ n.
Proof. intros. rewrite Z.shiftl_mul_pow2 by lia. lia. Qed.

(** Saturation never shows: the cap is below it. *)
Lemma retry_delay_exact base attempt :
  0 ≤ base ≤ u64_max → 0 ≤ attempt →
  retry_delay_ms base attempt = Z.min (base * 2 ^ Z.min attempt 10) MAX_RETRY_DELAY_MS.
Proof.
  intros Hb Ha. unfold retry_delay_ms. rewrite shift_pow by lia.
  assert (0 < 2 ^ Z.min attempt 10) by (apply Z.pow_pos_nonneg; lia).
  unfold saturating_mul64, MAX_RETRY_DELAY_MS, u64_max in *. lia.
Qed.

Lemma rl_delay_values rl : 1 ≤ rl → rl_delay_ms rl ∈ [60000; 120000; 240000].
Proof.
  intros H. unfold rl_delay_ms.
  assert (Z.min rl 3 = 1 ∨ Z.min rl 3 = 2 ∨ Z.min rl 3 = 3) as [->|[->| ->]] by lia;
    vm_compute; set_solver.
Qed.

Lemma rl_delay_bounds d : d ∈ [60000; 120000; 240000] → 0 ≤ d ≤ MAX_RETRY_DELAY_MS.
Proof.
  unfold MAX_RETRY_DELAY_MS. intros Hd. repeat (apply elem_of_cons in Hd as [->|Hd]; [lia|]).
  by apply not_elem_of_nil in Hd.
Qed.

Lemma retry_delay_bounds base a :
  0 ≤ base → 0 ≤ a → 0 ≤ Z.min (base * 2 ^ Z.min a 10) MAX_RETRY_DELAY_MS ≤ MAX_RETRY_DELAY_MS.
Proof.
  intros. assert (0 < 2 ^ Z.min a 10) by (apply Z.pow_pos_nonneg; lia).
  unfold MAX_RETRY_DELAY_MS. lia.
Qed.

(** The counters a back-off leaves: consecutive rate-limit waits are counted
    against [max_rl_waits] and do not consume a retry, anything else consumes
    one retry and starts the rate-limit count afresh. *)
Definition backoff_ok (cfg : ConsumerConfig) (attempt rl a r d : Z) : Prop :=
  (a = attempt ∧ r = rl + 1 ∧ r ≤ cc_max_rl_waits cfg ∧ d ∈ [60000; 120000; 240000])
  ∨ (a = attempt + 1 ∧ a ≤ cc_max_retries cfg ∧ r = 0
     ∧ d = Z.min (cc_retry_base_ms cfg * 2 ^ Z.min a 10) MAX_RETRY_DELAY_MS).

Lemma failed_backoff_ok cfg policy attempt rl e a r d m s :
  0 ≤ attempt → 0 ≤ rl → 0 ≤ cc_retry_base_ms cfg ≤ u64_max →
  recipient_step cfg policy attempt rl (RecipientOutcome.Failed e) = Backoff a r d m s →
  backoff_ok cfg attempt rl a r d.
Proof.
  intros Ha Hr Hb. simpl. destruct (negb _); [done|].
  destruct (cc_max_retries cfg <=? attempt) eqn:Hmax; [done|]. case_bool_decide; [done|].
  unfold backoff_ok.
  assert (Hretry : 0 ≤ attempt + 1) by lia.
  destruct e; try (intros [= <- <- <- _ _]; right; split_and!; [done|lia|done|by apply retry_delay_exact]).
  destruct (cc_max_rl_waits cfg <? rl + 1) eqn:Hw; [done|].
  intros [= <- <- <- _ _]. left. split_and!; [done..|lia|apply rl_delay_values; lia].
Qed.

Lemma step_continue cfg policy attempt rl o a :
  recipient_step cfg policy attempt rl o = Continue a → ∃ n, o = RecipientOutcome.Duplicate n.
Proof.
  unfold recipient_step. intros Hs. destruct o; try done; [by eexists|].
  repeat case_match; done.
Qed.

(** When and how a loop at these counters backs off after an outcome: only
    after a failure that is worth repeating, with retries left.  A rate limit
    costs one of the rate-limit waits, of one, two and then four minutes each;
    any other failure costs a retry and starts those waits afresh, and the pause
    doubles with each retry up to half an hour. *)
Definition backs_off (cfg : ConsumerConfig) (policy : RetryPolicy) (attempt rl : Z)
    (o : RecipientOutcome) (a r d : Z) : Prop :=
  ∃ e, o = RecipientOutcome.Failed e ∧ is_retryable e = true ∧ policy = RetryPolicy.Retry
    ∧ attempt < cc_max_retries cfg
    ∧ match e with
      | AppError.RateLimited _ =>
          a = attempt ∧ r = rl + 1 ∧ r ≤ cc_max_rl_waits cfg
          ∧ d = (if r =? 1 then 60000 else if r =? 2 then 120000 else 240000)
      | _ =>
          a = attempt + 1 ∧ r = 0
          ∧ d = Z.min (cc_retry_base_ms cfg * 2 ^ Z.min a 10) (30 * 60 * 1000)
      end.

Lemma rl_delay_exact rl :
  1 ≤ rl → rl_delay_ms rl = if rl =? 1 then 60000 else if rl =? 2 then 120000 else 240000.
Proof.
  intros H. unfold rl_delay_ms. destruct (Z.eqb_spec rl 1) as [->|]; [done|].
  destruct (Z.eqb_spec rl 2) as [->|]; [done|]. by replace (Z.min rl 3) with 3 by lia.
Qed.

Lemma recipient_backs_off cfg policy attempt rl o a r d :
  0 ≤ attempt → 0 ≤ rl → 0 ≤ cc_retry_base_ms cfg ≤ u64_max →
  (∃ m s, recipient_step cfg policy attempt rl o = Backoff a r d m s)
  ↔ backs_off cfg policy attempt rl o a r d.
Proof.
  intros Ha Hr Hb. pose proof (retry_delay_exact (cc_retry_base_ms cfg) (attempt + 1) Hb) as Hexact.
  specialize (Hexact ltac:(lia)). unfold MAX_RETRY_DELAY_MS in Hexact.
  pose proof (rl_delay_exact (rl + 1) ltac:(lia)) as Hrl. unfold backs_off. split.
  - intros (m & s & Hs). destruct o as [| | | |e|]; try done. simpl in Hs. exists e.
    destruct (is_retryable e) eqn:Hret; [|done]. simpl in Hs.
    destruct (cc_max_retries cfg <=? attempt) eqn:Hmax; [done|].
    destruct policy; [|done]. simpl in Hs. split_and!; [done..|lia|].
    destruct e; try (injection Hs as <- <- <- _ _; by split_and!).
    destruct (cc_max_rl_waits cfg <? rl + 1) eqn:Hw; [done|]. injection Hs as <- <- <- _ _.
    split_and!; [done..|lia|done].
  - intros (e & -> & Hret & -> & Hlt & Hcase). simpl. rewrite Hret. simpl.
    destruct (cc_max_retries cfg <=? attempt) eqn:Hmax; [lia|].
    destruct e; try (destruct Hcase as (-> & -> & ->); rewrite Hexact; by eexists _, _).
    destruct Hcase as (-> & -> & Hw & ->). destruct (cc_max_rl_waits cfg <? rl + 1) eqn:Hw'; [lia|].
    rewrite Hrl. by eexists _, _.
Qed.

(** C25: both loops back off exactly when and how [backs_off] says, so for 60,
    120 or 240 s after the first, the second and each later rate limit in a row,
    and for [retry_base_ms * 2^min(attempt, 10)] ms, at most 30 minutes, after
    any other failure; never for longer, and never below zero. *)
Theorem backoff_bounds cfg policy attempt rl o a r d :
  0 ≤ attempt → 0 ≤ rl → 0 ≤ cc_retry_base_ms cfg ≤ u64_max →
  ((∃ m s, recipient_step cfg policy attempt rl o = Backoff a r d m s)
   ↔ backs_off cfg policy attempt rl o a r d)
  ∧ ((∃ m s, group_step cfg policy attempt rl o = Backoff a r d m s)
     ↔ backs_off cfg policy attempt rl o a r d)
  ∧ (backs_off cfg policy attempt rl o a r d → 0 ≤ d ≤ 30 * 60 * 1000).
Proof.
  intros Ha Hr Hb. pose proof (recipient_backs_off cfg policy attempt rl o a r d Ha Hr Hb) as Hiff.
  split_and!; [done| |].
  - rewrite <- Hiff, group_step_eq. destruct o; try done. split; by intros (? & ? & ?).
  - intros (e & -> & _ & _ & _ & Hcase).
    pose proof (retry_delay_bounds (cc_retry_base_ms cfg) a ltac:(lia)) as Hd.
    unfold MAX_RETRY_DELAY_MS in Hd.
    destruct e; try (destruct Hcase as (-> & _ & ->); apply Hd; lia).
    destruct Hcase as (_ & _ & _ & ->). repeat case_match; lia.
Qed.

(** ** Termination *)

(** What is left of the retry budget. *)
Definition budget (cfg : ConsumerConfig) (attempt rl : Z) : Z :=
  (cc_max_retries cfg - attempt) * (cc_max_rl_waits cfg + 1) + (cc_max_rl_waits cfg - rl).

Definition counters_ok (cfg : ConsumerConfig) (attempt rl : Z) : Prop :=
  0 ≤ attempt ≤ cc_max_retries cfg ∧ 0 ≤ rl ≤ cc_max_rl_waits cfg.

Lemma backoff_budget cfg attempt rl a r d :
  counters_ok cfg attempt rl → backoff_ok cfg attempt rl a r d →
  counters_ok cfg a r ∧ 0 ≤ budget cfg a r < budget cfg attempt rl.
Proof.
  unfold counters_ok, backoff_ok, budget.
  intros [Ha Hr] [(-> & -> & Hle & _)|(-> & Hle & -> & _)]; (split; [lia|nia]).
Qed.

Section loops.
Context `{Env}.
Context `{Serialize Recipient, Serialize FromOverride, Serialize AttachmentRef}.
Context `{!NotificationStore, !NotificationStoreLaws}.
Context `{!TemplateResolver, !TemplateResolverLaws, !BlockListChecker, !BlockListCheckerLaws}.
Context (ctx : ProcessorContext) (cfg : ConsumerConfig).

Lemma note_failure_quiet e rid msg ex : keeps quiet (note_failure e rid msg ex).
Proof.
  intros w. unfold note_failure. destruct rid as [rid|]; [|done]. run_st.
  destruct (mark_failed e rid msg ex w) as [r w'] eqn:Hm.
  by apply mark_failed_law in Hm as [? _].
Qed.

Lemma note_failure_cells e rid msg ex w :
  let m' := cells (note_failure e (Some rid) msg ex w).2 in
  m' = alter (failed_cell msg ex) (e, rid) (cells w) ∨ m' = cells w.
Proof.
  cbv zeta. unfold note_failure. run_st. destruct (mark_failed e rid msg ex w) as [r w'] eqn:Hm.
  apply mark_failed_law in Hm as [_ Hpost%update_post_cases]. exact Hpost.
Qed.

(** A row the loop takes for unfinished work. *)
Definition open_row (m : gmap Key Cell) (k : Key) : Prop :=
  ∃ c, m !! k = Some c ∧ is_terminal (c_status c) = false.

Lemma note_failure_open e rid msg ex w :
  open_row (cells w) (e, rid) → open_row (cells (note_failure e (Some rid) msg ex w).2) (e, rid).
Proof.
  intros (c & Hk & Ht). destruct (note_failure_cells e rid msg ex w) as [E|E]; rewrite E.
  - exists (failed_cell msg ex c). split; [by rewrite lookup_alter_eq, Hk|]. by destruct ex.
  - by exists c.
Qed.

Lemma act_on_step_open e rid attempt rl s w :
  open_row (cells w) (e, rid) →
  open_row (cells (act_on_step e (Some rid) attempt rl s w).2) (e, rid).
Proof.
  intros Ho. destruct s as [|a|msg|a r0 d msg smsg|err]; simpl; [done..| | |done].
  - run_st. pose proof (note_failure_open _ _ msg true _ Ho) as H'. by destruct (note_failure _ _ _ _ w).
  - unfold sleep_or_shutdown, next_tick. run_st. pose proof (note_failure_open _ _ msg false _ Ho) as H'.
    destruct (note_failure _ _ msg _ w) as [u w2]. simpl in H'.
    assert (Hl : open_row (cells (log_sleep d (set_tick (S (w_tick w2)) w2))) (e, rid))
      by (by rewrite (cells_same_log w2)).
    destruct (sleep_completes (w_tick w2)); simpl; [done|]. run_st.
    pose proof (note_failure_open _ _ smsg true _ Hl) as H''. by destruct (note_failure _ _ smsg _ _).
Qed.

(** Sleeps are the only broker-side effect of a turn. *)
Definition slept (w w' : World) : Prop :=
  ∃ ds, w_slept w' = w_slept w ++ ds ∧ Forall (λ d, 0 ≤ d ≤ MAX_RETRY_DELAY_MS) ds.

#[local] Instance slept_preorder : PreOrder slept.
Proof.
  split; [intros w; exists []; by rewrite app_nil_r|].
  intros w1 w2 w3 (d1 & E1 & F1) (d2 & E2 & F2). exists (d1 ++ d2).
  split; [by rewrite E2, E1, app_assoc|by apply Forall_app].
Qed.

Lemma slept_quiet w w' : w_slept w' = w_slept w → slept w w'.
Proof. intros E. exists []. by rewrite app_nil_r. Qed.

Lemma act_on_step_slept e rid attempt rl s w :
  (∀ a r d m x, s = Backoff a r d m x → 0 ≤ d ≤ MAX_RETRY_DELAY_MS) →
  slept w (act_on_step e rid attempt rl s w).2.
Proof.
  intros Hd. destruct s as [|a|msg|a r0 d msg smsg|err]; simpl; try done.
  - run_st. pose proof (note_failure_quiet e rid msg true w) as (_ & _ & Hq).
    destruct (note_failure _ _ _ _ w). by apply slept_quiet.
  - unfold sleep_or_shutdown, next_tick. run_st.
    pose proof (note_failure_quiet e rid msg false w) as (_ & _ & Hq).
    destruct (note_failure _ _ msg _ w) as [u w2]. simpl in Hq.
    specialize (Hd _ _ _ _ _ eq_refl).
    assert (Hs : slept w (log_sleep d (set_tick (S (w_tick w2)) w2))).
    { exists [d]. split; [by simpl; rewrite Hq|by constructor]. }
    destruct (sleep_completes (w_tick w2)); simpl; [done|]. run_st.
    pose proof (note_failure_quiet e rid smsg true (log_sleep d (set_tick (S (w_tick w2)) w2)))
      as (_ & _ & Hq2). destruct (note_failure _ _ smsg _ _) as [u3 w3].
    etransitivity; [exact Hs|by apply slept_quiet].
Qed.

Section one_recipient.
Context (event : NotificationEvent) (opts : EmailOptions) (r : Recipient).
Context (atts : list ResolvedAttachment) (ccbcc : EffectiveCcBcc).
Context (Hbase : 0 ≤ cc_retry_base_ms cfg ≤ u64_max).

Notation iter := (recipient_iteration ctx cfg event opts r atts ccbcc).
Notation loop := (recipient_loop ctx cfg).
Notation key := (ne_event_id event, r_email r).

Lemma open_row_iteration attempt rl w :
  open_row (cells w) key → open_row (cells (iter attempt rl w).2) key.
Proof.
  intros Ho. unfold recipient_iteration. run_st.
  pose proof (process_recipient_spec ctx event opts r atts ccbcc w) as Href.
  destruct (process_recipient _ _ _ _ _ _ w) as [o w1]. destruct Href as (_ & msgs & _ & Hspec).
  apply act_on_step_open. destruct Ho as (c & Hk & Ht).
  destruct (attempt_spec_present _ _ _ _ _ Hspec) as [-> _]; [by eexists|]. by exists c.
Qed.

(** One turn: it ends the loop, backs off within the budget, or has met an
    unfinished row. *)
Lemma iteration_spec attempt rl w :
  counters_ok cfg attempt rl →
  let '(c, w') := iter attempt rl w in
  match c with
  | None => True
  | Some (a, r0) => (counters_ok cfg a r0 ∧ 0 ≤ budget cfg a r0 < budget cfg attempt rl)
                    ∨ open_row (cells w') key
  end.
Proof.
  intros Hc. unfold recipient_iteration. run_st.
  pose proof (process_recipient_spec ctx event opts r atts ccbcc w) as Href.
  destruct (process_recipient _ _ _ _ _ _ w) as [o w1]. destruct Href as (_ & msgs & _ & Hspec).
  destruct (recipient_step cfg (eo_retry_policy opts) attempt rl o) as [|a|msg|a r0 d msg smsg|e]
    eqn:Hstep; simpl.
  - done.
  - apply step_continue in Hstep as [n ->]. right. inversion Hspec; subst. eexists. by split.
  - run_st. by destruct (note_failure _ _ _ _ w1).
  - assert (Hok : backoff_ok cfg attempt rl a r0 d).
    { destruct o as [| | | |e|]; try done. destruct Hc. by eapply failed_backoff_ok; [lia|lia|done|]. }
    unfold sleep_or_shutdown, next_tick. run_st. destruct (note_failure _ _ msg _ w1) as [u w2].
    destruct (sleep_completes (w_tick w2)); simpl; [left; by eapply backoff_budget|].
    run_st. by destruct (note_failure _ _ smsg _ _).
  - done.
Qed.

Lemma open_row_loop fuel attempt rl w :
  open_row (cells w) key → open_row (cells (loop fuel event opts r atts ccbcc attempt rl w).2) key.
Proof.
  revert attempt rl w. induction fuel as [|fuel IH]; intros attempt rl w Ho; [done|].
  cbn [recipient_loop]. run_st. pose proof (open_row_iteration attempt rl w Ho) as Ho'.
  destruct (iter attempt rl w) as [[[a r0]|] w1]; [by apply IH|done].
Qed.

Lemma loop_returns fuel attempt rl w :
  counters_ok cfg attempt rl → budget cfg attempt rl < Z.of_nat fuel →
  let '(res, w') := loop fuel event opts r atts ccbcc attempt rl w in
  res = Some tt ∨ open_row (cells w') key.
Proof.
  revert attempt rl w. induction fuel as [|fuel IH]; intros attempt rl w Hc Hf.
  - exfalso. unfold budget, counters_ok in *. nia.
  - cbn [recipient_loop]. run_st. pose proof (iteration_spec attempt rl w Hc) as Hit.
    destruct (iter attempt rl w) as [[[a r0]|] w1]; [|by left].
    destruct Hit as [[Hc' Hb]|Ho]; [apply IH; [done|lia]|].
    pose proof (open_row_loop fuel a r0 w1 Ho) as Ho'.
    destruct (loop fuel _ _ _ _ _ a r0 w1). by right.
Qed.

Lemma iteration_slept attempt rl w :
  0 ≤ attempt → 0 ≤ rl →
  let '(c, w') := iter attempt rl w in
  slept w w' ∧ match c with None => True | Some (a, r0) => 0 ≤ a ∧ 0 ≤ r0 end.
Proof.
  intros Ha Hr. unfold recipient_iteration. run_st.
  pose proof (process_recipient_spec ctx event opts r atts ccbcc w) as Href.
  destruct (process_recipient _ _ _ _ _ _ w) as [o w1]. destruct Href as [[_ Hs] _].
  set (s := recipient_step _ _ _ _ o).
  assert (Hcont : ∀ a, s = Continue a → 0 ≤ a).
  { intros a Hstep. destruct (step_continue _ _ _ _ _ _ Hstep) as [n ->].
    assert (as_u32 n = a) as <- by (unfold s in Hstep; simpl in Hstep; congruence).
    unfold as_u32. pose proof (Z.mod_pos_bound n (2 ^ 32)). lia. }
  assert (Hback : ∀ a r0 d m x, s = Backoff a r0 d m x → backoff_ok cfg attempt rl a r0 d).
  { intros a r0 d m x Hstep. destruct o as [| | | |e|]; try done. by eapply failed_backoff_ok. }
  assert (Hd : slept w (act_on_step (ne_event_id event) (Some (r_email r)) attempt rl s w1).2).
  { etransitivity; [by apply slept_quiet|]. apply act_on_step_slept. intros a r0 d m x Hstep.
    destruct (Hback _ _ _ _ _ Hstep) as [(_ & _ & _ & Hd)|(-> & _ & _ & ->)];
      [by apply rl_delay_bounds|apply retry_delay_bounds; lia]. }
  assert (Hc : match (act_on_step (ne_event_id event) (Some (r_email r)) attempt rl s w1).1 with
               | None => True | Some (a, r0) => 0 ≤ a ∧ 0 ≤ r0 end).
  { clearbody s. destruct s as [|a|msg|a r0 d msg smsg|err]; simpl; try done.
    - split; [by apply Hcont|done].
    - run_st. by destruct (note_failure _ _ _ _ w1).
    - unfold sleep_or_shutdown, next_tick. run_st. destruct (note_failure _ _ msg _ w1) as [u w2].
      destruct (sleep_completes (w_tick w2)); simpl.
      + destruct (Hback _ _ _ _ _ eq_refl) as [(-> & -> & _)|(-> & _ & -> & _)]; lia.
      + run_st. by destruct (note_failure _ _ smsg _ _). }
  by destruct (act_on_step _ _ _ _ _ w1).
Qed.

Lemma loop_slept fuel attempt rl w :
  0 ≤ attempt → 0 ≤ rl → slept w (loop fuel event opts r atts ccbcc attempt rl w).2.
Proof.
  revert attempt rl w. induction fuel as [|fuel IH]; intros attempt rl w Ha Hr; [done|].
  cbn [recipient_loop]. run_st. pose proof (iteration_slept attempt rl w Ha Hr) as Hit.
  destruct (iter attempt rl w) as [[[a r0]|] w1]; destruct Hit as [Hs Hc]; [|done].
  etransitivity; [exact Hs|destruct Hc; by apply IH].
Qed.

End one_recipient.

(** C24: a recipient's loop returns within [(max_retries + 1) * (max_rl_waits + 1)]
    turns, whatever fails around it, unless the recipient has a row in the log
    that is neither SENT nor BLOCKED.  It never sleeps more than 30 minutes at
    a time. *)
Theorem retry_loop_returns event opts r atts ccbcc fuel w :
  0 ≤ cc_max_retries cfg → 0 ≤ cc_max_rl_waits cfg → 0 ≤ cc_retry_base_ms cfg ≤ u64_max →
  (cc_max_retries cfg + 1) * (cc_max_rl_waits cfg + 1) ≤ Z.of_nat fuel →
  let '(res, w') := process_one_recipient ctx cfg fuel event opts r atts ccbcc w in
  slept w w' ∧ (res = Some tt ∨ open_row (cells w') (ne_event_id event, r_email r)).
Proof.
  intros Hm Hw Hb Hf.
  pose proof (loop_returns event opts r atts ccbcc Hb fuel 0 0 w) as Hret.
  pose proof (loop_slept event opts r atts ccbcc Hb fuel 0 0 w) as Hsl.
  unfold process_one_recipient. destruct (recipient_loop _ _ _ _ _ _ _ _ 0 0 w) as [res w'].
  split; [by apply Hsl|]. apply Hret; [unfold counters_ok; lia|unfold budget; nia].
Qed.

(** ** The duplicate turn *)

Definition live_row (m : gmap Key Cell) (k : Key) : Prop :=
  ∃ c st, m !! k = Some c ∧ status_try_from (c_status c) = Ok st
          ∧ st ≠ NotificationStatus.Sent ∧ st ≠ NotificationStatus.Blocked.

(** In the worlds of [Inv], everything an attempt needs up to the insert works,
    and leads to a world of [Inv]. *)
Definition attempt_reaches_insert (Inv : World → Prop) (event : NotificationEvent)
    (opts : EmailOptions) (r : Recipient) (ccbcc : EffectiveCcBcc) : Prop :=
  is_valid_email (r_email r) = true
  ∧ (∀ w, Inv w → is_ok (prepare event opts ccbcc w).1 = true
                  ∧ Inv (prepare event opts ccbcc w).2)
  ∧ ∀ a w, Inv w → arg_key a = (ne_event_id event, r_email r) →
           is_ok (insert_pending a w).1 = true ∧ Inv (insert_pending a w).2.

Lemma live_row_iteration Inv event opts r atts ccbcc attempt rl w :
  attempt_reaches_insert Inv event opts r ccbcc → Inv w →
  live_row (cells w) (ne_event_id event, r_email r) →
  ∃ a w', recipient_iteration ctx cfg event opts r atts ccbcc attempt rl w = (Some (a, rl), w')
    ∧ cells w' = cells w ∧ quiet w w' ∧ Inv w'.
Proof.
  intros (Hv & Hp & Hi) Hw (c & st & Hk & Hst & Hns & Hnb).
  unfold recipient_iteration, process_recipient. rewrite Hv. run_st.
  destruct (Hp w Hw) as [Hok Hinv]. pose proof (prepare_aside event opts ccbcc w) as Ha.
  destruct (prepare event opts ccbcc w) as [[p|] w1]; [|done]. simpl in Ha, Hinv.
  pose proof (aside_cells _ _ Ha) as Hc1. destruct Ha as [Hq1 _].
  destruct (Hi (recipient_args event opts r (pr_fields p)) w1 Hinv eq_refl) as [Hok2 Hinv2].
  destruct (insert_pending _ w1) as [ins w2] eqn:Hins. simpl in Hok2, Hinv2.
  apply insert_pending_law in Hins as [Hq2 Hpost]. destruct ins as [x|]; [|done].
  rewrite Hc1 in Hpost. unfold insert_cell, arg_key in Hpost. simpl in Hpost.
  rewrite Hk in Hpost. injection Hpost as <- Hc2.
  assert (Hdup : duplicate_outcome (c_retry_count c) (c_status c)
                 = RecipientOutcome.Duplicate (c_retry_count c)).
  { unfold duplicate_outcome. rewrite Hst. by destruct st. }
  run_st. rewrite Hdup. simpl. exists (as_u32 (c_retry_count c)), w2.
  split_and!; [done|by rewrite Hc2|by etransitivity|done].
Qed.

Lemma live_row_loops Inv event opts r atts ccbcc fuel attempt rl w :
  attempt_reaches_insert Inv event opts r ccbcc → Inv w →
  live_row (cells w) (ne_event_id event, r_email r) →
  ∃ w', recipient_loop ctx cfg fuel event opts r atts ccbcc attempt rl w = (None, w')
    ∧ cells w' = cells w ∧ quiet w w'.
Proof.
  intros Hreach. revert attempt w. induction fuel as [|fuel IH]; intros attempt w Hw Hlive.
  - exists w. by split_and!.
  - cbn [recipient_loop]. run_st.
    destruct (live_row_iteration Inv event opts r atts ccbcc attempt rl w Hreach Hw Hlive)
      as (a & w1 & -> & Hc & Hq & Hw1).
    destruct (IH a w1) as (w' & -> & Hc' & Hq'); [done|by rewrite Hc|].
    exists w'. split_and!; [done|congruence|by etransitivity].
Qed.

(** Once a row exists that is neither SENT nor BLOCKED (a redelivery after a
    crash, a manual retry, a group fallback), the recipient's loop never
    returns, sends nothing, never sleeps and changes no row, for as long as the
    database answers. *)
Theorem duplicate_livelock Inv event opts r atts ccbcc fuel w :
  attempt_reaches_insert Inv event opts r ccbcc → Inv w →
  live_row (cells w) (ne_event_id event, r_email r) →
  ∃ w', process_one_recipient ctx cfg fuel event opts r atts ccbcc w = (None, w')
    ∧ cells w' = cells w ∧ quiet w w'.
Proof. apply live_row_loops. Qed.

Lemma live_pending m k c : m !! k = Some c → c_status c = "PENDING" → live_row m k.
Proof. intros Hk Hs. exists c, NotificationStatus.Pending. rewrite Hs. by split_and!. Qed.

(** A turn on a fresh key that goes on leaves the row PENDING. *)
Lemma fresh_iteration_live event opts r atts ccbcc attempt rl w a r0 w1 :
  let k := (ne_event_id event, r_email r) in
  cells w !! k = None →
  recipient_iteration ctx cfg event opts r atts ccbcc attempt rl w = (Some (a, r0), w1) →
  cells w1 !! k = None ∨ live_row (cells w1) k.
Proof.
  cbv zeta. intros Hk. unfold recipient_iteration. run_st.
  pose proof (process_recipient_spec ctx event opts r atts ccbcc w) as Href.
  destruct (process_recipient _ _ _ _ _ _ w) as [o w2]. destruct Href as (_ & msgs & _ & Hspec).
  destruct (recipient_step _ _ _ _ o) as [|a'|msg|a' r' d msg smsg|e] eqn:Hstep; simpl.
  - done.
  - apply step_continue in Hstep as [n ->]. inversion Hspec. congruence.
  - run_st. by destruct (note_failure _ _ _ _ w2).
  - assert (Hrow : cells w2 !! (ne_event_id event, r_email r) = None
                   ∨ cells w2 !! (ne_event_id event, r_email r) = Some fresh_cell).
    { destruct Hspec; simpl in Hstep; try done; rewrite ?lookup_insert_eq; auto. }
    unfold sleep_or_shutdown, next_tick. run_st.
    pose proof (note_failure_cells (ne_event_id event) (r_email r) msg false w2) as Hpost.
    destruct (note_failure _ _ msg false w2) as [x w3]. simpl in Hpost.
    assert (Hrow3 : cells w3 !! (ne_event_id event, r_email r) = None
                    ∨ live_row (cells w3) (ne_event_id event, r_email r)).
    { destruct Hpost as [E|E]; rewrite E.
      - rewrite lookup_alter_eq. destruct Hrow as [->| Hf]; [by left|right].
        apply (live_pending _ _ (failed_cell msg false fresh_cell)); [|done].
        by rewrite lookup_alter_eq, Hf.
      - destruct Hrow as [->| Hf]; [by left|right]. by apply (live_pending _ _ fresh_cell). }
    destruct (sleep_completes (w_tick w3)).
    + intros [= _ _ <-].
      set (w4 := log_sleep _ _).
      assert (E : cells w4 = cells w3) by (by apply cells_same_log). by rewrite E.
    + run_st. by destruct (note_failure _ _ smsg true _).
  - done.
Qed.

(** A transient failure of the first send is not retried: once the first
    turn has inserted the row and backed off, every further turn is the
    duplicate turn, so no second message is ever handed over. *)
Theorem transient_failure_not_retried Inv event opts r atts ccbcc fuel w a r0 w1 :
  attempt_reaches_insert Inv event opts r ccbcc → Inv w1 →
  cells w !! (ne_event_id event, r_email r) = None →
  recipient_iteration ctx cfg event opts r atts ccbcc 0 0 w = (Some (a, r0), w1) →
  is_Some (cells w1 !! (ne_event_id event, r_email r)) →
  ∃ w', process_one_recipient ctx cfg (S fuel) event opts r atts ccbcc w = (None, w')
    ∧ w_sends w' = w_sends w1 ∧ cells w' = cells w1.
Proof.
  intros Hreach Hw1 Hk Hit [c Hc]. unfold process_one_recipient. cbn [recipient_loop]. run_st.
  rewrite Hit. destruct (fresh_iteration_live _ _ _ _ _ _ _ _ _ _ _ Hk Hit) as [|Hlive]; [congruence|].
  destruct (live_row_loops Inv event opts r atts ccbcc fuel a r0 w1 Hreach Hw1 Hlive)
    as (w' & -> & Hcw & Hq).
  exists w'. split_and!; [done|apply Hq|done].
Qed.

End loops.

(** ** Concrete loops *)

#[local] Existing Instance sample_env.

Definition solo_opts : EmailOptions :=
  sample_opts SendMode.Individual GroupRetryMode.Whole [rcp "a@example.com"].
Definition solo_event : NotificationEvent := sample_event solo_opts.

(** A database that has gone away. *)
Definition no_database : Env :=
  vary (λ _, Some "connection refused") (λ _, false) smtp_accepts (confirms ConfirmNotRequested).

(** A mail server that answers 4xx. *)
Definition greylisted : Env :=
  vary db_up cache_kept
    (λ _ _ _, Some (mkSmtpError false true false false false "451 try again later"))
    (confirms ConfirmNotRequested).

Definition run_loop (env : Env) (fuel : nat) (w : World) : option unit * World :=
  process_one_recipient (H := env) (H3 := EmailNotificationStore (H := env))
    (H4 := TemplateStore (H := env)) (H5 := BlockListStore (H := env))
    sample_ctx consumer_config_default fuel solo_event solo_opts (rcp "a@example.com") []
    no_copies w.

(** Three back-offs, then the give-up. *)
Example outage_backs_off :
  let '(r, w) := run_loop no_database 24 sample_world in
  (r, w_slept w) = (Some tt, [2000; 4000; 8000]).
Proof. vm_compute. reflexivity. Qed.

(** One send, one back-off, and no end. *)
Example greylisting_stalls :
  let '(r, w) := run_loop greylisted 24 sample_world in
  (r, length (w_sends w), w_slept w, row_states w)
  = (None, 1%nat, [2000], [("a@example.com", "PENDING")]).
Proof. vm_compute. reflexivity. Qed.

Lemma backoff_bounds_witness :
  let o := RecipientOutcome.Failed (AppError.Database "x") in
  let cfg := consumer_config_default in
  ((∃ m s, recipient_step cfg RetryPolicy.Retry 0 0 o = Backoff 1 0 2000 m s)
   ↔ backs_off cfg RetryPolicy.Retry 0 0 o 1 0 2000)
  ∧ ((∃ m s, group_step cfg RetryPolicy.Retry 0 0 o = Backoff 1 0 2000 m s)
     ↔ backs_off cfg RetryPolicy.Retry 0 0 o 1 0 2000)
  ∧ (backs_off cfg RetryPolicy.Retry 0 0 o 1 0 2000 → 0 ≤ 2000 ≤ 30 * 60 * 1000).
Proof.
  apply (backoff_bounds consumer_config_default RetryPolicy.Retry 0 0
    (RecipientOutcome.Failed (AppError.Database "x")) 1 0 2000);
    [lia|lia|vm_compute; split; congruence].
Defined.

(** A rate limit and another failure at the same counters. *)
Example two_backoffs :
  map (λ e, recipient_step consumer_config_default RetryPolicy.Retry 1 1 (RecipientOutcome.Failed e))
    [AppError.RateLimited "slow down"; AppError.Database "x"]
  = [Backoff 1 2 120000 "slow down" RL_SHUTDOWN; Backoff 2 0 4000 "database error: x" RETRY_SHUTDOWN].
Proof. vm_compute. reflexivity. Qed.

Lemma retry_loop_returns_witness :
  let '(res, w') := run_loop no_database 24 sample_world in
  slept sample_world w'
  ∧ (res = Some tt ∨ open_row (email_cells w') (ne_event_id solo_event, "a@example.com")).
Proof.
  pose proof (retry_loop_returns (H := no_database)
    (H3 := EmailNotificationStore (H := no_database)) (H5 := TemplateStore (H := no_database))
    (H7 := BlockListStore (H := no_database)) sample_ctx consumer_config_default
    solo_event solo_opts (rcp "a@example.com") [] no_copies 24 sample_world) as H.
  apply H; vm_compute; (congruence || by split).
Defined.

(** With the sample template and a row for the recipient in the tables, an
    attempt gets as far as the insert, and leaves the tables as they were. *)
Lemma greylisted_reaches_insert (d : Db) (row : LogRow) :
  db_templates d = db_templates (w_db sample_world) →
  List.find (key_matches 7 CHANNEL_EMAIL "a@example.com") (db_log d) = Some row →
  attempt_reaches_insert (H := greylisted) (H3 := EmailNotificationStore (H := greylisted))
    (H5 := TemplateStore (H := greylisted))
    (λ w, w_db w = d) solo_event solo_opts (rcp "a@example.com") no_copies.
Proof.
  intros Ht Hrow. split_and!; [by vm_compute| |].
  - intros w Hw. unfold prepare, resolve_template, TemplateStore, resolve, tpl_cache_get, next_tick.
    run_st. simpl. destruct (w_tpl_cache w !! _) as [tpl|]; [by vm_compute|].
    unfold query, next_tick. run_st. simpl. unfold find_active. rewrite Hw, Ht. by vm_compute.
  - intros a w Hw [= Hid Hr]. cbn. unfold email_insert_pending, transaction, query, next_tick. run_st.
    unfold insert_row_pair, query, next_tick. run_st. unfold sql_insert_log. rewrite Hw, Hid, Hr.
    cbn. rewrite Hrow. by cbn.
Qed.

Lemma duplicate_livelock_witness :
  ∃ w', run_loop greylisted 50 pending_world = (None, w')
    ∧ email_cells w' = email_cells pending_world ∧ quiet pending_world w'.
Proof.
  pose proof (duplicate_livelock (H := greylisted)
    (H3 := EmailNotificationStore (H := greylisted)) (H5 := TemplateStore (H := greylisted))
    (H7 := BlockListStore (H := greylisted)) sample_ctx consumer_config_default
    (λ w, w_db w = w_db pending_world)
    solo_event solo_opts (rcp "a@example.com") [] no_copies 50 pending_world) as H.
  apply H.
  - eapply greylisted_reaches_insert; vm_compute; reflexivity.
  - reflexivity.
  - exists fresh_cell, NotificationStatus.Pending. split_and!; [vm_compute; reflexivity..|done|done].
Defined.

(** The world after the first, greylisted, attempt. *)
Definition backed_off_world : World :=
  (recipient_iteration (H := greylisted) (H3 := EmailNotificationStore (H := greylisted))
     (H4 := TemplateStore (H := greylisted)) (H5 := BlockListStore (H := greylisted))
     sample_ctx consumer_config_default solo_event solo_opts (rcp "a@example.com") [] no_copies
     0 0 sample_world).2.

Lemma transient_failure_not_retried_witness :
  ∃ w', run_loop greylisted 50 sample_world = (None, w')
    ∧ w_sends w' = w_sends backed_off_world ∧ email_cells w' = email_cells backed_off_world.
Proof.
  pose proof (transient_failure_not_retried (H := greylisted)
    (H3 := EmailNotificationStore (H := greylisted)) (H5 := TemplateStore (H := greylisted))
    (H7 := BlockListStore (H := greylisted)) sample_ctx consumer_config_default
    (λ w, w_db w = w_db backed_off_world)
    solo_event solo_opts (rcp "a@example.com") [] no_copies 49 sample_world 1 0 backed_off_world) as H.
  apply H.
  - eapply greylisted_reaches_insert; vm_compute; reflexivity.
  - reflexivity.
  - vm_compute. reflexivity.
  - vm_compute. reflexivity.
  - vm_compute. by eexists.
Defined.

(** A redelivery that fails before the insert overwrites a row that is already
    SENT, since [mark_failed] does not look at the status. *)
Theorem sent_row_overwritten :
  let w1 := (run_loop sample_env 4 sample_world).2 in
  let w2 := set_tpl_cache ∅ (set_db (set_templates (λ _, []) (w_db w1)) w1) in
  row_states w1 = [("a@example.com", "SENT")]
  ∧ row_states (run_loop sample_env 4 w2).2 = [("a@example.com", "FAILED")].
Proof. vm_compute. by split. Qed.
