(* ===== verification/Loops.v ===== *)
(** * Relations kept by the loops

    A relation between worlds that attempts, row updates, sleeps and reads
    keep is kept by every loop, schedule and dispatch built from them. *)

From S2P Require Import Prelude Json AppErr EmailValidation Event World Interfaces Filter.
From S2P Require Import Mailer Fetcher Processor Delivery.

Section loops.
Context `{Env}.
Context `{Serialize Recipient, Serialize FromOverride, Serialize AttachmentRef}.
Context `{!NotificationStore, !TemplateResolver, !BlockListChecker}.
Context (ctx : ProcessorContext) (cfg : ConsumerConfig).
Context (R : relation World) `{!PreOrder R}.
(** The recipients whose attempts keep it. *)
Context (served : NotificationEvent → EmailOptions → Recipient → Prop).
Context (process_recipient_R : ∀ event opts r atts ccbcc,
           served event opts r → keeps R (process_recipient ctx event opts r atts ccbcc)).
Context (mark_failed_R : ∀ e rid msg ex, keeps R (mark_failed e rid msg ex)).
Context (get_row_R : ∀ e rid, keeps R (get_by_event_and_recipient e rid)).
Context (sleep_R : ∀ ms, keeps R (sleep_or_shutdown ms)).

Lemma keeps_then_ret {A B} (m : M A) (f : A → B) :
  keeps R m → keeps R (let! a := m in st_ret (f a)).
Proof. intros Hm. apply keeps_bind; [apply _|done|]. intros. apply keeps_ret, _. Qed.

Lemma note_failure_keeps e rid msg ex : keeps R (note_failure e rid msg ex).
Proof. destruct rid; [apply keeps_then_ret, mark_failed_R|apply keeps_ret, _]. Qed.

Lemma act_on_step_keeps e rid attempt rl s : keeps R (act_on_step e rid attempt rl s).
Proof.
  destruct s as [|a|msg|a r d msg smsg|err]; simpl; try (by apply keeps_ret, _).
  - apply keeps_then_ret, note_failure_keeps.
  - apply keeps_bind; [apply _|apply note_failure_keeps|]. intros _.
    apply keeps_bind; [apply _|apply sleep_R|]. intros [|]; [apply keeps_ret, _|].
    apply keeps_then_ret, note_failure_keeps.
Qed.

Lemma recipient_iteration_keeps event opts r atts ccbcc attempt rl :
  served event opts r → keeps R (recipient_iteration ctx cfg event opts r atts ccbcc attempt rl).
Proof.
  intros Hr. apply keeps_bind; [apply _|by apply process_recipient_R|]. intros o. apply act_on_step_keeps.
Qed.

Lemma elem_of_updated {A} (l : list A) i x y : y ∈ <[i := x]> l → y ∈ l ∨ y = x.
Proof.
  intros [j Hj]%list_elem_of_lookup. apply list_lookup_insert_Some in Hj as [(_ & <- & _)|[_ Hj]]; [by right|].
  left. by eapply list_elem_of_lookup_2.
Qed.

Lemma run_schedule_keeps sched event opts atts ccbcc tasks :
  (∀ t, t ∈ tasks → served event opts t.1) →
  keeps R (run_schedule ctx cfg sched event opts atts ccbcc tasks).
Proof.
  revert tasks. induction sched as [|i sched IH]; intros tasks Hall; simpl; [apply keeps_ret, _|].
  destruct (tasks !! i) as [[r c]|] eqn:Hi; [|by apply IH].
  apply list_elem_of_lookup_2, Hall in Hi. simpl in Hi.
  assert (Hrest : ∀ c', keeps R (run_schedule ctx cfg sched event opts atts ccbcc (<[i := (r, c')]> tasks))).
  { intros c'. apply IH. by intros t [Ht| ->]%elem_of_updated; [apply Hall|]. }
  destruct c as [[attempt rl]|]; simpl.
  - intros w. run_st. pose proof (recipient_iteration_keeps event opts r atts ccbcc attempt rl Hi w) as Hit.
    destruct (recipient_iteration _ _ _ _ _ _ _ _ _ w) as [c w1]. etransitivity; [exact Hit|apply Hrest].
  - intros w. apply Hrest.
Qed.

Lemma spawn_and_join_keeps sched event opts atts ccbcc rs :
  (∀ r, r ∈ rs → served event opts r) →
  keeps R (spawn_and_join ctx cfg sched event opts atts ccbcc rs).
Proof.
  intros Hrs. apply keeps_bind; [apply _|apply run_schedule_keeps|intros; apply keeps_ret, _].
  intros t (r & -> & Hr)%list_elem_of_fmap. by apply Hrs.
Qed.

Lemma already_terminal_keeps e rs : keeps R (already_terminal e rs).
Proof.
  induction rs as [|r rs IH]; simpl; [apply keeps_ret, _|].
  apply keeps_bind; [apply _|apply get_row_R|]. intros log. apply keeps_then_ret, IH.
Qed.

(** A group's attempts keep it, and so do the individual sends that follow one
    that failed after inserting every row. *)
Definition group_keeps (event : NotificationEvent) (opts : EmailOptions) : Prop :=
  ∀ atts ccbcc max, keeps R (process_group ctx event opts atts ccbcc max)
    ∧ ∀ sched w e w', process_group ctx event opts atts ccbcc max w
                        = (RecipientOutcome.GroupFailedWithIndividualRows e, w') →
        R w' (fallback_to_individual_sends ctx cfg sched event opts atts ccbcc w').2.

Lemma fallback_keeps sched event opts atts ccbcc :
  (∀ r, r ∈ eo_recipients opts → served event opts r) →
  keeps R (fallback_to_individual_sends ctx cfg sched event opts atts ccbcc).
Proof.
  intros Hrs. apply keeps_bind; [apply _|apply already_terminal_keeps|]. intros terminal.
  apply spawn_and_join_keeps. intros r [_ Hr]%list_elem_of_filter. by apply Hrs.
Qed.

Lemma group_loop_keeps fuel sched event opts atts ccbcc attempt rl :
  group_keeps event opts → keeps R (group_loop ctx cfg fuel sched event opts atts ccbcc attempt rl).
Proof.
  intros Hgroup. revert attempt rl. induction fuel as [|fuel IH]; intros attempt rl; [apply keeps_ret, _|].
  cbn [group_loop]. intros w. unfold st_bind at 1.
  destruct (Hgroup atts ccbcc (cc_max_recipients_per_event cfg)) as [Hg Hfall]. specialize (Hg w).
  destruct (process_group _ _ _ _ _ _ w) as [o w1] eqn:Ho. simpl in Hg. etransitivity; [exact Hg|].
  assert (Hact : ∀ s, keeps R (
    let! c := act_on_step (ne_event_id event) (primary_email opts) attempt rl s in
    match c with
    | None => st_ret (Some tt)
    | Some (attempt, rl_count) => group_loop ctx cfg fuel sched event opts atts ccbcc attempt rl_count
    end)).
  { intros s. apply keeps_bind; [apply _|apply act_on_step_keeps|].
    intros [[a r]|]; [apply IH|apply keeps_ret, _]. }
  destruct (group_step _ _ _ _ o) eqn:Hstep; try exact (Hact _ w1).
  rewrite group_step_eq in Hstep. destruct o; try by apply step_no_fallback in Hstep.
  by eapply Hfall.
Qed.

Lemma dispatch_keeps fuel sched event opts atts ccbcc :
  (eo_send_mode opts = SendMode.Individual → ∀ r, r ∈ eo_recipients opts → served event opts r) →
  (eo_send_mode opts = SendMode.Group → group_keeps event opts) →
  keeps R (dispatch ctx cfg fuel sched event opts atts ccbcc).
Proof.
  intros Hone Hgroup. unfold dispatch. destruct (eo_send_mode opts); [by apply spawn_and_join_keeps, Hone|].
  apply keeps_bind; [apply _| |intros; by apply group_loop_keeps, Hgroup]. unfold probe_retry.
  destruct (eo_group_retry_mode opts), (eo_recipients opts); try apply keeps_ret, _.
  apply keeps_then_ret, get_row_R.
Qed.

Context (block_check_R : ∀ email, keeps R (block_list_check email)).

Lemma filter_cc_bcc_keeps opts : keeps R (filter_cc_bcc ctx opts).
Proof.
  assert (Hone : ∀ r, keeps R (cc_bcc_allowed ctx r)).
  { intros r. unfold cc_bcc_allowed. destruct (negb _); [apply keeps_ret, _|].
    assert (Hb : keeps R (let! b := block_list_check (r_email r) in
      st_ret (match b with Ok _ => true | Err (AppError.Blocked _) => false | Err _ => true end))).
    { apply keeps_bind; [apply _|apply block_check_R|]. intros. apply keeps_ret, _. }
    destruct (filter_check _ _) as [|[]]; first [done|apply keeps_ret, _]. }
  apply keeps_bind; [apply _|by apply keeps_filter|]. intros cc.
  apply keeps_bind; [apply _|by apply keeps_filter|]. intros bcc. apply keeps_ret, _.
Qed.

Context (insert_pending_R : ∀ a, keeps R (insert_pending a)).

Lemma sentinel_keeps event opts reason : keeps R (insert_sentinel_failed_row event opts reason).
Proof.
  unfold insert_sentinel_failed_row. destruct (eo_recipients opts) as [|p rest]; [apply keeps_ret, _|].
  apply keeps_bind; [apply _|apply insert_pending_R|].
  assert (Hm : keeps R (mark_failed (ne_event_id event) (r_email p) reason true ;;! st_ret tt))
    by apply keeps_then_ret, mark_failed_R.
  intros [[|n st]|e]; [done| |apply keeps_ret, _].
  destruct (status_try_from st) as [[]|]; first [done|apply keeps_ret, _].
Qed.
End loops.
