(* ===== verification/AtMostOnce.v ===== *)
(** * At most one message per recipient of an event

    Through every turn of a retry loop, every delivery and every operation of
    the store, a message is handed to a transport only under a key that had no
    row before, and rows never disappear; so no sequence of them hands over two
    messages with the same event and first To: address.  While an event's id
    stands for one content, no address is in the To: header of two messages of
    the event: a message of an individual-mode event has one To: address, and a
    group event has one primary recipient and so one message. *)

From S2P Require Import Prelude Json AppErr EmailValidation Event World Interfaces Filter.
From S2P Require Import LogStore LogInvariant BlockList TemplateStore Mailer Fetcher.
From S2P Require Import Processor ProcessorSpec GroupSpec Delivery Loops.

(** The row a message belongs to: its event and its first To: address. *)
Definition message_key (r : SendRecord) : Key :=
  (em_event_id (sr_message r), em_to_email (sr_message r)).

(** Every address of its To: header. *)
Definition addressees (r : SendRecord) : list string :=
  em_to_email (sr_message r) :: map mb_email (em_to_extra (sr_message r)).

(** It is a message of one of the [handled] events: to one recipient in
    individual mode, and in group mode to the primary and others. *)
Definition belongs (handled : NotificationEvent → Prop) (r : SendRecord) : Prop :=
  ∃ event opts, handled event ∧ em_event_id (sr_message r) = ne_event_id event
    ∧ co_email (ne_channel_overrides event) = Some opts
    ∧ match eo_send_mode opts with
      | SendMode.Individual => em_to_extra (sr_message r) = []
      | SendMode.Group => primary_email opts = Some (em_to_email (sr_message r))
      end.

Section once.
Context `{Env}.
Context `{Serialize Recipient, Serialize FromOverride, Serialize AttachmentRef}.
Context `{!NotificationStore, !NotificationStoreLaws}.
Context `{!TemplateResolver, !TemplateResolverLaws, !BlockListChecker, !BlockListCheckerLaws}.
Context `{!EventCodec}.
Context (ctx : ProcessorContext) (cfg : ConsumerConfig).

Definition rows_kept (w w' : World) : Prop := ∀ k, is_Some (cells w !! k) → is_Some (cells w' !! k).

Section relation.
(** What the messages satisfy. *)
Context (P : SendRecord → Prop).

(** The messages handed over between two worlds belong to distinct rows, all
    of them inserted in between. *)
Definition once (w w' : World) : Prop :=
  rows_kept w w'
  ∧ ∃ msgs, w_sends w' = w_sends w ++ msgs ∧ NoDup (map message_key msgs)
            ∧ ∀ r, r ∈ msgs → P r ∧ cells w !! message_key r = None ∧ is_Some (cells w' !! message_key r).

#[export] Instance once_preorder : PreOrder once.
Proof.
  split.
  - intros w. split; [by intros k|]. exists []. rewrite app_nil_r. split_and!; [done|constructor|set_solver].
  - intros w1 w2 w3 (K1 & m1 & S1 & N1 & A1) (K2 & m2 & S2 & N2 & A2).
    split; [intros k ?; by apply K2, K1|]. exists (m1 ++ m2).
    split_and!; [by rewrite S2, S1, app_assoc| |].
    + rewrite map_app. apply NoDup_app. split_and!; [done| |done].
      intros k (r1 & -> & Hr1)%list_elem_of_fmap (r2 & Hk & Hr2)%list_elem_of_fmap.
      destruct (A1 _ Hr1) as (_ & _ & c & Hc). destruct (A2 _ Hr2) as (_ & Hn & _). congruence.
    + intros r [Hr|Hr]%elem_of_app.
      * destruct (A1 _ Hr) as (? & ? & ?). split_and!; [done..|by apply K2].
      * destruct (A2 _ Hr) as (? & Hn & ?). split_and!; [done| |done].
        apply eq_None_not_Some. intros Hs%K1. rewrite Hn in Hs. by destruct Hs.
Qed.

(** ** Code that mails nothing *)

Lemma once_quiet w w' : w_sends w' = w_sends w → rows_kept w w' → once w w'.
Proof.
  intros Hs Hk. split; [done|]. exists []. rewrite app_nil_r. split_and!; [done|constructor|set_solver].
Qed.

Lemma once_same_cells w w' : w_sends w' = w_sends w → cells w' = cells w → once w w'.
Proof. intros Hs Hc. apply once_quiet; [done|]. intros k. by rewrite Hc. Qed.

Lemma aside_once w w' : aside w w' → once w w'.
Proof. intros [(? & _) ?]. apply once_same_cells; [done|by apply cells_same_log]. Qed.

Lemma untouched_once w w' : untouched w w' → once w w'.
Proof.
  intros (? & _ & Hd). apply once_same_cells; [done|]. apply cells_same_log.
  unfold same_log. by rewrite Hd.
Qed.

Lemma update_once k f r w w' : quiet w w' → update_post k f (cells w) r (cells w') → once w w'.
Proof.
  intros (? & _) Hpost. apply once_quiet; [done|]. intros k'. by eapply update_post_mono.
Qed.

Lemma tick_once : keeps once next_tick.
Proof. intros w. apply untouched_once. by split_and!. Qed.

Lemma frame_once f : keeps once (st_modify (log_frame f)).
Proof. intros w. apply once_same_cells; [done|by apply cells_same_log]. Qed.

Lemma mark_failed_once e rid msg ex : keeps once (mark_failed e rid msg ex).
Proof.
  intros w. destruct (mark_failed e rid msg ex w) as [r w'] eqn:Hm.
  apply mark_failed_law in Hm as [? ?]. by eapply update_once.
Qed.

Lemma sleep_once ms : keeps once (sleep_or_shutdown ms).
Proof.
  intros w. unfold sleep_or_shutdown, next_tick. run_st.
  apply once_same_cells; [done|by apply cells_same_log].
Qed.

(** ** Attempts *)

(** An attempt at a recipient, whose messages are as required. *)
Lemma process_recipient_once event opts r atts ccbcc :
  (∀ m, message_key m = (ne_event_id event, r_email r) → em_to_extra (sr_message m) = [] → P m) →
  keeps once (process_recipient ctx event opts r atts ccbcc).
Proof.
  intros HP w. pose proof (process_recipient_spec ctx event opts r atts ccbcc w) as Href.
  destruct (process_recipient _ _ _ _ _ _ w) as [o w']. destruct Href as (_ & msgs & Hs & Hspec). simpl.
  split.
  - intros k Hk. destruct (decide (k = (ne_event_id event, r_email r))) as [->|Hne].
    + destruct (attempt_spec_present _ _ _ _ _ Hspec Hk) as [-> _]. done.
    + by rewrite (attempt_spec_frame _ _ _ _ _ _ Hspec Hne).
  - exists msgs. destruct (attempt_spec_once _ _ _ _ _ Hspec) as [->|(Hn & Hp & m & -> & Hk & Hx)].
    + split_and!; [done|constructor|set_solver].
    + split_and!; [done|by apply NoDup_singleton|]. intros x ->%list_elem_of_singleton.
      split; [by apply HP|]. unfold message_key. by rewrite Hk.
Qed.

(** ... and at a group. *)
Lemma process_group_once event opts atts ccbcc max :
  (∀ m, em_event_id (sr_message m) = ne_event_id event →
        primary_email opts = Some (em_to_email (sr_message m)) → P m) →
  keeps once (process_group ctx event opts atts ccbcc max).
Proof.
  intros HP w. pose proof (process_group_spec ctx event opts atts ccbcc max w) as Hg.
  destruct (process_group _ _ _ _ _ _ w) as [o w']. simpl.
  destruct Hg as (_ & [_ Hk] & [[Hs _]|(s & msg & acc & p & rest & Hs & _ & Hrs & Hn & Hp & Hid & Hto & _)]).
  - by apply once_quiet.
  - split; [done|]. exists [mkSendRecord s msg acc]. split_and!; [done|by apply NoDup_singleton|].
    intros x ->%list_elem_of_singleton. split.
    + apply HP; simpl; [done|]. unfold primary_email. by rewrite Hrs, Hto.
    + unfold message_key. simpl. rewrite Hid, Hto. by split.
Qed.

Lemma get_row_once e rid : keeps once (get_by_event_and_recipient e rid).
Proof.
  intros w. destruct (get_by_event_and_recipient e rid w) as [r w'] eqn:Hg.
  apply get_by_event_and_recipient_law in Hg as ((? & _) & ? & _). by apply once_same_cells.
Qed.

End relation.

#[local] Hint Resolve mark_failed_once get_row_once sleep_once : keeps.

(** Nothing is handed over to recipients who have a row already. *)
Lemma known_recipients_quiet P (rs : list Recipient) event w w' :
  (∀ r, r ∈ rs → is_Some (cells w !! (ne_event_id event, r_email r))) →
  once (λ m, ∃ r, r ∈ rs ∧ message_key m = (ne_event_id event, r_email r)) w w' → once P w w'.
Proof.
  intros Hrows (Hk & msgs & Hs & _ & Hm). split; [done|]. exists []. destruct msgs as [|m msgs].
  { split_and!; [done|constructor|set_solver]. }
  destruct (Hm m) as ((r & Hr & Hkey) & Hn & _); [constructor|].
  destruct (Hrows r Hr) as [c Hc]. congruence.
Qed.

(** A group's attempts, and the individual sends after one that failed. *)
Lemma group_once P event opts :
  (∀ m, em_event_id (sr_message m) = ne_event_id event →
        primary_email opts = Some (em_to_email (sr_message m)) → P m) →
  group_keeps ctx cfg (once P) event opts.
Proof.
  intros HP atts ccbcc max. split; [by apply process_group_once|]. intros sched w e w' Hrun.
  pose proof (group_fallback_rows _ _ _ _ _ _ _ _ _ Hrun) as Hrows.
  apply (known_recipients_quiet P (eo_recipients opts) event); [exact Hrows|].
  set (Q := λ m, ∃ r, r ∈ eo_recipients opts ∧ _).
  enough (Hk : keeps (once Q) (fallback_to_individual_sends ctx cfg sched event opts atts ccbcc)) by apply Hk.
  apply (fallback_keeps ctx cfg _ (λ event' opts' r, event' = event ∧ opts' = opts ∧ r ∈ eo_recipients opts));
    [|eauto with keeps..|done].
  intros event' opts' r atts' ccbcc' (-> & -> & Hr). apply process_recipient_once. by exists r.
Qed.

(** ** Deliveries *)

Section deliveries.
Context (P : SendRecord → Prop).

Lemma insert_pending_once a : keeps (once P) (insert_pending a).
Proof.
  intros w. destruct (insert_pending a w) as [r w'] eqn:Hi. simpl.
  apply insert_pending_law in Hi as [(? & _) Hpost]. destruct r as [x|e]; [|by apply once_same_cells].
  apply once_quiet; [done|]. intros k Hk. by rewrite (insert_cell_mono _ _ _ _ _ Hpost).
Qed.

Lemma mark_skipped_once e ty rid reason ts p : keeps (once P) (mark_skipped e ty rid reason ts p).
Proof.
  intros w. destruct (mark_skipped e ty rid reason ts p w) as [r w'] eqn:Hi. simpl.
  apply mark_skipped_law in Hi as [(? & _) Hpost]. destruct r as [[]|err]; [|by apply once_same_cells].
  apply once_quiet; [done|]. intros k Hk. rewrite Hpost.
  destruct (cells w !! (e, rid)); [done|]. by apply lookup_insert_is_Some'; right.
Qed.

Lemma skip_event_once event reason : keeps (once P) (skip_event event reason).
Proof. apply keeps_bind; [apply _|apply mark_skipped_once|]. intros _. apply frame_once. Qed.

Lemma defer_delivery_once data ttl : keeps (once P) (defer_delivery cfg data ttl).
Proof.
  unfold defer_delivery, basic_publish, await_confirm.
  apply keeps_bind; [apply _| |].
  - apply keeps_bind; [apply _|apply tick_once|]. intros t. destruct (amqp_publish_err t); [apply keeps_ret, _|].
    apply keeps_bind; [apply _|apply frame_once|]. intros. apply keeps_ret, _.
  - intros [[]|e]; [|apply frame_once]. apply keeps_bind; [apply _| |].
    + apply keeps_bind; [apply _|apply tick_once|]. intros. apply keeps_ret, _.
    + intros [c|e]; [destruct (conf_is_ack c)|]; apply frame_once.
Qed.

(** The messages of an event are as required. *)
Definition all_belong (event : NotificationEvent) (opts : EmailOptions) : Prop :=
  ∀ m, em_event_id (sr_message m) = ne_event_id event →
    match eo_send_mode opts with
    | SendMode.Individual => em_to_extra (sr_message m) = []
    | SendMode.Group => primary_email opts = Some (em_to_email (sr_message m))
    end → P m.

Lemma deliver_now_once fuel sched event opts :
  all_belong event opts → keeps (once P) (deliver_now ctx cfg fuel sched event opts).
Proof.
  intros HP. unfold deliver_now. apply keeps_bind; [apply _| |].
  - unfold fetch_event_attachments. destruct (eo_attachments opts); [apply keeps_ret, _|].
    intros w. by apply untouched_once, fetch_untouched.
  - intros [atts|e]; [|apply keeps_bind; [apply _|apply frame_once|intros; apply keeps_ret, _]].
    apply keeps_bind; [apply _| |].
    { apply filter_cc_bcc_keeps; [apply _|]. intros email w. by apply aside_once, block_check_aside. }
    intros ccbcc. apply keeps_bind; [apply _| |].
    { apply (dispatch_keeps ctx cfg _ (λ event' opts' _, event' = event ∧ opts' = opts
                                                        ∧ eo_send_mode opts = SendMode.Individual));
        [|eauto with keeps..|done|].
      - intros event' opts' r atts' ccbcc' (-> & -> & Hmode). apply process_recipient_once.
        intros m Hkey Hx. apply HP; [by injection Hkey|by rewrite Hmode].
      - intros Hmode. apply group_once. intros m Hid Hto. apply HP; [done|by rewrite Hmode]. }
    intros [[]|]; [|apply keeps_ret, _].
    apply keeps_bind; [apply _|apply frame_once|]. intros. apply keeps_ret, _.
Qed.

Lemma handle_delivery_once fuel sched data :
  (∀ event opts, decode_delivery data = Ok event →
     co_email (ne_channel_overrides event) = Some opts → all_belong event opts) →
  keeps (once P) (handle_delivery ctx cfg fuel sched data).
Proof.
  intros HP. unfold handle_delivery.
  assert (Hskip : ∀ (m : M unit), keeps (once P) m → keeps (once P) (m ;;! st_ret (Some tt))).
  { intros m Hm. apply keeps_bind; [apply _|done|]. intros. apply keeps_ret, _. }
  destruct (decode_delivery data) as [event|e]; [|apply Hskip, frame_once].
  specialize (HP event). destruct (co_email _) as [opts|]; [|apply Hskip, skip_event_once].
  destruct (eo_recipients opts) eqn:Hrs; [apply Hskip, skip_event_once|].
  destruct (_ <? _)%nat.
  - apply keeps_bind; [apply _|apply sentinel_keeps; [apply _|apply mark_failed_once|apply insert_pending_once]|]. intros _. apply Hskip, frame_once.
  - apply keeps_bind; [apply _| |].
    + unfold deferred_until. destruct (eo_send_at opts); [|apply keeps_ret, _].
      apply keeps_bind; [apply _|apply tick_once|]. intros. apply keeps_ret, _.
    + intros [ttl|]; [apply Hskip, defer_delivery_once|by apply deliver_now_once, HP].
Qed.
End deliveries.
End once.

(** ** The service

    Any interleaving of deliveries, single turns of the loops (of concurrent
    deliveries), store operations of the API and the reaper, and anything that
    leaves the log and the outbound mail alone. *)

Section service.
Context `{Env}.
Context `{Serialize Recipient, Serialize FromOverride, Serialize AttachmentRef, EventCodec}.

(** The steps of a service that handles these events.  The loop of a recipient
    of a group event only runs once the group's attempt has inserted the rows. *)
Inductive service_step (handled : NotificationEvent → Prop) : World → World → Prop :=
  | step_delivery ctx cfg fuel sched data w :
      (∀ event, decode_delivery data = Ok event → handled event) →
      service_step handled w (handle_delivery ctx cfg fuel sched data w).2
  | step_recipient_turn ctx cfg event opts r atts ccbcc attempt rl w :
      handled event → co_email (ne_channel_overrides event) = Some opts →
      eo_send_mode opts = SendMode.Individual ∨ is_Some (email_cells w !! (ne_event_id event, r_email r)) →
      service_step handled w (recipient_iteration ctx cfg event opts r atts ccbcc attempt rl w).2
  | step_group_turn ctx event opts atts ccbcc max w :
      handled event → co_email (ne_channel_overrides event) = Some opts →
      eo_send_mode opts = SendMode.Group →
      service_step handled w (process_group ctx event opts atts ccbcc max w).2
  | step_store o w : service_step handled w (run_op o w)
  | step_aside w w' : aside w w' → service_step handled w w'.

Lemma log_cells_is_Some e rid rows :
  is_Some (log_cells rows !! (e, rid)) ↔
  ∃ r, r ∈ rows ∧ key_matches e CHANNEL_EMAIL rid r = true.
Proof.
  rewrite log_cells_find. split.
  - destruct (List.find _ rows) as [r|] eqn:Hf; intros [c Hc]; [|done].
    apply find_some in Hf as [? ?]. exists r. by rewrite list_elem_of_In.
  - intros (r & Hr & Hk). destruct (List.find _ rows) eqn:Hf; [by eexists|].
    exfalso. apply list_elem_of_In in Hr. by rewrite (find_none _ _ Hf _ Hr) in Hk.
Qed.

Lemma evolves_rows_kept w w' : db_evolves w w' → rows_kept w w'.
Proof.
  intros ((old & new & Hold & Hlog) & _) [e rid]. simpl. unfold email_cells.
  rewrite !log_cells_is_Some, Hlog. intros (r & [i Hi]%list_elem_of_lookup & Hk).
  destruct (Forall2_lookup_l _ _ _ _ _ Hold Hi) as (r' & Hi' & Hev). exists r'. split.
  - apply elem_of_app. left. by eapply list_elem_of_lookup_2.
  - revert Hk. pose proof (re_key _ _ Hev) as Hkey. unfold row_key in Hkey. injection Hkey as Ei Ec Er.
    unfold key_matches. by rewrite Ei, Ec, Er.
Qed.

Lemma run_op_quiet o w : quiet w (run_op o w).
Proof.
  unfold run_op.
  destruct o; match goal with |- quiet w (?m w).2 => enough (keeps quiet m) as Hk by apply Hk end;
    unfold email_insert_pending, email_insert_pending_batch, email_mark_sent, email_mark_failed,
      email_mark_blocked, email_mark_skipped, email_reset_for_retry,
      email_reset_all_failed_for_event, email_revert_to_failed, email_reap_stale_pending;
    first [ apply transaction_quiet; first [apply insert_row_pair_quiet|apply insert_batch_rows_quiet]
          | apply query_quiet
          | apply keeps_try; [apply _|apply query_quiet|]; intros n; try unfold require_row;
            repeat case_match; apply keeps_ret, _ ].
Qed.

Lemma service_step_once handled w w' : service_step handled w w' → once (belongs handled) w w'.
Proof.
  assert (Hall : ∀ event opts, handled event → co_email (ne_channel_overrides event) = Some opts →
            all_belong (belongs handled) event opts).
  { intros event opts Hev Hopts m Hid Hm. by exists event, opts. }
  destruct 1 as [ctx cfg fuel sched data w Hdec|ctx cfg event opts r atts ccbcc attempt rl w Hev Hopts Hturn
    |ctx event opts atts ccbcc max w Hev Hopts Hmode|o w|w w' Ha].
  - apply handle_delivery_once. by eauto.
  - assert (Hrec : ∀ P, (∀ m, message_key m = (ne_event_id event, r_email r) →
              em_to_extra (sr_message m) = [] → P m) →
            once P w (recipient_iteration ctx cfg event opts r atts ccbcc attempt rl w).2).
    { intros P HP.
      enough (Hk : keeps (once P) (recipient_iteration ctx cfg event opts r atts ccbcc attempt rl)) by apply Hk.
      apply (recipient_iteration_keeps ctx cfg (once P) (λ event' _ r', event' = event ∧ r' = r));
        [|apply mark_failed_once|apply sleep_once|done].
      intros event' opts' r' atts' ccbcc' [-> ->]. by apply process_recipient_once. }
    destruct Hturn as [Hmode|Hrow].
    + apply Hrec. intros m Hkey Hx. apply (Hall event opts Hev Hopts); [by injection Hkey|by rewrite Hmode].
    + apply (known_recipients_quiet _ [r] event).
      * by intros r' ->%list_elem_of_singleton.
      * apply Hrec. intros m Hkey _. exists r. split; [by constructor|done].
  - apply process_group_once. intros m Hid Hto. apply (Hall event opts Hev Hopts); [done|by rewrite Hmode].
  - apply once_quiet; [apply run_op_quiet|apply evolves_rows_kept, run_op_evolves].
  - by apply aside_once.
Qed.

(** Two messages of one content share no address. *)
Lemma belongs_apart handled s s' a :
  (∀ e e', handled e → handled e' → ne_event_id e = ne_event_id e' → e = e') →
  belongs handled s → belongs handled s' → em_event_id (sr_message s) = em_event_id (sr_message s') →
  a ∈ addressees s → a ∈ addressees s' → message_key s = message_key s'.
Proof.
  intros Hsame (e & opts & He & Hid & Hopts & Hm) (e' & opts' & He' & Hid' & Hopts' & Hm') Heq Ha Ha'.
  assert (e' = e) as -> by (apply Hsame; [done..|congruence]).
  rewrite Hopts in Hopts'. injection Hopts' as <-. unfold message_key, addressees in *.
  destruct (eo_send_mode opts); [|congruence]. rewrite Hm in Ha. rewrite Hm' in Ha'.
  apply list_elem_of_singleton in Ha as ->. apply list_elem_of_singleton in Ha' as ->. congruence.
Qed.

(** C1: however deliveries, redeliveries, retry turns, manual retries and the
    reaper interleave, and whatever fails in between, at most one message is
    ever handed over per event and first To: address, and only for an address
    that had no row before.  And when an event's id always stands for the same
    event, so that a redelivery brings the same recipients in the same order,
    no address at all is in the To: headers of two messages of the event. *)
Theorem at_most_once handled w w' :
  rtc (service_step handled) w w' →
  ∃ msgs, w_sends w' = w_sends w ++ msgs ∧ NoDup (map message_key msgs)
    ∧ (∀ s, s ∈ msgs → email_cells w !! message_key s = None)
    ∧ ((∀ e e', handled e → handled e' → ne_event_id e = ne_event_id e' → e = e') →
       ∀ i j s s' a, i ≠ j → msgs !! i = Some s → msgs !! j = Some s' →
         em_event_id (sr_message s) = em_event_id (sr_message s') →
         a ∈ addressees s → a ∉ addressees s').
Proof.
  intros Hrun. assert (Ho : once (belongs handled) w w').
  { induction Hrun as [|w1 w2 w3 Hs _ IH]; [reflexivity|].
    etransitivity; [by apply service_step_once|exact IH]. }
  destruct Ho as (_ & msgs & Hs & Hn & Hm). exists msgs. split_and!; [done..| |].
  - intros s Hin. by apply Hm.
  - intros Hsame i j s s' a Hij Hi Hj Heq Ha Ha'. apply Hij.
    eapply NoDup_lookup; [exact Hn|by rewrite list_lookup_fmap, Hi|]. rewrite list_lookup_fmap, Hj. simpl.
    f_equal. symmetry. destruct (Hm s) as [Hb _]; [by eapply list_elem_of_lookup_2|].
    destruct (Hm s') as [Hb' _]; [by eapply list_elem_of_lookup_2|]. by eapply belongs_apart.
Qed.
End service.

(** ** A concrete service *)

#[local] Existing Instance sample_env.

(** A codec that knows some bodies by name. *)
Definition sample_codec (events : list (string * NotificationEvent)) : EventCodec := {|
  decode_notification_event s :=
    match assoc s events with Some e => Ok e | None => Err "expected value at line 1" end;
  decode_email_event _ := Err "expected value at line 1";
|}.

Definition one_to (opts : EmailOptions) : list (string * NotificationEvent) :=
  [("event", sample_event opts)].

Definition deliver (opts : EmailOptions) (sched : list nat) (w : World) : option unit * World :=
  handle_delivery (H6 := sample_codec (one_to opts)) sample_ctx consumer_config_default 8 sched "event" w.

Definition pair_opts : EmailOptions :=
  sample_opts SendMode.Individual GroupRetryMode.Whole [rcp "a@example.com"; rcp "b@example.com"].

(** A delivery, a manual retry of its second recipient, and a redelivery. *)
Definition delivered_twice : World :=
  (deliver pair_opts [1%nat; 0%nat]
     (run_op (OpReset 7 "b@example.com") (deliver pair_opts [0%nat; 1%nat] sample_world).2)).2.

Example two_deliveries_two_messages :
  map message_key (w_sends delivered_twice) = [(7%N, "a@example.com"); (7%N, "b@example.com")].
Proof. vm_compute. reflexivity. Qed.

(** The one event that is delivered. *)
Definition pair_event (e : NotificationEvent) : Prop := e = sample_event pair_opts.

Lemma at_most_once_witness :
  ∃ msgs, w_sends delivered_twice = w_sends sample_world ++ msgs ∧ NoDup (map message_key msgs)
    ∧ (∀ s, s ∈ msgs → email_cells sample_world !! message_key s = None)
    ∧ ((∀ e e', pair_event e → pair_event e' → ne_event_id e = ne_event_id e' → e = e') →
       ∀ i j s s' a, i ≠ j → msgs !! i = Some s → msgs !! j = Some s' →
         em_event_id (sr_message s) = em_event_id (sr_message s') →
         a ∈ addressees s → a ∉ addressees s').
Proof.
  pose proof (at_most_once (H := sample_env) (H3 := sample_codec (one_to pair_opts)) pair_event
    sample_world delivered_twice) as Honce.
  assert (Hdec : ∀ event, decode_delivery (H6 := sample_codec (one_to pair_opts)) "event" = Ok event →
            pair_event event) by by intros event [= <-].
  apply Honce. eapply rtc_l; [by apply step_delivery|]. eapply rtc_l; [apply step_store|].
  apply rtc_once. by apply step_delivery.
Defined.

(** The condition is needed: a group event whose id comes back with its
    recipients in another order has another primary, and in [Whole] mode writes
    again to the one it wrote to before. *)
Example reordered_group_writes_twice :
  let group to := sample_opts SendMode.Group GroupRetryMode.Whole to in
  let w := (deliver (group [rcp "p@example.com"; rcp "q@example.com"]) [] sample_world).2 in
  map addressees (w_sends (deliver (group [rcp "q@example.com"; rcp "p@example.com"]) [] w).2)
  = [["p@example.com"; "q@example.com"]; ["q@example.com"; "p@example.com"]].
Proof. vm_compute. reflexivity. Qed.
