(* ===== verification/Settle.v ===== *)
(** * How a delivery is settled

    Every delivery that finishes is acknowledged or rejected exactly once;
    which of the two on each branch of [handle_delivery]; and which branches
    mail nothing. *)

From S2P Require Import Prelude Json AppErr EmailValidation Event World Interfaces Filter.
From S2P Require Import LogStore LogInvariant BlockList TemplateStore Mailer Fetcher.
From S2P Require Import Processor ProcessorSpec GroupSpec Delivery Loops AtMostOnce.

(** Nothing sent to the broker. *)
Definition same_amqp : relation World := λ w w', w_amqp w' = w_amqp w.

#[export] Instance same_amqp_preorder : PreOrder same_amqp.
Proof. split; [by intros w|]. intros w1 w2 w3 E1 E2. red. by rewrite E2. Qed.

(** The frames that settle a delivery: one acknowledgement or rejection,
    after the delayed copy if there is one. *)
Definition is_settlement (f : AmqpFrame) : Prop :=
  match f with BasicAck | BasicNack _ => True | _ => False end.

Definition delayed_copy (cfg : ConsumerConfig) (data : string) (f : AmqpFrame) : Prop :=
  ∃ ttl, 1 ≤ ttl ∧ f = BasicPublish (cc_exchange cfg +:+ ".delayed") "" (delayed_properties ttl) data.

Definition settled (cfg : ConsumerConfig) (data : string) (frames : list AmqpFrame) : Prop :=
  ∃ f, is_settlement f ∧ (frames = [f] ∨ ∃ copy, delayed_copy cfg data copy ∧ frames = [copy; f]).

Section settle.
Context `{Env}.
Context `{Serialize Recipient, Serialize FromOverride, Serialize AttachmentRef}.
Context `{!NotificationStore, !NotificationStoreLaws}.
Context `{!TemplateResolver, !TemplateResolverLaws, !BlockListChecker, !BlockListCheckerLaws}.
Context `{!EventCodec}.
Context (ctx : ProcessorContext) (cfg : ConsumerConfig).

(** ** Everything but the settlement leaves the broker alone *)

Lemma quiet_amqp w w' : quiet w w' → same_amqp w w'.
Proof. by intros (_ & ? & _). Qed.

Lemma process_recipient_amqp event opts r atts ccbcc :
  keeps same_amqp (process_recipient ctx event opts r atts ccbcc).
Proof.
  intros w. pose proof (process_recipient_spec ctx event opts r atts ccbcc w) as Hs.
  destruct (process_recipient _ _ _ _ _ _ w). by destruct Hs as [[? _] _].
Qed.

Lemma process_group_amqp event opts atts ccbcc max :
  keeps same_amqp (process_group ctx event opts atts ccbcc max).
Proof.
  intros w. pose proof (process_group_spec ctx event opts atts ccbcc max w) as Hs.
  destruct (process_group _ _ _ _ _ _ w). by destruct Hs as [[? _] _].
Qed.

Lemma mark_failed_amqp e rid msg ex : keeps same_amqp (mark_failed e rid msg ex).
Proof.
  intros w. destruct (mark_failed e rid msg ex w) as [r w'] eqn:Hm.
  apply mark_failed_law in Hm as [? _]. by apply quiet_amqp.
Qed.

Lemma get_row_amqp e rid : keeps same_amqp (get_by_event_and_recipient e rid).
Proof.
  intros w. destruct (get_by_event_and_recipient e rid w) as [r w'] eqn:Hm.
  apply get_by_event_and_recipient_law in Hm as (? & _). by apply quiet_amqp.
Qed.

Lemma insert_pending_amqp a : keeps same_amqp (insert_pending a).
Proof.
  intros w. destruct (insert_pending a w) as [r w'] eqn:Hm.
  apply insert_pending_law in Hm as [? _]. by apply quiet_amqp.
Qed.

Lemma mark_skipped_amqp e ty rid reason ts p : keeps same_amqp (mark_skipped e ty rid reason ts p).
Proof.
  intros w. destruct (mark_skipped e ty rid reason ts p w) as [r w'] eqn:Hm.
  apply mark_skipped_law in Hm as [? _]. by apply quiet_amqp.
Qed.

Lemma dispatch_amqp fuel sched event opts atts ccbcc :
  keeps same_amqp (dispatch ctx cfg fuel sched event opts atts ccbcc).
Proof.
  assert (Hsleep : ∀ ms, keeps same_amqp (sleep_or_shutdown ms)) by by intros ms w.
  apply (dispatch_keeps ctx cfg same_amqp (λ _ _ _, True)); try done;
    [intros; apply process_recipient_amqp|apply mark_failed_amqp|apply get_row_amqp|].
  intros _ atts' ccbcc' max. split; [apply process_group_amqp|]. intros sched' w e w' _.
  apply (fallback_keeps ctx cfg same_amqp (λ _ _ _, True)); try done;
    [intros; apply process_recipient_amqp|apply mark_failed_amqp|apply get_row_amqp].
Qed.

Lemma filter_cc_bcc_amqp opts : keeps same_amqp (filter_cc_bcc ctx opts).
Proof.
  apply filter_cc_bcc_keeps; [apply _|]. intros email w.
  destruct (block_check_aside email w) as [? _]. by apply quiet_amqp.
Qed.

Lemma fetch_event_untouched event opts : keeps untouched (fetch_event_attachments cfg event opts).
Proof.
  unfold fetch_event_attachments. destruct (eo_attachments opts); [apply keeps_ret, _|].
  apply fetch_untouched.
Qed.

(** ** Settlement *)

Lemma settled_one f data : is_settlement f → settled cfg data [f].
Proof. intros Hf. exists f. by split; [|left]. Qed.

Lemma ttl_positive send_at now : 1 ≤ ttl_ms send_at now.
Proof. unfold ttl_ms. lia. Qed.

Lemma defer_settles data ttl w :
  1 ≤ ttl →
  ∃ frames, w_amqp (defer_delivery cfg data ttl w).2 = w_amqp w ++ frames ∧ settled cfg data frames.
Proof.
  intros Ht. unfold defer_delivery, basic_publish, await_confirm, next_tick, ack, nack. run_st.
  destruct (amqp_publish_err (w_tick w)) as [e|]; simpl.
  - exists [BasicNack true]. split; [done|by apply settled_one].
  - set (copy := BasicPublish _ _ _ _).
    assert (Hc : ∀ f, is_settlement f → settled cfg data [copy; f]).
    { intros f Hf. exists f. split; [done|]. right. exists copy. split; [by exists ttl|done]. }
    assert (Hend : ∀ f w1, w_amqp w1 = w_amqp w ++ [copy] → is_settlement f →
      ∃ frames, w_amqp (log_frame f w1) = w_amqp w ++ frames ∧ settled cfg data frames).
    { intros f w1 E Hf. exists [copy; f]. simpl. split; [by rewrite E, <- app_assoc|by apply Hc]. }
    destruct (amqp_confirm _) as [c|e]; [destruct (conf_is_ack c)|]; by apply Hend.
Qed.

Lemma deliver_now_settles fuel sched event opts data w :
  let '(res, w') := deliver_now ctx cfg fuel sched event opts w in
  ∃ frames, w_amqp w' = w_amqp w ++ frames
            ∧ match res with None => frames = [] | Some _ => settled cfg data frames end.
Proof.
  unfold deliver_now, ack, nack. run_st. pose proof (fetch_event_untouched event opts w) as (_ & Ha & _).
  destruct (fetch_event_attachments cfg event opts w) as [[atts|e] w1]; simpl in Ha.
  2: { simpl. exists [BasicNack (negb (is_permanent_mailer e))].
       split; [by rewrite Ha|by apply settled_one]. }
  pose proof (filter_cc_bcc_amqp opts w1) as Hf. destruct (filter_cc_bcc ctx opts w1) as [ccbcc w2].
  run_st. pose proof (dispatch_amqp fuel sched event opts atts ccbcc w2) as Hd.
  destruct (dispatch _ _ _ _ _ _ _ _ w2) as [[[]|] w3]; red in Hf, Hd; simpl in *.
  - exists [BasicAck]. split; [by rewrite Hd, Hf, Ha|by apply settled_one].
  - exists []. split; [|done]. by rewrite app_nil_r, Hd, Hf.
Qed.

(** C9: a delivery that has been handled was settled exactly once: one ack or
    nack, preceded at most by the delayed copy of a scheduled event; while its
    tasks are still running nothing was sent to the broker. *)
Theorem settled_once fuel sched data w :
  let '(res, w') := handle_delivery ctx cfg fuel sched data w in
  ∃ frames, w_amqp w' = w_amqp w ++ frames
            ∧ match res with None => frames = [] | Some _ => settled cfg data frames end.
Proof.
  unfold handle_delivery. destruct (decode_delivery data) as [event|e].
  2: { exists [BasicNack false]. split; [done|by apply settled_one]. }
  assert (Hskip : ∀ reason,
    let '(res, w') := (skip_event event reason ;;! st_ret (Some tt)) w in
    ∃ frames, w_amqp w' = w_amqp w ++ frames
      ∧ match res with None => frames = [] | Some _ => settled cfg data frames end).
  { intros reason. unfold skip_event, ack. run_st.
    pose proof (mark_skipped_amqp (ne_event_id event) (ne_event_type event)
      ("event:" +:+ uuid_str (ne_event_id event)) reason (ne_timestamp event) (ne_payload event) w) as Hm.
    destruct (mark_skipped _ _ _ _ _ _ w) as [r w1]. simpl in *. exists [BasicAck].
    split; [by rewrite Hm|by apply settled_one]. }
  destruct (co_email _) as [opts|]; [|apply Hskip].
  destruct (eo_recipients opts) eqn:Hrs; [apply Hskip|]. rewrite <- Hrs. clear Hskip.
  destruct (_ <? _)%nat.
  - unfold ack. run_st.
    assert (Hs : keeps same_amqp (insert_sentinel_failed_row event opts (oversize_reason cfg opts))).
    { apply sentinel_keeps; [apply _|apply mark_failed_amqp|apply insert_pending_amqp]. }
    specialize (Hs w). destruct (insert_sentinel_failed_row _ _ _ w) as [[] w1]. simpl in *.
    exists [BasicAck]. split; [by rewrite Hs|by apply settled_one].
  - run_st. destruct (deferred_until opts w) as [d w1] eqn:Hd.
    assert (Hq : w_amqp w1 = w_amqp w ∧ ∀ ttl, d = Some ttl → 1 ≤ ttl).
    { revert Hd. unfold deferred_until, next_tick. destruct (eo_send_at opts); run_st; intros [= <- <-];
        [|done]. split; [done|]. intros ttl. destruct (_ <? _); [|done]. intros [= <-]. apply ttl_positive. }
    destruct Hq as [Ha Ht]. destruct d as [ttl|].
    + run_st. destruct (defer_settles data ttl w1) as (fr & Hfr & Hset); [by apply Ht|].
      destruct (defer_delivery cfg data ttl w1) as [[] w2]. simpl in *.
      exists fr. split; [by rewrite Hfr, Ha|done].
    + pose proof (deliver_now_settles fuel sched event opts data w1) as Hn.
      destruct (deliver_now _ _ _ _ _ _ w1) as [res w2]. by rewrite Ha in Hn.
Qed.

(** ** Events that are never sent *)

(** Nothing mailed, and no row but [k]'s touched. *)
Definition only_row (k : Key) (w w' : World) : Prop :=
  w_sends w' = w_sends w ∧ ∀ k', k' ≠ k → cells w' !! k' = cells w !! k'.

#[local] Instance only_row_preorder k : PreOrder (only_row k).
Proof.
  split; [by intros w|]. intros w1 w2 w3 [A1 B1] [A2 B2].
  split; [congruence|]. intros k' Hk. by rewrite B2, B1.
Qed.

Lemma only_row_quiet k w w' :
  quiet w w' → (∀ k', k' ≠ k → cells w' !! k' = cells w !! k') → only_row k w w'.
Proof. intros (? & _) ?. by split. Qed.

Lemma insert_pending_only k a : arg_key a = k → keeps (only_row k) (insert_pending a).
Proof.
  intros <- w. destruct (insert_pending a w) as [r w'] eqn:Hi. simpl.
  apply insert_pending_law in Hi as [Hq Hpost]. apply only_row_quiet; [done|]. intros k' Hk.
  destruct r as [x|e]; [|by rewrite Hpost]. revert Hpost. unfold insert_cell.
  destruct (cells w !! arg_key a); intros [= _ <-]; [done|by rewrite lookup_insert_ne].
Qed.

Lemma mark_failed_only e rid msg ex : keeps (only_row (e, rid)) (mark_failed e rid msg ex).
Proof.
  intros w. destruct (mark_failed e rid msg ex w) as [r w'] eqn:Hm. simpl.
  apply mark_failed_law in Hm as [Hq Hpost]. apply only_row_quiet; [done|]. intros k' Hk.
  by eapply update_post_other.
Qed.

Lemma mark_skipped_only e ty rid reason ts p :
  keeps (only_row (e, rid)) (mark_skipped e ty rid reason ts p).
Proof.
  intros w. destruct (mark_skipped e ty rid reason ts p w) as [r w'] eqn:Hm. simpl.
  apply mark_skipped_law in Hm as [Hq Hpost]. apply only_row_quiet; [done|]. intros k' Hk.
  destruct r as [[]|err]; rewrite Hpost; [|done].
  destruct (cells w !! (e, rid)); [done|by rewrite lookup_insert_ne].
Qed.

(** The one row such an event may leave behind. *)
Definition sentinel_key (event : NotificationEvent) (opts : option EmailOptions) : Key :=
  match opts with
  | Some (mkEmailOptions _ _ _ (r :: _) _ _ _ _ _ _ _) => (ne_event_id event, r_email r)
  | _ => (ne_event_id event, "event:" +:+ uuid_str (ne_event_id event))
  end.

Definition unsendable (event : NotificationEvent) : Prop :=
  match co_email (ne_channel_overrides event) with
  | None => True
  | Some opts => eo_recipients opts = []
                 ∨ (cc_max_recipients_per_event cfg < length (eo_recipients opts))%nat
  end.

(** C27: bytes that decode to no event are rejected without requeue and change
    nothing else; an event without email options, without recipients or with
    too many of them is acknowledged, mails nothing, and touches at most one
    row of the log. *)
Theorem unsendable_event_settled fuel sched data w :
  match decode_delivery data with
  | Err _ => handle_delivery ctx cfg fuel sched data w = (Some tt, log_frame (BasicNack false) w)
  | Ok event =>
      unsendable event →
      let '(res, w') := handle_delivery ctx cfg fuel sched data w in
      res = Some tt ∧ w_amqp w' = w_amqp w ++ [BasicAck]
      ∧ only_row (sentinel_key event (co_email (ne_channel_overrides event))) w w'
  end.
Proof.
  unfold handle_delivery, unsendable. destruct (decode_delivery data) as [event|e]; [|done].
  assert (Hskip : ∀ reason, let '(res, w') := (skip_event event reason ;;! st_ret (Some tt)) w in
    res = Some tt ∧ w_amqp w' = w_amqp w ++ [BasicAck]
    ∧ only_row (ne_event_id event, "event:" +:+ uuid_str (ne_event_id event)) w w').
  { intros reason. unfold skip_event, ack. run_st.
    pose proof (mark_skipped_amqp (ne_event_id event) (ne_event_type event)
      ("event:" +:+ uuid_str (ne_event_id event)) reason (ne_timestamp event) (ne_payload event) w) as Hm.
    pose proof (mark_skipped_only (ne_event_id event) (ne_event_type event)
      ("event:" +:+ uuid_str (ne_event_id event)) reason (ne_timestamp event) (ne_payload event) w) as Ho.
    destruct (mark_skipped _ _ _ _ _ _ w) as [r w1]. simpl in *. red in Hm. rewrite Hm.
    split_and!; [done..|]. etransitivity; [exact Ho|]. split; [done|]. intros k' _.
    by rewrite (cells_same_log w1). }
  destruct (co_email _) as [[sm gr rp rs cc bcc fo att sa sd x]|]; [|intros _; apply Hskip].
  simpl. destruct rs as [|p rest]; [intros _; apply Hskip|]. intros [?|Hmax]; [done|].
  apply Nat.ltb_lt in Hmax. rewrite Hmax. clear Hskip.
  set (opts := mkEmailOptions _ _ _ _ _ _ _ _ _ _ _). unfold ack. run_st.
  assert (Hs : keeps same_amqp (insert_sentinel_failed_row event opts (oversize_reason cfg opts))).
  { apply sentinel_keeps; [apply _|apply mark_failed_amqp|apply insert_pending_amqp]. }
  assert (Ho : keeps (only_row (ne_event_id event, r_email p))
                 (insert_sentinel_failed_row event opts (oversize_reason cfg opts))).
  { unfold insert_sentinel_failed_row. simpl.
    apply keeps_bind; [apply _|by apply insert_pending_only|].
    assert (Hf : keeps (only_row (ne_event_id event, r_email p))
      (mark_failed (ne_event_id event) (r_email p) (oversize_reason cfg opts) true ;;! st_ret tt)).
    { apply keeps_then_ret; [apply _|apply mark_failed_only]. }
    intros [[|n st]|e]; [done| |apply keeps_ret, _].
    destruct (status_try_from st) as [[]|]; first [done|apply keeps_ret, _]. }
  specialize (Hs w). specialize (Ho w).
  destruct (insert_sentinel_failed_row event opts _ w) as [[] w1]. simpl in *. red in Hs. rewrite Hs.
  split_and!; [done..|]. etransitivity; [exact Ho|]. split; [done|]. intros k' _.
  by rewrite (cells_same_log w1).
Qed.

(** ** Scheduled events *)

Definition sendable (data : string) (event : NotificationEvent) (opts : EmailOptions) : Prop :=
  decode_delivery data = Ok event ∧ co_email (ne_channel_overrides event) = Some opts
  ∧ eo_recipients opts ≠ []
  ∧ (length (eo_recipients opts) <= cc_max_recipients_per_event cfg)%nat.

Lemma sendable_delivery fuel sched data event opts w :
  sendable data event opts →
  handle_delivery ctx cfg fuel sched data w
  = (let! defer := deferred_until opts in
     match defer with
     | Some ttl => defer_delivery cfg data ttl ;;! st_ret (Some tt)
     | None => deliver_now ctx cfg fuel sched event opts
     end) w.
Proof.
  intros (Hd & Ho & Hne & Hmax). unfold handle_delivery. rewrite Hd, Ho.
  destruct (eo_recipients opts) as [|x l]; [done|].
  destruct (_ <? _)%nat eqn:Hlt; [|done]. apply Nat.ltb_lt in Hlt. lia.
Qed.

(** What the broker sees of a scheduled event. *)
Definition deferral_frames (data : string) (ttl : Z) (t : nat) : list AmqpFrame :=
  match amqp_publish_err t with
  | Some _ => [BasicNack true]
  | None =>
      [BasicPublish (cc_exchange cfg +:+ ".delayed") "" (delayed_properties ttl) data;
       match amqp_confirm (S t) with
       | Ok ConfirmAck => BasicAck
       | _ => BasicNack true
       end]
  end.

(** C28: an event scheduled for the future is mailed to nobody and writes nothing:
    its bytes go to the delayed exchange with the remaining time, at least a
    millisecond, as expiration; the original is acknowledged only on a broker
    ack.  On a channel without publisher confirms the answer is
    [ConfirmNotRequested], so both the copy and the requeued original live on. *)
Theorem scheduled_event_deferred fuel sched data event opts send_at w :
  sendable data event opts → eo_send_at opts = Some send_at → clock (w_tick w) < send_at →
  let '(res, w') := handle_delivery ctx cfg fuel sched data w in
  let ttl := ttl_ms send_at (clock (w_tick w)) in
  res = Some tt ∧ w_sends w' = w_sends w ∧ w_db w' = w_db w ∧ 1 ≤ ttl
  ∧ w_amqp w' = w_amqp w ++ deferral_frames data ttl (S (w_tick w)).
Proof.
  intros Hs Hat Hlt. rewrite (sendable_delivery _ _ _ _ _ _ Hs).
  unfold deferred_until, next_tick. rewrite Hat. run_st. apply Z.ltb_lt in Hlt. rewrite Hlt.
  set (ttl := ttl_ms _ _). assert (Ht : 1 ≤ ttl) by apply ttl_positive.
  unfold defer_delivery, basic_publish, await_confirm, next_tick, ack, nack, deferral_frames. run_st.
  destruct (amqp_publish_err _) as [e|]; simpl; [by split_and!|].
  destruct (amqp_confirm _) as [[]|e]; simpl; rewrite <- app_assoc; by split_and!.
Qed.

(** ** Attachments that cannot be fetched *)

(** When the attachments of an event cannot be fetched nothing is mailed and
    nothing written; the delivery is requeued unless every cause is
    permanent. *)
Theorem attachment_failure_settled fuel sched data event opts e w :
  sendable data event opts → eo_send_at opts = None →
  (fetch_event_attachments cfg event opts w).1 = Err e →
  let '(res, w') := handle_delivery ctx cfg fuel sched data w in
  res = Some tt ∧ w_sends w' = w_sends w ∧ w_db w' = w_db w
  ∧ w_amqp w' = w_amqp w ++ [BasicNack (negb (is_permanent_mailer e))].
Proof.
  intros Hs Hat Hf. rewrite (sendable_delivery _ _ _ _ _ _ Hs).
  unfold deferred_until, deliver_now, nack. rewrite Hat. run_st.
  pose proof (fetch_event_untouched event opts w) as (Hu & Ha & Hd).
  destruct (fetch_event_attachments cfg event opts w) as [r w1]. simpl in *. subst r. simpl.
  rewrite Hu, Ha, Hd. by split_and!.
Qed.

(** ** Copies *)

(** With the block list answering [verdict]. *)
Definition copy_ok (verdict : string → result unit AppError) (r : Recipient) : bool :=
  is_valid_email (r_email r)
  && match filter_check (pc_filter ctx) (r_email r) with Err (AppError.Blocked _) => false | _ => true end
  && match verdict (r_email r) with Err (AppError.Blocked _) => false | _ => true end.

Section copies.
Context (Inv : World → Prop) (verdict : string → result unit AppError).
Context (Hverdict : ∀ email w, Inv w →
           (block_list_check email w).1 = verdict email ∧ Inv (block_list_check email w).2).

Lemma cc_bcc_allowed_exact r w :
  Inv w → (cc_bcc_allowed ctx r w).1 = copy_ok verdict r ∧ Inv (cc_bcc_allowed ctx r w).2.
Proof.
  intros Hw. unfold cc_bcc_allowed, copy_ok. destruct (is_valid_email (r_email r)); simpl; [|done].
  destruct (Hverdict (r_email r) w Hw) as [Hv Hw'].
  assert (Hb : ((let! b := block_list_check (r_email r) in
      st_ret (match b with Ok _ => true | Err (AppError.Blocked _) => false | Err _ => true end)) w).1
    = match verdict (r_email r) with Err (AppError.Blocked _) => false | _ => true end
    ∧ Inv ((let! b := block_list_check (r_email r) in
      st_ret (match b with Ok _ => true | Err (AppError.Blocked _) => false | Err _ => true end)) w).2).
  { run_st. destruct (block_list_check (r_email r) w) as [b w1]. simpl in *. subst b.
    split; [|done]. by destruct (verdict _) as [|[]]. }
  destruct (filter_check _ _) as [|[]]; simpl; done.
Qed.

Lemma st_filter_exact {A} (f : A → M bool) (p : A → bool) l w :
  (∀ a w, Inv w → (f a w).1 = p a ∧ Inv (f a w).2) → Inv w →
  (st_filter f l w).1 = base.filter (λ a, p a = true) l ∧ Inv (st_filter f l w).2.
Proof.
  intros Hf. revert w. induction l as [|a l IH]; intros w Hw; simpl; [done|]. run_st.
  destruct (Hf a w Hw) as [Hb Hw1]. destruct (f a w) as [b w1]. simpl in *.
  destruct (IH w1 Hw1) as [Hl Hw2]. destruct (st_filter f l w1) as [l' w2]. simpl in *. subst.
  rewrite filter_cons. destruct (p a); by case_decide.
Qed.

Lemma filter_cc_bcc_exact opts w :
  Inv w →
  (filter_cc_bcc ctx opts w).1
  = mkEffectiveCcBcc (base.filter (λ r, copy_ok verdict r = true) (eo_cc opts))
      (base.filter (λ r, copy_ok verdict r = true) (eo_bcc opts))
  ∧ Inv (filter_cc_bcc ctx opts w).2.
Proof.
  intros Hw. unfold filter_cc_bcc. run_st.
  destruct (st_filter_exact _ _ (eo_cc opts) w cc_bcc_allowed_exact Hw) as [Hcc Hw1].
  destruct (st_filter _ (eo_cc opts) w) as [cc w1]. simpl in *. subst.
  destruct (st_filter_exact _ _ (eo_bcc opts) w1 cc_bcc_allowed_exact Hw1) as [Hbcc Hw2].
  destruct (st_filter _ (eo_bcc opts) w1) as [bcc w2]. simpl in *. by subst.
Qed.

(** The copies kept are exactly the Cc and Bcc recipients, in order, whose
    address is valid and blocked neither by the configured filter nor by the
    block list. *)
Theorem copies_filtered opts w :
  Inv w →
  (filter_cc_bcc ctx opts w).1
  = mkEffectiveCcBcc (base.filter (λ r, copy_ok verdict r = true) (eo_cc opts))
      (base.filter (λ r, copy_ok verdict r = true) (eo_bcc opts)).
Proof. intros Hw. by apply filter_cc_bcc_exact. Qed.
End copies.
End settle.

(** ** Concrete deliveries *)

#[local] Existing Instance sample_env.

Lemma settled_once_witness :
  let '(res, w') := deliver pair_opts [0%nat; 1%nat] sample_world in
  ∃ frames, w_amqp w' = w_amqp sample_world ++ frames
            ∧ match res with
              | None => frames = []
              | Some _ => settled consumer_config_default "event" frames
              end.
Proof.
  pose proof (settled_once (H9 := sample_codec (one_to pair_opts)) sample_ctx
    consumer_config_default 8 [0%nat; 1%nat] "event" sample_world) as H. exact H.
Defined.

Example pair_delivered :
  let '(res, w') := deliver pair_opts [0%nat; 1%nat] sample_world in
  (res, w_amqp w', row_states w')
  = (Some tt, [BasicAck], [("a@example.com", "SENT"); ("b@example.com", "SENT")]).
Proof. vm_compute. reflexivity. Qed.

(** While a task has not finished, nothing is acknowledged. *)
Example pair_running :
  let '(res, w') := deliver pair_opts [0%nat] sample_world in (res, w_amqp w') = (None, []).
Proof. vm_compute. reflexivity. Qed.

Definition no_recipient_opts : EmailOptions := sample_opts SendMode.Individual GroupRetryMode.Whole [].

Lemma unsendable_event_settled_witness :
  let '(res, w') := deliver no_recipient_opts [] sample_world in
  res = Some tt ∧ w_amqp w' = w_amqp sample_world ++ [BasicAck]
  ∧ only_row (sentinel_key (sample_event no_recipient_opts) (Some no_recipient_opts)) sample_world w'.
Proof.
  pose proof (unsendable_event_settled (H9 := sample_codec (one_to no_recipient_opts)) sample_ctx
    consumer_config_default 8 [] "event" sample_world) as H.
  apply H. left. reflexivity.
Defined.

Definition later_opts : EmailOptions :=
  mkEmailOptions SendMode.Individual GroupRetryMode.Whole RetryPolicy.Retry [rcp "a@example.com"]
    [] [] None [] None (Some 5000000000) None.

Lemma later_sendable :
  sendable (H9 := sample_codec (one_to later_opts)) consumer_config_default "event"
    (sample_event later_opts) later_opts.
Proof. split_and!; [reflexivity|reflexivity|done|vm_compute; lia]. Qed.

Lemma scheduled_event_deferred_witness :
  let '(res, w') := deliver later_opts [] sample_world in
  let ttl := ttl_ms 5000000000 (clock (w_tick sample_world)) in
  res = Some tt ∧ w_sends w' = w_sends sample_world ∧ w_db w' = w_db sample_world ∧ 1 ≤ ttl
  ∧ w_amqp w' = w_amqp sample_world
      ++ deferral_frames consumer_config_default "event" ttl (S (w_tick sample_world)).
Proof.
  pose proof (scheduled_event_deferred (H9 := sample_codec (one_to later_opts)) sample_ctx
    consumer_config_default 8 [] "event" (sample_event later_opts) later_opts 5000000000
    sample_world) as H.
  apply H; [exact later_sendable|reflexivity|vm_compute; reflexivity].
Defined.

(** The copy is on the delayed exchange and the original back in the queue. *)
Example scheduled_twice :
  w_amqp (deliver later_opts [] sample_world).2
  = [BasicPublish "anvil-notify.delayed" "" (delayed_properties 5000) "event"; BasicNack true].
Proof. vm_compute. reflexivity. Qed.

Definition bad_attachment_opts : EmailOptions :=
  mkEmailOptions SendMode.Individual GroupRetryMode.Whole RetryPolicy.Retry [rcp "a@example.com"]
    [] [] None [mkAttachmentRef "ftp://files" "a.pdf" "application/pdf" None None] None None None.

Lemma attachment_failure_settled_witness :
  let '(res, w') := deliver bad_attachment_opts [] sample_world in
  res = Some tt ∧ w_sends w' = w_sends sample_world ∧ w_db w' = w_db sample_world
  ∧ w_amqp w' = w_amqp sample_world ++ [BasicNack false].
Proof.
  pose proof (attachment_failure_settled (H9 := sample_codec (one_to bad_attachment_opts)) sample_ctx
    consumer_config_default 8 [] "event" (sample_event bad_attachment_opts) bad_attachment_opts
    (permanent_mailer "permanent: attachment url 'ftp://files' must start with http:// or https://") sample_world) as H.
  apply H; [|reflexivity|vm_compute; reflexivity].
  split_and!; [reflexivity|reflexivity|done|vm_compute; lia].
Defined.

(** The real block list, on a database that answers. *)
Lemma sample_verdict (d : Db) email w :
  block_cache_ok w ∧ w_db w = d →
  (block_list_check (BlockListChecker := BlockListStore) email w).1 = snapshot_check (snapshot_of d) email
  ∧ (block_cache_ok (block_list_check (BlockListChecker := BlockListStore) email w).2
     ∧ w_db (block_list_check (BlockListChecker := BlockListStore) email w).2 = d).
Proof.
  intros [Hok <-]. unfold block_list_check, BlockListStore, check. run_st.
  destruct (snapshot w) as [r w1] eqn:Hs. destruct (snapshot_spec _ _ _ Hs Hok) as (? & ? & Hr).
  assert (is_ok r = true).
  { revert Hs. unfold snapshot, block_cache_get, next_tick, query, next_tick. run_st. simpl.
    destruct (w_block_cache w); by intros [= <- <-]. }
  destruct r as [s|e]; [|done]. simpl. destruct Hr as [[= ->]|[e ?]]; [|done]. by split_and!.
Qed.

Definition copies_world : World :=
  set_db (set_blocks (λ _, [mkBlockListEntry 1 "blocked_email" "q@example.com" None true 0])
            (w_db sample_world)) sample_world.

Definition copies_opts : EmailOptions :=
  mkEmailOptions SendMode.Individual GroupRetryMode.Whole RetryPolicy.Retry [rcp "a@example.com"]
    [rcp "p@example.com"; rcp "q@example.com"; rcp "not-an-address"] [] None [] None None None.

Lemma copies_filtered_witness :
  let verdict := snapshot_check (snapshot_of (w_db copies_world)) in
  (filter_cc_bcc sample_ctx copies_opts copies_world).1
  = mkEffectiveCcBcc (base.filter (λ r, copy_ok sample_ctx verdict r = true) (eo_cc copies_opts))
      (base.filter (λ r, copy_ok sample_ctx verdict r = true) (eo_bcc copies_opts)).
Proof.
  pose proof (copies_filtered sample_ctx (λ w, block_cache_ok w ∧ w_db w = w_db copies_world)
    (snapshot_check (snapshot_of (w_db copies_world))) (sample_verdict (w_db copies_world))
    copies_opts copies_world) as H.
  apply H. split; [|reflexivity]. intros s Hs. discriminate Hs.
Defined.

Example copies_kept :
  (filter_cc_bcc sample_ctx copies_opts copies_world).1 = mkEffectiveCcBcc [rcp "p@example.com"] [].
Proof. vm_compute. reflexivity. Qed.
