(* ===== verification/Healthy.v ===== *)
(** * What a healthy environment gets

    The safety theorems hold for every pattern of failures and so allow a
    service that sends nothing.  Here the environment is assumed to answer: the
    stores, the rate limiter and the transport succeed from every world that is
    [up], and leave it [up].  Then a delivery is carried through: every task
    finishes on its first turn, under any schedule that names them all; every
    valid address without a row gets its row and, unless blocked, exactly one
    message; and a redelivery changes nothing. *)

From S2P Require Import Prelude Json AppErr EmailValidation Event World Interfaces Filter.
From S2P Require Import LogStore LogInvariant BlockList TemplateStore Mailer Fetcher.
From S2P Require Import Processor ProcessorSpec GroupSpec Delivery Loops AtMostOnce Settle.

(** [m] run in an [up] world returns a result in [Q] and leaves the world [up]. *)
Definition works (up : World → Prop) {A} (m : M A) (Q : A → Prop) : Prop :=
  ∀ w, up w → Q (m w).1 ∧ up (m w).2.

Section healthy.
Context `{Env}.
Context `{Serialize Recipient, Serialize FromOverride, Serialize AttachmentRef}.
Context `{!NotificationStore, !NotificationStoreLaws}.
Context `{!TemplateResolver, !TemplateResolverLaws, !BlockListChecker, !BlockListCheckerLaws}.
Context `{!EventCodec}.
Context (ctx : ProcessorContext) (cfg : ConsumerConfig).
Context (up : World → Prop) (verdict : string → result unit AppError).
Context (event : NotificationEvent) (opts : EmailOptions).
Context (atts : list ResolvedAttachment) (p : Prepared).

(** ** What is expected *)

Definition kept_copies : EffectiveCcBcc :=
  mkEffectiveCcBcc (base.filter (λ r, copy_ok ctx verdict r = true) (eo_cc opts))
    (base.filter (λ r, copy_ok ctx verdict r = true) (eo_bcc opts)).

Definition transport : EmailSender :=
  resolve_sender (pc_sender_registry ctx) (pc_sender ctx) (eo_sender_account opts).

Definition mail_to (r : Recipient) : EmailMessage :=
  build_email_message event r [] (pr_rendered p) (pr_from p) atts
    (ecb_cc kept_copies) (ecb_bcc kept_copies).

Definition reason_to_block (email : string) : option string :=
  match config_block_reason (pc_filter ctx) email with
  | Some reason => Some reason
  | None => match verdict email with Err (AppError.Blocked reason) => Some reason | _ => None end
  end.

Definition row_of (email : string) : Key := (ne_event_id event, email).

(** The row of an address nothing was known about. *)
Definition first_row (email : string) : Cell :=
  match reason_to_block email with
  | Some reason => blocked_cell reason fresh_cell
  | None => sent_cell fresh_cell
  end.

(** One recipient's effect on the log and on the mail. *)
Definition settle_recipient (st : gmap Key Cell * list SendRecord) (r : Recipient) :
    gmap Key Cell * list SendRecord :=
  let k := row_of (r_email r) in
  if negb (is_valid_email (r_email r)) then st
  else match st.1 !! k with
       | Some _ => st
       | None =>
           (<[k := first_row (r_email r)]> st.1,
            match reason_to_block (r_email r) with
            | Some _ => st.2
            | None => st.2 ++ [mkSendRecord transport (mail_to r) true]
            end)
       end.

(** What every delivery of the event needs of its environment. *)
Record healthy_base : Prop := {
  hy_due : works up (deferred_until opts) (λ d, d = None);
  hy_attachments : works up (fetch_event_attachments cfg event opts) (λ r, r = Ok atts);
  hy_check email : works up (block_list_check email) (λ r, r = verdict email);
  hy_prepare : works up (prepare event opts kept_copies) (λ r, r = Ok p);
  hy_sent email w : up w → cells w !! row_of email = Some fresh_cell →
    is_ok (mark_sent (ne_event_id event) email w).1 = true
    ∧ up (mark_sent (ne_event_id event) email w).2;
  hy_blocked email reason w : up w → cells w !! row_of email = Some fresh_cell →
    is_ok (mark_blocked (ne_event_id event) email reason w).1 = true
    ∧ up (mark_blocked (ne_event_id event) email reason w).2;
  hy_block_any email reason : works up (mark_blocked (ne_event_id event) email reason) (λ _, True);
  hy_failed email msg ex : works up (mark_failed (ne_event_id event) email msg ex) (λ _, True);
  hy_read email : works up (get_by_event_and_recipient (ne_event_id event) email) (λ _, True);
  hy_token : works up (acquire_rate_limit_token (pc_rate_limiter ctx)) (λ r, r = Ok tt);
  hy_ack w : up w → up (log_frame BasicAck w);
}.

(** ... and one in individual mode. *)
Record healthy : Prop := {
  hy_base :> healthy_base;
  hy_insert r : r ∈ eo_recipients opts →
    works up (insert_pending (recipient_args event opts r (pr_fields p))) (λ x, is_ok x = true);
  hy_transport r : r ∈ eo_recipients opts → is_valid_email (r_email r) = true →
    works up (send transport (mail_to r)) (λ x, x = Ok tt);
}.

(** No recipient has a row left over that is not terminal, and an invalid
    address has none: such rows put a task into its retry loop. *)
Definition clean (m : gmap Key Cell) : Prop :=
  ∀ r c, r ∈ eo_recipients opts → m !! row_of (r_email r) = Some c →
    is_terminal (c_status c) = true ∧ is_valid_email (r_email r) = true.

Context (Hup : healthy).

(** ** One attempt *)

(** The log and the mail between two worlds, both up. *)
Definition moves (w w' : World) (st : gmap Key Cell * list SendRecord) : Prop :=
  up w' ∧ same_broker w w' ∧ cells w' = st.1 ∧ w_sends w' = w_sends w ++ st.2.

Lemma is_ok_elim {A E} (r : result A E) : is_ok r = true → ∃ a, r = Ok a.
Proof. destruct r; [by eexists|done]. Qed.

Lemma update_done k f m (r : result unit AppError) m' :
  update_post k f m r m' → is_ok r = true → m' = alter f k m.
Proof. destruct r; [by intros [_ ->]|done]. Qed.

(** A fresh row is blocked. *)
Lemma block_works email reason m w :
  up w → m !! row_of email = None → cells w = <[row_of email := fresh_cell]> m →
  let '(o, w') := block_recipient (ne_event_id event) email reason w in
  o = RecipientOutcome.Blocked reason
  ∧ moves w w' (<[row_of email := blocked_cell reason fresh_cell]> m, []).
Proof.
  intros Hw Hm Hc. unfold block_recipient. run_st.
  destruct (hy_blocked Hup email reason w Hw) as [Hok Hw']; [by rewrite Hc, lookup_insert_eq|].
  destruct (mark_blocked _ email reason w) as [r w1] eqn:Hb. simpl in *.
  apply mark_blocked_law in Hb as [Hq Hpost%update_done]; [|done].
  rewrite Hc, alter_fresh in Hpost by done. split; [done|]. split_and!; [done| |done|].
  - by apply quiet_same_broker.
  - destruct Hq as [-> _]. by rewrite app_nil_r.
Qed.

Lemma send_works r m w :
  up w → r ∈ eo_recipients opts → is_valid_email (r_email r) = true →
  m !! row_of (r_email r) = None → cells w = <[row_of (r_email r) := fresh_cell]> m →
  let '(o, w') := execute_send ctx (mail_to r) (eo_sender_account opts)
                    (SendTargets.Individual (ne_event_id event) (r_email r)) w in
  o = RecipientOutcome.Sent
  ∧ moves w w' (<[row_of (r_email r) := sent_cell fresh_cell]> m,
                [mkSendRecord transport (mail_to r) true]).
Proof.
  intros Hw Hr Hv Hm Hc. unfold execute_send. run_st.
  destruct (hy_token Hup w Hw) as [Htok Hw1].
  destruct (acquire_rate_limit_token _ w) as [tok w1] eqn:Ha. simpl in Htok, Hw1. subst tok.
  destruct (acquire_spec _ _ _ _ Ha) as (Hq1 & Hc1 & _).
  fold transport. destruct (hy_transport Hup r Hr Hv w1 Hw1) as [Hs Hw2].
  destruct (send transport (mail_to r) w1) as [res w2] eqn:Hsend. simpl in Hs, Hw2. subst res.
  destruct (send_cells _ _ _ _ _ Hsend) as (Hc2 & Hb2 & [[_ ?]|Hsends]); [done|].
  assert (Hcw : cells w2 = <[row_of (r_email r) := fresh_cell]> m) by congruence.
  destruct (hy_sent Hup (r_email r) w2 Hw2) as [Hok Hw3]; [by rewrite Hcw, lookup_insert_eq|].
  run_st. destruct (mark_sent _ (r_email r) w2) as [x w3] eqn:Hmark. simpl in Hok, Hw3.
  apply mark_sent_law in Hmark as [Hq3 Hpost%update_done]; [|done].
  rewrite Hcw, alter_fresh in Hpost by done. split; [done|]. split_and!; [done| |done|].
  - etransitivity; [by apply quiet_same_broker|]. etransitivity; [done|by apply quiet_same_broker].
  - destruct Hq1 as [Hs1 _], Hq3 as [-> _]. by rewrite Hsends, Hs1.
Qed.

Lemma moves_aside w w1 w' st : aside w w1 → moves w1 w' st → moves w w' st.
Proof.
  intros [(Hs & Hq) _] (? & Hb & ? & Hs'). split_and!; [done| |done|congruence].
  etransitivity; [|done]. by apply quiet_same_broker.
Qed.

Lemma first_contact_works r m w :
  up w → r ∈ eo_recipients opts → is_valid_email (r_email r) = true →
  m !! row_of (r_email r) = None → cells w = <[row_of (r_email r) := fresh_cell]> m →
  let '(o, w') := filter_and_send ctx event opts r atts kept_copies p w in
  match o with RecipientOutcome.Sent | RecipientOutcome.Blocked _ => True | _ => False end
  ∧ moves w w' (settle_recipient (m, []) r).
Proof.
  intros Hw Hr Hv Hm Hc. unfold filter_and_send, settle_recipient, first_row, reason_to_block.
  rewrite Hv. simpl. rewrite Hm. destruct (config_block_reason _ _) as [reason|].
  { pose proof (block_works (r_email r) reason m w Hw Hm Hc) as Hb.
    destruct (block_recipient _ _ _ w) as [o w']. by destruct Hb as [-> ?]. }
  run_st. destruct (hy_check Hup (r_email r) w Hw) as [Hb Hw1].
  pose proof (block_check_aside (r_email r) w) as Ha.
  destruct (block_list_check (r_email r) w) as [b w1]. simpl in *. subst b.
  assert (Hc1 : cells w1 = <[row_of (r_email r) := fresh_cell]> m) by (by rewrite (aside_cells _ _ Ha)).
  pose proof (send_works r m w1 Hw1 Hr Hv Hm Hc1) as Hsend. unfold mail_to in Hsend. simpl in Hsend.
  assert (Hblock : ∀ reason, let '(o, w') := block_recipient (ne_event_id event) (r_email r) reason w1 in
    match o with RecipientOutcome.Sent | RecipientOutcome.Blocked _ => True | _ => False end
    ∧ moves w w' (<[row_of (r_email r) := blocked_cell reason fresh_cell]> m, [])).
  { intros reason. pose proof (block_works (r_email r) reason m w1 Hw1 Hm Hc1) as Hblk.
    destruct (block_recipient _ _ _ w1) as [o w']. destruct Hblk as [-> ?].
    split; [done|by eapply moves_aside]. }
  destruct (verdict (r_email r)) as [[]|[]]; try apply Hblock;
    (destruct (execute_send _ _ _ _ w1) as [o w']; destruct Hsend as [-> ?];
     split; [done|by eapply moves_aside]).
Qed.
(** ** One turn *)

Lemma clean_settle m r :
  r ∈ eo_recipients opts → clean m → clean (settle_recipient (m, []) r).1.
Proof.
  intros Hr Hm. unfold settle_recipient, first_row. destruct (is_valid_email (r_email r)) eqn:Hv; [|done].
  simpl. destruct (m !! row_of (r_email r)) eqn:Hk; [done|]. simpl. intros r' c Hr'.
  rewrite lookup_insert. case_decide as Heq; [|by apply Hm]. intros [= <-].
  injection Heq as Heq. rewrite <- Heq. split; [by destruct (reason_to_block _)|done].
Qed.

Lemma absent_row_stays email msg ex w r w' :
  cells w !! row_of email = None →
  mark_failed (ne_event_id event) email msg ex w = (r, w') → cells w' = cells w.
Proof.
  intros Hk [_ Hpost]%mark_failed_law. revert Hpost. unfold update_post.
  fold (row_of email). rewrite Hk. destruct r as [?|[]]; [by intros [[? ?] _]|naive_solver..].
Qed.

Lemma attempt_works r w :
  up w → r ∈ eo_recipients opts → is_valid_email (r_email r) = true → clean (cells w) →
  let '(o, w') := process_recipient ctx event opts r atts kept_copies w in
  match o with
  | RecipientOutcome.Sent | RecipientOutcome.Blocked _ | RecipientOutcome.Skipped => True
  | _ => False
  end ∧ moves w w' (settle_recipient (cells w, []) r).
Proof.
  intros Hw Hr Hv Hclean. unfold process_recipient. rewrite Hv. simpl. run_st.
  destruct (hy_prepare Hup w Hw) as [Hp Hw1].
  pose proof (prepare_aside event opts kept_copies w) as Ha1.
  destruct (prepare event opts kept_copies w) as [prep w1]. simpl in Hp, Hw1, Ha1. subst prep.
  pose proof (aside_cells _ _ Ha1) as Hc1.
  destruct (hy_insert Hup r Hr w1 Hw1) as [Hok Hw2].
  destruct (insert_pending _ w1) as [ins w2] eqn:Hi. simpl in Hok, Hw2.
  apply insert_pending_law in Hi as [Hq2 Hpost]. destruct ins as [x|]; [|done]. clear Hok.
  rewrite Hc1 in Hpost. unfold insert_cell in Hpost.
  change (arg_key (recipient_args event opts r (pr_fields p))) with (row_of (r_email r)) in Hpost.
  destruct (cells w !! row_of (r_email r)) as [c|] eqn:Hk; injection Hpost as <- Hc2.
  - destruct (Hclean r c Hr Hk) as [Ht _]. run_st. split.
    { unfold duplicate_outcome. revert Ht. unfold is_terminal.
      by destruct (status_try_from (c_status c)) as [[]|]. }
    unfold settle_recipient. rewrite Hv. simpl. rewrite Hk. simpl.
    eapply moves_aside; [exact Ha1|]. split_and!; [done| |simpl; congruence|].
    + by apply quiet_same_broker.
    + destruct Hq2 as [-> _]. by rewrite app_nil_r.
  - pose proof (first_contact_works r (cells w) w2 Hw2 Hr Hv Hk) as Hf.
    specialize (Hf (eq_sym Hc2)). destruct (filter_and_send _ _ _ _ _ _ _ w2) as [o w'].
    destruct Hf as [Ho (Hw' & Hb & Hc' & Hs)]. split; [by destruct o|].
    eapply moves_aside; [exact Ha1|]. destruct Hq2 as (Hs2 & Hq2).
    split_and!; [done| |done|congruence]. etransitivity; [|exact Hb]. by destruct Hq2.
Qed.

(** Whatever the recipient, its task returns on its first turn. *)
Lemma turn_works r w :
  up w → r ∈ eo_recipients opts → clean (cells w) →
  let '(c, w') := recipient_iteration ctx cfg event opts r atts kept_copies 0 0 w in
  c = None ∧ moves w w' (settle_recipient (cells w, []) r) ∧ clean (cells w').
Proof.
  intros Hw Hr Hclean. pose proof (clean_settle (cells w) r Hr Hclean) as Hclean'.
  unfold recipient_iteration. destruct (is_valid_email (r_email r)) eqn:Hv.
  - run_st. pose proof (attempt_works r w Hw Hr Hv Hclean) as Hat.
    destruct (process_recipient _ _ _ _ _ _ w) as [o w1]. destruct Hat as [Ho Hmv].
    assert (Hclean1 : clean (cells w1)) by (destruct Hmv as (_ & _ & -> & _); done).
    by destruct o.
  - assert (Hk : cells w !! row_of (r_email r) = None).
    { apply eq_None_not_Some. intros [c Hc]. destruct (Hclean r c Hr Hc). congruence. }
    unfold process_recipient. rewrite Hv. run_st.
    destruct (hy_failed Hup (r_email r)
      (app_error_to_string (permanent_mailer ("invalid recipient email address: " +:+ r_email r)))
      true w Hw) as [_ Hw'].
    unfold note_failure. run_st. destruct (mark_failed _ _ _ _ w) as [x w1] eqn:Hm. simpl in *.
    pose proof (absent_row_stays _ _ _ _ _ _ Hk Hm) as Hc. apply mark_failed_law in Hm as [Hq _].
    unfold settle_recipient in *. rewrite Hv in *. simpl in *. split; [done|]. rewrite Hc.
    split; [|done]. split_and!; [done|by apply quiet_same_broker|done|].
    destruct Hq as [-> _]. by rewrite app_nil_r.
Qed.
(** ** All tasks under a schedule *)

(** The recipients in the order the schedule first gives them a turn. *)
Fixpoint turn_order (sched : list nat) (tasks : list Task) : list Recipient :=
  match sched with
  | [] => []
  | i :: sched =>
      match tasks !! i with
      | Some (r, Some _) => r :: turn_order sched (<[i := (r, None)]> tasks)
      | _ => turn_order sched tasks
      end
  end.

Definition waiting (tasks : list Task) : list Recipient :=
  omap (λ t : Task, match t.2 with Some _ => Some t.1 | None => None end) tasks.

Definition untried (t : Task) : Prop :=
  t.1 ∈ eo_recipients opts ∧ (t.2 = None ∨ t.2 = Some (0, 0)).

(** The schedule names every task still running. *)
Definition covers (sched : list nat) (tasks : list Task) : Prop :=
  ∀ i r c, tasks !! i = Some (r, Some c) → i ∈ sched.

Lemma waiting_insert tasks i r c :
  tasks !! i = Some (r, Some c) → waiting tasks ≡ₚ r :: waiting (<[i := (r, None)]> tasks).
Proof.
  revert i. induction tasks as [|t tasks IH]; intros [|i]; [done..| |].
  - by intros [= ->].
  - intros Hi. specialize (IH i Hi). simpl. unfold waiting in *. simpl.
    destruct t as [r' [c'|]]; simpl; [|exact IH]. rewrite IH. by constructor.
Qed.

Lemma waiting_nil tasks : waiting tasks = [] ↔ all_joined tasks = true.
Proof.
  unfold waiting, all_joined. induction tasks as [|[r [c|]] tasks IH]; simpl; naive_solver.
Qed.

Lemma waiting_start rs : waiting (start_tasks rs) = rs.
Proof. induction rs as [|r rs IH]; [done|]. unfold waiting in *. simpl. f_equal. exact IH. Qed.

Lemma turn_order_all sched tasks : covers sched tasks → turn_order sched tasks ≡ₚ waiting tasks.
Proof.
  revert tasks. induction sched as [|i sched IH]; intros tasks Hcov; simpl.
  - assert (waiting tasks = []) as ->; [|done]. apply waiting_nil. unfold all_joined.
    apply forallb_forall. intros [r [c|]] Hin; [|done]. apply list_elem_of_In in Hin.
    apply list_elem_of_lookup in Hin as [j Hj]. by apply Hcov, not_elem_of_nil in Hj.
  - destruct (tasks !! i) as [[r [c|]]|] eqn:Hi.
    + rewrite (waiting_insert _ _ _ _ Hi). constructor. apply IH. intros j r' c'.
      rewrite list_lookup_insert. case_decide as Hj; [by intros [=]|]. intros Ht.
      apply Hcov in Ht as [->|]%elem_of_cons; [|done]. destruct Hj. split; [done|].
      by eapply lookup_lt_Some.
    + apply IH. intros j r' c' Ht. pose proof (Hcov _ _ _ Ht) as [->|]%elem_of_cons; [congruence|done].
    + apply IH. intros j r' c' Ht. pose proof (Hcov _ _ _ Ht) as [->|]%elem_of_cons; [congruence|done].
Qed.

Lemma settle_app m msgs r :
  settle_recipient (m, msgs) r
  = ((settle_recipient (m, []) r).1, msgs ++ (settle_recipient (m, []) r).2).
Proof.
  unfold settle_recipient. simpl. destruct (negb _); [by rewrite app_nil_r|].
  destruct (m !! _); [by rewrite app_nil_r|].
  destruct (reason_to_block _); [by rewrite app_nil_r|done].
Qed.

Lemma settle_all_app l m msgs :
  fold_left settle_recipient l (m, msgs)
  = ((fold_left settle_recipient l (m, [])).1,
     msgs ++ (fold_left settle_recipient l (m, [])).2).
Proof.
  revert m msgs. induction l as [|r l IH]; intros m msgs; cbn [fold_left]; [by rewrite app_nil_r|].
  rewrite settle_app. destruct (settle_recipient (m, []) r) as [m1 s1]. cbn [fst snd].
  rewrite IH, (IH m1 s1). simpl. by rewrite app_assoc.
Qed.

(** The tasks run one after the other, in the order of their first turns, as
    far as the log and the mail can tell. *)
Lemma schedule_works sched tasks w :
  up w → clean (cells w) → Forall untried tasks → covers sched tasks →
  let '(tasks', w') := run_schedule ctx cfg sched event opts atts kept_copies tasks w in
  all_joined tasks' = true
  ∧ moves w w' (fold_left settle_recipient (turn_order sched tasks) (cells w, [])).
Proof.
  revert tasks w. induction sched as [|i sched IH]; intros tasks w Hw Hclean Hun Hcov; cbn [run_schedule turn_order].
  - split; [|by split_and!; rewrite ?app_nil_r]. apply waiting_nil. pose proof (turn_order_all [] tasks Hcov) as Hp.
    by apply Permutation_nil_l in Hp.
  - assert (Hskip : (∀ r c, tasks !! i ≠ Some (r, Some c)) → covers sched tasks).
    { intros Hne j r c Ht. pose proof (Hcov _ _ _ Ht) as [->|]%elem_of_cons; [by destruct (Hne r c)|done]. }
    destruct (tasks !! i) as [[r [c|]]|] eqn:Hi; [| |by apply IH; [..|apply Hskip]].
    + destruct (Forall_lookup_1 _ _ _ _ Hun Hi) as [Hr [?|[= ->]]]; [done|]. simpl in Hr.
      cbn [run_task]. run_st. pose proof (turn_works r w Hw Hr Hclean) as Ht.
      destruct (recipient_iteration _ _ _ _ _ _ _ _ _ w) as [c' w1].
      destruct Ht as (-> & (Hw1 & Hb1 & Hc1 & Hs1) & Hclean1).
      assert (Hun1 : Forall untried (<[i := (r, None)]> tasks)).
      { apply Forall_insert; [done|]. split; [done|by left]. }
      specialize (IH (<[i := (r, None)]> tasks) w1 Hw1 Hclean1 Hun1).
      destruct (run_schedule _ _ _ _ _ _ _ _ w1) as [tasks' w2]. destruct IH as (Hj & Hw2 & Hb2 & Hc2 & Hs2).
      { intros j r' c'. rewrite list_lookup_insert. case_decide as Hj; [by intros [=]|]. intros Ht.
        apply Hcov in Ht as [->|]%elem_of_cons; [|done]. destruct Hj. split; [done|].
        by eapply lookup_lt_Some. }
      split; [done|]. cbn [fold_left].
      destruct (settle_recipient (cells w, []) r) as [m1 s1]. simpl in Hc1, Hs1.
      rewrite settle_all_app, <- Hc1. split_and!; [done|by etransitivity|done|].
      simpl. by rewrite Hs2, Hs1, app_assoc.
    + run_st. rewrite list_insert_id by done. apply IH; [done..|]. apply Hskip. congruence.
Qed.
(** ** What was delivered *)

Definition wanted (email : string) : bool :=
  is_valid_email email && match reason_to_block email with None => true | Some _ => false end.

(** From the log [m], delivering to [to] ends in the log [m'] and mails [msgs]:
    the event's rows that were there are as they were, every valid address has
    its row, and there is one accepted message for each address that had none
    and is not blocked. *)
Record delivered (to : list Recipient) (m m' : gmap Key Cell) (msgs : list SendRecord) : Prop := {
  dl_old email : is_Some (m !! row_of email) → m' !! row_of email = m !! row_of email;
  dl_new email : m !! row_of email = None →
    m' !! row_of email
    = (if existsb (λ r, String.eqb (r_email r) email) to && is_valid_email email
       then Some (first_row email) else None);
  dl_messages : ∃ rs, msgs = map (λ r, mkSendRecord transport (mail_to r) true) rs
    ∧ NoDup (map r_email rs) ∧ (∀ r, r ∈ rs → r ∈ to)
    ∧ ∀ email, email ∈ map r_email rs ↔
        email ∈ map r_email to ∧ wanted email = true ∧ m !! row_of email = None;
}.

(** The rows of other events are as they were. *)
Definition only_event (m m' : gmap Key Cell) : Prop :=
  ∀ k, k.1 ≠ ne_event_id event → m' !! k = m !! k.

Lemma delivered_nil m : delivered [] m m [].
Proof.
  constructor; [done| |].
  - intros email ->. done.
  - exists []. split_and!; [done|constructor|done|]. intros email. simpl. set_solver.
Qed.

Lemma existsb_email to email :
  existsb (λ r, String.eqb (r_email r) email) to = true ↔ email ∈ map r_email to.
Proof.
  rewrite existsb_exists, list_elem_of_fmap. split.
  - intros (r & Hin & <-%String.eqb_eq). exists r. by rewrite list_elem_of_In.
  - intros (r & -> & Hin). exists r. by rewrite String.eqb_refl, <- list_elem_of_In.
Qed.

Lemma existsb_snoc to r email :
  existsb (λ r, String.eqb (r_email r) email) (to ++ [r])
  = existsb (λ r, String.eqb (r_email r) email) to || String.eqb (r_email r) email.
Proof. rewrite existsb_app. simpl. by rewrite orb_false_r. Qed.

Lemma email_snoc to r email :
  email ∈ map r_email (to ++ [r]) ↔ email ∈ map r_email to ∨ email = r_email r.
Proof. rewrite map_app. simpl. set_solver. Qed.

(** A further recipient that changes nothing: its address is invalid, or has
    its row and is among the others unless it had it before. *)
Lemma delivered_skip to m m1 msgs r :
  delivered to m m1 msgs →
  is_valid_email (r_email r) = false
  ∨ (m !! row_of (r_email r) = None → r_email r ∈ map r_email to) →
  delivered (to ++ [r]) m m1 msgs.
Proof.
  intros [Hold Hnew (rs & -> & Hnd & Hto & Hiff)] Hr. constructor; [done| |].
  - intros email Hm. rewrite Hnew, existsb_snoc by done.
    destruct (String.eqb_spec (r_email r) email) as [<-|]; [|by rewrite orb_false_r].
    destruct Hr as [->|Hr]; [by rewrite !andb_false_r|]. apply Hr, existsb_email in Hm. by rewrite Hm.
  - exists rs. split_and!; [done..|intros; apply elem_of_app; left; auto|].
    intros email. rewrite email_snoc, Hiff. split; [naive_solver|].
    intros ([?| ->] & Hw & ?); [done|]. destruct Hr as [Hv|Hr]; [|by auto].
    unfold wanted in Hw. by rewrite Hv in Hw.
Qed.

(** ... and one that is new to the event. *)
Lemma delivered_fresh to m m1 msgs r :
  delivered to m m1 msgs →
  is_valid_email (r_email r) = true → m !! row_of (r_email r) = None → r_email r ∉ map r_email to →
  delivered (to ++ [r]) m (<[row_of (r_email r) := first_row (r_email r)]> m1)
    (if wanted (r_email r) then msgs ++ [mkSendRecord transport (mail_to r) true] else msgs).
Proof.
  intros [Hold Hnew (rs & -> & Hnd & Hto & Hiff)] Hv Hm Hfresh. constructor.
  - intros email Hs. rewrite lookup_insert_ne; [by apply Hold|]. intros [= <-]. rewrite Hm in Hs. by destruct Hs.
  - intros email He. rewrite lookup_insert, existsb_snoc. case_decide as Heq.
    + injection Heq as <-. by rewrite String.eqb_refl, orb_true_r, Hv.
    + destruct (String.eqb_spec (r_email r) email) as [<-|]; [done|]. by rewrite orb_false_r, Hnew.
  - destruct (wanted (r_email r)) eqn:Hw.
    + exists (rs ++ [r]). rewrite !map_app. split_and!; [done| | |].
      * apply NoDup_app. split_and!; [done| |apply NoDup_singleton].
        intros x Hx ->%list_elem_of_singleton. by apply Hiff in Hx as [? _].
      * intros r' [?| ->%list_elem_of_singleton]%elem_of_app; apply elem_of_app; [left; auto|].
        right. by constructor.
      * intros email. rewrite <- (map_app r_email to [r]), email_snoc, elem_of_app, Hiff.
        simpl. rewrite list_elem_of_singleton. split; [|naive_solver].
        intros [?| ->]; [naive_solver|]. auto.
    + exists rs. split_and!; [done..|intros; apply elem_of_app; left; auto|].
      intros email. rewrite email_snoc, Hiff. split; [naive_solver|].
      intros ([?| ->] & Hw' & ?); [done|congruence].
Qed.

Lemma delivered_snoc to m m1 msgs r :
  delivered to m m1 msgs →
  delivered (to ++ [r]) m (settle_recipient (m1, msgs) r).1 (settle_recipient (m1, msgs) r).2.
Proof.
  intros Hd. pose proof (dl_old _ _ _ _ Hd (r_email r)) as Hold.
  pose proof (dl_new _ _ _ _ Hd (r_email r)) as Hnew.
  unfold settle_recipient. simpl. destruct (is_valid_email (r_email r)) eqn:Hv; simpl.
  2: { apply delivered_skip; [done|by left]. }
  destruct (m1 !! row_of (r_email r)) as [c|] eqn:Hk.
  - apply delivered_skip; [done|]. right. intros Hn. specialize (Hnew Hn).
    apply existsb_email. by destruct (existsb _ to).
  - assert (Hm : m !! row_of (r_email r) = None).
    { apply eq_None_not_Some. intros Hs. specialize (Hold Hs). rewrite <- Hold in Hs. by destruct Hs. }
    assert (Hfresh : r_email r ∉ map r_email to).
    { rewrite <- existsb_email. intros He. specialize (Hnew Hm). by rewrite He in Hnew. }
    pose proof (delivered_fresh _ _ _ _ _ Hd Hv Hm Hfresh) as Hf. unfold wanted in Hf. rewrite Hv in Hf.
    by destruct (reason_to_block (r_email r)).
Qed.

Lemma settle_all_delivered to m :
  delivered to m (fold_left settle_recipient to (m, [])).1 (fold_left settle_recipient to (m, [])).2.
Proof.
  induction to as [|r to IH] using rev_ind; [apply delivered_nil|].
  rewrite fold_left_app. simpl. destruct (fold_left settle_recipient to (m, [])) as [m1 s1].
  by apply delivered_snoc.
Qed.

Lemma settle_all_only to st : only_event st.1 (fold_left settle_recipient to st).1.
Proof.
  revert st. induction to as [|r to IH]; intros st k Hk; [done|]. cbn [fold_left].
  rewrite (IH _ k Hk). unfold settle_recipient. destruct (negb _); [done|].
  destruct (st.1 !! row_of _); [done|]. simpl. rewrite lookup_insert_ne; [done|]. by intros <-.
Qed.

Lemma delivered_perm to to' m m' msgs : to ≡ₚ to' → delivered to m m' msgs → delivered to' m m' msgs.
Proof.
  intros Hp [Hold Hnew (rs & -> & Hnd & Hto & Hiff)].
  assert (Hmem : ∀ email, email ∈ map r_email to ↔ email ∈ map r_email to') by (intros; by rewrite Hp).
  constructor; [done| |].
  - intros email Hk. rewrite Hnew by done.
    assert (existsb (λ r, String.eqb (r_email r) email) to = existsb (λ r, String.eqb (r_email r) email) to') as ->; [|done].
    apply eq_true_iff_eq. by rewrite !existsb_email.
  - exists rs. split_and!; [done..| |].
    + intros r ?. rewrite <- Hp. auto.
    + intros email. by rewrite <- Hmem.
Qed.

(** Only the event's own rows matter. *)
Lemma delivered_ext to m1 m2 m1' m2' msgs :
  (∀ email, m2 !! row_of email = m1 !! row_of email) →
  (∀ email, m2' !! row_of email = m1' !! row_of email) →
  delivered to m1 m1' msgs → delivered to m2 m2' msgs.
Proof.
  intros He He' [Hold Hnew (rs & -> & Hnd & Hto & Hiff)]. constructor.
  - intros email. rewrite He, He'. auto.
  - intros email. rewrite He, He'. auto.
  - exists rs. split_and!; [done..|]. intros email. by rewrite Hiff, He.
Qed.

(** ** A whole delivery *)

Lemma deferred_until_untouched : keeps untouched (deferred_until opts).
Proof.
  intros w. unfold deferred_until, next_tick. by destruct (eo_send_at opts).
Qed.

Lemma filter_cc_bcc_aside : keeps aside (filter_cc_bcc ctx opts).
Proof. apply filter_cc_bcc_keeps; [apply _|]. apply block_check_aside. Qed.

Lemma dispatch_works fuel sched w :
  eo_send_mode opts = SendMode.Individual → up w → clean (cells w) →
  (∀ i, (i < length (eo_recipients opts))%nat → i ∈ sched) →
  let '(res, w') := dispatch ctx cfg fuel sched event opts atts kept_copies w in
  res = Some tt
  ∧ up w' ∧ same_broker w w'
  ∧ ∃ msgs, w_sends w' = w_sends w ++ msgs
            ∧ delivered (eo_recipients opts) (cells w) (cells w') msgs
            ∧ only_event (cells w) (cells w').
Proof.
  intros Hmode Hw Hclean Hcov. unfold dispatch. rewrite Hmode. unfold spawn_and_join. run_st.
  set (tasks := start_tasks (eo_recipients opts)).
  assert (Hcovers : covers sched tasks).
  { intros i r c Hi%lookup_lt_Some. apply Hcov. unfold tasks, start_tasks in Hi. by rewrite length_map in Hi. }
  assert (Hun : Forall untried tasks).
  { apply Forall_forall. intros t (r & -> & Hr)%list_elem_of_fmap. split; [done|by right]. }
  pose proof (schedule_works sched tasks w Hw Hclean Hun Hcovers) as Hrun.
  destruct (run_schedule _ _ _ _ _ _ _ _ w) as [tasks' w']. destruct Hrun as (Hj & Hw' & Hb & Hc & Hs).
  rewrite Hj. split_and!; [done..|]. eexists. split; [exact Hs|].
  pose proof (turn_order_all sched tasks Hcovers) as Hp. unfold tasks in Hp at 2. rewrite waiting_start in Hp.
  rewrite Hc. split; [apply (delivered_perm _ _ _ _ _ Hp), settle_all_delivered|].
  apply (settle_all_only _ (cells w, [])).
Qed.

(** A healthy environment carries an event as far as its dispatch, and
    acknowledges the delivery after it. *)
Lemma handle_dispatches (Hbase : healthy_base) fuel sched data w :
  sendable cfg data event opts → up w →
  ∃ w1, up w1 ∧ cells w1 = cells w ∧ w_sends w1 = w_sends w ∧ w_amqp w1 = w_amqp w
    ∧ handle_delivery ctx cfg fuel sched data w
      = (let! done := dispatch ctx cfg fuel sched event opts atts kept_copies in
         match done with None => st_ret None | Some _ => ack ;;! st_ret (Some tt) end) w1.
Proof.
  intros Hs Hw. rewrite (sendable_delivery _ _ _ _ _ _ _ _ Hs). run_st.
  destruct (hy_due Hbase w Hw) as [Hdue Hw1]. pose proof (deferred_until_untouched w) as (Hs1 & Ha1 & Hd1).
  destruct (deferred_until opts w) as [due w1]. simpl in Hdue, Hw1, Hs1, Ha1, Hd1. subst due.
  unfold deliver_now. run_st. destruct (hy_attachments Hbase w1 Hw1) as [Hatt Hw2].
  pose proof (fetch_event_untouched cfg event opts w1) as (Hs2 & Ha2 & Hd2).
  destruct (fetch_event_attachments cfg event opts w1) as [fetched w2]. simpl in Hatt, Hw2, Hs2, Ha2, Hd2. subst fetched.
  run_st. destruct (filter_cc_bcc_exact ctx up verdict (λ email w Hw, hy_check Hbase email w Hw) opts w2 Hw2)
    as [Hcc Hw3].
  pose proof (filter_cc_bcc_aside w2) as Ha3.
  destruct (filter_cc_bcc ctx opts w2) as [ccbcc w3]. simpl in Hcc, Hw3, Ha3. fold kept_copies in Hcc. subst ccbcc.
  pose proof (aside_cells _ _ Ha3) as Hc3. destruct Ha3 as [(Hs3 & Hq3 & _) _].
  exists w3. split_and!; [done| |congruence..|done].
  rewrite Hc3. apply cells_same_log. unfold same_log. by rewrite Hd2, Hd1.
Qed.

(** The probe of a group delivery reads, and changes nothing. *)
Lemma probe_works (Hbase : healthy_base) w :
  up w → let w' := (probe_retry event opts w).2 in
  up w' ∧ quiet w w' ∧ cells w' = cells w.
Proof.
  intros Hw. unfold probe_retry.
  destruct (eo_group_retry_mode opts), (eo_recipients opts) as [|primary rest]; try by split_and!.
  run_st. destruct (hy_read Hbase (r_email primary) w Hw) as [_ Hw1].
  destruct (get_by_event_and_recipient _ _ w) as [r w1] eqn:Hg. simpl in *.
  by apply get_by_event_and_recipient_law in Hg as (? & ? & _).
Qed.

(** In a healthy environment a delivery of an event in individual mode is
    carried through, under every schedule that gives each task a turn: it is
    acknowledged, every valid address has its row, and the messages mailed are
    exactly one per valid, unblocked address that had no row, all accepted. *)
Lemma handle_works fuel sched data w :
  sendable cfg data event opts → eo_send_mode opts = SendMode.Individual →
  up w → clean (cells w) →
  (∀ i, (i < length (eo_recipients opts))%nat → i ∈ sched) →
  let '(res, w') := handle_delivery ctx cfg fuel sched data w in
  res = Some tt
  ∧ up w' ∧ w_amqp w' = w_amqp w ++ [BasicAck]
  ∧ ∃ msgs, w_sends w' = w_sends w ++ msgs
            ∧ delivered (eo_recipients opts) (cells w) (cells w') msgs
            ∧ only_event (cells w) (cells w').
Proof.
  intros Hs Hmode Hw Hclean Hcov.
  destruct (handle_dispatches Hup fuel sched data w Hs Hw) as (w1 & Hw1 & Hc1 & Hs1 & Ha1 & ->).
  pose proof (dispatch_works fuel sched w1 Hmode Hw1) as Hd. rewrite Hc1 in Hd.
  specialize (Hd Hclean Hcov). run_st.
  destruct (dispatch _ _ _ _ _ _ _ _ w1) as [res w2].
  destruct Hd as (-> & Hw2 & [Hb2 _] & msgs & Hs2 & Hdel & Honly). unfold ack. run_st.
  split_and!; [done|by apply (hy_ack Hup)|congruence|]. exists msgs. split; [congruence|].
  by rewrite (cells_same_log w2 (log_frame BasicAck w2)).
Qed.
(** ** A redelivery *)

(** Every valid address has its row. *)
Definition all_known (m : gmap Key Cell) : Prop :=
  ∀ r, r ∈ eo_recipients opts → is_valid_email (r_email r) = true → is_Some (m !! row_of (r_email r)).

Lemma delivered_clean m m' msgs :
  clean m → delivered (eo_recipients opts) m m' msgs → clean m' ∧ all_known m'.
Proof.
  intros Hclean [Hold Hnew _]. split.
  - intros r c Hr Hk. destruct (m !! row_of (r_email r)) as [c0|] eqn:Hm.
    + rewrite Hold, Hm in Hk by done. injection Hk as ->. by apply (Hclean r).
    + rewrite Hnew in Hk by done. destruct (is_valid_email (r_email r)); [|by rewrite andb_false_r in Hk].
      rewrite andb_true_r in Hk. case_match; [|done]. injection Hk as <-. split; [|done].
      unfold first_row. by destruct (reason_to_block _).
  - intros r Hr Hv. destruct (m !! row_of (r_email r)) as [c0|] eqn:Hm; [by rewrite Hold, Hm|].
    rewrite Hnew, Hv by done.
    assert (existsb (λ r', String.eqb (r_email r') (r_email r)) (eo_recipients opts) = true) as ->; [|done].
    apply existsb_email, list_elem_of_fmap. by exists r.
Qed.

Lemma delivered_known m m' msgs :
  all_known m → delivered (eo_recipients opts) m m' msgs → only_event m m' → m' = m ∧ msgs = [].
Proof.
  intros Hall [Hold Hnew (rs & -> & _ & Hto & Hiff)] Hother. split.
  - apply map_eq. intros [e email]. destruct (decide (e = ne_event_id event)) as [->|]; [|by apply Hother].
    destruct (m !! _) as [c|] eqn:Hm; [rewrite <- Hm; apply (Hold email); unfold row_of; by rewrite Hm|].
    fold (row_of email) in *. rewrite Hnew by done.
    destruct (existsb _ _) eqn:He, (is_valid_email email) eqn:Hv; try done. exfalso.
    apply existsb_email, list_elem_of_fmap in He as (r & -> & Hr).
    destruct (Hall r Hr Hv) as [c Hc]. congruence.
  - destruct rs as [|r rs]; [done|]. exfalso.
    assert (r_email r ∈ map r_email (r :: rs)) as Hin by (simpl; constructor).
    apply Hiff in Hin as (_ & [Hv _]%andb_prop & Hn).
    destruct (Hall r) as [c Hc]; [apply Hto; constructor|done|congruence].
Qed.

(** A delivery whose addresses are all known: one acknowledgement, nothing else. *)
Lemma known_delivery fuel sched data w :
  sendable cfg data event opts → eo_send_mode opts = SendMode.Individual →
  up w → clean (cells w) → all_known (cells w) →
  (∀ i, (i < length (eo_recipients opts))%nat → i ∈ sched) →
  let '(res, w') := handle_delivery ctx cfg fuel sched data w in
  res = Some tt ∧ up w' ∧ w_amqp w' = w_amqp w ++ [BasicAck] ∧ w_sends w' = w_sends w ∧ cells w' = cells w.
Proof.
  intros Hs Hmode Hw Hclean Hall Hcov.
  pose proof (handle_works fuel sched data w Hs Hmode Hw Hclean Hcov) as Hh.
  destruct (handle_delivery _ _ fuel sched data w) as [res w1].
  destruct Hh as (-> & Hw1 & Ha & msgs & Hs1 & Hd & Ho).
  destruct (delivered_known _ _ _ Hall Hd Ho) as [Hc ->]. rewrite app_nil_r in Hs1. by split_and!.
Qed.

(** Delivering the same bytes again: one more acknowledgement, nothing else. *)
Lemma redelivery_works fuel sched fuel' sched' data w :
  sendable cfg data event opts → eo_send_mode opts = SendMode.Individual →
  up w → clean (cells w) →
  (∀ i, (i < length (eo_recipients opts))%nat → i ∈ sched ∧ i ∈ sched') →
  let '(_, w1) := handle_delivery ctx cfg fuel sched data w in
  let '(res, w2) := handle_delivery ctx cfg fuel' sched' data w1 in
  res = Some tt ∧ w_amqp w2 = w_amqp w1 ++ [BasicAck]
  ∧ w_sends w2 = w_sends w1 ∧ cells w2 = cells w1.
Proof.
  intros Hs Hmode Hw Hclean Hcov.
  pose proof (handle_works fuel sched data w Hs Hmode Hw Hclean (λ i Hi, proj1 (Hcov i Hi))) as H1'.
  destruct (handle_delivery _ _ fuel sched data w) as [res1 w1].
  destruct H1' as (_ & Hw1 & _ & msgs1 & _ & Hd1 & _).
  destruct (delivered_clean _ _ _ Hclean Hd1) as [Hclean1 Hall].
  pose proof (known_delivery fuel' sched' data w1 Hs Hmode Hw1 Hclean1 Hall (λ i Hi, proj2 (Hcov i Hi))) as H2'.
  destruct (handle_delivery _ _ fuel' sched' data w1) as [res2 w2]. destruct H2' as (-> & _ & ? & ? & ?). by split_and!.
Qed.
End healthy.
