(* ===== verification/HealthyStore.v ===== *)
(** * A healthy service on its own stores

    [Healthy]'s assumptions discharged for the service's stores: it is enough
    that the database answers, that generated ids are new, that the rate
    limiter hands out tokens, and that the transport accepts the messages of
    the event; the log's constraints, the template's row and the caches are
    then kept through the whole delivery. *)

From S2P Require Import Prelude Json AppErr EmailValidation Event World Interfaces Filter.
From S2P Require Import LogStore LogInvariant BlockList TemplateStore Mailer Fetcher.
From S2P Require Import Processor ProcessorSpec GroupSpec Delivery Loops AtMostOnce Settle Healthy.

(** ** What the operations of the log leave alone *)

(** The templates, the block list and the caches stay, and time goes on. *)
Definition beside (w w' : World) : Prop :=
  db_templates (w_db w') = db_templates (w_db w) ∧ db_blocks (w_db w') = db_blocks (w_db w)
  ∧ w_tpl_cache w' = w_tpl_cache w ∧ w_block_cache w' = w_block_cache w
  ∧ (w_tick w <= w_tick w')%nat.

#[export] Instance beside_preorder : PreOrder beside.
Proof.
  split; [by intros w|]. intros w1 w2 w3 (?&?&?&?&?) (?&?&?&?&?). split_and!; (congruence || lia).
Qed.

(** The tables stay too. *)
Definition calm (w w' : World) : Prop := beside w w' ∧ w_db w' = w_db w.

#[export] Instance calm_preorder : PreOrder calm.
Proof. split; [by intros w|]. intros w1 w2 w3 [] []. split; [by etransitivity|congruence]. Qed.

Section beside.
Context `{Env}.

(** A query the database answers. *)
Lemma query_answered {A} (stmt : nat → Db → result (A * Db) string) w :
  db_err (w_tick w) = None →
  query stmt w
  = match stmt (w_tick w) (w_db w) with
    | Ok (a, d) => (Ok a, set_db d (set_tick (S (w_tick w)) w))
    | Err e => (Err (AppError.Database e), set_tick (S (w_tick w)) w)
    end.
Proof. intros Hup. unfold query, next_tick. run_st. by rewrite Hup. Qed.

Lemma tick_calm : keeps calm next_tick.
Proof. intros w. split; [|done]. split_and!; simpl; (done || lia). Qed.

Lemma send_calm s msg : keeps calm (send s msg).
Proof.
  assert (Hh : ∀ s msg answer, keeps calm (hand_over s msg answer)).
  { intros s' msg' answer w. unfold hand_over. run_st. split; [|done]. split_and!; simpl; (done || lia). }
  destruct s as [host fe fn|url tok]; simpl; unfold smtp_send, webhook_send; [|apply Hh].
  destruct (smtp_compose fe fn msg); [apply Hh|apply keeps_ret, _].
Qed.

Lemma token_calm rl : keeps calm (acquire_rate_limit_token rl).
Proof.
  assert (Hw : keeps calm (wait_for_token rl)).
  { unfold wait_for_token. destruct rl; [|apply keeps_ret, _].
    apply keeps_bind; [apply _|apply tick_calm|]. intros t. destruct (token_available t); [apply keeps_ret, _|].
    apply keeps_bind; [apply _|apply tick_calm|]. intros t'. apply keeps_ret, _. }
  apply keeps_bind; [apply _|exact Hw|]. intros []; apply keeps_ret, _.
Qed.

Lemma deferred_calm opts : keeps calm (deferred_until opts).
Proof.
  unfold deferred_until. destruct (eo_send_at opts); [|apply keeps_ret, _].
  apply keeps_bind; [apply _|apply tick_calm|]. intros t. apply keeps_ret, _.
Qed.

Lemma sleep_calm ms : keeps calm (sleep_or_shutdown ms).
Proof. intros w. split; [|done]. split_and!; simpl; (done || lia). Qed.

Lemma cancelled_calm : keeps calm is_cancelled.
Proof. apply keeps_bind; [apply _|apply tick_calm|]. intros t. apply keeps_ret, _. Qed.

Lemma fetch_attempts_calm a m attempt n last : keeps calm (fetch_attempts a m attempt n last).
Proof.
  revert attempt last. induction n as [|n IH]; intros attempt last; cbn [fetch_attempts]; [apply keeps_ret, _|].
  apply keeps_bind; [apply _|apply cancelled_calm|]. intros [|]; [apply keeps_ret, _|].
  apply keeps_bind; [apply _|destruct attempt; [apply keeps_ret, _|apply sleep_calm]|].
  intros [|]; [|apply keeps_ret, _]. simpl. apply keeps_bind; [apply _| |].
  - apply keeps_bind; [apply _|apply tick_calm|]. intros t. apply keeps_ret, _.
  - intros [d|e]; [apply keeps_ret, _|]. destruct (is_permanent_mailer e); [apply keeps_ret, _|apply IH].
Qed.

Lemma validate_all_calm refs ts : keeps calm (validate_all refs ts).
Proof.
  induction refs as [|a refs IH]; [apply keeps_ret, _|]. cbn [validate_all].
  apply keeps_bind; [apply _|apply tick_calm|]. intros t.
  destruct (attachment_validate _ _ _); [|apply keeps_ret, _].
  apply keeps_bind; [apply _|apply cancelled_calm|]. intros [|]; [apply keeps_ret, _|exact IH].
Qed.

Lemma fetch_calm cfg event opts : keeps calm (fetch_event_attachments cfg event opts).
Proof.
  unfold fetch_event_attachments. destruct (eo_attachments opts) as [|a refs]; [apply keeps_ret, _|].
  apply keeps_try; [apply _|apply validate_all_calm|]. intros _.
  apply keeps_bind; [apply _| |intros; apply keeps_ret, _].
  generalize (a :: refs). intros l. induction l as [|b l IH]; [apply keeps_ret, _|]. cbn [fetch_all].
  apply keeps_bind; [apply _|apply fetch_attempts_calm|]. intros r.
  apply keeps_bind; [apply _|exact IH|]. intros rs. apply keeps_ret, _.
Qed.

(** An [UPDATE] of the log and the test of its row count. *)
Lemma update_beside (stmt : nat → Db → result (Z * Db) string) msg :
  (∀ t d n d', stmt t d = Ok (n, d') →
     db_templates d' = db_templates d ∧ db_blocks d' = db_blocks d) →
  keeps beside (let? n := query stmt in require_row n msg).
Proof.
  intros Hst. apply keeps_try; [apply _| |].
  - intros w. unfold query, next_tick. run_st. destruct (db_err _); [split_and!; simpl; (done || lia)|].
    simpl. destruct (stmt _ _) as [[n d]|e] eqn:He; [|split_and!; simpl; (done || lia)].
    apply Hst in He as [? ?]. split_and!; simpl; (done || lia).
  - intros n. unfold require_row. destruct (n =? 0); apply keeps_ret, _.
Qed.

Lemma mark_sent_beside e rid : keeps beside (email_mark_sent e rid).
Proof. apply update_beside. intros t d n d'. case_match; [done|]. by intros [= _ <-]. Qed.

Lemma mark_blocked_beside e rid reason : keeps beside (email_mark_blocked e rid reason).
Proof. apply update_beside. by intros t d n d' [= _ <-]. Qed.

Lemma mark_failed_beside e rid msg ex : keeps beside (email_mark_failed e rid msg ex).
Proof. apply update_beside. intros t d n d'. case_match; [done|]. by intros [= _ <-]. Qed.

(** ** Ids to come are new *)

Definition ids_new (w : World) : Prop :=
  ∀ r t, r ∈ db_log (w_db w) → (w_tick w <= t)%nat → lr_id r ≠ fresh_uuid t.

(** Operations that only update rows keep the ids. *)
Lemma same_ids_new w w' :
  map lr_id (db_log (w_db w')) = map lr_id (db_log (w_db w)) → (w_tick w <= w_tick w')%nat →
  ids_new w → ids_new w'.
Proof.
  intros Hids Ht Hnew r t Hr Hle.
  assert (lr_id r ∈ map lr_id (db_log (w_db w))) as (r0 & -> & Hr0)%list_elem_of_fmap.
  { rewrite <- Hids. apply list_elem_of_fmap. by exists r. }
  apply Hnew; [done|lia].
Qed.

Lemma update_ids (stmt : nat → Db → result (Z * Db) string) p f msg w :
  (∀ t d n d', stmt t d = Ok (n, d') → d' = set_log (update_where p (f t)) d) →
  (∀ t r, lr_id (f t r) = lr_id r) →
  map lr_id (db_log (w_db ((let? n := query stmt in require_row n msg) w).2))
  = map lr_id (db_log (w_db w)).
Proof.
  intros Hst Hf. run_st. destruct (query stmt w) as [[n|e] w1] eqn:Hq.
  - apply query_spec in Hq as [(?&?&?)|(n' & d & [= <-] & Hs%Hst & Hd & _)]; [done|].
    assert (Hmap : map lr_id (db_log (w_db w1)) = map lr_id (db_log (w_db w))).
    { rewrite Hd, Hs. simpl. unfold update_where. rewrite map_map. apply map_ext. intros r. by destruct (p r). }
    unfold require_row. by destruct (n =? 0).
  - apply query_spec in Hq as [(? & _ & Hd)|(?&?&?&_)]; [|done]. simpl. by rewrite Hd.
Qed.

End beside.

(** ** The assumptions, on the real stores *)

Section stores.
Context `{Env}.
Context `{Serialize Recipient, Serialize FromOverride, Serialize AttachmentRef}.
Context (ctx : ProcessorContext) (cfg : ConsumerConfig).
Context (event : NotificationEvent) (opts : EmailOptions).
Context (atts : list ResolvedAttachment) (p : Prepared).
Context (tpls : string → option NotificationTemplate) (snap : BlockListSnapshot).

(** The tables and the caches: [tpls] are the active templates, [snap] the
    block list. *)
Record ready (w : World) : Prop := {
  rd_log : log_wf (w_db w);
  rd_ids : ids_new w;
  rd_templates ty : find_active ty CHANNEL_EMAIL (w_db w) = tpls ty;
  rd_template_cache : tpl_cache_ok w;
  rd_blocks : snapshot_of (w_db w) = snap;
  rd_block_cache : block_cache_ok w;
}.

(** The transport takes [msg], whenever it is asked. *)
Definition accepts (s : EmailSender) (msg : EmailMessage) : Prop :=
  match s with
  | SmtpSender host from_email from_name =>
      ∃ mail, smtp_compose from_email from_name msg = Ok mail ∧ ∀ t, smtp_transport t host mail = None
  | WebhookSender url token =>
      ∀ t, ∃ resp, http_post t url token (webhook_body msg) = Ok resp ∧ is_success (hr_status resp) = true
  end.

Notation copies := (kept_copies ctx (snapshot_check snap) opts).
Notation message := (mail_to ctx (snapshot_check snap) event opts atts p).

(** What the outside has to answer for one event. *)
Record answers_base : Prop := {
  an_db t : db_err t = None;
  an_ids t t' : fresh_uuid t = fresh_uuid t' → t = t';
  an_token t : token_available t = true ∨ token_before_shutdown (S t) = true;
  an_due send_at t : eo_send_at opts = Some send_at → send_at ≤ clock t;
  an_attachments w : (fetch_event_attachments cfg event opts w).1 = Ok atts;
  an_from : check_from (pr_from p).1 = Ok tt ∧ pr_from p = resolve_from_override (eo_from_override opts);
  an_render : ∃ tpl, tpls (ne_event_type event) = Some tpl
    ∧ render_all_templates (nt_subject tpl) (nt_body_html tpl) (nt_body_text tpl) (ne_payload event)
      = Ok (pr_rendered p);
  an_fields : serialize_email_fields opts (ecb_cc copies) (ecb_bcc copies) = Ok (pr_fields p);
}.

(** ... and the transport for each recipient's message. *)
Record answers : Prop := {
  an_base :> answers_base;
  an_transport r : r ∈ eo_recipients opts → is_valid_email (r_email r) = true →
    accepts (transport ctx opts) (message r);
}.

Context (Hans : answers_base).

Lemma ready_beside w w' :
  beside w w' → log_wf (w_db w') → ids_new w' → ready w → ready w'.
Proof.
  intros (Ht & Hb & Htc & Hbc & _) Hwf Hids [_ _ Htpl Htplc Hbl Hblc].
  assert (Hfind : ∀ ty ch, find_active ty ch (w_db w') = find_active ty ch (w_db w)).
  { intros ty ch. unfold find_active. by rewrite Ht. }
  assert (Hsnap : snapshot_of (w_db w') = snapshot_of (w_db w)).
  { unfold snapshot_of, active_rows. by rewrite Hb. }
  constructor; [done|done|intros ty; by rewrite Hfind| |by rewrite Hsnap|].
  - intros ch ty t Hch. rewrite Htc, Hfind. by apply Htplc.
  - intros s. rewrite Hbc, Hsnap. apply Hblc.
Qed.

Lemma ready_calm w w' : calm w w' → ready w → ready w'.
Proof.
  intros [Hb Hd] Hw. apply (ready_beside w); [done|by rewrite Hd; apply Hw| |done].
  apply (same_ids_new w); [by rewrite Hd|by apply Hb|apply Hw].
Qed.

Lemma works_calm {A} (m : M A) (Q : A → Prop) :
  keeps calm m → (∀ w, Q (m w).1) → works ready m Q.
Proof. intros Hm HQ w Hw. split; [apply HQ|]. by apply (ready_calm w), Hw. Qed.

(** ** Each operation *)

Lemma check_works email :
  works ready (block_list_check email) (λ r, r = snapshot_check snap email).
Proof.
  intros w Hw. unfold block_list_check, BlockListStore, check. run_st.
  destruct (snapshot w) as [r w1] eqn:Hs.
  destruct (snapshot_spec _ _ _ Hs (rd_block_cache w Hw)) as (Hbc & Hd & Hr).
  assert (Hok : is_ok r = true ∧ w_tpl_cache w1 = w_tpl_cache w ∧ (w_tick w <= w_tick w1)%nat).
  { revert Hs. unfold snapshot, block_cache_get, next_tick. run_st.
    destruct (if cache_live _ then _ else _); [intros [= <- <-]; split_and!; simpl; (done || lia)|].
    rewrite query_answered by apply (an_db Hans). intros [= <- <-]. split_and!; simpl; (done || lia). }
  destruct Hok as (Hok & Htc & Ht). destruct r as [s|e]; [|done].
  destruct Hr as [[= ->]|[e ?]]; [|done]. simpl. rewrite (rd_blocks w Hw). split; [done|].
  constructor; [by rewrite Hd; apply Hw| | | |by rewrite Hd; apply Hw|done].
  - apply (same_ids_new w); [by rewrite Hd|done|apply Hw].
  - rewrite Hd. apply Hw.
  - intros ch ty t Hch. rewrite Htc, Hd. by apply Hw.
Qed.

Lemma resolve_works tpl :
  tpls (ne_event_type event) = Some tpl →
  works ready (resolve_template (ne_event_type event) CHANNEL_EMAIL) (λ r, r = Ok tpl).
Proof.
  intros Htpl w Hw. pose proof (rd_templates w Hw (ne_event_type event)) as Hfind. rewrite Htpl in Hfind. change (resolve_template (ne_event_type event) CHANNEL_EMAIL)
    with (resolve (ne_event_type event) CHANNEL_EMAIL).
  destruct (resolve _ _ w) as [r w1] eqn:Hr.
  destruct (resolve_spec (ne_event_type event) CHANNEL_EMAIL _ _ _ eq_refl (rd_template_cache w Hw) Hr) as (Htc & Hd & Hres).
  assert (Hok : is_ok r = true ∧ w_block_cache w1 = w_block_cache w ∧ (w_tick w <= w_tick w1)%nat).
  { revert Hr. unfold resolve, tpl_cache_get, next_tick. run_st.
    destruct (if cache_live _ then _ else _); [intros [= <- <-]; split_and!; simpl; (done || lia)|].
    rewrite query_answered by apply (an_db Hans). simpl. rewrite Hfind.
    intros [= <- <-]. split_and!; simpl; (done || lia). }
  destruct Hok as (Hok & Hbc & Ht). destruct r as [t|e]; [|done]. simpl.
  rewrite Hfind in Hres. injection Hres as ->. split; [done|].
  constructor; [by rewrite Hd; apply Hw| |by rewrite Hd; apply Hw|done|by rewrite Hd; apply Hw|].
  - apply (same_ids_new w); [by rewrite Hd|done|apply Hw].
  - intros s. rewrite Hbc, Hd. apply Hw.
Qed.

Lemma prepare_works : works ready (prepare event opts copies) (λ r, r = Ok p).
Proof.
  intros w Hw. unfold prepare. run_st. destruct (an_render Hans) as (tpl & Htpl & Hrender).
  destruct (resolve_works tpl Htpl w Hw) as [Hr Hw1].
  destruct (resolve_template _ _ w) as [r w1]. simpl in Hr, Hw1. subst r.
  destruct (an_from Hans) as [Hfrom Hp]. rewrite <- Hp, Hfrom. simpl.
  pose proof (an_fields Hans) as Hfields. simpl in Hfields.
  rewrite Hrender. simpl. rewrite Hfields. simpl. split; [|done]. by destruct p.
Qed.

Lemma token_works rl : works ready (acquire_rate_limit_token rl) (λ r, r = Ok tt).
Proof.
  apply works_calm; [apply token_calm|]. intros w. unfold acquire_rate_limit_token, wait_for_token, next_tick.
  run_st. destruct rl; [|done]. simpl. destruct (token_available (w_tick w)) eqn:Ht; [done|]. simpl.
  destruct (an_token Hans (w_tick w)) as [?| ->]; [congruence|done].
Qed.

Lemma transport_works s msg : accepts s msg → works ready (send s msg) (λ x, x = Ok tt).
Proof.
  intros Ha. apply works_calm; [apply send_calm|]. intros w. destruct s as [host fe fn|url tok]; simpl in *.
  - destruct Ha as (mail & Hm & Ht). unfold smtp_send. rewrite Hm. unfold hand_over, next_tick. run_st. by rewrite Ht.
  - unfold webhook_send, hand_over, next_tick. run_st. destruct (Ha (w_tick w)) as (resp & -> & Hok).
    unfold classify_webhook. by rewrite Hok.
Qed.

Lemma due_works : works ready (deferred_until opts) (λ d, d = None).
Proof.
  apply works_calm; [apply deferred_calm|]. intros w. unfold deferred_until, next_tick. run_st.
  destruct (eo_send_at opts) as [t|] eqn:Ht; [|done]. simpl.
  pose proof (an_due Hans t (w_tick w) Ht) as Hle. destruct (Z.ltb_spec (clock (w_tick w)) t); [lia|done].
Qed.

(** ** Writes to the log *)

Lemma update_row_works (f : nat → LogRow → LogRow) (guard : Db → bool) over email msg w :
  (∀ t r, row_evolves r (f t r)) → ready w → guard (w_db w) = false →
  is_Some (email_cells w !! row_of event email) →
  let m := let? n := query (λ t d, if guard d then Err over
             else Ok (sql_update (key_matches (ne_event_id event) CHANNEL_EMAIL email) (f t) d)) in
           require_row n msg in
  is_ok (m w).1 = true ∧ ready (m w).2.
Proof.
  intros Hf Hw Hguard Hrow. cbv zeta.
  set (stmt := λ t d, if guard d then Err over else Ok (sql_update _ (f t) d)).
  assert (Hst : ∀ t d n d', stmt t d = Ok (n, d') →
    d' = set_log (update_where (key_matches (ne_event_id event) CHANNEL_EMAIL email) (f t)) d).
  { intros t d n d'. unfold stmt. destruct (guard d); [done|]. by intros [= _ <-]. }
  assert (Hbeside : keeps beside (let? n := query stmt in require_row n msg)).
  { apply update_beside. intros t d n d' ->%Hst. done. }
  split.
  - run_st. rewrite query_answered by apply (an_db Hans). unfold stmt. rewrite Hguard. simpl.
    unfold require_row. destruct (Z.of_nat _ =? 0) eqn:Hn; [|done].
    assert (Hnone : selected (key_matches (ne_event_id event) CHANNEL_EMAIL email) (db_log (w_db w)) = []).
    { apply length_zero_iff_nil. lia. }
    apply selected_nil in Hnone. unfold email_cells, row_of in Hrow.
    rewrite log_cells_find, Hnone in Hrow. by destruct Hrow.
  - apply (ready_beside w); [apply Hbeside| | |done].
    + assert (Hev : keeps db_evolves (let? n := query stmt in require_row n msg)).
      { apply keeps_try; [apply _| |intros; apply require_row_evolves].
        apply query_evolves. intros t d n d' ->%Hst. by apply update_evolves. }
      apply Hev, Hw.
    + apply (same_ids_new w); [|by apply Hbeside|apply Hw].
      apply (update_ids stmt (key_matches (ne_event_id event) CHANNEL_EMAIL email) f); [done|].
      intros t r. apply (Hf t r).
Qed.
Lemma sent_works email w :
  ready w → email_cells w !! row_of event email = Some fresh_cell →
  is_ok (email_mark_sent (ne_event_id event) email w).1 = true
  ∧ ready (email_mark_sent (ne_event_id event) email w).2.
Proof.
  intros Hw Hrow.
  apply (update_row_works set_sent
    (λ d, any_overflow (key_matches (ne_event_id event) CHANNEL_EMAIL email) lr_total_attempts (db_log d)));
    [apply set_sent_evolves|done| |by eexists].
  apply not_true_iff_false. intros (r & Hin & [Hk Hmax]%andb_prop)%existsb_exists.
  assert (Hcell : email_cells w !! row_of event email = Some (cell_of r)).
  { unfold email_cells, row_of. rewrite log_cells_find.
    destruct (List.find _ _) as [r'|] eqn:Hf.
    - apply find_some in Hf as [Hin' Hk']. f_equal. f_equal.
      apply (NoDup_map_eq row_key (db_log (w_db w))); [apply Hw|by apply list_elem_of_In..|].
      apply key_matches_iff in Hk as [Hc Hk], Hk' as [Hc' Hk']. unfold row_key. congruence.
    - by rewrite (find_none _ _ Hf r Hin) in Hk. }
  rewrite Hcell in Hrow. injection Hrow as _ _ Ht _. unfold i32_max in Hmax. lia.
Qed.

Lemma blocked_works email reason w :
  ready w → email_cells w !! row_of event email = Some fresh_cell →
  is_ok (email_mark_blocked (ne_event_id event) email reason w).1 = true
  ∧ ready (email_mark_blocked (ne_event_id event) email reason w).2.
Proof.
  intros Hw Hrow. apply (update_row_works (set_status "BLOCKED" reason) (λ _, false) "");
    [apply set_status_evolves|done|done|by eexists].
Qed.

Lemma block_any_works email reason :
  works ready (email_mark_blocked (ne_event_id event) email reason) (λ _, True).
Proof.
  intros w Hw. split; [done|]. apply (ready_beside w); [apply mark_blocked_beside| | |done].
  - apply (run_op_evolves (OpBlocked (ne_event_id event) email reason) w), Hw.
  - apply (same_ids_new w); [|by apply mark_blocked_beside|apply Hw].
    apply (update_ids _ (key_matches (ne_event_id event) CHANNEL_EMAIL email) (set_status "BLOCKED" reason)); [|done].
    by intros t d n d' [= _ <-].
Qed.

Lemma read_calm email : keeps calm (email_get_by_event_and_recipient (ne_event_id event) email).
Proof.
  apply keeps_try; [apply _| |intros row; repeat case_match; apply keeps_ret, _].
  intros w. unfold query, next_tick. run_st. destruct (db_err _); split; try done; split_and!; simpl; (done || lia).
Qed.

Lemma failed_works email msg ex :
  works ready (email_mark_failed (ne_event_id event) email msg ex) (λ _, True).
Proof.
  intros w Hw. split; [done|]. apply (ready_beside w); [apply mark_failed_beside| | |done].
  - apply (run_op_evolves (OpFailed (ne_event_id event) email msg ex) w), Hw.
  - apply (same_ids_new w); [|by apply mark_failed_beside|apply Hw].
    apply (update_ids _ (key_matches (ne_event_id event) CHANNEL_EMAIL email)
             (set_failed msg (if ex then "FAILED" else "PENDING"))); [|done].
    intros t d n d'. destruct (_ || _); [done|]. by intros [= _ <-].
Qed.

(** The insert finds the row or adds the pair. *)
Lemma pair_works a : works ready (insert_row_pair a) (λ x, is_ok x = true).
Proof.
  intros w Hw. pose proof (insert_pair_evolves a w) as Hevolves.
  assert (Hwf : log_wf (w_db (insert_row_pair a w).2)) by apply Hevolves, Hw. clear Hevolves. revert Hwf.
  unfold insert_row_pair. run_st. rewrite query_answered by apply (an_db Hans). unfold sql_insert_log. simpl.
  destruct (List.find _ (db_log (w_db w))) as [r|] eqn:Hf.
  - simpl. intros _. split; [done|]. apply (ready_calm w); [|done]. split; [|done]. split_and!; simpl; (done || lia).
  - destruct (existsb _ (db_log _)) eqn:Hid.
    { exfalso. apply existsb_exists in Hid as (r & Hin & Hr%N.eqb_eq).
      apply list_elem_of_In in Hin. by apply (rd_ids w Hw r _ Hin (le_n _)) in Hr. }
    simpl. rewrite query_answered by apply (an_db Hans). unfold sql_insert_detail. simpl.
    destruct (existsb _ (db_detail _)) eqn:Hdid.
    { exfalso. apply existsb_exists in Hdid as (x & Hin & Hx%N.eqb_eq). apply list_elem_of_In in Hin.
      destruct (wf_attached _ (rd_log w Hw) x Hin) as (r & Hr & Hid' & _).
      apply (rd_ids w Hw r _ Hr (le_n _)). congruence. }
    simpl. intros Hwf. split; [done|].
    apply (ready_beside w); [split_and!; simpl; (done || lia)|done| |done].
    intros r t [Hr| ->%list_elem_of_singleton]%elem_of_app Ht; simpl in *.
    + apply (rd_ids w Hw r); [done|lia].
    + intros Heq%(an_ids Hans). lia.
Qed.

Lemma batch_rows_works l : works ready (insert_batch_rows l) (λ x, is_ok x = true).
Proof.
  induction l as [|a l IH]; intros w Hw; [done|]. cbn [insert_batch_rows]. run_st.
  destruct (pair_works a w Hw) as [Hok Hw1]. destruct (insert_row_pair a w) as [[x|e] w1]; [|done].
  destruct (IH w1 Hw1) as [Hok2 Hw2]. simpl in *. run_st.
  by destruct (insert_batch_rows l w1) as [[xs|e] w2].
Qed.

(** Inside a transaction that commits. *)
Lemma transaction_works {A} (body : M (result A AppError)) :
  works ready body (λ x, is_ok x = true) → works ready (transaction body) (λ x, is_ok x = true).
Proof.
  intros Hbody w Hw. unfold transaction. run_st. rewrite query_answered by apply (an_db Hans). simpl.
  destruct (Hbody (set_db (w_db w) (set_tick (S (w_tick w)) w))) as [Hok Hw1].
  { apply (ready_calm w); [|done]. split; [|done]. split_and!; simpl; (done || lia). }
  destruct (body _) as [[a|e] w1]; [|done]. rewrite query_answered by apply (an_db Hans). simpl in *. split; [done|].
  apply (ready_calm w1); [|done]. split; [|done]. split_and!; simpl; (done || lia).
Qed.

Lemma insert_works a : works ready (email_insert_pending a) (λ x, is_ok x = true).
Proof. apply transaction_works, pair_works. Qed.

Lemma batch_works l : works ready (email_insert_pending_batch l) (λ x, is_ok x = true).
Proof. apply transaction_works, batch_rows_works. Qed.

(** The assumptions of a healthy delivery hold. *)
Lemma answers_healthy_base : healthy_base ctx cfg ready (snapshot_check snap) event opts atts p.
Proof.
  constructor.
  - apply due_works.
  - apply works_calm; [apply fetch_calm|apply (an_attachments Hans)].
  - apply check_works.
  - apply prepare_works.
  - apply sent_works.
  - apply blocked_works.
  - apply block_any_works.
  - apply failed_works.
  - intros email. apply works_calm; [apply read_calm|done].
  - apply token_works.
  - intros w. apply ready_calm. split; [|done]. split_and!; simpl; (done || lia).
Qed.

Lemma answers_healthy : answers → healthy ctx cfg ready (snapshot_check snap) event opts atts p.
Proof.
  intros Hall. constructor; [apply answers_healthy_base|intros r _; apply insert_works|].
  intros r Hr Hv. by apply transport_works, (an_transport Hall).
Qed.
End stores.

Section delivery.
Context `{Env}.
Context `{Serialize Recipient, Serialize FromOverride, Serialize AttachmentRef, EventCodec}.
Context (ctx : ProcessorContext) (cfg : ConsumerConfig).

(** C3: when the database, the limiter and the transport answer, a delivery of an
    event in individual mode is carried through, under every schedule that
    gives each task a turn: it is acknowledged; every valid address without a
    row gets one, SENT or, when the configured filter or the block list says
    so, BLOCKED; the messages mailed are exactly one per address whose row is
    now SENT and that had none, to that address alone and all accepted; every
    other row is as it was. *)
Theorem healthy_delivery event opts atts p tpls snap fuel sched data w :
  answers ctx cfg event opts atts p tpls snap → ready tpls snap w →
  sendable cfg data event opts → eo_send_mode opts = SendMode.Individual →
  clean event opts (email_cells w) →
  (∀ i, (i < length (eo_recipients opts))%nat → i ∈ sched) →
  let '(res, w') := handle_delivery ctx cfg fuel sched data w in
  res = Some tt ∧ ready tpls snap w' ∧ w_amqp w' = w_amqp w ++ [BasicAck]
  ∧ ∃ msgs, w_sends w' = w_sends w ++ msgs
            ∧ delivered ctx (snapshot_check snap) event opts atts p
                (eo_recipients opts) (email_cells w) (email_cells w') msgs
            ∧ only_event event (email_cells w) (email_cells w').
Proof.
  intros Hans Hw Hs Hmode Hclean Hcov.
  by apply (handle_works ctx cfg _ _ _ _ _ _ (answers_healthy _ _ _ _ _ _ _ _ Hans Hans)).
Qed.

(** Delivering the same bytes a second time, under any schedule, adds an
    acknowledgement and nothing else: no message, no change to any row. *)
Theorem redelivery_idempotent event opts atts p tpls snap fuel sched fuel' sched' data w :
  answers ctx cfg event opts atts p tpls snap → ready tpls snap w →
  sendable cfg data event opts → eo_send_mode opts = SendMode.Individual →
  clean event opts (email_cells w) →
  (∀ i, (i < length (eo_recipients opts))%nat → i ∈ sched ∧ i ∈ sched') →
  let '(_, w1) := handle_delivery ctx cfg fuel sched data w in
  let '(res, w2) := handle_delivery ctx cfg fuel' sched' data w1 in
  res = Some tt ∧ w_amqp w2 = w_amqp w1 ++ [BasicAck]
  ∧ w_sends w2 = w_sends w1 ∧ email_cells w2 = email_cells w1.
Proof.
  intros Hans Hw Hs Hmode Hclean Hcov.
  by apply (redelivery_works ctx cfg _ _ _ _ _ _ (answers_healthy _ _ _ _ _ _ _ _ Hans Hans)).
Qed.
End delivery.

(** ** A concrete delivery *)

#[local] Existing Instance sample_env.

Definition sample_template : NotificationTemplate := mkNotificationTemplate "Order" "<p>ok</p>" "ok".
Definition sample_templates (ty : string) : option NotificationTemplate :=
  if String.eqb "ORDER" ty then Some sample_template else None.
Definition sample_prepared : Prepared :=
  mkPrepared (mkRenderedTemplates "Order" "<p>ok</p>" "ok") (None, None)
    (mkSerializedEmailFields None None None None).

Lemma sample_answers_base ctx mode retry_mode to :
  let opts := sample_opts mode retry_mode to in
  answers_base ctx consumer_config_default (sample_event opts) opts [] sample_prepared
    sample_templates empty_snapshot.
Proof.
  constructor; try done.
  - intros t t'. simpl. lia.
  - by left.
  - by exists sample_template.
Qed.

Lemma sample_answers to :
  let opts := sample_opts SendMode.Individual GroupRetryMode.Whole to in
  answers sample_ctx consumer_config_default (sample_event opts) opts [] sample_prepared
    sample_templates empty_snapshot.
Proof.
  constructor; [apply sample_answers_base|].
  intros [email [name|]] _ _; [destruct (is_empty_str name) eqn:Hn|]; eexists;
    (split; [unfold smtp_compose, format_mailbox; simpl; rewrite ?Hn; reflexivity|done]).
Qed.

Lemma sample_ready : ready sample_templates empty_snapshot sample_world.
Proof.
  constructor; try done.
  - constructor; simpl; try constructor. intros x Hx. by apply not_elem_of_nil in Hx.
  - intros r t Hr. by apply not_elem_of_nil in Hr.
  - intros ty. unfold find_active, sample_templates, tpl_matches. cbn -[String.eqb].
    by destruct (String.eqb "ORDER" ty).
Qed.

Lemma pair_sendable :
  sendable (H9 := sample_codec (one_to pair_opts)) consumer_config_default "event" (sample_event pair_opts) pair_opts.
Proof. split_and!; [reflexivity|reflexivity|done|vm_compute; lia]. Qed.

Lemma healthy_delivery_witness :
  let '(res, w') := deliver pair_opts [1%nat; 0%nat] sample_world in
  res = Some tt ∧ ready sample_templates empty_snapshot w'
  ∧ w_amqp w' = w_amqp sample_world ++ [BasicAck]
  ∧ ∃ msgs, w_sends w' = w_sends sample_world ++ msgs
            ∧ delivered sample_ctx (snapshot_check empty_snapshot) (sample_event pair_opts) pair_opts
                [] sample_prepared (eo_recipients pair_opts) (email_cells sample_world)
                (email_cells w') msgs
            ∧ only_event (sample_event pair_opts) (email_cells sample_world) (email_cells w').
Proof.
  apply (healthy_delivery (H3 := sample_codec (one_to pair_opts)) sample_ctx consumer_config_default).
  - apply sample_answers.
  - apply sample_ready.
  - apply pair_sendable.
  - reflexivity.
  - intros r c _ Hc. vm_compute in Hc. discriminate Hc.
  - intros i Hi. simpl in Hi. destruct i as [|[|i]]; [set_solver|set_solver|lia].
Defined.

Lemma redelivery_idempotent_witness :
  let '(_, w1) := deliver pair_opts [1%nat; 0%nat] sample_world in
  let '(res, w2) := deliver pair_opts [0%nat; 1%nat] w1 in
  res = Some tt ∧ w_amqp w2 = w_amqp w1 ++ [BasicAck]
  ∧ w_sends w2 = w_sends w1 ∧ email_cells w2 = email_cells w1.
Proof.
  apply (redelivery_idempotent (H3 := sample_codec (one_to pair_opts)) sample_ctx consumer_config_default
           (sample_event pair_opts) pair_opts [] sample_prepared sample_templates empty_snapshot).
  - apply sample_answers.
  - apply sample_ready.
  - apply pair_sendable.
  - reflexivity.
  - intros r c _ Hc. vm_compute in Hc. discriminate Hc.
  - intros i Hi. simpl in Hi. destruct i as [|[|i]]; [split; set_solver|split; set_solver|lia].
Defined.
