(* ===== verification/HealthyGroup.v ===== *)
(** * A group delivery in a healthy environment

    The group counterpart of [Healthy] and [HealthyStore]: the first delivery of
    an event in group mode mails one message to everybody the configured filter
    lets through and settles every row the event owns. *)

From S2P Require Import Prelude Json AppErr EmailValidation Event World Interfaces Filter.
From S2P Require Import LogStore LogInvariant BlockList TemplateStore Mailer Fetcher.
From S2P Require Import Processor ProcessorSpec GroupSpec Delivery Loops AtMostOnce Settle.
From S2P Require Import Healthy HealthyStore.

(** ** Rows updated one after the other *)

Section rows.
Context (key : Recipient → Key) (f : Recipient → Cell → Cell).

Definition update_rows (l : list Recipient) (m : gmap Key Cell) : gmap Key Cell :=
  fold_left (λ m r, alter (f r) (key r) m) l m.

Lemma update_rows_other l m k : k ∉ map key l → update_rows l m !! k = m !! k.
Proof.
  revert m. induction l as [|r l IH]; intros m Hk; [done|]. simpl in Hk.
  apply not_elem_of_cons in Hk as [Hr Hk]. cbn [update_rows fold_left]. fold (update_rows l).
  unfold update_rows in IH. rewrite IH by done. by apply lookup_alter_ne.
Qed.

Lemma update_rows_in l m r :
  NoDup (map key l) → r ∈ l → update_rows l m !! key r = f r <$> m !! key r.
Proof.
  revert m. induction l as [|x l IH]; intros m Hnd Hr; [by apply not_elem_of_nil in Hr|].
  simpl in Hnd. apply NoDup_cons in Hnd as [Hx Hnd]. cbn [update_rows fold_left].
  change (update_rows l (alter (f x) (key x) m) !! key r = f r <$> m !! key r).
  apply elem_of_cons in Hr as [->|Hr].
  - rewrite update_rows_other by done. apply lookup_alter_eq.
  - rewrite IH by done. rewrite lookup_alter_ne; [done|]. intros Heq. apply Hx. rewrite Heq.
    apply list_elem_of_fmap. by exists r.
Qed.
End rows.

(** New keys are all inserted. *)
Lemma insert_cells_fresh ks m xs m' :
  NoDup ks → (∀ k, k ∈ ks → m !! k = None) → insert_cells ks m = (xs, m') →
  xs = map (λ _, InsertResult.Inserted) ks
  ∧ ∀ k, m' !! k = if decide (k ∈ ks) then Some fresh_cell else m !! k.
Proof.
  revert m xs m'. induction ks as [|x ks IH]; intros m xs m' Hnd Hm.
  { intros [= <- <-]. split; [done|]. intros k. by rewrite decide_False by apply not_elem_of_nil. }
  cbn [insert_cells]. apply NoDup_cons in Hnd as [Hx Hnd]. unfold insert_cell. rewrite (Hm x) by constructor.
  destruct (insert_cells ks _) as [ys m2] eqn:E. intros [= <- <-].
  apply IH in E as [-> Hk]; [|done|].
  - split; [done|]. intros k. rewrite Hk. destruct (decide (k ∈ ks)) as [Hin|Hin].
    + by rewrite decide_True by (by constructor).
    + destruct (decide (k = x)) as [->|Hne].
      * rewrite decide_True by constructor. apply lookup_insert_eq.
      * rewrite decide_False by (by apply not_elem_of_cons). by apply lookup_insert_ne.
  - intros k Hin. rewrite lookup_insert_ne; [apply Hm; by constructor|]. by intros ->.
Qed.

(** Keys that are there already change nothing. *)
Lemma insert_cells_present ks m xs m' :
  (∀ k, k ∈ ks → is_Some (m !! k)) → insert_cells ks m = (xs, m') → m' = m.
Proof.
  revert m xs m'. induction ks as [|x ks IH]; intros m xs m' Hm; [by intros [= _ <-]|]. cbn [insert_cells].
  unfold insert_cell. destruct (Hm x ltac:(constructor)) as [c ->].
  destruct (insert_cells ks m) as [ys m2] eqn:E. intros [= _ <-].
  apply (IH m ys); [|done]. intros k Hk. apply Hm. by constructor.
Qed.

Lemma already_sent_fresh {A} (rs : list Recipient) (ks : list A) :
  already_sent rs (map (λ _, InsertResult.Inserted) ks) = ∅.
Proof. revert ks. induction rs as [|r rs IH]; intros [|k ks]; [done..|]. simpl. apply IH. Qed.

Lemma filter_unsent `{∀ r : Recipient, Decision (r_email r ∉ (∅ : gset string))} (l : list Recipient) : base.filter (λ r, r_email r ∉ (∅ : gset string)) l = l.
Proof.
  induction l as [|r l IH]; [done|]. rewrite filter_cons_True by apply not_elem_of_empty. by rewrite IH.
Qed.

Lemma validate_group_ok opts max primary rest :
  eo_recipients opts = primary :: rest →
  (∀ r, r ∈ eo_recipients opts → is_valid_email (r_email r) = true) →
  (length (eo_recipients opts) <= max)%nat → validate_group opts max = Ok primary.
Proof.
  intros Hrs Hv Hmax. unfold validate_group. rewrite Hrs in *.
  destruct (Nat.ltb_spec max (length (primary :: rest))); [lia|].
  destruct (List.find _ _) as [r|] eqn:Hf; [|done].
  apply find_some in Hf as [Hin Hbad]. apply list_elem_of_In in Hin. by rewrite (Hv r Hin) in Hbad.
Qed.

Section group.
Context `{Env}.
Context `{Serialize Recipient, Serialize FromOverride, Serialize AttachmentRef}.
Context `{!NotificationStore, !NotificationStoreLaws}.
Context `{!TemplateResolver, !TemplateResolverLaws, !BlockListChecker, !BlockListCheckerLaws}.
Context `{!EventCodec}.
Context (ctx : ProcessorContext) (cfg : ConsumerConfig).
Context (up : World → Prop) (verdict : string → result unit AppError).
Context (event : NotificationEvent) (opts : EmailOptions).
Context (atts : list ResolvedAttachment) (p : Prepared).

Notation copies := (kept_copies ctx verdict opts).

(** ** What is expected *)

(** To: addresses meet the configured filter alone. *)
Definition group_block (email : string) : option string :=
  match filter_check (pc_filter ctx) email with
  | Err (AppError.Blocked reason) => Some reason
  | _ => None
  end.

Definition let_in (rs : list Recipient) : list Recipient :=
  base.filter (λ r, group_block (r_email r) = None) rs.

Definition group_mail (primary : Recipient) (others : list Recipient) : EmailMessage :=
  build_email_message event primary (map to_mailbox others) (pr_rendered p) (pr_from p) atts
    (ecb_cc copies) (ecb_bcc copies).

(** How a row the event owns ends. *)
Definition group_row (email : string) : Cell :=
  match group_block email with
  | Some reason => blocked_cell reason fresh_cell
  | None => sent_cell fresh_cell
  end.

(** A first delivery the filter lets through to the primary recipient at least. *)
Record group_ok (primary : Recipient) (rest : list Recipient) (m : gmap Key Cell) : Prop := {
  go_recipients : eo_recipients opts = primary :: rest;
  go_valid r : r ∈ eo_recipients opts → is_valid_email (r_email r) = true;
  go_distinct : NoDup (map r_email (eo_recipients opts));
  go_primary : group_block (r_email primary) = None;
  go_fresh r : r ∈ eo_recipients opts → m !! event_key event r = None;
}.

(** The rows the event owns have ended, the others are as they were. *)
Record group_settled (primary : Recipient) (m m' : gmap Key Cell) : Prop := {
  gs_rows r : r ∈ rows_to_insert opts primary → m' !! event_key event r = Some (group_row (r_email r));
  gs_others k : k ∉ map (event_key event) (rows_to_insert opts primary) → m' !! k = m !! k;
}.

(** The environment answers. *)
Record healthy_group (primary : Recipient) (rest : list Recipient) : Prop := {
  hg_base :> healthy_base ctx cfg up verdict event opts atts p;
  hg_to : ∃ to, group_to_recipients opts = Ok to;
  hg_insert args : works up (insert_pending_batch args) (λ x, is_ok x = true);
  hg_transport :
    works up (send (transport ctx opts) (group_mail primary (let_in rest))) (λ x, x = Ok tt);
}.

Context (primary : Recipient) (rest : list Recipient).
Context (Hup : healthy_group primary rest).

(** ** The filter *)

Definition block_row (r : Recipient) (c : Cell) : Cell :=
  match group_block (r_email r) with Some reason => blocked_cell reason c | None => c end.

Definition fresh_or_none (m : gmap Key Cell) (r : Recipient) : Prop :=
  m !! event_key event r = Some fresh_cell ∨ m !! event_key event r = None.

Lemma allow_one r w :
  up w → fresh_or_none (cells w) r →
  let '(b, w') := allow_to_recipient ctx (ne_event_id event) r w in
  b = bool_decide (group_block (r_email r) = None) ∧ up w' ∧ quiet w w'
  ∧ cells w' = alter (block_row r) (event_key event r) (cells w).
Proof.
  intros Hw Hrow. unfold allow_to_recipient, block_row, group_block.
  destruct (filter_check _ _) as [u|e] eqn:Hf.
  { split_and!; [done..|]. symmetry. by apply alter_id. }
  destruct (filter_check_err _ _ _ Hf) as [reason ->]. run_st. destruct (mark_blocked _ (r_email r) reason w) as [x w1] eqn:Hm.
  assert (Hup1 : up w1).
  { destruct (hy_block_any _ _ _ _ _ _ _ _ Hup (r_email r) reason w Hw) as [_ Hw1]. by rewrite Hm in Hw1. }
  assert (Hok : cells w !! event_key event r = Some fresh_cell → is_ok x = true).
  { intros Hk. destruct (hy_blocked _ _ _ _ _ _ _ _ Hup (r_email r) reason w Hw Hk) as [Hok _]. by rewrite Hm in Hok. }
  apply mark_blocked_law in Hm as [Hq Hpost]. split_and!; [done..|].
  destruct Hrow as [Hk|Hn].
  - by apply (update_done _ _ _ x); [|apply Hok].
  - rewrite alter_id by (intros c Hk; by rewrite Hn in Hk).
    revert Hpost. unfold update_post, event_key in *. rewrite Hn.
    destruct x as [?|[]]; [by intros [[? ?] _]|naive_solver..].
Qed.

Lemma filter_works l w :
  up w → NoDup (map r_email l) → (∀ r, r ∈ l → fresh_or_none (cells w) r) →
  let '(l', w') := st_filter (allow_to_recipient ctx (ne_event_id event)) l w in
  l' = let_in l ∧ up w' ∧ quiet w w' ∧ cells w' = update_rows (event_key event) block_row l (cells w).
Proof.
  revert w. induction l as [|r l IH]; intros w Hw Hnd Hrows; [by split_and!|]. simpl in Hnd.
  apply NoDup_cons in Hnd as [Hr Hnd]. cbn [st_filter]. run_st.
  pose proof (allow_one r w Hw (Hrows r ltac:(constructor))) as Ha.
  destruct (allow_to_recipient _ _ r w) as [b w1]. destruct Ha as (-> & Hw1 & Hq1 & Hc1).
  assert (Hrows1 : ∀ x, x ∈ l → fresh_or_none (cells w1) x).
  { intros x Hx. unfold fresh_or_none. rewrite Hc1, lookup_alter_ne.
    - apply Hrows. by constructor.
    - intros [= Heq]. apply Hr. rewrite Heq. apply list_elem_of_fmap. by exists x. }
  specialize (IH w1 Hw1 Hnd Hrows1). run_st.
  destruct (st_filter _ l w1) as [l' w2]. destruct IH as (-> & Hw2 & Hq2 & Hc2). split_and!; [|done|by etransitivity|].
  - unfold let_in. rewrite filter_cons. by destruct (decide _), (bool_decide_reflect (group_block (r_email r) = None)).
  - by rewrite Hc2, Hc1.
Qed.

(** ** The marks *)

Lemma marks_work l w :
  up w → NoDup (map r_email l) → (∀ r, r ∈ l → cells w !! event_key event r = Some fresh_cell) →
  let w' := (st_iter (λ email, mark_sent (ne_event_id event) email ;;! st_ret tt) (map r_email l) w).2 in
  up w' ∧ quiet w w' ∧ cells w' = update_rows (event_key event) (λ _, sent_cell) l (cells w).
Proof.
  revert w. induction l as [|r l IH]; intros w Hw Hnd Hrows; [by split_and!|]. simpl in Hnd.
  apply NoDup_cons in Hnd as [Hr Hnd]. cbn [map st_iter]. run_st.
  destruct (hy_sent _ _ _ _ _ _ _ _ Hup (r_email r) w Hw) as [Hok Hw1]; [apply Hrows; constructor|].
  destruct (mark_sent _ (r_email r) w) as [x w1] eqn:Hm. simpl in Hok, Hw1.
  apply mark_sent_law in Hm as [Hq1 Hc1%update_done]; [|done]. run_st.
  destruct (IH w1 Hw1 Hnd) as (Hw2 & Hq2 & Hc2).
  - intros y Hy. rewrite Hc1, lookup_alter_ne; [apply Hrows; by constructor|].
    intros [= Heq]. apply Hr. rewrite Heq. apply list_elem_of_fmap. by exists y.
  - split_and!; [exact Hw2|etransitivity; [exact Hq1|exact Hq2]|]. etransitivity; [exact Hc2|by rewrite Hc1].
Qed.

(** ** The group attempt *)

(** Those whose rows are marked after the send. *)
Definition marked_rows : list Recipient :=
  primary :: match eo_group_retry_mode opts with
             | GroupRetryMode.Individual => let_in rest
             | GroupRetryMode.Whole => []
             end.

Lemma let_in_elem l r : r ∈ let_in l → r ∈ l ∧ group_block (r_email r) = None.
Proof. unfold let_in. intros [? ?]%list_elem_of_filter. done. Qed.

Lemma let_in_distinct l : NoDup (map r_email l) → NoDup (map r_email (let_in l)).
Proof. intros Hnd. eapply sublist_NoDup; [exact Hnd|]. apply fmap_sublist, sublist_filter. Qed.

Lemma keys_distinct l : NoDup (map r_email l) → NoDup (map (event_key event) l).
Proof.
  intros Hnd. rewrite <- (map_map r_email (λ email, (ne_event_id event, email))).
  apply NoDup_fmap_2; [|done]. intros x y [= ->]. done.
Qed.

Context (m : gmap Key Cell) (Hok : group_ok primary rest m).

Lemma marked_distinct : NoDup (map r_email marked_rows).
Proof.
  pose proof (go_distinct _ _ _ Hok) as Hnd. rewrite (go_recipients _ _ _ Hok) in Hnd. simpl in Hnd.
  apply NoDup_cons in Hnd as [Hp Hnd]. unfold marked_rows. cbn [map]. apply NoDup_cons.
  destruct (eo_group_retry_mode opts); simpl; split; [apply not_elem_of_nil|constructor| |by apply let_in_distinct].
  intros (r & Heq & [Hr _]%let_in_elem)%list_elem_of_fmap. apply Hp. rewrite Heq. apply list_elem_of_fmap. by exists r.
Qed.

Lemma marked_owned r : r ∈ marked_rows → r ∈ rows_to_insert opts primary ∧ group_block (r_email r) = None.
Proof.
  pose proof (go_recipients _ _ _ Hok) as Hrs. rewrite (rows_to_insert_head _ _ _ Hrs). unfold marked_rows.
  intros [->|Hr]%elem_of_cons; [split; [constructor|apply Hok]|].
  destruct (eo_group_retry_mode opts); [by apply not_elem_of_nil in Hr|].
  apply let_in_elem in Hr as [? ?]. split; [by constructor|done].
Qed.

(** The rows after the insert, the filter and the marks. *)
Lemma settled_rows m1 :
  (∀ k, m1 !! k = if decide (k ∈ map (event_key event) (rows_to_insert opts primary))
                  then Some fresh_cell else m !! k) →
  group_settled primary m
    (update_rows (event_key event) (λ _, sent_cell) marked_rows
       (update_rows (event_key event) block_row (eo_recipients opts) m1)).
Proof.
  intros Hm1. pose proof (go_recipients _ _ _ Hok) as Hrs.
  pose proof (keys_distinct _ (go_distinct _ _ _ Hok)) as Hnd.
  pose proof (keys_distinct _ marked_distinct) as Hndm.
  assert (Hblock : ∀ r, r ∈ eo_recipients opts →
    update_rows (event_key event) block_row (eo_recipients opts) m1 !! event_key event r
    = block_row r <$> m1 !! event_key event r) by (intros r Hr; by apply update_rows_in).
  constructor.
  - intros r Hr. assert (Hin : r ∈ eo_recipients opts) by by eapply rows_to_insert_sub.
    assert (Hfresh : m1 !! event_key event r = Some fresh_cell).
    { rewrite Hm1, decide_True; [done|]. apply list_elem_of_fmap. by exists r. }
    unfold group_row. destruct (group_block (r_email r)) as [reason|] eqn:Hb.
    + rewrite update_rows_other, Hblock, Hfresh by (done || (intros (x & Hx & Hxm)%list_elem_of_fmap;
        apply marked_owned in Hxm as [_ Hxb]; injection Hx as Hx; congruence)).
      simpl. unfold block_row. by rewrite Hb.
    + rewrite update_rows_in, Hblock, Hfresh; [simpl; unfold block_row; by rewrite Hb|done|done|].
      unfold marked_rows. rewrite (rows_to_insert_head _ _ _ Hrs) in Hr.
      apply elem_of_cons in Hr as [->|Hr]; [constructor|]. apply elem_of_cons. right.
      destruct (eo_group_retry_mode opts); [done|]. by apply list_elem_of_filter.
  - intros k Hk. rewrite update_rows_other.
    2: { intros (x & -> & [Hx _]%marked_owned)%list_elem_of_fmap. apply Hk, list_elem_of_fmap. by exists x. }
    destruct (decide (k ∈ map (event_key event) (eo_recipients opts))) as [(r & -> & Hr)%list_elem_of_fmap|Hn].
    + rewrite Hblock, Hm1, decide_False, (go_fresh _ _ _ Hok r Hr) by done. done.
    + by rewrite update_rows_other, Hm1, decide_False.
Qed.

Definition group_targets : SendTargets.SendTargets :=
  SendTargets.Group (ne_event_id event) (r_email primary) (map r_email (tail marked_rows))
    (eo_group_retry_mode opts).

(** Marking the targets is marking their rows one by one. *)
Lemma mark_targets_eq w :
  mark_sent_for_targets group_targets w
  = st_iter (λ email, mark_sent (ne_event_id event) email ;;! st_ret tt) (map r_email marked_rows) w.
Proof.
  unfold group_targets, marked_rows. cbn [mark_sent_for_targets st_iter map tail]. unfold st_bind, st_ret.
  by destruct (mark_sent _ _ w).
Qed.

#[local] Arguments mark_sent_for_targets : simpl never.
#[local] Arguments marked_rows : simpl never.

(** One message goes out and the targets' rows are marked. *)
Lemma group_send_done w :
  up w → (∀ r, r ∈ marked_rows → cells w !! event_key event r = Some fresh_cell) →
  let '(o, w') := execute_send ctx (group_mail primary (let_in rest)) (eo_sender_account opts) group_targets w in
  o = RecipientOutcome.Sent ∧ up w' ∧ same_broker w w'
  ∧ w_sends w' = w_sends w ++ [mkSendRecord (transport ctx opts) (group_mail primary (let_in rest)) true]
  ∧ cells w' = update_rows (event_key event) (λ _, sent_cell) marked_rows (cells w).
Proof.
  intros Hw Hrows. unfold execute_send. run_st.
  destruct (hy_token _ _ _ _ _ _ _ _ Hup w Hw) as [Htok Hw1].
  destruct (acquire_rate_limit_token _ w) as [tok w1] eqn:Ha. simpl in Htok, Hw1. subst tok.
  destruct (acquire_spec _ _ _ _ Ha) as (Hq1 & Hc1 & _). fold (transport ctx opts).
  destruct (hg_transport _ _ Hup w1 Hw1) as [Hs Hw2].
  destruct (send (transport ctx opts) _ w1) as [res w2] eqn:Hsend. simpl in Hs, Hw2. subst res.
  destruct (send_cells _ _ _ _ _ Hsend) as (Hc2 & Hb2 & [[_ ?]|Hsends]); [done|]. run_st.
  rewrite mark_targets_eq.
  destruct (marks_work marked_rows w2 Hw2 marked_distinct) as (Hw3 & Hq3 & Hc3).
  { intros r Hr. by rewrite Hc2, Hc1, Hrows. }
  destruct (st_iter _ _ w2) as [u w3]. simpl in *. split_and!; [done|done| | |by rewrite Hc3, Hc2, Hc1].
  - etransitivity; [by apply quiet_same_broker|]. etransitivity; [exact Hb2|by apply quiet_same_broker].
  - destruct Hq1 as [Hs1 _], Hq3 as [-> _]. by rewrite Hsends, Hs1.
Qed.

Lemma validate_ok max : (length (eo_recipients opts) <= max)%nat → validate_group opts max = Ok primary.
Proof. apply (validate_group_ok opts max primary rest); [apply Hok|apply (go_valid _ _ _ Hok)]. Qed.

(** From the insert on. *)
Lemma group_send_settles w w2 :
  up w2 → same_broker w w2 → w_sends w2 = w_sends w →
  (∀ k, cells w2 !! k = if decide (k ∈ map (event_key event) (rows_to_insert opts primary))
                        then Some fresh_cell else m !! k) →
  let '(o, w') := filter_and_send_group ctx event opts primary atts copies p ∅ w2 in
  o = RecipientOutcome.Sent ∧ up w' ∧ same_broker w w' ∧ group_settled primary m (cells w')
  ∧ w_sends w' = w_sends w ++ [mkSendRecord (transport ctx opts) (group_mail primary (let_in rest)) true].
Proof.
  intros Hw2 Hb2 Hs2 Hm2. pose proof (go_recipients _ _ _ Hok) as Hrs. pose proof (go_distinct _ _ _ Hok) as Hnd.
  unfold filter_and_send_group. run_st.
  pose proof (filter_works (eo_recipients opts) w2 Hw2 Hnd) as Hf.
  destruct (st_filter _ (eo_recipients opts) w2) as [allowed w3]. destruct Hf as (-> & Hw3 & Hq3 & Hc3).
  { intros r Hr. unfold fresh_or_none. rewrite Hm2. case_decide; [by left|]. right. by apply (go_fresh _ _ _ Hok). }
  pose proof (settled_rows (cells w2) Hm2) as Hsettled. rewrite <- Hc3 in Hsettled.
  assert (let_in (eo_recipients opts) = primary :: let_in rest) as ->.
  { rewrite Hrs. unfold let_in. rewrite filter_cons_True; [done|apply Hok]. }
  assert (Hmarked : ∀ r, r ∈ marked_rows → cells w3 !! event_key event r = Some fresh_cell).
  { intros r [Hr Hb]%marked_owned. rewrite Hc3, update_rows_in.
    - rewrite Hm2, decide_True by (apply list_elem_of_fmap; by exists r). unfold block_row. simpl. by rewrite Hb.
    - by apply keys_distinct.
    - by eapply rows_to_insert_sub. }
  rewrite filter_unsent. cbn [drop]. rewrite !drop_0.
  assert (SendTargets.Group (ne_event_id event) (r_email primary)
    (match eo_group_retry_mode opts with
     | GroupRetryMode.Whole => []
     | GroupRetryMode.Individual => map r_email (let_in rest)
     end) (eo_group_retry_mode opts) = group_targets) as ->.
  { unfold group_targets, marked_rows. by destruct (eo_group_retry_mode opts). }
  change (build_email_message event primary _ _ _ _ _ _) with (group_mail primary (let_in rest)).
  pose proof (group_send_done w3 Hw3 Hmarked) as Hsend.
  destruct (execute_send _ _ _ _ w3) as [o w4]. destruct Hsend as (-> & Hw4 & Hb4 & Hs4 & Hc4).
  destruct Hq3 as (Hs3 & Hq3).
  split_and!; [done|done| |by rewrite Hc4|by rewrite Hs4, Hs3, Hs2].
  etransitivity; [exact Hb2|]. by etransitivity.
Qed.

(** Up to the insert the environment decides nothing. *)
Lemma group_inserts w :
  up w → (length (eo_recipients opts) <= cc_max_recipients_per_event cfg)%nat →
  ∃ ins w1, up w1 ∧ same_broker w w1 ∧ w_sends w1 = w_sends w
    ∧ insert_cells (map (event_key event) (rows_to_insert opts primary)) (cells w) = (ins, cells w1)
    ∧ process_group ctx event opts atts copies (cc_max_recipients_per_event cfg) w
      = match inspect_primary (Ok ins) with
        | Err outcome => st_ret outcome
        | Ok results =>
            filter_and_send_group ctx event opts primary atts copies p (already_sent_emails opts results)
        end w1.
Proof.
  intros Hw Hmax. unfold process_group. rewrite (validate_ok _ Hmax). run_st.
  destruct (hy_prepare _ _ _ _ _ _ _ _ Hup w Hw) as [Hp Hw1].
  pose proof (prepare_aside event opts copies w) as Ha1.
  destruct (prepare event opts copies w) as [prep w1]. simpl in Hp, Hw1, Ha1. subst prep.
  pose proof (aside_cells _ _ Ha1) as Hc1. destruct Ha1 as [(Hs1 & Hq1) _].
  destruct (hg_to _ _ Hup) as [to ->]. run_st.
  destruct (hg_insert _ _ Hup (map (make_args event opts (pr_fields p) to) (rows_to_insert opts primary)) w1 Hw1)
    as [Hins Hw2].
  destruct (insert_pending_batch _ w1) as [ins w2] eqn:Hi. simpl in Hins, Hw2.
  apply insert_pending_batch_law in Hi as [(Hs2 & Hq2) Hpost]. destruct ins as [xs|]; [|done].
  rewrite map_map, Hc1 in Hpost. exists xs, w2. split_and!; [done|by etransitivity|congruence|exact Hpost|done].
Qed.

Lemma group_attempt_works w :
  up w → cells w = m → (length (eo_recipients opts) <= cc_max_recipients_per_event cfg)%nat →
  let '(o, w') := process_group ctx event opts atts copies (cc_max_recipients_per_event cfg) w in
  o = RecipientOutcome.Sent ∧ up w' ∧ same_broker w w' ∧ group_settled primary m (cells w')
  ∧ w_sends w' = w_sends w ++ [mkSendRecord (transport ctx opts) (group_mail primary (let_in rest)) true].
Proof.
  intros Hw Hm Hmax. destruct (group_inserts w Hw Hmax) as (xs & w2 & Hw2 & Hb2 & Hs2 & Hpost & ->).
  rewrite Hm in Hpost. pose proof (go_recipients _ _ _ Hok) as Hrs. pose proof (go_distinct _ _ _ Hok) as Hnd.
  apply insert_cells_fresh in Hpost as [-> Hm2].
  2: { apply keys_distinct. rewrite (rows_to_insert_head _ _ _ Hrs). rewrite Hrs in Hnd.
       destruct (eo_group_retry_mode opts); [|done]. simpl. apply NoDup_singleton. }
  2: { intros k (r & -> & Hr)%list_elem_of_fmap. apply (go_fresh _ _ _ Hok). by eapply rows_to_insert_sub. }
  rewrite map_map, (rows_to_insert_head _ _ _ Hrs). cbn [map inspect_primary].
  assert (already_sent_emails opts
    (map (λ _, InsertResult.Inserted) match eo_group_retry_mode opts with
       | GroupRetryMode.Individual => rest | GroupRetryMode.Whole => [] end) = ∅) as ->.
  { unfold already_sent_emails. destruct (eo_group_retry_mode opts); [done|]. rewrite Hrs. apply already_sent_fresh. }
  by apply group_send_settles.
Qed.

(** Once the rows are settled an attempt finds the primary one terminal. *)
Lemma group_attempt_again w :
  up w → (∀ r, r ∈ rows_to_insert opts primary → cells w !! event_key event r = Some (group_row (r_email r))) →
  (length (eo_recipients opts) <= cc_max_recipients_per_event cfg)%nat →
  let '(o, w') := process_group ctx event opts atts copies (cc_max_recipients_per_event cfg) w in
  o = RecipientOutcome.Skipped ∧ up w' ∧ same_broker w w' ∧ w_sends w' = w_sends w ∧ cells w' = cells w.
Proof.
  intros Hw Hset Hmax. destruct (group_inserts w Hw Hmax) as (xs & w2 & Hw2 & Hb2 & Hs2 & Hpost & ->).
  assert (Hc2 : cells w2 = cells w).
  { refine (insert_cells_present _ _ _ _ _ Hpost). intros k (r & -> & Hr)%list_elem_of_fmap.
    rewrite (Hset r Hr). by eexists. }
  assert (Hrow : cells w !! event_key event primary = Some (sent_cell fresh_cell)).
  { rewrite (Hset primary).
    - unfold group_row. by rewrite (go_primary _ _ _ Hok).
    - rewrite (rows_to_insert_head _ _ _ (go_recipients _ _ _ Hok)). constructor. }
  rewrite (rows_to_insert_head _ _ _ (go_recipients _ _ _ Hok)) in Hpost. cbn [map insert_cells] in Hpost.
  unfold insert_cell in Hpost. rewrite Hrow in Hpost.
  destruct (insert_cells _ (cells w)) as [ys m2]. injection Hpost as <- _. by split_and!.
Qed.

(** ** A whole delivery *)

(** The delivery is acknowledged once the one group attempt is through. *)
Lemma group_handled fuel sched data w (Q : RecipientOutcome → World → World → Prop) :
  sendable cfg data event opts → eo_send_mode opts = SendMode.Group → up w →
  (∀ o w1 w2, Q o w1 w2 → match o with RecipientOutcome.Sent | RecipientOutcome.Skipped => True | _ => False end
                          ∧ up w2 ∧ same_broker w1 w2) →
  (∀ w1, up w1 → cells w1 = cells w → w_sends w1 = w_sends w →
     let '(o, w2) := process_group ctx event opts atts copies (cc_max_recipients_per_event cfg) w1 in Q o w1 w2) →
  let '(res, w') := handle_delivery ctx cfg (S fuel) sched data w in
  res = Some tt ∧ up w' ∧ w_amqp w' = w_amqp w ++ [BasicAck]
  ∧ ∃ o w1 w2, Q o w1 w2 ∧ cells w1 = cells w ∧ w_sends w1 = w_sends w
               ∧ cells w' = cells w2 ∧ w_sends w' = w_sends w2.
Proof.
  intros Hs Hmode Hw HQ Hattempt.
  destruct (handle_dispatches _ _ _ _ _ _ _ _ Hup (S fuel) sched data w Hs Hw) as (w1 & Hw1 & Hc1 & Hs1 & Ha1 & ->).
  unfold dispatch. rewrite Hmode. run_st. destruct (probe_works ctx cfg _ _ _ _ _ _ Hup w1 Hw1) as (Hw2 & (Hs2 & Ha2 & _) & Hc2).
  destruct (probe_retry event opts w1) as [u w2]. simpl in *. unfold process_one_group. cbn [group_loop]. run_st.
  specialize (Hattempt w2 Hw2). rewrite Hc2, Hs2 in Hattempt. specialize (Hattempt Hc1 Hs1).
  destruct (process_group _ _ _ _ _ _ w2) as [o w3]. destruct (HQ _ _ _ Hattempt) as (Ho & Hw3 & Ha3 & _).
  destruct o; try done; unfold ack; run_st;
    (split_and!; [done|by apply (hy_ack _ _ _ _ _ _ _ _ Hup)|congruence|]; eexists _, w2, w3;
     split_and!; [exact Hattempt|congruence|congruence|by apply cells_same_log|done]).
Qed.

(** The first delivery of a group event ... *)
Lemma group_first_delivery fuel sched data w :
  sendable cfg data event opts → eo_send_mode opts = SendMode.Group → up w → cells w = m →
  let '(res, w') := handle_delivery ctx cfg (S fuel) sched data w in
  res = Some tt ∧ up w' ∧ w_amqp w' = w_amqp w ++ [BasicAck]
  ∧ group_settled primary m (cells w')
  ∧ w_sends w' = w_sends w ++ [mkSendRecord (transport ctx opts) (group_mail primary (let_in rest)) true].
Proof.
  intros Hs Hmode Hw Hm. pose proof Hs as (_ & _ & _ & Hmax).
  pose proof (group_handled fuel sched data w (λ o w1 w2,
    o = RecipientOutcome.Sent ∧ up w2 ∧ same_broker w1 w2 ∧ group_settled primary m (cells w2)
    ∧ w_sends w2 = w_sends w1 ++ [mkSendRecord (transport ctx opts) (group_mail primary (let_in rest)) true])
    Hs Hmode Hw) as Hh.
  destruct (handle_delivery _ _ _ _ _ w) as [res w']. destruct Hh as (-> & Hw' & Ha & o & w1 & w2 & Hq & _ & Hs1 & Hc & Hsd).
  - by intros o w1 w2 (-> & ? & ? & _).
  - intros w1 Hw1 Hc1 _. apply group_attempt_works; [done|congruence|done].
  - destruct Hq as (_ & _ & _ & Hset & Hs2). rewrite Hc, Hsd, Hs2, Hs1. by split_and!.
Qed.

(** ... and every one after it. *)
Lemma group_later_delivery fuel sched data w :
  sendable cfg data event opts → eo_send_mode opts = SendMode.Group → up w →
  (∀ r, r ∈ rows_to_insert opts primary → cells w !! event_key event r = Some (group_row (r_email r))) →
  let '(res, w') := handle_delivery ctx cfg (S fuel) sched data w in
  res = Some tt ∧ up w' ∧ w_amqp w' = w_amqp w ++ [BasicAck] ∧ w_sends w' = w_sends w ∧ cells w' = cells w.
Proof.
  intros Hs Hmode Hw Hset. pose proof Hs as (_ & _ & _ & Hmax).
  pose proof (group_handled fuel sched data w (λ o w1 w2,
    o = RecipientOutcome.Skipped ∧ up w2 ∧ same_broker w1 w2 ∧ w_sends w2 = w_sends w1 ∧ cells w2 = cells w1)
    Hs Hmode Hw) as Hh.
  destruct (handle_delivery _ _ _ _ _ w) as [res w']. destruct Hh as (-> & Hw' & Ha & o & w1 & w2 & Hq & Hc1 & Hs1 & Hc & Hsd).
  - by intros o w1 w2 (-> & ? & ? & _).
  - intros w1 Hw1 Hc1 _. apply group_attempt_again; [done|by rewrite Hc1|done].
  - destruct Hq as (_ & _ & _ & Hs2 & Hc2). by split_and!; [| | |congruence|congruence].
Qed.
End group.

(** ** The assumptions, on the real stores *)

Section stores.
Context `{Env}.
Context `{Serialize Recipient, Serialize FromOverride, Serialize AttachmentRef, EventCodec}.
Context (ctx : ProcessorContext) (cfg : ConsumerConfig).
Context (event : NotificationEvent) (opts : EmailOptions).
Context (atts : list ResolvedAttachment) (p : Prepared).
Context (tpls : string → option NotificationTemplate) (snap : BlockListSnapshot).
Context (primary : Recipient) (rest : list Recipient).

Notation mail :=
  (group_mail ctx (snapshot_check snap) event opts atts p primary (let_in ctx rest)).

(** What the outside has to answer for a group event. *)
Record answers_group : Prop := {
  ag_base :> answers_base ctx cfg event opts atts p tpls snap;
  ag_to : ∃ to, group_to_recipients opts = Ok to;
  ag_transport : accepts (transport ctx opts) mail;
}.

Lemma answers_healthy_group :
  answers_group →
  healthy_group ctx cfg (ready tpls snap) (snapshot_check snap) event opts atts p primary rest.
Proof.
  intros Hans. constructor.
  - by apply answers_healthy_base, Hans.
  - apply Hans.
  - intros args. eapply batch_works, (ag_base Hans).
  - eapply transport_works, (ag_transport Hans).
Qed.

(** C6: when the database, the limiter and the transport answer, the first delivery
    of a group event whose first recipient the configured filter lets through
    is carried through at once: it is acknowledged; exactly one message is
    mailed, to that recipient and every other one the filter lets through; and
    every row the event owns (the first recipient's, or in individual retry mode
    everybody's) ends SENT or, with the filter's reason, BLOCKED, no other row
    changing.  Any later delivery of the same bytes is acknowledged and changes
    nothing. *)
Theorem healthy_group_delivery fuel sched fuel' sched' data w :
  answers_group → ready tpls snap w → sendable cfg data event opts →
  eo_send_mode opts = SendMode.Group → group_ok ctx event opts primary rest (email_cells w) →
  let '(res, w1) := handle_delivery ctx cfg (S fuel) sched data w in
  let '(res', w2) := handle_delivery ctx cfg (S fuel') sched' data w1 in
  res = Some tt ∧ w_amqp w1 = w_amqp w ++ [BasicAck]
  ∧ group_settled ctx event opts primary (email_cells w) (email_cells w1)
  ∧ w_sends w1 = w_sends w ++ [mkSendRecord (transport ctx opts) mail true]
  ∧ res' = Some tt ∧ w_amqp w2 = w_amqp w1 ++ [BasicAck]
  ∧ w_sends w2 = w_sends w1 ∧ email_cells w2 = email_cells w1.
Proof.
  intros Hans Hw Hs Hmode Hok. pose proof (answers_healthy_group Hans) as Hup.
  pose proof (group_first_delivery ctx cfg _ _ _ _ _ _ _ _ Hup _ Hok fuel sched data w Hs Hmode Hw eq_refl) as H1'.
  destruct (handle_delivery _ _ (S fuel) _ _ w) as [res w1]. destruct H1' as (-> & Hw1 & Ha1 & Hset & Hs1).
  pose proof (group_later_delivery ctx cfg _ _ _ _ _ _ _ _ Hup _ Hok fuel' sched' data w1 Hs Hmode Hw1
    (gs_rows _ _ _ _ _ _ Hset)) as H2'.
  destruct (handle_delivery _ _ (S fuel') _ _ w1) as [res2 w2]. destruct H2' as (-> & _ & ? & ? & ?). by split_and!.
Qed.
End stores.

(** ** Concrete groups *)

#[local] Existing Instance sample_env.

(** The second of three recipients is on the configured block list. *)
Definition blocking_ctx : ProcessorContext :=
  mkProcessorContext sample_sender ∅ (mkRecipientFilter {["q@example.com"]} ∅ ∅ ∅ false) None.

Definition deliver_group (fuel : nat) (w : World) : option unit * World :=
  handle_delivery (H6 := sample_codec (one_to sample_group_opts)) blocking_ctx consumer_config_default fuel []
    "event" w.

Lemma healthy_group_delivery_witness :
  let '(res, w1) := deliver_group 1 sample_world in
  let '(res', w2) := deliver_group 1 w1 in
  res = Some tt ∧ w_amqp w1 = w_amqp sample_world ++ [BasicAck]
  ∧ group_settled blocking_ctx (sample_event sample_group_opts) sample_group_opts (rcp "p@example.com")
      (email_cells sample_world) (email_cells w1)
  ∧ w_sends w1 = w_sends sample_world
      ++ [mkSendRecord (transport blocking_ctx sample_group_opts)
            (group_mail blocking_ctx (snapshot_check empty_snapshot) (sample_event sample_group_opts)
               sample_group_opts [] sample_prepared (rcp "p@example.com")
               (let_in blocking_ctx [rcp "q@example.com"; rcp "r@example.com"])) true]
  ∧ res' = Some tt ∧ w_amqp w2 = w_amqp w1 ++ [BasicAck]
  ∧ w_sends w2 = w_sends w1 ∧ email_cells w2 = email_cells w1.
Proof.
  apply (healthy_group_delivery (H3 := sample_codec (one_to sample_group_opts)) blocking_ctx consumer_config_default
    (sample_event sample_group_opts) sample_group_opts [] sample_prepared sample_templates empty_snapshot
    (rcp "p@example.com") [rcp "q@example.com"; rcp "r@example.com"] 0 [] 0 []).
  - constructor; [apply sample_answers_base|by eexists|]. eexists. by split.
  - apply sample_ready.
  - split_and!; [reflexivity|reflexivity|done|vm_compute; lia].
  - reflexivity.
  - constructor; [reflexivity| | |reflexivity|].
    + intros r Hr. repeat (apply elem_of_cons in Hr as [->|Hr]; [reflexivity|]). by apply not_elem_of_nil in Hr.
    + vm_compute. repeat constructor; set_solver.
    + intros r _. reflexivity.
Defined.

Example group_mail_and_rows :
  let w := (deliver_group 1 sample_world).2 in
  (to_addresses w, row_states w)
  = ([["p@example.com"; "r@example.com"]],
     [("p@example.com", "SENT"); ("q@example.com", "BLOCKED"); ("r@example.com", "SENT")]).
Proof. vm_compute. reflexivity. Qed.
