(* ===== verification/Runner.v ===== *)
(** * The consumer's connection loop ([crates/consumer/src/runner.rs])

    The queue topology, one connection's lifetime and the reconnection loop
    with its back-off.  The deliveries a connection takes are returned in the
    order their tasks are spawned; what the tasks do, and how their turns
    interleave, is [Delivery] and [AtMostOnce].  The semaphore that bounds how
    many run at once, and the drain, are in [Dispatch]. *)

From S2P Require Import Prelude Json AppErr Event World AmqpUtil.
From S2P Require Import Interfaces Fetcher Processor Delivery.

Section runner.
Context `{Env}.
Context (cfg : ConsumerConfig).

(** ** Topology *)

Definition dlq_name : string := cc_queue cfg +:+ ".dlq".
Definition dlx_name : string := cc_exchange cfg +:+ ".dlx".
Definition delayed_exchange : string := cc_exchange cfg +:+ ".delayed".
Definition delayed_queue : string := cc_queue cfg +:+ ".delayed".

Definition is_not_found (e : BrokerError) : bool :=
  match e with NotFoundReply _ => true | OtherReply _ => false end.

(** A passive declaration on a throw-away channel: does the queue exist? *)
Definition probe_queue (name : string) (complaint : string) : M (result bool string) :=
  let? _ := amqp_step in
  let! r := command (QueueDeclare true name []) in
  st_ret (match r with
          | Ok _ => Ok true
          | Err e =>
              if is_not_found e then Ok false
              else Err ("Passive queue check for '" +:+ name +:+ "' failed" +:+ complaint
                        +:+ broker_text e)
          end).

Definition MISMATCH : string :=
  " — this is usually a queue argument mismatch (e.g. x-dead-letter-exchange or durable flag changed). Delete the queue from the broker and restart to re-declare it. Broker error: ".

Definition delayed_queue_args : list (string * string) :=
  [("x-dead-letter-exchange", cc_exchange cfg); ("x-dead-letter-routing-key", cc_routing_key cfg)].

Definition main_queue_args : list (string * string) := [("x-dead-letter-exchange", dlx_name)].

(** [max_concurrency.min(u16::MAX) as u16]. *)
Definition prefetch : Z := Z.min (Z.of_nat (cc_max_concurrency cfg)) 65535.

(** Existing queues are looked at before anything is declared. *)
Definition probe_queues : M (result unit string) :=
  let? _ := probe_queue dlq_name MISMATCH in
  let? _ := probe_queue (cc_queue cfg) MISMATCH in
  st_ret (Ok tt).

Definition declare_dead_letter : M (result unit string) :=
  let? _ := active (ExchangeDeclare dlx_name ExchangeKind.Fanout) in
  let? _ := active (QueueDeclare false dlq_name []) in
  active (QueueBind dlq_name dlx_name (cc_queue cfg)).

Definition declare_delayed : M (result unit string) :=
  let? _ := active (ExchangeDeclare delayed_exchange ExchangeKind.Fanout) in
  let? exists_already := probe_queue delayed_queue ": " in
  let? _ := (if (exists_already : bool) then st_ret (Ok tt)
             else active (QueueDeclare false delayed_queue delayed_queue_args)) in
  active (QueueBind delayed_queue delayed_exchange "").

Definition declare_main : M (result unit string) :=
  let? _ := active (QueueDeclare false (cc_queue cfg) main_queue_args) in
  let? _ := active (ExchangeDeclare (cc_exchange cfg) ExchangeKind.Direct) in
  active (QueueBind (cc_queue cfg) (cc_exchange cfg) (cc_routing_key cfg)).

Definition declare_topology : M (result unit string) :=
  let? _ := probe_queues in
  let? _ := declare_dead_letter in
  let? _ := declare_delayed in
  let? _ := declare_main in
  active (BasicQos prefetch).

(** ** One connection *)

(** The [select!] loop with the deliveries taken; [Dispatch] has the tasks
    and their draining at a shutdown.  [None] while it is still listening. *)
Fixpoint consume_loop (fuel : nat) : M (option (result unit string) * list string) :=
  match fuel with
  | O => st_ret (None, [])
  | S fuel =>
      let! cancelled := is_cancelled in
      if cancelled then st_ret (Some (Ok tt), [])
      else
        let! t := next_tick in
        match next_delivery t with
        | Some (Ok data) =>
            let! rest := consume_loop fuel in
            st_ret (rest.1, data :: rest.2)
        | Some (Err e) => st_ret (Some (Err e), [])
        | None => st_ret (Some (Err "stream closed"), [])
        end
  end.

(** Connection, channel, topology and consumer. *)
Definition open_consumer : M (result unit string) :=
  let? _ := amqp_step in
  let? _ := amqp_step in
  let? _ := declare_topology in
  active (BasicConsume (cc_queue cfg) "anvil-notify").

Definition connect_and_consume (fuel : nat) : M (option (result unit string) * list string) :=
  let! opened := open_consumer in
  match opened with
  | Err e => st_ret (Some (Err e), [])
  | Ok _ => consume_loop fuel
  end.

(** ** Reconnection *)

Definition RECONNECT_BASE_MS : Z := 2000.
Definition RECONNECT_MAX_MS : Z := 60000.

(** [connected_at.elapsed() > 90 s] starts again from the base. *)
Definition delay_after (reconnect_delay elapsed_ns : Z) : Z :=
  if 90 * 1000000000 <? elapsed_ns then RECONNECT_BASE_MS else reconnect_delay.

Fixpoint reconnect_loop (fuel : nat) (reconnect_delay : Z) : M (option (result unit string) * list string) :=
  match fuel with
  | O => st_ret (None, [])
  | S fuel =>
      let! cancelled := is_cancelled in
      if cancelled then st_ret (Some (Ok tt), [])
      else
        let! connected_at := next_tick in
        let! run := connect_and_consume fuel in
        match run.1 with
        | None => st_ret (None, run.2)
        | Some (Ok _) => st_ret (Some (Ok tt), run.2)
        | Some (Err _) =>
            let! cancelled := is_cancelled in
            if cancelled then st_ret (Some (Ok tt), run.2)
            else
              let! now := next_tick in
              let delay := delay_after reconnect_delay (clock now - clock connected_at) in
              let! woke := sleep_or_shutdown delay in
              if negb woke then st_ret (Some (Ok tt), run.2)
              else
                let! rest := reconnect_loop fuel (Z.min (delay * 2) RECONNECT_MAX_MS) in
                st_ret (rest.1, run.2 ++ rest.2)
        end
  end.

Definition run_consumer (fuel : nat) : M (option (result unit string) * list string) :=
  reconnect_loop fuel RECONNECT_BASE_MS.

(** ** Commands *)

(** [frames] were accepted, nothing else changed. *)
Definition wrote (frames : list AmqpFrame) (w w' : World) : Prop :=
  w_amqp w' = w_amqp w ++ frames ∧ w_db w' = w_db w ∧ w_sends w' = w_sends w ∧ w_slept w' = w_slept w.

Lemma wrote_nil w w' : w_amqp w' = w_amqp w → w_db w' = w_db w → w_sends w' = w_sends w →
  w_slept w' = w_slept w → wrote [] w w'.
Proof. intros. unfold wrote. rewrite app_nil_r. done. Qed.

Lemma wrote_trans f1 f2 w1 w2 w3 : wrote f1 w1 w2 → wrote f2 w2 w3 → wrote (f1 ++ f2) w1 w3.
Proof.
  intros (Ha & ? & ? & ?) (Hb & ? & ? & ?). unfold wrote. rewrite Hb, Ha, app_assoc.
  split_and!; congruence.
Qed.

Lemma active_spec f w r w' :
  active f w = (r, w') → wrote (if is_ok r then [f] else []) w w'.
Proof.
  intros [-> _]%active_run. destruct (is_ok r); [by split_and!|by apply wrote_nil].
Qed.

Lemma probe_queue_spec name msg w r w' :
  probe_queue name msg w = (r, w') →
  wrote (match r with Ok true => [QueueDeclare true name []] | _ => [] end) w w'.
Proof.
  unfold probe_queue, amqp_step, command, next_tick. run_st.
  destruct (amqp_open_err _); [intros [= <- <-]; by apply wrote_nil|].
  destruct (amqp_command _ _) as [[]|e]; simpl; [intros [= <- <-]; by split_and!|].
  destruct (is_not_found e); intros [= <- <-]; by apply wrote_nil.
Qed.

(** ** The topology *)

(** When it succeeds, [m] has written frames [P] allows. *)
Definition declares {A} (m : M (result A string)) (P : A → list AmqpFrame → Prop) : Prop :=
  ∀ w a w', m w = (Ok a, w') → ∃ frames, wrote frames w w' ∧ P a frames.

Lemma declares_try {A B} (m : M (result A string)) (k : A → M (result B string)) P Q :
  declares m P → (∀ a, declares (k a) (Q a)) →
  declares (st_try m k) (λ b l, ∃ a l1 l2, P a l1 ∧ Q a b l2 ∧ l = l1 ++ l2).
Proof.
  intros Hm Hk w b w' Hrun. unfold st_try in Hrun.
  destruct (m w) as [[a|e] w1] eqn:E1; [|done].
  destruct (Hm _ _ _ E1) as (f1 & W1 & P1). destruct (Hk a _ _ _ Hrun) as (f2 & W2 & P2).
  exists (f1 ++ f2). split; [by eapply wrote_trans|]. by exists a, f1, f2.
Qed.

Lemma declares_active f : declares (active f) (λ _ l, l = [f]).
Proof. intros w a w' Hrun%active_spec. by exists [f]. Qed.

(** The trace of a successful probe. *)
Definition probed (name : string) (found : bool) : list AmqpFrame :=
  if found then [QueueDeclare true name []] else [].

Lemma declares_probe name msg : declares (probe_queue name msg) (λ found l, l = probed name found).
Proof. intros w b w' Hrun%probe_queue_spec. eexists. split; [exact Hrun|]. by destruct b. Qed.

(** What each part sends, and everything a complete declaration does. *)
Definition dead_letter_frames : list AmqpFrame :=
  [ExchangeDeclare dlx_name ExchangeKind.Fanout; QueueDeclare false dlq_name [];
   QueueBind dlq_name dlx_name (cc_queue cfg)].

Definition delayed_frames (delayed_exists : bool) : list AmqpFrame :=
  [ExchangeDeclare delayed_exchange ExchangeKind.Fanout] ++ probed delayed_queue delayed_exists ++
  (if delayed_exists then [] else [QueueDeclare false delayed_queue delayed_queue_args]) ++
  [QueueBind delayed_queue delayed_exchange ""].

Definition main_frames : list AmqpFrame :=
  [QueueDeclare false (cc_queue cfg) main_queue_args;
   ExchangeDeclare (cc_exchange cfg) ExchangeKind.Direct;
   QueueBind (cc_queue cfg) (cc_exchange cfg) (cc_routing_key cfg)].

Definition topology (dlq_exists main_exists delayed_exists : bool) : list AmqpFrame :=
  probed dlq_name dlq_exists ++ probed (cc_queue cfg) main_exists ++ dead_letter_frames ++
  delayed_frames delayed_exists ++ main_frames ++ [BasicQos prefetch].

Lemma declares_impl {A} (m : M (result A string)) (P Q : A → list AmqpFrame → Prop) :
  declares m P → (∀ a l, P a l → Q a l) → declares m Q.
Proof. intros Hm Hpq w a w' Hrun. destruct (Hm _ _ _ Hrun) as (l & ? & ?). exists l. by auto. Qed.

Lemma declares_three f g h :
  declares (let? _ := active f in let? _ := active g in active h) (λ _ l, l = [f; g; h]).
Proof.
  eapply declares_impl.
  - eapply declares_try; [apply declares_active|intros ?].
    eapply declares_try; [apply declares_active|intros ?; apply declares_active].
  - by intros a l (? & ? & ? & -> & (? & ? & ? & -> & -> & ->) & ->).
Qed.

Lemma declares_probes :
  declares probe_queues (λ _ l, ∃ b1 b2, l = probed dlq_name b1 ++ probed (cc_queue cfg) b2).
Proof.
  assert (Hret : declares (st_ret (Ok tt)) (λ _ l, l = [])).
  { intros v a v' Hv. injection Hv as <- <-. exists []. split; [by apply wrote_nil|done]. }
  eapply declares_impl.
  - eapply declares_try; [apply declares_probe|intros ?].
    eapply declares_try; [apply declares_probe|intros ?; exact Hret].
  - intros a l (b1 & ? & ? & -> & (b2 & ? & ? & -> & -> & ->) & ->). exists b1, b2. by rewrite app_nil_r.
Qed.

Lemma declares_delayed : declares declare_delayed (λ _ l, ∃ b, l = delayed_frames b).
Proof.
  assert (Hcond : ∀ b : bool, declares (if b then st_ret (Ok tt)
             else active (QueueDeclare false delayed_queue delayed_queue_args))
           (λ _ l, l = if b then [] else [QueueDeclare false delayed_queue delayed_queue_args])).
  { intros []; [|by apply declares_active]. intros v a v' Hv. injection Hv as <- <-. exists [].
    split; [by apply wrote_nil|done]. }
  eapply declares_impl.
  - eapply declares_try; [apply declares_active|intros ?].
    eapply declares_try; [apply declares_probe|intros ?].
    eapply declares_try; [apply Hcond|intros ?; apply declares_active].
  - intros a l (? & ? & ? & -> & (b & ? & ? & -> & (? & ? & ? & -> & -> & ->) & ->) & ->). by exists b.
Qed.

Lemma declare_topology_frames :
  declares declare_topology (λ _ l, ∃ b1 b2 b3, l = topology b1 b2 b3).
Proof.
  eapply declares_impl.
  - eapply declares_try; [apply declares_probes|intros ?].
    eapply declares_try; [apply declares_three|intros ?].
    eapply declares_try; [apply declares_delayed|intros ?].
    eapply declares_try; [apply declares_three|intros ?; apply declares_active].
  - intros a l (? & ? & ? & (b1 & b2 & ->) & (? & ? & ? & -> & (? & ? & ? & (b3 & ->) &
      (? & ? & ? & -> & -> & ->) & ->) & ->) & ->).
    exists b1, b2, b3. unfold topology. by rewrite <- !app_assoc.
Qed.

(** Routing as AMQP 0-9-1 defines it: a fanout exchange feeds every queue bound
    to it, a direct one the queues bound under the message's key; a rejected or
    expired message leaves its queue for the queue's dead-letter exchange, under
    the queue's dead-letter key or its own. *)
Definition routed (frames : list AmqpFrame) (exchange key queue : string) : Prop :=
  ∃ kind bkey, ExchangeDeclare exchange kind ∈ frames ∧ QueueBind queue exchange bkey ∈ frames
               ∧ (kind = ExchangeKind.Fanout ∨ bkey = key).

Definition dead_lettered (frames : list AmqpFrame) (queue key exchange key' : string) : Prop :=
  ∃ args, QueueDeclare false queue args ∈ frames
          ∧ assoc "x-dead-letter-exchange" args = Some exchange
          ∧ key' = default key (assoc "x-dead-letter-routing-key" args).

Lemma app_ne_self (s t : string) : t ≠ "" → s ≠ s +:+ t.
Proof.
  intros Ht. induction s as [|c s IH]; [by destruct t|].
  change (String c s +:+ t) with (String c (s +:+ t)). by intros [= ?].
Qed.

Lemma app_inj_l (s t u : string) : s +:+ t = s +:+ u → t = u.
Proof.
  induction s as [|c s IH]; [done|].
  change (String c s +:+ t) with (String c (s +:+ t)). change (String c s +:+ u) with (String c (s +:+ u)).
  intros [= ?]. by apply IH.
Qed.

(** Membership in a concrete list of commands. *)
Ltac find_frame :=
  unfold topology, dead_letter_frames, delayed_frames, main_frames, probed; simpl; rewrite ?elem_of_cons, ?elem_of_nil;
  split; intros Hin; destruct_or?; destruct_and?; simplify_eq; auto 20.

Lemma topology_exchanges b1 b2 b3 x k :
  ExchangeDeclare x k ∈ topology b1 b2 b3 ↔
  (x, k) ∈ [(dlx_name, ExchangeKind.Fanout); (delayed_exchange, ExchangeKind.Fanout);
            (cc_exchange cfg, ExchangeKind.Direct)].
Proof.
  destruct b1, b2, b3; find_frame.
Qed.

Lemma topology_bindings b1 b2 b3 q x k :
  QueueBind q x k ∈ topology b1 b2 b3 ↔
  (q, x, k) ∈ [(dlq_name, dlx_name, cc_queue cfg); (delayed_queue, delayed_exchange, "");
               (cc_queue cfg, cc_exchange cfg, cc_routing_key cfg)].
Proof.
  destruct b1, b2, b3; find_frame.
Qed.

Lemma topology_queues b1 b2 b3 q args :
  QueueDeclare false q args ∈ topology b1 b2 b3 ↔
  (q, args) ∈ [(dlq_name, []); (cc_queue cfg, main_queue_args)]
  ∨ (b3 = false ∧ q = delayed_queue ∧ args = delayed_queue_args).
Proof.
  destruct b1, b2, b3; find_frame.
Qed.

(** After a successful declaration an event published under the routing key
    reaches the main queue and no other; a message the consumer rejects goes to
    the dead-letter queue and no other; a copy deferred to the delayed exchange
    goes to the delayed queue and no other and, when this declaration created
    that queue, comes back to the main queue when it expires. *)
Theorem topology_routes w w' :
  declare_topology w = (Ok tt, w') →
  ∃ frames, wrote frames w w'
    ∧ (∀ q, routed frames (cc_exchange cfg) (cc_routing_key cfg) q ↔ q = cc_queue cfg)
    ∧ (∀ key, ∃ x, dead_lettered frames (cc_queue cfg) key x key
                   ∧ ∀ q, routed frames x key q ↔ q = dlq_name)
    ∧ (∀ key q, routed frames delayed_exchange key q ↔ q = delayed_queue)
    ∧ (QueueDeclare true delayed_queue [] ∉ frames →
       ∀ key, ∃ x key', dead_lettered frames delayed_queue key x key'
                        ∧ ∀ q, routed frames x key' q ↔ q = cc_queue cfg).
Proof.
  intros (frames & Hw & b1 & b2 & b3 & ->)%declare_topology_frames.
  exists (topology b1 b2 b3). split; [done|].
  assert (H1 : cc_exchange cfg ≠ dlx_name) by by apply app_ne_self.
  assert (H2 : cc_exchange cfg ≠ delayed_exchange) by by apply app_ne_self.
  assert (H3 : dlx_name ≠ delayed_exchange) by by intros ?%app_inj_l.
  assert (Hr : ∀ x key q, routed (topology b1 b2 b3) x key q ↔
    (x = dlx_name ∧ q = dlq_name) ∨ (x = delayed_exchange ∧ q = delayed_queue)
    ∨ (x = cc_exchange cfg ∧ key = cc_routing_key cfg ∧ q = cc_queue cfg)).
  { intros x key q. unfold routed. setoid_rewrite topology_exchanges. setoid_rewrite topology_bindings.
    setoid_rewrite elem_of_cons. setoid_rewrite elem_of_cons. setoid_rewrite elem_of_cons.
    setoid_rewrite elem_of_nil. split; [naive_solver|].
    intros [[-> ->]|[[-> ->]|(-> & -> & ->)]]; do 2 eexists; naive_solver. }
  setoid_rewrite Hr. split_and!.
  - naive_solver.
  - intros key. exists dlx_name. split; [|naive_solver]. exists main_queue_args.
    split_and!; [|done|done]. apply topology_queues. left. set_solver.
  - naive_solver.
  - intros Hnot key. exists (cc_exchange cfg), (cc_routing_key cfg). split; [|naive_solver].
    exists delayed_queue_args. split_and!; [|done|done]. apply topology_queues. right.
    split_and!; [|done|done]. destruct b3; [|done]. exfalso. apply Hnot.
    unfold topology, delayed_frames, probed. rewrite !elem_of_app. set_solver.
Qed.

(** ** Reconnection *)

(** No pause, while time passes. *)
Definition awake : relation World := λ w w', w_slept w' = w_slept w ∧ (w_tick w <= w_tick w')%nat.
#[local] Instance awake_preorder : PreOrder awake.
Proof. split; [by intros w|]. intros w1 w2 w3 [] []. split; [congruence|lia]. Qed.

Lemma step_awake : keeps awake amqp_step.
Proof. intros w. split; [done|simpl; lia]. Qed.

Lemma active_awake f : keeps awake (active f).
Proof.
  intros w. destruct (active f w) as [r w'] eqn:E. apply active_run in E as [-> _]. simpl.
  destruct (is_ok r); (split; [done|simpl; lia]).
Qed.

Lemma probe_awake name msg : keeps awake (probe_queue name msg).
Proof.
  apply keeps_try; [apply _|apply step_awake|intros _].
  apply keeps_bind; [apply _| |intros; apply keeps_ret, _]. intros w. unfold command, next_tick. run_st.
  destruct (amqp_command _ _); (split; [done|simpl; lia]).
Qed.

Lemma topology_awake : keeps awake declare_topology.
Proof.
  assert (Hthree : ∀ f g h, keeps awake (let? _ := active f in let? _ := active g in active h)).
  { intros f g h. repeat (apply keeps_try; [apply _|apply active_awake|intros ?]). apply active_awake. }
  apply keeps_try; [apply _| |intros _].
  { apply keeps_try; [apply _|apply probe_awake|intros _].
    apply keeps_try; [apply _|apply probe_awake|intros _]. apply keeps_ret, _. }
  apply keeps_try; [apply _|apply Hthree|intros _].
  apply keeps_try; [apply _| |intros _].
  { apply keeps_try; [apply _|apply active_awake|intros _].
    apply keeps_try; [apply _|apply probe_awake|intros b].
    apply keeps_try; [apply _| |intros _; apply active_awake].
    apply keeps_if; [apply keeps_ret, _|apply active_awake]. }
  apply keeps_try; [apply _|apply Hthree|intros _]. apply active_awake.
Qed.

Lemma open_awake : keeps awake open_consumer.
Proof.
  do 2 (apply keeps_try; [apply _|apply step_awake|intros _]).
  apply keeps_try; [apply _|apply topology_awake|intros _]. apply active_awake.
Qed.

(** The token was set when it was looked at, or during a pause. *)
Definition stopped : Prop := ∃ t, shutdown_requested t = true ∨ sleep_completes t = false.

Lemma consume_loop_spec fuel w :
  let '((r, _), w') := consume_loop fuel w in
  awake w w' ∧ (r = Some (Ok tt) → stopped).
Proof.
  revert w. induction fuel as [|fuel IH]; intros w; [done|]. cbn [consume_loop].
  unfold is_cancelled, next_tick. run_st. destruct (shutdown_requested (w_tick w)) eqn:Es; simpl.
  { split; [split; simpl; [done|lia]|]. intros _. exists (w_tick w). by left. }
  set (w1 := set_tick (S (S (w_tick w))) _).
  assert (Hw1 : awake w w1) by (split; simpl; [done|lia]).
  destruct (next_delivery (S (w_tick w))) as [[data|e]|]; [|done..].
  specialize (IH w1). destruct (consume_loop fuel w1) as [[r l] w2]. destruct IH as [Ha Hr].
  split; [|done]. by etransitivity.
Qed.

Lemma connect_and_consume_spec fuel w :
  let '((r, _), w') := connect_and_consume fuel w in
  awake w w' ∧ (r = Some (Ok tt) → stopped).
Proof.
  unfold connect_and_consume. run_st. pose proof (open_awake w) as H1.
  destruct (open_consumer w) as [[[]|e] w1]; [|done]. simpl in H1.
  pose proof (consume_loop_spec fuel w1) as H3. destruct (consume_loop fuel w1) as [[r l] w3].
  destruct H3 as [H3 Hs]. split; [|done]. by etransitivity.
Qed.

(** A connection that was attempted right after the first of two ticks, and
    whose failure was timed at the second. *)
Definition failed_connection (span : nat * nat) : Prop :=
  ∃ fuel v e ds v', w_tick v = S span.1 ∧ connect_and_consume fuel v = ((Some (Err e), ds), v')
    ∧ span.2 = S (w_tick v').

(** One after the other, between two ticks. *)
Fixpoint in_turn (t : nat) (spans : list (nat * nat)) (t' : nat) : Prop :=
  match spans with
  | [] => (t <= t')%nat
  | (t0, t1) :: spans => (t <= t0 < t1)%nat ∧ in_turn (S t1) spans t'
  end.

(** The pauses after them, the next one being of [d] ms: back to 2 s after a
    connection of more than 90 s, then twice as long each time, up to 60 s. *)
Fixpoint pauses_after (d : Z) (spans : list (nat * nat)) : list Z :=
  match spans with
  | [] => []
  | (t0, t1) :: spans =>
      let x := if bool_decide (90 * 1000000000 < clock t1 - clock t0) then 2000 else d in
      x :: pauses_after (Z.min (x * 2) 60000) spans
  end.

Lemma in_turn_weaken t0 t spans t' : (t0 <= t)%nat → in_turn t spans t' → in_turn t0 spans t'.
Proof. intros Ht. destruct spans as [|[a b] spans]; simpl; [lia|]. intros [? ?]. split; [lia|done]. Qed.

(** No connection has failed yet. *)
Lemma none_failed d slept slept' t t' :
  slept' = slept → (t <= t')%nat →
  ∃ spans, slept' = slept ++ pauses_after d spans ∧ Forall failed_connection spans ∧ in_turn t spans t'.
Proof. intros -> Ht. exists []. simpl. rewrite app_nil_r. by split_and!; [|constructor|]. Qed.

Lemma reconnect_loop_spec fuel d w :
  let '((r, _), w') := reconnect_loop fuel d w in
  (∃ spans, w_slept w' = w_slept w ++ pauses_after d spans ∧ Forall failed_connection spans
            ∧ in_turn (w_tick w) spans (w_tick w'))
  ∧ (r = None ∨ (r = Some (Ok tt) ∧ stopped)).
Proof.
  revert d w. induction fuel as [|fuel IH]; intros d w; cbn [reconnect_loop].
  { split; [by apply none_failed|by left]. }
  unfold is_cancelled, next_tick, sleep_or_shutdown. run_st.
  destruct (shutdown_requested (w_tick w)) eqn:Es; simpl.
  { split; [apply none_failed; [done|lia]|]. right. split; [done|]. exists (w_tick w). by left. }
  set (w0 := set_tick _ (set_tick _ w)). assert (Hw0 : awake w w0) by (split; simpl; [done|lia]).
  pose proof (connect_and_consume_spec fuel w0) as Hc.
  destruct (connect_and_consume fuel w0) as [[r l] w1] eqn:Hrun. destruct Hc as [Ha Hst].
  assert (Hw1 : awake w w1) by by etransitivity. destruct Ha as [Hsl Hle]. simpl in Hsl, Hle.
  simpl fst. destruct r as [[[]|e]|]; simpl; [split; [by apply none_failed; destruct Hw1|right; auto]| |split; [by apply none_failed; destruct Hw1|by left]].
  destruct (shutdown_requested (w_tick w1)) eqn:Es1; simpl.
  { split; [apply none_failed; [done|lia]|]. right. split; [done|]. exists (w_tick w1). by left. }
  set (span := (S (w_tick w), S (w_tick w1))).
  assert (Hspan : failed_connection span) by (by exists fuel, w0, e, l, w1).
  set (x := delay_after d _).
  assert (Hx : x = if bool_decide (90 * 1000000000 < clock (S (w_tick w1)) - clock (S (w_tick w))) then 2000 else d).
  { unfold x, delay_after. simpl. case_bool_decide as Hb.
    - by apply Z.ltb_lt in Hb as ->.
    - apply Z.nlt_ge, Z.ltb_ge in Hb as ->. done. }
  destruct (sleep_completes _) eqn:Ec; simpl.
  2: { split; [|right; split; [done|]; eexists; right; exact Ec].
       exists [span]. split_and!; [simpl; by rewrite Hsl, Hx|by constructor|simpl; lia..]. }
  set (w2 := log_sleep x _). specialize (IH (Z.min (x * 2) RECONNECT_MAX_MS) w2).
  destruct (reconnect_loop fuel _ w2) as [[r l2] w3]. simpl. destruct IH as [(ps & Hps & Hall & Hin) Hr].
  split; [|done]. exists (span :: ps). simpl in Hps. split_and!.
  - rewrite Hps, Hsl, <- app_assoc. simpl. by rewrite <- Hx.
  - by constructor.
  - simpl. split; [lia|]. simpl in Hin. eapply in_turn_weaken, Hin. lia.
Qed.

Lemma pauses_bounds d spans :
  2000 ≤ d ≤ 60000 → Forall (λ x, 2000 ≤ x ≤ 60000) (pauses_after d spans).
Proof.
  revert d. induction spans as [|[t0 t1] spans IH]; intros d Hd; [constructor|]. cbn [pauses_after].
  set (x := if bool_decide _ then _ else _).
  assert (2000 ≤ x ≤ 60000) by (unfold x; case_bool_decide; lia).
  constructor; [done|]. apply IH. lia.
Qed.

(** The n-th pause of a row of short connections. *)
Definition doubled (n : nat) : Z := Z.min (2000 * 2 ^ Z.of_nat n) 60000.

Lemma doubled_S n : Z.min (doubled n * 2) 60000 = doubled (S n).
Proof. unfold doubled. rewrite Nat2Z.inj_succ, Z.pow_succ_r by lia. lia. Qed.

Lemma pauses_double spans n :
  (∀ t t', clock t' - clock t ≤ 90 * 1000000000) →
  pauses_after (doubled n) spans = map doubled (seq n (length spans)).
Proof.
  intros Hclock. revert n. induction spans as [|[t0 t1] spans IH]; intros n; [done|]. cbn [pauses_after length seq map].
  specialize (Hclock t0 t1) as Hle. rewrite bool_decide_eq_false_2 by lia. by rewrite doubled_S, IH.
Qed.


End runner.

(** ** Concrete runs *)

Lemma topology_routes_witness :
  let cfg := consumer_config_default in
  ∃ frames, wrote frames (world0 empty_db) (declare_topology (H := sample_env) cfg (world0 empty_db)).2
    ∧ (∀ q, routed frames (cc_exchange cfg) (cc_routing_key cfg) q ↔ q = cc_queue cfg)
    ∧ (∀ key, ∃ x, dead_lettered frames (cc_queue cfg) key x key
                   ∧ ∀ q, routed frames x key q ↔ q = dlq_name cfg)
    ∧ (∀ key q, routed frames (delayed_exchange cfg) key q ↔ q = delayed_queue cfg)
    ∧ (QueueDeclare true (delayed_queue cfg) [] ∉ frames →
       ∀ key, ∃ x key', dead_lettered frames (delayed_queue cfg) key x key'
                        ∧ ∀ q, routed frames x key' q ↔ q = cc_queue cfg).
Proof. apply (topology_routes (H := sample_env)). vm_compute. reflexivity. Defined.

(** The broker is away: the pauses grow to a minute. *)
Example growing_pauses :
  w_slept (reconnect_loop (H := vary_amqp sample_env (λ _, Some "connection refused") (λ _, None)) consumer_config_default
             7 RECONNECT_BASE_MS (world0 empty_db)).2
  = [2000; 4000; 8000; 16000; 32000; 60000; 60000].
Proof. vm_compute. reflexivity. Qed.
