(* ===== verification/Dispatch.v ===== *)
(** * Concurrent deliveries and the drain at shutdown ([crates/consumer/src/runner.rs])

    [run_consumer] once more, as a state machine: the connection loop, the
    semaphore whose permits the spawned tasks hold, and the tasks themselves,
    which may finish at any point.  [Runner] gives the same loop as a function
    of the world, one delivery after the other; the last theorem of the file
    says that each of its runs is a run of this machine. *)

From S2P Require Import Prelude Json AppErr Event World AmqpUtil.
From S2P Require Import Interfaces Fetcher Processor Delivery Runner.

(** Where [run_consumer] stands. *)
Inductive Phase : Type :=
  | Connecting                  (* top of the reconnection loop *)
  | Listening                   (* at the [select!] of [connect_and_consume] *)
  | Acquiring (data : string)   (* at [acquire_owned().await] with a delivery in hand *)
  | Draining                    (* at [acquire_many(max_concurrency).await] *)
  | Lost                        (* [connect_and_consume] returned an error *)
  | Pausing                     (* in the back-off's [select!] *)
  | Exited (drained : bool).

Record Consumer : Type := mkConsumer {
  co_phase : Phase;
  co_delay : Z;
  co_permits : nat;
  co_tasks : list string;
  (** The deliveries whose task has returned, in that order. *)
  co_done : list string;
}.

(** What can happen next. *)
Inductive Input : Type :=
  | Shutdown
  | ConnectOk
  | ConnectErr
  | Deliver (data : string)
  | StreamErr
  | Acquired
  | Finish (i : nat)
  | Drained
  | Failed (elapsed_ns : Z)
  | Woke.

Definition set_phase (p : Phase) (c : Consumer) : Consumer :=
  mkConsumer p (co_delay c) (co_permits c) (co_tasks c) (co_done c).
Definition set_delay (d : Z) (c : Consumer) : Consumer :=
  mkConsumer (co_phase c) d (co_permits c) (co_tasks c) (co_done c).

(** A task returns, and drops its permit. *)
Definition finish (i : nat) (c : Consumer) : option Consumer :=
  match co_tasks c !! i with
  | Some data =>
      Some (mkConsumer (co_phase c) (co_delay c) (S (co_permits c)) (delete i (co_tasks c))
              (co_done c ++ [data]))
  | None => None
  end.

(** [tokio::spawn] with the permit moved into the task. *)
Definition spawn (data : string) (c : Consumer) : option Consumer :=
  match co_permits c with
  | O => None
  | S permits =>
      Some (mkConsumer Listening (co_delay c) permits (co_tasks c ++ [data]) (co_done c))
  end.

Section dispatch.
Context (max_concurrency : nat).

Definition start : Consumer := mkConsumer Connecting RECONNECT_BASE_MS max_concurrency [] [].

(** [None]: the input cannot happen here. *)
Definition step (i : Input) (c : Consumer) : option Consumer :=
  match i, co_phase c with
  | Finish i, _ => finish i c
  | Shutdown, Connecting | Shutdown, Lost | Shutdown, Pausing => Some (set_phase (Exited false) c)
  | Shutdown, Listening => Some (set_phase Draining c)
  | ConnectOk, Connecting => Some (set_phase Listening c)
  | ConnectErr, Connecting => Some (set_phase Lost c)
  | Deliver data, Listening => Some (set_phase (Acquiring data) c)
  | StreamErr, Listening => Some (set_phase Lost c)
  | Acquired, Acquiring data => spawn data c
  | Drained, Draining =>
      if as_u32 (Z.of_nat max_concurrency) <=? Z.of_nat (co_permits c)
      then Some (set_phase (Exited true) c) else None
  | Failed elapsed, Lost => Some (set_phase Pausing (set_delay (delay_after (co_delay c) elapsed) c))
  | Woke, Pausing =>
      Some (set_phase Connecting (set_delay (Z.min (co_delay c * 2) RECONNECT_MAX_MS) c))
  | _, _ => None
  end.

Fixpoint run (ins : list Input) (c : Consumer) : option Consumer :=
  match ins with
  | [] => Some c
  | i :: ins => match step i c with Some c => run ins c | None => None end
  end.

Definition deliveries (ins : list Input) : list string :=
  omap (λ i, match i with Deliver data => Some data | _ => None end) ins.

Lemma deliveries_app ins1 ins2 : deliveries (ins1 ++ ins2) = deliveries ins1 ++ deliveries ins2.
Proof. apply omap_app. Qed.

(** The delivery the loop holds while it waits for a permit. *)
Definition in_hand (c : Consumer) : list string :=
  match co_phase c with Acquiring data => [data] | _ => [] end.

(** ** The permits *)

(** Every permit is either free or held by a task, and the back-off stays
    within its bounds. *)
Definition consumer_ok (c : Consumer) : Prop :=
  (co_permits c + length (co_tasks c) = max_concurrency)%nat
  ∧ RECONNECT_BASE_MS ≤ co_delay c ≤ RECONNECT_MAX_MS.

Lemma start_ok : consumer_ok start.
Proof. split; simpl; [lia|]. unfold RECONNECT_BASE_MS, RECONNECT_MAX_MS. lia. Qed.

Lemma delay_after_bounds d e :
  RECONNECT_BASE_MS ≤ d ≤ RECONNECT_MAX_MS →
  RECONNECT_BASE_MS ≤ delay_after d e ≤ RECONNECT_MAX_MS.
Proof.
  unfold delay_after, RECONNECT_BASE_MS, RECONNECT_MAX_MS. destruct (_ <? e); lia.
Qed.

Lemma finish_spec i c c' :
  finish i c = Some c' →
  ∃ data, co_tasks c !! i = Some data ∧ co_phase c' = co_phase c ∧ co_delay c' = co_delay c
          ∧ co_permits c' = S (co_permits c) ∧ co_tasks c' = delete i (co_tasks c)
          ∧ co_done c' = co_done c ++ [data].
Proof.
  unfold finish. destruct (co_tasks c !! i) as [data|] eqn:E; [|done]. intros [= <-]. by exists data.
Qed.

Lemma spawn_spec data c c' :
  spawn data c = Some c' →
  co_phase c' = Listening ∧ co_delay c' = co_delay c ∧ co_permits c = S (co_permits c')
  ∧ co_tasks c' = co_tasks c ++ [data] ∧ co_done c' = co_done c.
Proof. unfold spawn. destruct (co_permits c) as [|p]; [done|]. by intros [= <-]. Qed.

(** Case analysis on a step: the enabled combinations only. *)
Ltac inv_step H :=
  match type of H with
  | step ?i ?c = Some _ =>
      unfold step in H; destruct i;
      lazymatch type of H with
      | finish _ _ = _ => apply finish_spec in H as (?data & ?Htask & ?Hph & ?Hde & ?Hpe & ?Hta & ?Hdo)
      | _ =>
          destruct (co_phase c) eqn:?Hphase; try discriminate H;
          lazymatch type of H with
          | spawn _ _ = _ => apply spawn_spec in H as (?Hph & ?Hde & ?Hpe & ?Hta & ?Hdo)
          | (if _ then _ else _) = _ =>
              destruct (_ <=? _) eqn:?Hfree in H; [injection H as <-|discriminate H]
          | _ => injection H as <-
          end
      end
  end.

Lemma step_ok i c c' : step i c = Some c' → consumer_ok c → consumer_ok c'.
Proof.
  intros H [Hp Hd]. unfold consumer_ok. inv_step H; simpl; try done.
  - rewrite Hta, Hde, length_app. simpl. split; [lia|done].
  - rewrite Hpe, Hta, Hde. split; [|done]. apply delete_Permutation, Permutation_length in Htask.
    simpl in Htask. lia.
  - split; [done|]. by apply delay_after_bounds.
  - split; [done|]. unfold RECONNECT_BASE_MS, RECONNECT_MAX_MS in *. lia.
Qed.

Lemma run_ind (Q : Consumer → Prop) :
  (∀ i c c', step i c = Some c' → Q c → Q c') →
  ∀ ins c c', run ins c = Some c' → Q c → Q c'.
Proof.
  intros Hstep ins. induction ins as [|i ins IH]; intros c c'; simpl; [by intros [= <-]|].
  destruct (step i c) as [c1|] eqn:E; [|done]. intros Hrun HQ. eapply IH; [exact Hrun|]. by eapply Hstep.
Qed.

Lemma run_ok ins c c' : run ins c = Some c' → consumer_ok c → consumer_ok c'.
Proof. apply run_ind, step_ok. Qed.

Lemma run_app ins1 ins2 c :
  run (ins1 ++ ins2) c = match run ins1 c with Some c' => run ins2 c' | None => None end.
Proof. revert c. induction ins1 as [|i ins1 IH]; intros c; [done|]. simpl. by destruct (step i c). Qed.

(** At most [max_concurrency] deliveries are being processed at any time, over
    all the connections the consumer goes through, and the reconnection pause
    never leaves its bounds. *)
Theorem deliveries_bounded ins c :
  run ins start = Some c →
  (length (co_tasks c) <= max_concurrency)%nat
  ∧ RECONNECT_BASE_MS ≤ co_delay c ≤ RECONNECT_MAX_MS.
Proof. intros [Hp Hd]%run_ok; [|apply start_ok]. split; [lia|done]. Qed.

(** ** What becomes of a delivery *)

Lemma step_conserves i c c' :
  step i c = Some c' →
  co_done c' ++ co_tasks c' ++ in_hand c' ≡ₚ
  (co_done c ++ co_tasks c ++ in_hand c) ++ deliveries [i].
Proof.
  intros H. unfold in_hand. inv_step H; simpl; rewrite ?Hphase, ?Hph, ?app_nil_r; simpl;
    rewrite ?app_nil_r; try done.
  - by rewrite app_assoc.
  - by rewrite Hta, Hdo.
  - rewrite Hta, Hdo. rewrite (delete_Permutation _ _ _ Htask) at 2.
    by rewrite <- !app_assoc.
Qed.

Lemma run_conserves ins c c' :
  run ins c = Some c' →
  co_done c' ++ co_tasks c' ++ in_hand c' ≡ₚ
  (co_done c ++ co_tasks c ++ in_hand c) ++ deliveries ins.
Proof.
  revert c. induction ins as [|i ins IH]; intros c; simpl.
  { intros [= <-]. by rewrite app_nil_r. }
  destruct (step i c) as [c1|] eqn:E; [|done]. intros Hrun. rewrite (IH _ Hrun), (step_conserves _ _ _ E).
  rewrite <- app_assoc. by destruct i.
Qed.

(** Every delivery taken from the broker is accounted for: its task has
    returned, or it is running, or it is the one the loop holds while it waits
    for a permit. *)
Theorem deliveries_conserved ins c :
  run ins start = Some c → co_done c ++ co_tasks c ++ in_hand c ≡ₚ deliveries ins.
Proof. intros H. by rewrite (run_conserves _ _ _ H). Qed.

(** ** Shutdown *)

Lemma as_u32_small : (Z.of_nat max_concurrency ≤ u32_max) →
  as_u32 (Z.of_nat max_concurrency) = Z.of_nat max_concurrency.
Proof. intros. apply as_u32_id. lia. Qed.

(** No task is left once the consumer exits by draining. *)
Definition drained_ok (c : Consumer) : Prop := co_phase c = Exited true → co_tasks c = [].

Lemma run_drained_ok ins c :
  Z.of_nat max_concurrency ≤ u32_max → run ins start = Some c → drained_ok c.
Proof.
  intros Hmax Hrun. enough (consumer_ok c ∧ drained_ok c) as [_ ?] by done.
  eapply (run_ind (λ c, consumer_ok c ∧ drained_ok c)); [|exact Hrun|split; [apply start_ok|done]].
  intros i c1 c2 Hstep [Hok Hdr]. split; [by eapply step_ok|].
  unfold drained_ok in *. inv_step Hstep; simpl; try (by rewrite ?Hph); try done.
  - intros Hex. rewrite Hph in Hex. by rewrite (Hdr Hex) in Htask.
  - intros _. destruct Hok as [Hp _]. rewrite as_u32_small in Hfree by done.
    destruct (co_tasks c1); [done|]. simpl in Hp. lia.
Qed.

(** From [Draining] on nothing is taken from the queue, and finishing the
    running tasks, in any order, lets the consumer exit. *)
Lemma drain_exits c :
  consumer_ok c → co_phase c = Draining → Z.of_nat max_concurrency ≤ u32_max →
  ∃ c', run (repeat (Finish 0) (length (co_tasks c)) ++ [Drained]) c = Some c'
        ∧ co_phase c' = Exited true ∧ co_done c' = co_done c ++ co_tasks c.
Proof.
  intros [Hp Hd] Hph Hmax. remember (co_tasks c) as ts eqn:Hts. revert c Hp Hd Hph Hts.
  induction ts as [|t ts IH]; intros c Hp Hd Hph Hts.
  - simpl. rewrite Hph, as_u32_small by done. simpl in Hp. rewrite <- Hp.
    destruct (_ <=? _) eqn:E.
    + eexists. split_and!; [done|done|]. simpl. by rewrite app_nil_r.
    + apply Z.leb_gt in E. lia.
  - simpl. unfold finish. rewrite <- Hts. simpl.
    edestruct (IH (mkConsumer (co_phase c) (co_delay c) (S (co_permits c)) ts (co_done c ++ [t])))
      as (c' & Hrun & Hex & Hdo); [simpl in *; lia|done..|].
    exists c'. split_and!; [done|done|]. simpl in Hdo. by rewrite Hdo, <- app_assoc.
Qed.

Lemma draining_takes_nothing ins c c' :
  co_phase c = Draining ∨ (∃ b, co_phase c = Exited b) → run ins c = Some c' → deliveries ins = [].
Proof.
  revert c. induction ins as [|i ins IH]; intros c Hph; [done|]. simpl.
  destruct (step i c) as [c1|] eqn:E; [|done]. intros Hrun.
  enough ((co_phase c1 = Draining ∨ ∃ b, co_phase c1 = Exited b) ∧ deliveries [i] = []) as [Hph1 Hi].
  { specialize (IH _ Hph1 Hrun). by destruct i. }
  inv_step E; destruct Hph as [Hph'|[b Hph']]; rewrite ?Hph' in *; simplify_eq; eauto;
    simpl; rewrite ?Hph; eauto.
Qed.

(** C20: a shutdown seen while listening drains: whatever happens afterwards no
    further delivery is taken, the running tasks can be brought to an end and
    the consumer then exits, and when it has exited that way no task is left. *)
Theorem shutdown_drains ins c :
  Z.of_nat max_concurrency ≤ u32_max → run ins start = Some c → co_phase c = Draining →
  (∀ ins' c', run ins' c = Some c' →
     deliveries ins' = [] ∧ (co_phase c' = Exited true → co_tasks c' = []))
  ∧ ∃ c', run (repeat (Finish 0) (length (co_tasks c)) ++ [Drained]) c = Some c'
          ∧ co_phase c' = Exited true ∧ co_done c' ≡ₚ deliveries ins.
Proof.
  intros Hmax Hrun Hph. split.
  - intros ins' c' Hrun'. split; [eapply draining_takes_nothing, Hrun'; by left|].
    apply (run_drained_ok (ins ++ ins')); [done|]. by rewrite run_app, Hrun.
  - destruct (drain_exits c (run_ok _ _ _ Hrun start_ok) Hph Hmax) as (c' & Hd & Hex & Hdo).
    exists c'. split_and!; [done..|]. rewrite Hdo, <- (deliveries_conserved _ _ Hrun).
    unfold in_hand. by rewrite Hph, app_nil_r.
Qed.

(** With at least one permit the consumer is never stuck: until it exits, the
    loop can go on or a running task can finish. *)
Theorem never_stuck ins c :
  (0 < max_concurrency)%nat → Z.of_nat max_concurrency ≤ u32_max →
  run ins start = Some c → (∃ b, co_phase c = Exited b) ∨ ∃ i c', step i c = Some c'.
Proof.
  intros Hpos Hmax Hrun. destruct (run_ok _ _ _ Hrun start_ok) as [Hp _].
  assert (Htask : co_tasks c = [] ∨ ∃ c', step (Finish 0) c = Some c').
  { destruct (co_tasks c) as [|t ts] eqn:Ht; [by left|]. right. unfold step, finish. rewrite Ht.
    by eexists. }
  destruct (co_phase c) as [| |data| | | |b] eqn:Hph; [| | | | | |left; by eexists]; right.
  1: exists ConnectOk. 2: exists (Deliver ""). 5: exists (Failed 0). 6: exists Woke.
  1, 2, 5, 6: unfold step; rewrite Hph; by eexists.
  - destruct Htask as [Ht|?]; [|by eexists]. exists Acquired. unfold step, spawn. rewrite Hph.
    rewrite Ht in Hp. simpl in Hp. destruct (co_permits c); [lia|by eexists].
  - destruct Htask as [Ht|?]; [|by eexists]. exists Drained. unfold step.
    rewrite Hph, as_u32_small by done. rewrite Ht in Hp. simpl in Hp.
    destruct (_ <=? _) eqn:E; [by eexists|]. apply Z.leb_gt in E. lia.
Qed.
End dispatch.

(** ** The sequential loop is a run of the machine *)

Section sequential.
Context `{Env}.
Context (cfg : ConsumerConfig).
Notation n := (cc_max_concurrency cfg).
Context (Hpos : (0 < n)%nat) (Hmax : Z.of_nat n ≤ u32_max).

(** No task is running and every permit is free. *)
Definition idle (p : Phase) (delay : Z) (done : list string) : Consumer :=
  mkConsumer p delay n [] done.

(** One delivery taken, spawned and finished. *)
Definition serve (data : string) : list Input := [Deliver data; Acquired; Finish 0].

(** What happens next to the machine when the environment answers as it does
    in [w]: [t] is the tick at which the last connection was attempted.  Each
    clause asks what the phase asks, in its order; the tasks' own steps ask
    nothing. *)
Inductive answers (c : Consumer) (t : nat) (w : World) : list Input → nat → World → Prop :=
  | an_told w1 :
      co_phase c ∈ [Connecting; Listening; Lost] → is_cancelled w = (true, w1) →
      answers c t w [Shutdown] t w1
  | an_opened w1 w2 :
      co_phase c = Connecting → is_cancelled w = (false, w1) →
      open_consumer cfg (set_tick (S (w_tick w1)) w1) = (Ok tt, w2) →
      answers c t w [ConnectOk] (w_tick w1) w2
  | an_refused w1 w2 e :
      co_phase c = Connecting → is_cancelled w = (false, w1) →
      open_consumer cfg (set_tick (S (w_tick w1)) w1) = (Err e, w2) →
      answers c t w [ConnectErr] (w_tick w1) w2
  | an_delivery w1 data :
      co_phase c = Listening → is_cancelled w = (false, w1) →
      next_delivery (w_tick w1) = Some (Ok data) →
      answers c t w [Deliver data] t (set_tick (S (w_tick w1)) w1)
  | an_lost w1 :
      co_phase c = Listening → is_cancelled w = (false, w1) →
      (∀ data, next_delivery (w_tick w1) ≠ Some (Ok data)) →
      answers c t w [StreamErr] t (set_tick (S (w_tick w1)) w1)
  | an_pause w1 w2 (woke : bool) :
      let elapsed := clock (w_tick w1) - clock t in
      co_phase c = Lost → is_cancelled w = (false, w1) →
      sleep_or_shutdown (delay_after (co_delay c) elapsed) (set_tick (S (w_tick w1)) w1) = (woke, w2) →
      answers c t w [Failed elapsed; if woke then Woke else Shutdown] t w2
  | an_acquired : answers c t w [Acquired] t w
  | an_finish i : answers c t w [Finish i] t w
  | an_drained : answers c t w [Drained] t w.

(** A run of the machine on the answers of the environment, one after another. *)
Inductive driven : Consumer → nat → World → list Input → Consumer → nat → World → Prop :=
  | driven_nil c t w : driven c t w [] c t w
  | driven_cons c t w ins1 t1 w1 c1 ins2 c2 t2 w2 :
      answers c t w ins1 t1 w1 → run n ins1 c = Some c1 → driven c1 t1 w1 ins2 c2 t2 w2 →
      driven c t w (ins1 ++ ins2) c2 t2 w2.

Lemma driven_run c t w ins c' t' w' : driven c t w ins c' t' w' → run n ins c = Some c'.
Proof. induction 1 as [|c t w ins1 t1 w1 c1 ins2 c2 t2 w2 _ Hr _ IH]; [done|]. by rewrite run_app, Hr. Qed.

Lemma driven_one c t w ins t1 w1 c1 :
  answers c t w ins t1 w1 → run n ins c = Some c1 → driven c t w ins c1 t1 w1.
Proof. intros Ha Hr. rewrite <- (app_nil_r ins). by eapply driven_cons; [..|apply driven_nil]. Qed.

Lemma driven_trans c t w ins1 c1 t1 w1 ins2 c2 t2 w2 :
  driven c t w ins1 c1 t1 w1 → driven c1 t1 w1 ins2 c2 t2 w2 → driven c t w (ins1 ++ ins2) c2 t2 w2.
Proof.
  induction 1 as [|c t w ins t0 w0 c0 ins' c' t' w' Ha Hr _ IH]; [done|]. intros H2.
  rewrite <- app_assoc. eapply driven_cons; [exact Ha|exact Hr|by apply IH].
Qed.

(** A delivery taken, spawned and finished. *)
Lemma driven_serve d done t w w1 data :
  is_cancelled w = (false, w1) → next_delivery (w_tick w1) = Some (Ok data) →
  driven (idle Listening d done) t w (serve data) (idle Listening d (done ++ [data])) t
    (set_tick (S (w_tick w1)) w1).
Proof.
  intros Hc Hn. pose proof Hpos as Hn0. change (serve data) with ([Deliver data] ++ [Acquired] ++ [Finish 0%nat]).
  eapply driven_cons; [by eapply an_delivery|done|]. destruct n as [|m] eqn:En; [lia|].
  eapply driven_cons; [apply an_acquired|unfold idle; rewrite En; done|].
  eapply driven_one; [apply an_finish|]. unfold idle. by rewrite En.
Qed.

(** Where a connection's result leaves the loop. *)
Definition ends_in (r : option (result unit string)) (p : Phase) : Prop :=
  match r with
  | None => p = Listening
  | Some (Ok _) => p = Exited true
  | Some (Err _) => p = Lost
  end.

Lemma drain_now d done :
  run n [Drained] (idle Draining d done) = Some (idle (Exited true) d done).
Proof. simpl. rewrite as_u32_small by done. by rewrite Z.leb_refl. Qed.

Lemma consume_loop_runs fuel t w d done :
  let '((r, ds), w') := consume_loop fuel w in
  ∃ ins p, driven (idle Listening d done) t w ins (idle p d (done ++ ds)) t w'
           ∧ deliveries ins = ds ∧ ends_in r p ∧ (r = None → fuel <= length ins)%nat.
Proof.
  revert w done. induction fuel as [|fuel IH]; intros w done; cbn [consume_loop].
  { exists [], Listening. rewrite app_nil_r. split_and!; [apply driven_nil|done..]. }
  unfold st_bind at 1. destruct (is_cancelled w) as [[|] w1] eqn:Hc.
  { exists ([Shutdown] ++ [Drained]), (Exited true). rewrite app_nil_r. split_and!; [|done..].
    eapply driven_cons; [apply an_told; [set_solver|exact Hc]|done|].
    eapply driven_one; [apply an_drained|apply drain_now]. }
  unfold next_tick. run_st. destruct (next_delivery (w_tick w1)) as [[data|e]|] eqn:Hn; simpl.
  - specialize (IH (set_tick (S (w_tick w1)) w1) (done ++ [data])).
    destruct (consume_loop fuel _) as [[r ds] w2]. destruct IH as (ins & p & Hrun & Hds & Hp & Hf).
    exists (serve data ++ ins), p. split_and!; [|simpl; by rewrite Hds|done|intros ?%Hf; simpl; lia].
    rewrite <- app_assoc in Hrun. by eapply driven_trans; [by apply driven_serve|].
  - exists [StreamErr], Lost. rewrite app_nil_r. split_and!; [|done..].
    by eapply driven_one; [apply an_lost; [done|exact Hc|by rewrite Hn]|].
  - exists [StreamErr], Lost. rewrite app_nil_r. split_and!; [|done..].
    by eapply driven_one; [apply an_lost; [done|exact Hc|by rewrite Hn]|].
Qed.

(** The same for a whole connection; one that has not returned is listening. *)
Lemma connect_and_consume_runs fuel t w w1 d done :
  is_cancelled w = (false, w1) →
  let '((r, ds), w') := connect_and_consume cfg fuel (set_tick (S (w_tick w1)) w1) in
  ∃ ins p, driven (idle Connecting d done) t w ins (idle p d (done ++ ds)) (w_tick w1) w'
           ∧ deliveries ins = ds ∧ ends_in r p ∧ (r = None → fuel < length ins)%nat.
Proof.
  intros Hc. unfold connect_and_consume. unfold st_bind at 1.
  destruct (open_consumer cfg _) as [[[]|e] w2] eqn:Ho.
  - pose proof (consume_loop_runs fuel (w_tick w1) w2 d done) as Hl.
    destruct (consume_loop fuel w2) as [[r ds] w3]. destruct Hl as (ins & p & Hrun & Hds & Hp & Hf).
    exists ([ConnectOk] ++ ins), p. split_and!; [|done..|intros ?%Hf; simpl; lia].
    by eapply driven_cons; [eapply an_opened; [done|exact Hc|exact Ho]|..].
  - exists [ConnectErr], Lost. rewrite app_nil_r. split_and!; [|done..].
    by eapply driven_one; [eapply an_refused; [done|exact Hc|exact Ho]|].
Qed.

(** How the loop's result and the machine's phase agree. *)
Definition returned (r : option (result unit string)) (p : Phase) : Prop :=
  match r with
  | Some (Ok _) => ∃ b, p = Exited b
  | Some (Err _) => False
  | None => p = Connecting ∨ p = Listening
  end.

Lemma reconnect_loop_runs fuel d t w done :
  let '((r, ds), w') := reconnect_loop cfg fuel d w in
  ∃ ins p d' t', driven (idle Connecting d done) t w ins (idle p d' (done ++ ds)) t' w'
                 ∧ deliveries ins = ds ∧ returned r p ∧ (r = None → fuel <= length ins)%nat.
Proof.
  revert d t w done. induction fuel as [|fuel IH]; intros d t w done; cbn [reconnect_loop].
  { exists [], Connecting, d, t. rewrite app_nil_r. split_and!; [apply driven_nil|done|by left|done]. }
  unfold st_bind at 1. destruct (is_cancelled w) as [[|] w1] eqn:Hc.
  { exists [Shutdown], (Exited false), d, t. rewrite app_nil_r. split_and!; [|done|by eexists|done].
    eapply driven_one; [apply an_told; [set_solver|exact Hc]|done]. }
  unfold next_tick. unfold st_bind at 1. unfold st_bind at 1.
  pose proof (connect_and_consume_runs fuel t w w1 d done Hc) as Hl.
  destruct (connect_and_consume cfg fuel _) as [[r ds] w2]. destruct Hl as (ins & p & Hrun & Hds & Hp & Hf).
  cbn [fst snd]. destruct r as [[[]|e]|]; simpl in Hp; subst p.
  - exists ins, (Exited true), d, (w_tick w1). by split_and!; [| |eexists|].
  - unfold st_bind at 1. destruct (is_cancelled w2) as [[|] w3] eqn:Hc2.
    { exists (ins ++ [Shutdown]), (Exited false), d, (w_tick w1).
      split_and!; [|by rewrite deliveries_app, Hds, app_nil_r|by eexists|done].
      eapply driven_trans; [exact Hrun|]. eapply driven_one; [apply an_told; [set_solver|exact Hc2]|done]. }
    unfold st_bind at 1. unfold st_bind at 1.
    set (e0 := clock (w_tick w3) - clock (w_tick w1)). set (d1 := delay_after d e0).
    destruct (sleep_or_shutdown d1 (set_tick (S (w_tick w3)) w3)) as [woke w4] eqn:Hsl.
    assert (Hpause : answers (idle Lost d (done ++ ds)) (w_tick w1) w2
              [Failed e0; if woke then Woke else Shutdown] (w_tick w1) w4) by by eapply an_pause.
    destruct woke; cbn [negb].
    2: { exists (ins ++ [Failed e0; Shutdown]), (Exited false), d1, (w_tick w1).
         split_and!; [|by rewrite deliveries_app, Hds, app_nil_r|by eexists|done].
         eapply driven_trans; [exact Hrun|]. by eapply driven_one. }
    unfold st_bind at 1. specialize (IH (Z.min (d1 * 2) RECONNECT_MAX_MS) (w_tick w1) w4 (done ++ ds)).
    destruct (reconnect_loop cfg fuel _ w4) as [[r ds2] w5].
    destruct IH as (ins2 & p & d' & t' & Hrun2 & Hds2 & Hret & Hf2).
    exists (ins ++ [Failed e0; Woke] ++ ins2), p, d', t'. rewrite (app_assoc done). split_and!; [|..|done|].
    + eapply driven_trans; [exact Hrun|]. by eapply driven_cons.
    + rewrite !deliveries_app, Hds. by rewrite <- Hds2.
    + intros ?%Hf2. rewrite !length_app. simpl. lia.
  - exists ins, Listening, d, (w_tick w1). split_and!; [done|done|by right|]. intros _. by apply Hf.
Qed.

(** C21: each run of [Runner.run_consumer] is a run of this machine on the
    answers the environment gives in between, in their order: the shutdown
    token, the outcome of each connection, every item of the delivery stream,
    the time each connection lasted and the end of each pause ([driven]).  The
    machine serves the same deliveries in the same order, one at a time, so that
    no task is left running, and it has exited exactly when the run returns; a
    run that has not returned has taken as many inputs as its fuel. *)
Theorem run_consumer_refines fuel w :
  let '((r, ds), w') := run_consumer cfg fuel w in
  ∃ ins c t, driven (start n) 0 w ins c t w' ∧ run n ins (start n) = Some c
    ∧ deliveries ins = ds ∧ co_done c = ds ∧ co_tasks c = [] ∧ returned r (co_phase c)
    ∧ (r = None → fuel <= length ins)%nat.
Proof.
  pose proof (reconnect_loop_runs fuel RECONNECT_BASE_MS 0 w []) as Hr. unfold run_consumer.
  destruct (reconnect_loop _ _ _ w) as [[r ds] w']. destruct Hr as (ins & p & d & t & Hrun & Hds & Hret & Hf).
  exists ins, (idle p d ds), t. split_and!; [done|by eapply driven_run|done..].
Qed.
End sequential.

(** ** Concrete runs *)

(** Two deliveries in flight and a third waiting for a permit; the second task
    finishes first, then a shutdown drains. *)
Definition busy : list Input :=
  [ConnectOk; Deliver "a"; Acquired; Deliver "b"; Acquired; Deliver "c"; Finish 1; Acquired;
   Shutdown].

Example busy_run :
  option_map (λ c, (co_phase c, co_permits c, co_tasks c, co_done c)) (run 2 busy (start 2))
  = Some (Draining, 0%nat, ["a"; "c"], ["b"]).
Proof. reflexivity. Qed.

(** Without a permit the loop cannot go on. *)
Example waits_for_permit :
  run 2 [ConnectOk; Deliver "a"; Acquired; Deliver "b"; Acquired; Deliver "c"; Acquired] (start 2) = None.
Proof. reflexivity. Qed.

Definition busy_end : Consumer := mkConsumer Draining RECONNECT_BASE_MS 0 ["a"; "c"] ["b"].

Lemma deliveries_bounded_witness :
  (length (co_tasks busy_end) <= 2)%nat
  ∧ RECONNECT_BASE_MS ≤ co_delay busy_end ≤ RECONNECT_MAX_MS.
Proof. apply (deliveries_bounded 2 busy busy_end). reflexivity. Defined.

Lemma deliveries_conserved_witness :
  co_done busy_end ++ co_tasks busy_end ++ in_hand busy_end ≡ₚ deliveries busy.
Proof. apply (deliveries_conserved 2 busy busy_end). reflexivity. Defined.

Lemma shutdown_drains_witness :
  (∀ ins' c', run 2 ins' busy_end = Some c' →
     deliveries ins' = [] ∧ (co_phase c' = Exited true → co_tasks c' = []))
  ∧ ∃ c', run 2 (repeat (Finish 0) (length (co_tasks busy_end)) ++ [Drained]) busy_end = Some c'
          ∧ co_phase c' = Exited true ∧ co_done c' ≡ₚ deliveries busy.
Proof.
  apply (shutdown_drains 2 busy busy_end); [vm_compute; discriminate|reflexivity|reflexivity].
Defined.

Lemma never_stuck_witness :
  (∃ b, co_phase busy_end = Exited b) ∨ ∃ i c', step 2 i busy_end = Some c'.
Proof.
  apply (never_stuck 2 busy busy_end); [lia|vm_compute; discriminate|reflexivity].
Defined.

Lemma run_consumer_refines_witness :
  let cfg := consumer_config_default in
  let '((r, ds), w') := run_consumer (H := sample_env) cfg 9 (world0 empty_db) in
  ∃ ins c t, driven (H := sample_env) cfg (start (cc_max_concurrency cfg)) 0 (world0 empty_db) ins c t w'
    ∧ run (cc_max_concurrency cfg) ins (start (cc_max_concurrency cfg)) = Some c
    ∧ deliveries ins = ds ∧ co_done c = ds ∧ co_tasks c = [] ∧ returned r (co_phase c)
    ∧ (r = None → 9 <= length ins)%nat.
Proof.
  pose proof (run_consumer_refines (H := sample_env) consumer_config_default) as H.
  apply H; vm_compute; [lia|discriminate].
Defined.

(** With no permit at all, which [ConsumerConfig::validate] refuses, the first
    delivery blocks the consumer for good, the shutdown signal included. *)
Example no_permit_blocks :
  consumer_config_validate (mkConsumerConfig "" "" "" "" 1 1 0 1 1 1) ≠ Ok tt
  ∧ ∀ i, match run 0 [ConnectOk; Deliver "a"] (start 0) with
         | Some c => step 0 i c = None
         | None => False
         end.
Proof. split; [by vm_compute|]. by intros []. Qed.

(** A shutdown that finds the connection down does not wait for the tasks of
    the lost connection: the consumer exits while one is still running. *)
Theorem exit_with_task_running :
  ∃ c, run 2 [ConnectOk; Deliver "a"; Acquired; StreamErr; Failed 0; Shutdown] (start 2) = Some c
       ∧ co_phase c = Exited false ∧ co_tasks c = ["a"].
Proof. by eexists. Qed.
