(* ===== verification/Config.v ===== *)
(** * The service's configuration ([src/config.rs])

    [AppConfig] and its parts, the defaults serde fills in, and [validate].
    Reading the files and the environment and deserialising them is the
    [config] crate's and serde's: [load] takes their result. *)

From S2P Require Import Prelude Json AppErr Event World Filter Mailer.
From S2P Require Import Interfaces Fetcher Processor Delivery.

Record DatabaseConfig : Type := mkDatabaseConfig {
  db_url : string;
  db_pool_size : Z;
}.

Record AmqpConfig : Type := mkAmqpConfig {
  aq_url : string;
  aq_queue : string;
  aq_exchange : string;
  aq_routing_key : string;
  aq_max_retries : Z;
  aq_retry_base_ms : Z;
  aq_max_concurrency : nat;
  aq_max_rl_waits : Z;
  aq_max_recipients_per_event : nat;
}.

Record HttpConfig : Type := mkHttpConfig {
  ht_port : Z;
  ht_api_key : option string;
  ht_allow_unauthenticated : bool;
}.

Module MailerConfig.
Inductive MailerConfig : Type :=
  | Smtp (host : string) (port : Z) (username password from_email from_name : string)
      (tls_mode : option SmtpTlsMode)
      (connection_timeout_ms read_timeout_ms write_timeout_ms pool_size : Z)
  | Webhook (url : string) (auth_token : option string).
End MailerConfig.
Notation MailerConfig := MailerConfig.MailerConfig.

Record SmtpAccountConfig : Type := mkSmtpAccountConfig {
  ac_host : string;
  ac_port : Z;
  ac_username : string;
  ac_password : string;
  ac_from_email : string;
  ac_from_name : string;
  ac_tls_mode : option SmtpTlsMode;
  ac_connection_timeout_ms : Z;
  ac_read_timeout_ms : Z;
  ac_write_timeout_ms : Z;
  ac_pool_size : Z;
}.

(** [sender_accounts] is a [HashMap]: its entries in the order it iterates. *)
Record AppConfig : Type := mkAppConfig {
  cf_database : DatabaseConfig;
  cf_amqp : AmqpConfig;
  cf_mailer : MailerConfig;
  cf_http : HttpConfig;
  cf_metrics_port : option Z;
  cf_rate_limit : RateLimitConfig;
  cf_filter : FilterConfig;
  cf_template_cache_ttl_secs : Z;
  cf_block_list_cache_ttl_secs : Z;
  cf_stale_pending_timeout_secs : Z;
  cf_stale_pending_reaper_interval_secs : Z;
  cf_max_attachment_bytes : Z;
  cf_shutdown_timeout_secs : Z;
  cf_mcp_cors_origin : option string;
  cf_sender_accounts : list (string * SmtpAccountConfig);
}.

(** ** What serde fills in for absent fields *)

Definition default_shutdown_timeout_secs : Z := 30.
Definition default_block_list_cache_ttl_secs : Z := 30.
Definition default_stale_pending_timeout_secs : Z := 600.
Definition default_stale_pending_reaper_interval_secs : Z := 300.
Definition default_max_rl_waits : Z := 5.
Definition default_max_recipients_per_event : nat := 500.
Definition default_template_cache_ttl_secs : Z := 300.
Definition default_max_attachment_bytes : Z := 10 * 1024 * 1024.
Definition default_db_pool_size : Z := 10.
Definition default_connection_timeout_ms : Z := 5000.
Definition default_read_timeout_ms : Z := 10000.
Definition default_write_timeout_ms : Z := 10000.
Definition default_smtp_pool_size : Z := 5.

(** ** [Debug]: secrets are not printed *)

(** [f.debug_struct(..).field(..)]: the field names with what is printed of
    each value. *)
Inductive Shown : Type :=
  | ShownStr (s : string)
  | ShownInt (n : Z)
  | ShownTls (m : option SmtpTlsMode)
  | ShownOpt (o : option string).

Definition REDACTED : string := "[REDACTED]".

Definition debug_account (a : SmtpAccountConfig) : list (string * Shown) :=
  [("host", ShownStr (ac_host a)); ("port", ShownInt (ac_port a));
   ("username", ShownStr (ac_username a)); ("password", ShownStr REDACTED);
   ("from_email", ShownStr (ac_from_email a)); ("from_name", ShownStr (ac_from_name a));
   ("tls_mode", ShownTls (ac_tls_mode a));
   ("connection_timeout_ms", ShownInt (ac_connection_timeout_ms a));
   ("read_timeout_ms", ShownInt (ac_read_timeout_ms a));
   ("write_timeout_ms", ShownInt (ac_write_timeout_ms a));
   ("pool_size", ShownInt (ac_pool_size a))].

Definition debug_mailer (m : MailerConfig) : list (string * Shown) :=
  match m with
  | MailerConfig.Smtp host port username password from_email from_name tls ct rt wt pool =>
      [("host", ShownStr host); ("port", ShownInt port); ("username", ShownStr username);
       ("password", ShownStr REDACTED); ("from_email", ShownStr from_email);
       ("from_name", ShownStr from_name); ("tls_mode", ShownTls tls);
       ("connection_timeout_ms", ShownInt ct); ("read_timeout_ms", ShownInt rt);
       ("write_timeout_ms", ShownInt wt); ("pool_size", ShownInt pool)]
  | MailerConfig.Webhook url auth_token =>
      [("url", ShownStr url); ("auth_token", ShownOpt (option_map (λ _, REDACTED) auth_token))]
  end.

(** ** [AppConfig::validate] *)

Definition FIRST_RETRY_CAP_MS : Z := 30 * 60 * 1000.

Definition validate_mailer (m : MailerConfig) : result unit string :=
  match m with
  | MailerConfig.Smtp host _ _ _ from_email _ _ _ _ _ _ =>
      if is_empty_str host then Err "mailer.host must not be empty"
      else if is_empty_str from_email then Err "mailer.from_email must not be empty"
      else Ok tt
  | MailerConfig.Webhook url _ =>
      if is_empty_str url then Err "mailer.url must not be empty"
      else if negb (starts_with "http://" url) && negb (starts_with "https://" url)
      then Err "mailer.url must start with http:// or https://"
      else Ok tt
  end.

(** [retry_base_ms.saturating_mul(2).min(MAX_RETRY_DELAY_MS)]. *)
Definition first_retry_ms (a : AmqpConfig) : Z :=
  Z.min (saturating_mul64 (aq_retry_base_ms a) 2) FIRST_RETRY_CAP_MS.

Definition validate_amqp (a : AmqpConfig) : result unit string :=
  if (aq_max_concurrency a =? 0)%nat || (1000 <? aq_max_concurrency a)%nat
  then Err ("amqp.max_concurrency must be between 1 and 1000, got " +:+ show_nat (aq_max_concurrency a))
  else if (aq_max_recipients_per_event a =? 0)%nat
  then Err "amqp.max_recipients_per_event must be at least 1"
  else if FIRST_RETRY_CAP_MS <=? first_retry_ms a
  then Err ("amqp.retry_base_ms (" +:+ show_Z (aq_retry_base_ms a)
            +:+ ") is so large that the first retry delay (" +:+ show_Z (first_retry_ms a)
            +:+ " ms) already hits the 30-minute cap; max_retries has no practical effect. Reduce retry_base_ms or keep it ≤ 900_000 ms.")
  else Ok tt.

(** [(1..=max_retries).map(..).sum()]: the exact sum; [u64] holds it
    ([total_delay_fits]). *)
Definition max_total_delay_ms (a : AmqpConfig) : Z :=
  foldr Z.add 0 (map (λ i, retry_delay_ms (aq_retry_base_ms a) (Z.of_nat i))
                   (seq 1 (Z.to_nat (aq_max_retries a)))).

(** Whether start-up warns about the time a delivery can be held. *)
Definition warns_long_hold (a : AmqpConfig) : bool := FIRST_RETRY_CAP_MS <? max_total_delay_ms a.

(** The loop over [sender_accounts]. *)
Fixpoint validate_accounts (accounts : list (string * SmtpAccountConfig)) : result unit string :=
  match accounts with
  | [] => Ok tt
  | (name, acct) :: accounts =>
      if is_empty_str (ac_host acct)
      then Err ("sender_accounts." +:+ name +:+ ".host must not be empty")
      else if is_empty_str (ac_from_email acct)
      then Err ("sender_accounts." +:+ name +:+ ".from_email must not be empty")
      else validate_accounts accounts
  end.

Definition validate (c : AppConfig) : result unit string :=
  if is_empty_str (db_url (cf_database c)) then Err "database.url must not be empty"
  else if is_empty_str (aq_url (cf_amqp c)) then Err "amqp.url must not be empty"
  else
    result_bind (validate_mailer (cf_mailer c)) (λ _,
    result_bind (validate_amqp (cf_amqp c)) (λ _,
    validate_accounts (cf_sender_accounts c))).

(** [AppConfig::load], given what the sources deserialise to. *)
Definition load (deserialised : result AppConfig string) : result AppConfig string :=
  result_bind deserialised (λ app, result_map (λ _, app) (validate app)).

(** ** Properties *)

(** What an operator must provide, in one place. *)
Definition mailer_valid (m : MailerConfig) : Prop :=
  match m with
  | MailerConfig.Smtp host _ _ _ from_email _ _ _ _ _ _ => host ≠ "" ∧ from_email ≠ ""
  | MailerConfig.Webhook url _ =>
      starts_with "http://" url = true ∨ starts_with "https://" url = true
  end.

Definition amqp_valid (a : AmqpConfig) : Prop :=
  (1 <= aq_max_concurrency a <= 1000)%nat ∧ (1 <= aq_max_recipients_per_event a)%nat
  ∧ aq_retry_base_ms a < 900000.

Definition config_valid (c : AppConfig) : Prop :=
  db_url (cf_database c) ≠ "" ∧ aq_url (cf_amqp c) ≠ ""
  ∧ mailer_valid (cf_mailer c) ∧ amqp_valid (cf_amqp c)
  ∧ ∀ name acct, (name, acct) ∈ cf_sender_accounts c → ac_host acct ≠ "" ∧ ac_from_email acct ≠ "".

Lemma is_empty_str_spec s : is_empty_str s = true ↔ s = "".
Proof. by destruct s. Qed.
Lemma is_empty_str_false s : is_empty_str s = false ↔ s ≠ "".
Proof. by destruct s. Qed.

Lemma validate_mailer_iff m : validate_mailer m = Ok tt ↔ mailer_valid m.
Proof.
  destruct m as [host port u p from_email fn tls ct rt wt pool|url tok]; simpl.
  - destruct (is_empty_str host) eqn:E1; [apply is_empty_str_spec in E1; naive_solver|].
    destruct (is_empty_str from_email) eqn:E2; [apply is_empty_str_spec in E2; naive_solver|].
    apply is_empty_str_false in E1, E2. naive_solver.
  - destruct (is_empty_str url) eqn:E1; [apply is_empty_str_spec in E1 as ->; simpl; naive_solver|].
    destruct (starts_with "http://" url), (starts_with "https://" url); simpl; naive_solver.
Qed.

Lemma first_retry_capped a : FIRST_RETRY_CAP_MS ≤ first_retry_ms a ↔ 900000 ≤ aq_retry_base_ms a.
Proof. unfold first_retry_ms, saturating_mul64, FIRST_RETRY_CAP_MS, u64_max. lia. Qed.

Lemma validate_amqp_iff a : validate_amqp a = Ok tt ↔ amqp_valid a.
Proof.
  unfold validate_amqp, amqp_valid. pose proof (first_retry_capped a) as Hc.
  destruct (aq_max_concurrency a =? 0)%nat eqn:E1; simpl; [apply Nat.eqb_eq in E1; split; [done|lia]|].
  destruct (1000 <? aq_max_concurrency a)%nat eqn:E2; [apply Nat.ltb_lt in E2; split; [done|lia]|].
  destruct (aq_max_recipients_per_event a =? 0)%nat eqn:E3; [apply Nat.eqb_eq in E3; split; [done|lia]|].
  apply Nat.eqb_neq in E1, E3. apply Nat.ltb_ge in E2.
  destruct (FIRST_RETRY_CAP_MS <=? first_retry_ms a) eqn:E4.
  - apply Z.leb_le, Hc in E4. split; [done|lia].
  - apply Z.leb_gt in E4. split; [|done]. intros _. split_and!; lia.
Qed.

Lemma validate_accounts_iff l :
  validate_accounts l = Ok tt
  ↔ ∀ name acct, (name, acct) ∈ l → ac_host acct ≠ "" ∧ ac_from_email acct ≠ "".
Proof.
  induction l as [|[n a] l IH]; simpl; [split; [set_solver|done]|]. setoid_rewrite elem_of_cons.
  destruct (is_empty_str (ac_host a)) eqn:E1; [apply is_empty_str_spec in E1; naive_solver|].
  destruct (is_empty_str (ac_from_email a)) eqn:E2; [apply is_empty_str_spec in E2; naive_solver|].
  apply is_empty_str_false in E1, E2. rewrite IH. naive_solver.
Qed.

Ltac validate_cases :=
  unfold validate, config_valid;
  destruct (is_empty_str (db_url _)) eqn:E1; [apply is_empty_str_spec in E1; naive_solver|];
  destruct (is_empty_str (aq_url _)) eqn:E2; [apply is_empty_str_spec in E2; naive_solver|];
  apply is_empty_str_false in E1, E2;
  rewrite <- validate_mailer_iff, <- validate_amqp_iff, <- validate_accounts_iff;
  destruct (validate_mailer _) as [[]|]; [|naive_solver];
  destruct (validate_amqp _) as [[]|]; naive_solver.

Lemma validate_Ok c : validate c = Ok tt → config_valid c.
Proof. validate_cases. Qed.

(** [validate] accepts exactly the configurations with a database and a broker
    URL, a usable mailer, between 1 and 1000 concurrent deliveries, at least
    one recipient per event, a first retry delay short of the half-hour cap,
    and a host and a From address for every named account. *)
Theorem validate_iff c : validate c = Ok tt ↔ config_valid c.
Proof. split; [apply validate_Ok|validate_cases]. Qed.

(** The [u64] sum over the retries does not overflow, whatever the settings. *)
Theorem total_delay_fits a :
  0 ≤ aq_retry_base_ms a → 0 ≤ aq_max_retries a ≤ u32_max →
  0 ≤ max_total_delay_ms a ≤ u64_max.
Proof.
  intros Hb Hr. unfold max_total_delay_ms.
  set (f := λ i, retry_delay_ms (aq_retry_base_ms a) (Z.of_nat i)).
  assert (Hf : ∀ i, 0 ≤ f i ≤ MAX_RETRY_DELAY_MS).
  { intros i. unfold f, retry_delay_ms, saturating_mul64, MAX_RETRY_DELAY_MS, u64_max.
    assert (0 ≤ Z.shiftl 1 (Z.of_nat i `min` 10)) by (rewrite Z.shiftl_nonneg; lia). nia. }
  assert (Hsum : ∀ l, 0 ≤ foldr Z.add 0 (map f l) ≤ Z.of_nat (length l) * MAX_RETRY_DELAY_MS).
  { induction l as [|i l IH]; simpl; [lia|]. specialize (Hf i). lia. }
  specialize (Hsum (seq 1 (Z.to_nat (aq_max_retries a)))). rewrite length_seq in Hsum.
  unfold MAX_RETRY_DELAY_MS, u32_max, u64_max in *. lia.
Qed.

(** What is printed of a configuration does not depend on its secrets. *)
Theorem debug_hides_secrets host port user p1 p2 from_email from_name tls ct rt wt pool url t1 t2 :
  debug_mailer (MailerConfig.Smtp host port user p1 from_email from_name tls ct rt wt pool)
  = debug_mailer (MailerConfig.Smtp host port user p2 from_email from_name tls ct rt wt pool)
  ∧ debug_mailer (MailerConfig.Webhook url (Some t1)) = debug_mailer (MailerConfig.Webhook url (Some t2)).
Proof. done. Qed.
