(* ===== verification/OutboxSpec.v ===== *)
(** * What the outbox worker promises

    The life cycle of an outbox row under any number of workers, what a claim
    returns, when a row counts as published, and which locks the reaper breaks. *)

From S2P Require Import Prelude Order Json AppErr Event World LogStore Outbox.

(** ** The life of a row *)

Definition ob_statuses : list string := ["PENDING"; "IN_PROGRESS"; "PUBLISHED"; "FAILED"].

(** The table's constraints, and a lock exactly while a row is in progress. *)
Record ob_wf (r : OutboxDbRow) : Prop := {
  ow_status : ob_status r ∈ ob_statuses;
  ow_lock : is_Some (ob_locked_at r) ↔ ob_status r = "IN_PROGRESS";
  ow_count : ob_fail_count r ≤ i32_max;
}.

(** What never changes about a row. *)
Record ob_evolves (r r' : OutboxDbRow) : Prop := {
  oe_id : ob_id r' = ob_id r;
  oe_event : ob_event_id r' = ob_event_id r;
  oe_type : ob_event_type r' = ob_event_type r;
  oe_payload : ob_payload r' = ob_payload r;
  oe_created : ob_created_at r' = ob_created_at r;
  oe_count : ob_fail_count r ≤ ob_fail_count r';
  oe_wf : ob_wf r → ob_wf r';
}.

#[export] Instance ob_evolves_preorder : PreOrder ob_evolves.
Proof.
  split; [by intros r|]. intros r1 r2 r3 [] []. constructor; first [congruence|lia|auto].
Qed.

Definition outbox_evolves : relation World := λ w w',
  Forall2 ob_evolves (db_outbox (w_db w)) (db_outbox (w_db w')).

#[export] Instance outbox_evolves_preorder : PreOrder outbox_evolves.
Proof.
  split; [intros w; red; reflexivity|]. intros w1 w2 w3 ??. red. by etransitivity.
Qed.

Section lifecycle.
Context `{Env, WireCodec}.

Lemma set_in_progress_evolves t r : ob_evolves r (set_in_progress t r).
Proof.
  constructor; try done. intros [Hs Hl Hc]. constructor; simpl; [set_solver| |done].
  split; [done|by eexists].
Qed.

Lemma set_published_evolves t r : ob_evolves r (set_published t r).
Proof.
  constructor; try done. intros [Hs Hl Hc]. constructor; simpl; [set_solver| |done].
  split; [by intros []|done].
Qed.

Lemma set_unlocked_evolves r : ob_evolves r (set_unlocked r).
Proof.
  constructor; try done. intros [Hs Hl Hc]. constructor; simpl; [set_solver| |done].
  split; [by intros []|done].
Qed.

Lemma set_publish_failure_evolves max r :
  ob_fail_count r < i32_max → ob_evolves r (set_publish_failure max r).
Proof.
  intros Hlt. constructor; try done; simpl; [lia|]. intros [Hs Hl Hc].
  constructor; simpl; [destruct (_ <=? _); set_solver| |lia].
  split; [by intros []|by destruct (_ <=? _)].
Qed.

Lemma update_outbox_evolves p f d :
  (∀ r, r ∈ db_outbox d → p r = true → ob_evolves r (f r)) →
  Forall2 ob_evolves (db_outbox d) (db_outbox (update_outbox p f d)).
Proof.
  unfold update_outbox. simpl. induction (db_outbox d) as [|r l IH]; intros Hf; [constructor|].
  simpl. constructor; [|apply IH; set_solver]. destruct (p r) eqn:E; [|done]. apply Hf; set_solver.
Qed.

Lemma query_outbox {A} (stmt : nat → Db → result (A * Db) string) :
  (∀ t d a d', stmt t d = Ok (a, d') → Forall2 ob_evolves (db_outbox d) (db_outbox d')) →
  keeps outbox_evolves (query stmt).
Proof.
  intros Hs w. destruct (query stmt w) as [r w'] eqn:Hq. red. simpl.
  apply query_spec in Hq as [(e & _ & ->)|(a & d & _ & Hq & -> & _)]; [done|by eapply Hs].
Qed.

Lemma claim_batch_evolves limit : keeps outbox_evolves (claim_batch limit).
Proof.
  apply keeps_try; [apply _| |].
  - apply query_outbox. intros t d a d'. unfold sql_select_pending.
    destruct (limit <? 0); [done|]. by intros [= _ <-].
  - intros [|r rows]; [apply keeps_ret, _|]. apply keeps_try; [apply _| |intros; apply keeps_ret, _].
    apply query_outbox. intros t d a d' [= _ <-]. apply update_outbox_evolves.
    intros; apply set_in_progress_evolves.
Qed.

Lemma fetch_evolves limit : keeps outbox_evolves (fetch_pending_batch limit).
Proof.
  intros w. unfold fetch_pending_batch, st_try.
  destruct (transaction (claim_batch limit) w) as [r w'] eqn:Ht.
  assert (Hev : outbox_evolves w w'); [|by destruct r].
  apply transaction_spec in Ht as [(e & _ & Hd)|(a & w1 & w2 & _ & Hd1 & Hrun & Hd2)].
  - red. by rewrite Hd.
  - red. rewrite <- Hd1, Hd2. pose proof (claim_batch_evolves limit w1) as Hc. by rewrite Hrun in Hc.
Qed.

Lemma mark_published_evolves id : keeps outbox_evolves (mark_published id).
Proof.
  apply query_outbox. intros t d a d' [= _ <-]. apply update_outbox_evolves.
  intros; apply set_published_evolves.
Qed.

(** The row that has failed, unless its counter would overflow. *)
Lemma failure_row_evolves id max d r :
  existsb (λ r, has_id id r && (i32_max <=? ob_fail_count r)) (db_outbox d) = false →
  r ∈ db_outbox d → has_id id r = true → ob_evolves r (set_publish_failure max r).
Proof.
  intros Hov Hr Hid. apply set_publish_failure_evolves.
  apply not_true_iff_false in Hov. apply Z.nle_gt. intros Hle. apply Hov. apply existsb_exists.
  exists r. split; [by apply list_elem_of_In|]. rewrite Hid. simpl. by apply Z.leb_le.
Qed.

Lemma failure_evolves id max : keeps outbox_evolves (record_publish_failure id max).
Proof.
  apply query_outbox. intros _ d a d'.
  destruct (existsb _ (db_outbox d)) eqn:Hov; [done|].
  destruct (existsb (has_id id) (db_outbox d)); [|done].
  intros [= _ <-]. apply update_outbox_evolves. intros r. by apply failure_row_evolves.
Qed.

Lemma reap_evolves secs : keeps outbox_evolves (reap_stale_in_progress secs).
Proof.
  apply query_outbox. intros t d a d' [= _ <-]. apply update_outbox_evolves.
  intros; apply set_unlocked_evolves.
Qed.

(** The statements of any number of workers, in any order: a worker that dies
    between two of them just takes no further step. *)
Inductive outbox_step : World → World → Prop :=
  | ostep_claim limit w : outbox_step w (fetch_pending_batch limit w).2
  | ostep_publish cfg row w : outbox_step w (publish_and_mark cfg row w).2
  | ostep_mark id w : outbox_step w (mark_published id w).2
  | ostep_failure id max w : outbox_step w (record_publish_failure id max w).2
  | ostep_reap secs w : outbox_step w (reap_stale_in_progress secs w).2.

Lemma same_db_evolves w w' : w_db w' = w_db w → outbox_evolves w w'.
Proof. intros Hd. red. by rewrite Hd. Qed.

Lemma publish_and_mark_spec cfg row w :
  let '(r, w') := publish_and_mark cfg row w in
  match r with
  | Err _ => w_db w' = w_db w
  | Ok _ => ∃ body t tm,
      row_body row = Ok body ∧ amqp_confirm t = Ok ConfirmAck
      ∧ w_amqp w' = w_amqp w ++ [BasicPublish (oc_exchange cfg) (oc_routing_key cfg) persistent_json body]
      ∧ w_db w' = update_outbox (λ x, has_id (or_id row) x && ob_is "IN_PROGRESS" x)
                    (set_published tm) (w_db w)
  end
  ∧ (w_amqp w' = w_amqp w ∨ ∃ body, row_body row = Ok body
      ∧ w_amqp w' = w_amqp w ++ [BasicPublish (oc_exchange cfg) (oc_routing_key cfg) persistent_json body])
  ∧ w_slept w' = w_slept w ∧ w_sends w' = w_sends w.
Proof.
  unfold publish_and_mark. destruct (row_body row) as [body|e]; [|by split_and!; [|left|..]].
  unfold basic_publish, timed_confirm, await_confirm, next_tick. run_st.
  destruct (amqp_publish_err (w_tick w)); simpl; [by split_and!; [|left|..]|].
  destruct (confirm_in_time _); run_st; simpl; [|by split_and!; [|right; by exists body|..]].
  destruct (amqp_confirm _) as [[]|e] eqn:Hc; simpl;
    try (by split_and!; [|right; by exists body|..]).
  run_st. match goal with |- context [mark_published ?id ?w0] =>
    destruct (mark_published id w0) as [r w1] eqn:Hm end.
  assert (Hq : quiet (log_frame (BasicPublish (oc_exchange cfg) (oc_routing_key cfg) persistent_json body)
                 (set_tick (S (S (S (w_tick w)))) w)) w1).
  { change w1 with ((r, w1).2). rewrite <- Hm. apply query_quiet. }
  destruct Hq as (Hqs & Hqa & Hql). simpl in *.
  apply query_spec in Hm as [(e & -> & Hd)|(a & d & -> & [= <- <-] & Hd & _)]; simpl in *.
  - split_and!; [done|right; by exists body|done..].
  - split_and!; [|right; by exists body|done..]. eexists body, _, _. by split_and!.
Qed.

Lemma publish_and_mark_evolves cfg row : keeps outbox_evolves (publish_and_mark cfg row).
Proof.
  intros w. pose proof (publish_and_mark_spec cfg row w) as Hp.
  destruct (publish_and_mark cfg row w) as [[[]|e] w']; destruct Hp as [Hp _]; [|by apply same_db_evolves].
  destruct Hp as (body & t & tm & _ & _ & _ & Hd). red. simpl. rewrite Hd.
  apply update_outbox_evolves. intros; apply set_published_evolves.
Qed.

(** C16: whatever the workers do, and wherever they stop, no outbox row is lost
    or rewritten, failure counts never go down, statuses stay within the four
    of the table, and a row is locked exactly while it is in progress. *)
Theorem outbox_lifecycle w w' :
  rtc outbox_step w w' → Forall2 ob_evolves (db_outbox (w_db w)) (db_outbox (w_db w')).
Proof.
  induction 1 as [w|w1 w2 w3 Hstep _ IH]; [reflexivity|]. etransitivity; [|exact IH].
  change (outbox_evolves w1 w2). destruct Hstep as [limit w|cfg row w|id w|id max w|secs w].
  - apply fetch_evolves.
  - apply publish_and_mark_evolves.
  - apply mark_published_evolves.
  - apply failure_evolves.
  - apply reap_evolves.
Qed.

(** ** Claiming *)

Definition in_ids (ids : list Uuid) (r : OutboxDbRow) : bool := existsb (N.eqb (ob_id r)) ids.

Lemma in_ids_spec ids r : in_ids ids r = true ↔ ob_id r ∈ ids.
Proof.
  unfold in_ids. rewrite existsb_exists, list_elem_of_In. split.
  - intros (x & Hx & ->%N.eqb_eq). done.
  - intros Hx. exists (ob_id r). split; [done|apply N.eqb_refl].
Qed.

Definition oldest_pending (limit : Z) (d : Db) : list OutboxDbRow :=
  take (Z.to_nat limit) (order_by ob_created_at (base.filter (λ r, ob_is "PENDING" r = true) (db_outbox d))).

Lemma fetch_spec limit w rows w' :
  fetch_pending_batch limit w = (Ok rows, w') →
  let chosen := oldest_pending limit (w_db w) in
  rows = map project chosen
  ∧ ∃ t, w_db w' = update_outbox (λ r, in_ids (map ob_id chosen) r && ob_is "PENDING" r)
                     (set_in_progress t) (w_db w).
Proof.
  unfold fetch_pending_batch, st_try. destruct (transaction (claim_batch limit) w) as [[a|e] w0] eqn:Ht;
    [|done]. intros [= <- <-].
  apply transaction_spec in Ht as [(? & ? & _)|(a' & w1 & w2 & [= <-] & Hd1 & Hrun & Hd2)]; [done|].
  revert Hrun. unfold claim_batch, st_try.
  destruct (query (λ _ d, sql_select_pending limit d) w1) as [[sel|e] w3] eqn:Hq; [|done].
  apply query_spec in Hq as [(?&?&?)|(x & d & [= <-] & Hsel & Hd3 & _)]; [done|].
  revert Hsel. unfold sql_select_pending. destruct (limit <? 0); [done|]. intros [= <- <-].
  rewrite Hd1 in Hd3. fold (oldest_pending limit (w_db w1)). rewrite Hd1.
  destruct (oldest_pending limit (w_db w)) as [|r l] eqn:Hc.
  - intros [= <- <-]. split; [done|]. exists 0%nat. rewrite Hd2, Hd3.
    unfold update_outbox, set_outbox. destruct (w_db w) as [? ? ? ? ob]; simpl. f_equal.
    rewrite <- (map_id ob) at 1. apply map_ext. intros x. done.
  - destruct (query (claim _) w3) as [[[]|e] w4] eqn:Hq2; intros [= <- <-].
    apply query_spec in Hq2 as [(?&?&?)|([] & d & _ & [= <-] & Hd4 & _)]; [done|].
    split; [done|]. exists (w_tick w3). by rewrite Hd2, Hd4, Hd3.
Qed.

Lemma fetch_err limit w e w' :
  fetch_pending_batch limit w = (Err e, w') → w_db w' = w_db w.
Proof.
  unfold fetch_pending_batch, st_try. destruct (transaction _ w) as [[a|e0] w0] eqn:Ht; [done|].
  intros [= _ <-]. by apply transaction_spec in Ht as [(? & _ & ->)|(? & ? & ? & [=] & _)].
Qed.

Lemma update_outbox_elem p f d x :
  x ∈ db_outbox (update_outbox p f d) →
  ∃ y, y ∈ db_outbox d ∧ x = if p y then f y else y.
Proof. unfold update_outbox. simpl. intros (y & -> & Hy)%list_elem_of_fmap. by exists y. Qed.

Lemma ob_is_iff s r : ob_is s r = true ↔ ob_status r = s.
Proof. apply String.eqb_eq. Qed.

Lemma oldest_pending_In limit d r :
  r ∈ oldest_pending limit d → r ∈ db_outbox d ∧ ob_status r = "PENDING".
Proof.
  unfold oldest_pending. intros Hr. 
  assert (Hr' : r ∈ order_by ob_created_at (base.filter (λ r, ob_is "PENDING" r = true) (db_outbox d))).
  { rewrite <- (take_drop (Z.to_nat limit)). apply elem_of_app. by left. }
  rewrite order_by_perm in Hr'. apply list_elem_of_filter in Hr' as [Hp ?]. by apply ob_is_iff in Hp.
Qed.

(** What workers and reapers may do without sending one of these rows back:
    any claim and any publication, the failure of another row, and a reap that
    finds no stale lock on them. *)
Inductive keeping_step (ids : list Uuid) : World → World → Prop :=
  | keep_claim limit w : keeping_step ids w (fetch_pending_batch limit w).2
  | keep_publish cfg row w : keeping_step ids w (publish_and_mark cfg row w).2
  | keep_mark id w : keeping_step ids w (mark_published id w).2
  | keep_failure id max w : id ∉ ids → keeping_step ids w (record_publish_failure id max w).2
  | keep_reap secs w :
      (∀ r, r ∈ db_outbox (w_db w) → ob_id r ∈ ids → lock_is_stale secs (clock (w_tick w)) r = false) →
      keeping_step ids w (reap_stale_in_progress secs w).2.

(** None of them is PENDING. *)
Definition taken (ids : list Uuid) (d : Db) : Prop :=
  ∀ r, r ∈ db_outbox d → ob_id r ∈ ids → ob_status r ≠ "PENDING".

Lemma taken_update ids p f d :
  taken ids d →
  (∀ r, r ∈ db_outbox d → p r = true → ob_id (f r) ∈ ids → ob_id r ∈ ids ∧ (ob_status r ≠ "PENDING" → ob_status (f r) ≠ "PENDING")) →
  taken ids (update_outbox p f d).
Proof.
  intros Hd Hf r (y & Hy & ->)%update_outbox_elem. destruct (p y) eqn:Hp; [|by apply Hd].
  intros Hin. destruct (Hf y Hy Hp Hin) as [Hin' Hst]. by apply Hst, Hd.
Qed.

Lemma taken_query {A} ids (stmt : nat → Db → result (A * Db) string) w :
  taken ids (w_db w) → (∀ a d, stmt (w_tick w) (w_db w) = Ok (a, d) → taken ids d) →
  taken ids (w_db (query stmt w).2).
Proof.
  intros Hw Hs. destruct (query stmt w) as [r w'] eqn:Hq. simpl.
  apply query_spec in Hq as [(e & _ & ->)|(a & d & _ & Hq & -> & _)]; [done|by eapply Hs].
Qed.

Lemma keeping_taken ids w w' : keeping_step ids w w' → taken ids (w_db w) → taken ids (w_db w').
Proof.
  destruct 1 as [limit w|cfg row w|id w|id max w Hid|secs w Hfresh]; intros Hw.
  - destruct (fetch_pending_batch limit w) as [[rows|e] w'] eqn:Hf; simpl.
    + apply fetch_spec in Hf as (_ & t & ->). by apply taken_update.
    + by apply fetch_err in Hf as ->.
  - pose proof (publish_and_mark_spec cfg row w) as Hp. destruct (publish_and_mark cfg row w) as [[[]|e] w']; simpl.
    + destruct Hp as [(b & t & tm & _ & _ & _ & ->) _]. by apply taken_update.
    + by destruct Hp as [-> _].
  - apply taken_query; [done|]. intros a d [= _ <-]. by apply taken_update.
  - apply taken_query; [done|]. intros a d. destruct (existsb _ _); [done|]. destruct (existsb _ _); [|done].
    intros [= _ <-]. apply taken_update; [done|]. intros r _ Hr%N.eqb_eq Hin. simpl in Hin. by subst id.
  - apply taken_query; [done|]. intros a d [= _ <-]. apply taken_update; [done|].
    intros r Hr Hst Hin. by rewrite Hfresh in Hst.
Qed.

Lemma keeping_run_taken ids w w' : rtc (keeping_step ids) w w' → taken ids (w_db w) → taken ids (w_db w').
Proof. induction 1 as [|w1 w2 w3 Hs _ IH]; [done|]. intros Hw. by eapply IH, keeping_taken. Qed.

(** C17: a claim returns at most [limit] rows, all of them PENDING and none
    younger than a PENDING row it leaves out; afterwards none of them is
    PENDING and rows with other ids are untouched.  No later claim of any
    worker returns one of them until its failure is recorded or a reaper finds
    its lock stale, which are the two ways back to PENDING. *)
Theorem claim_exclusive limit w rows w' :
  fetch_pending_batch limit w = (Ok rows, w') →
  (length rows <= Z.to_nat limit)%nat
  ∧ (∀ row, row ∈ rows → ∃ r, r ∈ db_outbox (w_db w) ∧ ob_status r = "PENDING" ∧ row = project r)
  ∧ (∀ r row, r ∈ db_outbox (w_db w) → ob_status r = "PENDING" → project r ∉ rows → row ∈ rows →
       or_created_at row ≤ ob_created_at r)
  ∧ (∀ r, r ∈ db_outbox (w_db w') → ob_id r ∈ map or_id rows → ob_status r ≠ "PENDING")
  ∧ (∀ r, r ∈ db_outbox (w_db w) → ob_id r ∉ map or_id rows → r ∈ db_outbox (w_db w'))
  ∧ (∀ w1 limit2 rows2 w2, rtc (keeping_step (map or_id rows)) w' w1 →
       fetch_pending_batch limit2 w1 = (Ok rows2, w2) → map or_id rows ## map or_id rows2).
Proof.
  intros Hf. apply fetch_spec in Hf as (-> & t & Hd). set (chosen := oldest_pending limit (w_db w)) in *.
  assert (Hids : map or_id (map project chosen) = map ob_id chosen) by (by rewrite map_map).
  assert (Hgone : ∀ r, r ∈ db_outbox (w_db w') → ob_id r ∈ map ob_id chosen → ob_status r ≠ "PENDING").
  { rewrite Hd. intros r (y & Hy & ->)%update_outbox_elem.
    destruct (in_ids (map ob_id chosen) y && ob_is "PENDING" y) eqn:Hp; [done|].
    intros Hin Hst. apply andb_false_iff in Hp as [Hp|Hp].
    - apply in_ids_spec in Hin. congruence.
    - apply ob_is_iff in Hst. congruence. }
  rewrite Hids. split_and!.
  - rewrite length_map. unfold chosen, oldest_pending. rewrite length_take. lia.
  - intros row (r & -> & Hr)%list_elem_of_fmap. exists r.
    by apply oldest_pending_In in Hr as [? ?].
  - intros r row Hr Hst Hnot (r0 & -> & Hr0)%list_elem_of_fmap. simpl.
    eapply (sorted_take_drop ob_created_at); [apply (order_by_sorted ob_created_at)|exact Hr0|].
    assert (Hin : r ∈ order_by ob_created_at (base.filter (λ r, ob_is "PENDING" r = true) (db_outbox (w_db w)))).
    { rewrite order_by_perm. apply list_elem_of_filter. split; [by apply ob_is_iff|done]. }
    rewrite <- (take_drop (Z.to_nat limit)) in Hin. apply elem_of_app in Hin as [Hin|Hin]; [|exact Hin].
    exfalso. apply Hnot. apply list_elem_of_fmap. by exists r.
  - exact Hgone.
  - intros r Hr Hnot. rewrite Hd. unfold update_outbox. simpl. apply list_elem_of_fmap. exists r.
    split; [|done]. destruct (in_ids (map ob_id chosen) r) eqn:Hi; [|done]. by apply in_ids_spec in Hi.
  - intros w1 limit2 rows2 w2 Hrun Hf2. apply fetch_spec in Hf2 as (-> & _).
    apply keeping_run_taken in Hrun; [|exact Hgone].
    intros id Hin1 Hin2. rewrite map_map in Hin2. apply list_elem_of_fmap in Hin2 as (r & Hid & Hr).
    apply oldest_pending_In in Hr as [Hr Hst]. apply (Hrun r); [done| |done]. simpl in Hid. by subst id.
Qed.

(** ** Publishing *)

(** C22: a row counts as published only after the broker acknowledged its event
    on the configured exchange and key; any other end of the attempt leaves
    every row of the table as it was. *)
Theorem published_means_acked cfg row w :
  let '(r, w') := publish_and_mark cfg row w in
  match r with
  | Err _ => w_db w' = w_db w
  | Ok _ => ∃ body t tm,
      row_body row = Ok body ∧ amqp_confirm t = Ok ConfirmAck
      ∧ w_amqp w' = w_amqp w ++ [BasicPublish (oc_exchange cfg) (oc_routing_key cfg) persistent_json body]
      ∧ w_db w' = update_outbox (λ x, has_id (or_id row) x && ob_is "IN_PROGRESS" x)
                    (set_published tm) (w_db w)
  end.
Proof.
  pose proof (publish_and_mark_spec cfg row w) as Hp. destruct (publish_and_mark cfg row w).
  by destruct Hp.
Qed.

(** The reaper sends back to PENDING exactly the rows in progress whose lock
    is older than the timeout or missing, and counts them. *)
Theorem outbox_reap_exact secs w n w' :
  reap_stale_in_progress secs w = (Ok n, w') →
  let stale := lock_is_stale secs (clock (w_tick w)) in
  n = Z.of_nat (length (base.filter (λ r, stale r = true) (db_outbox (w_db w))))
  ∧ (∀ x, x ∈ db_outbox (w_db w') → ∃ r, r ∈ db_outbox (w_db w) ∧ x = if stale r then set_unlocked r else r)
  ∧ ∀ r, r ∈ db_outbox (w_db w) → (if stale r then set_unlocked r else r) ∈ db_outbox (w_db w').
Proof.
  intros Hq. apply query_spec in Hq as [(?&?&?)|(a & d & [= <-] & [= <- <-] & Hd & _)]; [done|].
  rewrite Hd. split_and!; [done|by intros x Hx%update_outbox_elem|].
  intros r Hr. unfold update_outbox. simpl. apply list_elem_of_fmap. by exists r.
Qed.
End lifecycle.
