(* ===== verification/OutboxPoll.v ===== *)
(** * A poll of the outbox

    While the database and the channel are healthy a poll leaves no row it
    claimed in progress, whatever the broker answers; an acknowledged batch
    goes out in priority order; an idle worker never waits more than eight
    intervals.  The concrete runs at the end include the two ways a row comes
    to be published twice. *)

From S2P Require Import Prelude Order Json AppErr Event World LogStore Outbox OutboxSpec.

Section poll.
Context `{Env, WireCodec}.

(** No row with this id is in progress. *)
Definition at_rest (id : Uuid) (d : Db) : Prop :=
  ∀ r, r ∈ db_outbox d → ob_id r = id → ob_status r ≠ "IN_PROGRESS".

(** Failure counts that [n] more failures do not overflow. *)
Definition headroom (n : nat) (d : Db) : Prop :=
  ∀ r, r ∈ db_outbox d → ob_fail_count r + Z.of_nat n ≤ i32_max.

Lemma headroom_le n m d : headroom m d → (n <= m)%nat → headroom n d.
Proof. intros Hh Hle r Hr. specialize (Hh r Hr). lia. Qed.

Section healthy.
Context (Hdb : ∀ t, db_err t = None).

Lemma headroom_no_overflow id d :
  headroom 1 d → existsb (λ r, has_id id r && (i32_max <=? ob_fail_count r)) (db_outbox d) = false.
Proof.
  intros Hh. apply not_true_iff_false. intros (r & Hr & Hb)%existsb_exists.
  apply list_elem_of_In in Hr. specialize (Hh r Hr). apply andb_true_iff in Hb as [_ Hb]. lia.
Qed.

Lemma no_row_at_rest id d : existsb (has_id id) (db_outbox d) = false → at_rest id d.
Proof.
  intros Hno r Hr Hid. exfalso. apply not_true_iff_false in Hno. apply Hno, existsb_exists.
  exists r. split; [by apply list_elem_of_In|]. unfold has_id. rewrite Hid. apply N.eqb_refl.
Qed.

(** After this statement the row [id] rests, resting rows rest, and counts
    went up by one at most. *)
Definition row_settled (id : Uuid) (d d' : Db) : Prop :=
  at_rest id d' ∧ (∀ id', at_rest id' d → at_rest id' d')
  ∧ ∀ n, headroom (S n) d → headroom n d'.

Lemma failure_settles id max w :
  headroom 1 (w_db w) → row_settled id (w_db w) (w_db (record_publish_failure id max w).2).
Proof.
  intros Hh. unfold record_publish_failure, query, next_tick. run_st. rewrite Hdb. simpl.
  rewrite (headroom_no_overflow id _ Hh).
  destruct (existsb (has_id id) (db_outbox (w_db w))) eqn:Hex; simpl.
  - split_and!.
    + intros x (y & Hy & ->)%update_outbox_elem. destruct (has_id id y) eqn:E; simpl.
      * intros _. by destruct (_ <=? _).
      * intros <-. unfold has_id in E. by rewrite N.eqb_refl in E.
    + intros id' Hrest x (y & Hy & ->)%update_outbox_elem.
      destruct (has_id id y) eqn:E; simpl; [|by apply Hrest]. intros _. by destruct (_ <=? _).
    + intros n Hn x (y & Hy & ->)%update_outbox_elem. specialize (Hn y Hy).
      destruct (has_id id y); simpl; lia.
  - split_and!; [by apply no_row_at_rest|done|]. intros n Hn. by eapply headroom_le; [exact Hn|lia].
Qed.

Lemma published_settles id t d :
  row_settled id d (update_outbox (λ x, has_id id x && ob_is "IN_PROGRESS" x) (set_published t) d).
Proof.
  split_and!.
  - intros x (y & Hy & ->)%update_outbox_elem.
    destruct (has_id id y && ob_is "IN_PROGRESS" y) eqn:E; [done|]. intros Hid Hst.
    apply andb_false_iff in E as [E|E]; [unfold has_id in E; rewrite Hid, N.eqb_refl in E; done|].
    apply ob_is_iff in Hst. congruence.
  - intros id' Hrest x (y & Hy & ->)%update_outbox_elem.
    destruct (has_id id y && _); [done|by apply Hrest].
  - intros n Hn x (y & Hy & ->)%update_outbox_elem. specialize (Hn y Hy).
    destruct (has_id id y && _); simpl; lia.
Qed.

Context (Hconn : ∀ t, channel_connected t = true).

Lemma publish_rows_settle cfg rows w :
  headroom (length rows) (w_db w) →
  let '(r, w') := publish_rows cfg rows w in
  r = Ok true ∧ (∀ id, id ∈ map or_id rows ∨ at_rest id (w_db w) → at_rest id (w_db w')).
Proof.
  revert w. induction rows as [|row rows IH]; intros w Hh; simpl.
  { split; [done|]. intros id [Hin|?]; [set_solver|done]. }
  run_st. pose proof (publish_and_mark_spec cfg row w) as Hp.
  destruct (publish_and_mark cfg row w) as [[[]|e] w1]; destruct Hp as [Hp _].
  - destruct Hp as (body & t & tm & _ & _ & _ & Hd).
    destruct (published_settles (or_id row) tm (w_db w)) as (Hs1 & Hs2 & Hs3). rewrite <- Hd in *.
    specialize (IH w1 (Hs3 _ Hh)). destruct (publish_rows cfg rows w1) as [r w'].
    destruct IH as [-> IH]. split; [done|]. intros id [[->|Hin]%elem_of_cons|Hr]; apply IH; auto.
  - destruct (failure_settles (or_id row) (oc_max_publish_failures cfg) w1) as (Hs1 & Hs2 & Hs3).
    { rewrite Hp. eapply headroom_le; [exact Hh|simpl; lia]. }
    run_st. destruct (record_publish_failure _ _ w1) as [x w2]. simpl in *. rewrite Hp in *.
    unfold is_connected, next_tick. run_st. rewrite Hconn. simpl.
    specialize (IH (set_tick (S (w_tick w2)) w2) (Hs3 _ Hh)).
    destruct (publish_rows cfg rows _) as [r w'].
    destruct IH as [-> IH]. split; [done|]. intros id [[->|Hin]%elem_of_cons|Hr]; apply IH; auto.
Qed.

(** What a claim leaves of the rows it did not take, and the room it leaves. *)
Lemma fetch_frame limit w rows w' :
  fetch_pending_batch limit w = (Ok rows, w') →
  (∀ y, y ∈ db_outbox (w_db w') → ob_id y ∉ map or_id rows → y ∈ db_outbox (w_db w))
  ∧ (headroom (Z.to_nat limit) (w_db w) → headroom (length rows) (w_db w')).
Proof.
  intros Hf. apply fetch_spec in Hf as (-> & t & ->). set (chosen := oldest_pending _ _). split.
  - intros y (z & Hz & ->)%update_outbox_elem. rewrite map_map.
    destruct (in_ids (map ob_id chosen) z && _) eqn:E; [|done]. simpl. intros Hid.
    by apply andb_true_iff in E as [E%in_ids_spec _].
  - intros Hh. apply (headroom_le _ (Z.to_nat limit)).
    + intros z (y & Hy & ->)%update_outbox_elem. specialize (Hh y Hy). by destruct (in_ids _ y && _).
    + rewrite length_map. unfold chosen, oldest_pending. rewrite length_take. lia.
Qed.

(** A row in progress in [d'], where the rows [ids] and those at rest in [d]
    are at rest, was in progress in [d]. *)
Lemma still_in_progress (ids : list Uuid) d d' x :
  (∀ id, id ∈ ids ∨ at_rest id d → at_rest id d') →
  x ∈ db_outbox d' → ob_status x = "IN_PROGRESS" →
  ob_id x ∉ ids ∧ ∃ y, y ∈ db_outbox d ∧ ob_id y = ob_id x ∧ ob_status y = "IN_PROGRESS".
Proof.
  intros Hrest Hx Hst. split.
  { intros Hin. by apply (Hrest (ob_id x) (or_introl Hin) x). }
  destruct (existsb (λ y, has_id (ob_id x) y && ob_is "IN_PROGRESS" y) (db_outbox d)) eqn:Hex.
  - apply existsb_exists in Hex as (y & Hy & [Hid%N.eqb_eq Hs%ob_is_iff]%andb_true_iff).
    apply list_elem_of_In in Hy. exists y. by split_and!.
  - exfalso. apply (Hrest (ob_id x)) with x; [|done..]. right. intros y Hy Hid Hs.
    apply not_true_iff_false in Hex. apply Hex, existsb_exists. exists y.
    split; [by apply list_elem_of_In|]. apply andb_true_iff.
    split; [by apply N.eqb_eq|by apply ob_is_iff].
Qed.

(** C18: with the database and the channel up, whatever the broker answers to the
    events, a poll returns and every row in progress after it already was
    before it: each claimed row is PUBLISHED, back to PENDING or FAILED. *)
Theorem poll_leaves_none_in_progress cfg w :
  headroom (Z.to_nat (oc_batch_size cfg)) (w_db w) →
  let '(r, w') := poll_once cfg w in
  is_ok r = true
  ∧ ∀ x, x ∈ db_outbox (w_db w') → ob_status x = "IN_PROGRESS" →
     ∃ y, y ∈ db_outbox (w_db w) ∧ ob_id y = ob_id x ∧ ob_status y = "IN_PROGRESS".
Proof.
  intros Hh. unfold poll_once. run_st.
  destruct (fetch_pending_batch (oc_batch_size cfg) w) as [[rows|e] w1] eqn:Hf.
  2: { simpl. apply fetch_err in Hf as ->. split; [done|]. intros x Hx Hst. exists x. by split_and!. }
  destruct (fetch_frame _ _ _ _ Hf) as [Hothers Hroom]. specialize (Hroom Hh).
  assert (Hback : ∀ d', (∀ id, id ∈ map or_id rows ∨ at_rest id (w_db w1) → at_rest id d') →
    ∀ x, x ∈ db_outbox d' → ob_status x = "IN_PROGRESS" →
    ∃ y, y ∈ db_outbox (w_db w) ∧ ob_id y = ob_id x ∧ ob_status y = "IN_PROGRESS").
  { intros d' Hrest x Hx Hst. destruct (still_in_progress _ _ _ _ Hrest Hx Hst) as (Hout & y & Hy & Hid & Hs).
    exists y. split_and!; [|done..]. apply Hothers; [done|by rewrite Hid]. }
  destruct rows as [|row rows].
  - split; [done|]. apply Hback. intros id [?|?]; [set_solver|done].
  - set (sorted := order_by priority_key (row :: rows)).
    assert (Hperm : sorted ≡ₚ row :: rows) by apply order_by_perm.
    pose proof (publish_rows_settle cfg sorted w1) as Hp. rewrite (Permutation_length Hperm) in Hp.
    specialize (Hp Hroom). destruct (publish_rows cfg sorted w1) as [r w'].
    destruct Hp as [-> Hp]. split; [done|]. apply Hback. intros id Hid. apply Hp. by rewrite Hperm.
Qed.

(** ** A broker that acknowledges everything *)

Context (Hpub : ∀ t, amqp_publish_err t = None).
Context (Htime : ∀ t, confirm_in_time t = true).
Context (Hack : ∀ t, amqp_confirm t = Ok ConfirmAck).

Definition row_frame (cfg : OutboxConfig) (body : OutboxRow → string) (row : OutboxRow) : AmqpFrame :=
  BasicPublish (oc_exchange cfg) (oc_routing_key cfg) persistent_json (body row).

Lemma publish_acked cfg row body w :
  row_body row = Ok body →
  let '(r, w') := publish_and_mark cfg row w in
  r = Ok tt ∧ w_amqp w' = w_amqp w
    ++ [BasicPublish (oc_exchange cfg) (oc_routing_key cfg) persistent_json body].
Proof.
  intros Hb. unfold publish_and_mark. rewrite Hb.
  unfold basic_publish, timed_confirm, await_confirm, next_tick. run_st. rewrite Hpub. simpl.
  rewrite Htime. run_st. rewrite Hack. simpl. unfold mark_published, query, next_tick. run_st.
  rewrite Hdb. by simpl.
Qed.

Lemma publish_rows_frames cfg (body : OutboxRow → string) rows w :
  (∀ row, row ∈ rows → row_body row = Ok (body row)) →
  let '(r, w') := publish_rows cfg rows w in
  r = Ok true ∧ w_amqp w' = w_amqp w ++ map (row_frame cfg body) rows.
Proof.
  clear Hconn. revert w. induction rows as [|row rows IH]; intros w Hb; simpl; [by rewrite app_nil_r|].
  run_st. pose proof (publish_acked cfg row (body row) w) as Hp.
  destruct (publish_and_mark cfg row w) as [r w1].
  destruct Hp as [-> Ha]; [apply Hb; set_solver|].
  specialize (IH w1). destruct (publish_rows cfg rows w1) as [r' w'].
  destruct IH as [-> Ha']; [set_solver|]. split; [done|]. by rewrite Ha', Ha, <- app_assoc.
Qed.

Lemma fetch_quiet limit : keeps quiet (fetch_pending_batch limit).
Proof.
  apply keeps_try; [apply _| |intros; apply keeps_ret, _]. apply transaction_quiet.
  apply keeps_try; [apply _|apply query_quiet|]. intros [|r rows]; [apply keeps_ret, _|].
  apply keeps_try; [apply _|apply query_quiet|]. intros. apply keeps_ret, _.
Qed.

(** A claimed batch goes out whole, lowest priority number first, events
    without one last, and events of equal priority in the order they were
    inserted. *)
Theorem batch_in_priority_order cfg (body : OutboxRow → string) w rows w1 :
  fetch_pending_batch (oc_batch_size cfg) w = (Ok rows, w1) → rows ≠ [] →
  (∀ row, row ∈ rows → row_body row = Ok (body row)) →
  let '(r, w') := poll_once cfg w in
  r = Ok true
  ∧ ∃ sorted, w_amqp w' = w_amqp w ++ map (row_frame cfg body) sorted
      ∧ sorted ≡ₚ rows ∧ key_sorted priority_key sorted
      ∧ ∀ p, base.filter (λ x, priority_key x = p) sorted = base.filter (λ x, priority_key x = p) rows.
Proof.
  clear Hconn. intros Hf Hne Hb. pose proof (fetch_quiet (oc_batch_size cfg) w) as (_ & Ha & _).
  unfold poll_once. run_st. rewrite Hf in *. destruct rows as [|row rows]; [done|].
  set (sorted := order_by priority_key (row :: rows)).
  assert (Hperm : sorted ≡ₚ row :: rows) by apply order_by_perm.
  pose proof (publish_rows_frames cfg body sorted w1) as Hp.
  destruct (publish_rows cfg sorted w1) as [r w']. destruct Hp as [-> Hp].
  { intros x Hx. apply Hb. by rewrite <- Hperm. }
  split; [done|]. exists sorted. split_and!; [|done|apply order_by_sorted|].
  - rewrite Hp. simpl in Ha. by rewrite Ha.
  - intros p. apply order_by_stable.
Qed.
End healthy.

(** ** The idle loop *)

Lemma publish_rows_slept cfg rows w : w_slept (publish_rows cfg rows w).2 = w_slept w.
Proof.
  revert w. induction rows as [|row rows IH]; intros w; simpl; [done|]. run_st.
  pose proof (publish_and_mark_spec cfg row w) as Hp.
  destruct (publish_and_mark cfg row w) as [[[]|e] w1]; destruct Hp as (_ & _ & Hs & _);
    [by rewrite IH|]. run_st.
  pose proof (query_quiet (λ _ d,
    if existsb (λ r, has_id (or_id row) r && (i32_max <=? ob_fail_count r)) (db_outbox d)
    then Err out_of_range
    else if existsb (has_id (or_id row)) (db_outbox d)
    then Ok (tt, update_outbox (has_id (or_id row)) (set_publish_failure (oc_max_publish_failures cfg)) d)
    else Err "no rows returned by a query that expected to return at least one row") w1) as (_ & _ & Hq).
  unfold record_publish_failure. destruct (query _ w1) as [x w2]. simpl in Hq.
  unfold is_connected, next_tick. run_st. destruct (negb _); simpl; [congruence|].
  rewrite IH. simpl. congruence.
Qed.

Lemma poll_once_slept cfg w : w_slept (poll_once cfg w).2 = w_slept w.
Proof.
  unfold poll_once. run_st. pose proof (fetch_quiet (oc_batch_size cfg) w) as (_ & _ & Hs).
  destruct (fetch_pending_batch _ w) as [[[|row rows]|e] w1]; simpl in *; [done| |done].
  by rewrite publish_rows_slept.
Qed.

Definition multipliers : list Z := [1; 2; 4; 8].

Lemma next_multiplier_in b m : m ∈ multipliers → next_multiplier b m ∈ multipliers.
Proof.
  unfold multipliers, next_multiplier, MAX_IDLE_MULTIPLIER. destruct b; [set_solver|].
  intros Hm. repeat (apply elem_of_cons in Hm as [->|Hm]; [vm_compute; set_solver|]).
  by apply not_elem_of_nil in Hm.
Qed.

Lemma multiplier_range m : m ∈ multipliers → 1 ≤ m ≤ 8.
Proof.
  intros Hm. repeat (apply elem_of_cons in Hm as [->|Hm]; [lia|]). by apply not_elem_of_nil in Hm.
Qed.

(** Between two polls the worker waits one, two, four or eight poll
    intervals, however long it has been idle, as long as eight of them fit in
    64 bits. *)
Theorem idle_wait_bounded cfg fuel m w :
  0 ≤ oc_poll_interval_ms cfg → oc_poll_interval_ms cfg * MAX_IDLE_MULTIPLIER ≤ u64_max →
  m ∈ multipliers →
  ∃ ds, w_slept (poll_loop cfg fuel m w).2 = w_slept w ++ ds
        ∧ ∀ d, d ∈ ds → ∃ k, k ∈ multipliers ∧ d = oc_poll_interval_ms cfg * k.
Proof.
  intros Hpos Hfit. revert m w. induction fuel as [|fuel IH]; intros m w Hm.
  { exists []. rewrite app_nil_r. split; [done|set_solver]. }
  cbn [poll_loop]. unfold is_cancelled, next_tick. run_st.
  destruct (shutdown_requested _); simpl.
  { exists []. rewrite app_nil_r. split; [done|set_solver]. }
  set (w0 := set_tick _ w). pose proof (poll_once_slept cfg w0) as Hs.
  destruct (poll_once cfg w0) as [[b|e] w1]; simpl in Hs.
  2: { exists []. simpl. rewrite app_nil_r. split; [done|set_solver]. }
  pose proof (next_multiplier_in b m Hm) as Hm'. unfold sleep_or_shutdown, next_tick. run_st.
  set (d := wait_ms cfg (next_multiplier b m)).
  assert (Hd : ∀ x, x ∈ [d] → ∃ k, k ∈ multipliers ∧ x = oc_poll_interval_ms cfg * k).
  { intros x ->%list_elem_of_singleton. exists (next_multiplier b m). split; [done|].
    apply wrap64_small. apply multiplier_range in Hm'. unfold MAX_IDLE_MULTIPLIER in Hfit. nia. }
  destruct (sleep_completes (w_tick w1)); simpl.
  - destruct (IH _ (log_sleep d (set_tick (S (w_tick w1)) w1)) Hm') as (ds & Hds & Hall).
    exists (d :: ds). simpl in Hds. rewrite Hds, Hs, <- app_assoc. split; [done|].
    intros x [->|Hx]%elem_of_cons; [apply Hd; set_solver|by apply Hall].
  - exists [d]. rewrite Hs. by split.
Qed.
End poll.

(** ** Concrete polls *)

Definition outbox_row (id : Uuid) (created : Z) (priority : list (string * json)) : OutboxDbRow :=
  mkOutboxDbRow id id "ORDER" (JObj (("recipient", JStr "a@example.com") :: priority)) "PENDING" 0
    created None None.

Definition priority (n : Z) : list (string * json) := [("priority", JNum (PosInt n))].

Definition outbox_world : World :=
  world0 (set_outbox (λ _, [outbox_row 1 10 []; outbox_row 2 20 (priority 5); outbox_row 3 30 (priority 1);
                            outbox_row 4 40 (priority 5)]) empty_db).

Definition ob_states (w : World) : list (Uuid * string * Z) :=
  map (λ r, (ob_id r, ob_status r, ob_fail_count r)) (db_outbox (w_db w)).

Definition bodies (w : World) : list string :=
  omap (λ f, match f with BasicPublish _ _ _ b => Some b | _ => None end) (w_amqp w).

Example poll_acked :
  let w := (poll_once (H := acking) outbox_config_default outbox_world).2 in
  (bodies w, map (λ r, ob_status r) (db_outbox (w_db w)))
  = (["3"; "2"; "4"; "1"], ["PUBLISHED"; "PUBLISHED"; "PUBLISHED"; "PUBLISHED"]).
Proof. vm_compute. reflexivity. Qed.

(** Five refused polls, and the rows are given up. *)
Example poll_nacked :
  let w := (poll_loop (H := nacking) outbox_config_default 5 1 outbox_world).2 in
  ob_states w = [(1%N, "FAILED", 5); (2%N, "FAILED", 5); (3%N, "FAILED", 5); (4%N, "FAILED", 5)].
Proof. vm_compute. reflexivity. Qed.

Definition sample_body (row : OutboxRow) : string := pretty (or_event_id row).

Definition claimed_world : World :=
  (fetch_pending_batch (H := acking) (oc_batch_size outbox_config_default) outbox_world).2.
Definition claimed_rows : list OutboxRow :=
  map project (oldest_pending (oc_batch_size outbox_config_default) (w_db outbox_world)).

Lemma claimed : fetch_pending_batch (H := acking) (oc_batch_size outbox_config_default) outbox_world
  = (Ok claimed_rows, claimed_world).
Proof. vm_compute. reflexivity. Qed.

Lemma claim_exclusive_witness :
  (length claimed_rows <= Z.to_nat (oc_batch_size outbox_config_default))%nat
  ∧ (∀ row, row ∈ claimed_rows →
       ∃ r, r ∈ db_outbox (w_db outbox_world) ∧ ob_status r = "PENDING" ∧ row = project r)
  ∧ (∀ r row, r ∈ db_outbox (w_db outbox_world) → ob_status r = "PENDING" →
       project r ∉ claimed_rows → row ∈ claimed_rows → or_created_at row ≤ ob_created_at r)
  ∧ (∀ r, r ∈ db_outbox (w_db claimed_world) → ob_id r ∈ map or_id claimed_rows →
       ob_status r ≠ "PENDING")
  ∧ (∀ r, r ∈ db_outbox (w_db outbox_world) → ob_id r ∉ map or_id claimed_rows →
       r ∈ db_outbox (w_db claimed_world))
  ∧ (∀ w1 limit2 rows2 w2,
       rtc (keeping_step (H := acking) (map or_id claimed_rows)) claimed_world w1 →
       fetch_pending_batch (H := acking) limit2 w1 = (Ok rows2, w2) →
       map or_id claimed_rows ## map or_id rows2).
Proof.
  pose proof (claim_exclusive (H := acking) (oc_batch_size outbox_config_default) outbox_world
    claimed_rows claimed_world claimed) as H. exact H.
Defined.

Lemma outbox_lifecycle_witness :
  Forall2 ob_evolves (db_outbox (w_db outbox_world)) (db_outbox (w_db claimed_world)).
Proof.
  apply (outbox_lifecycle (H := acking) (H0 := sample_wire_codec) outbox_world claimed_world).
  apply rtc_once. apply ostep_claim.
Defined.

(** A thousand ticks later the claim's locks are stale. *)
Lemma outbox_reap_exact_witness :
  let w := set_tick 1000 claimed_world in
  let w' := (reap_stale_in_progress (H := acking) 300 w).2 in
  let stale := lock_is_stale 300 (clock (Env := acking) (w_tick w)) in
  4 = Z.of_nat (length (base.filter (λ r, stale r = true) (db_outbox (w_db w))))
  ∧ (∀ x, x ∈ db_outbox (w_db w') → ∃ r, r ∈ db_outbox (w_db w) ∧ x = if stale r then set_unlocked r else r)
  ∧ ∀ r, r ∈ db_outbox (w_db w) → (if stale r then set_unlocked r else r) ∈ db_outbox (w_db w').
Proof.
  pose proof (outbox_reap_exact (H := acking) 300 (set_tick 1000 claimed_world) 4
    (reap_stale_in_progress (H := acking) 300 (set_tick 1000 claimed_world)).2) as H.
  apply H. vm_compute. reflexivity.
Defined.

Lemma poll_leaves_none_in_progress_witness :
  let '(r, w') := poll_once (H := nacking) outbox_config_default outbox_world in
  is_ok r = true
  ∧ ∀ x, x ∈ db_outbox (w_db w') → ob_status x = "IN_PROGRESS" →
     ∃ y, y ∈ db_outbox (w_db outbox_world) ∧ ob_id y = ob_id x ∧ ob_status y = "IN_PROGRESS".
Proof.
  pose proof (poll_leaves_none_in_progress (H := nacking) (λ _, eq_refl) (λ _, eq_refl)
    outbox_config_default outbox_world) as H.
  apply H. unfold headroom. apply (Forall_forall (λ r, ob_fail_count r + _ ≤ i32_max)).
  repeat (apply Forall_cons_2; [vm_compute; discriminate|]). apply Forall_nil_2.
Defined.

Lemma batch_in_priority_order_witness :
  let '(r, w') := poll_once (H := acking) outbox_config_default outbox_world in
  r = Ok true
  ∧ ∃ sorted, w_amqp w' = w_amqp outbox_world ++ map (row_frame outbox_config_default sample_body) sorted
      ∧ sorted ≡ₚ claimed_rows ∧ key_sorted priority_key sorted
      ∧ ∀ p, base.filter (λ x, priority_key x = p) sorted
             = base.filter (λ x, priority_key x = p) claimed_rows.
Proof.
  pose proof (batch_in_priority_order (H := acking) (λ _, eq_refl) (λ _, eq_refl) (λ _, eq_refl)
    (λ _, eq_refl) outbox_config_default sample_body outbox_world claimed_rows claimed_world claimed)
    as H.
  apply H; [done|]. apply (Forall_forall (λ row, row_body row = Ok (sample_body row))).
  repeat (apply Forall_cons_2; [vm_compute; reflexivity|]). apply Forall_nil_2.
Defined.

Lemma idle_wait_bounded_witness :
  ∃ ds, w_slept (poll_loop (H := acking) outbox_config_default 6 1 outbox_world).2
          = w_slept outbox_world ++ ds
        ∧ ∀ d, d ∈ ds → ∃ k, k ∈ multipliers ∧ d = oc_poll_interval_ms outbox_config_default * k.
Proof.
  apply (idle_wait_bounded (H := acking) outbox_config_default 6 1 outbox_world); [done|done|].
  apply elem_of_cons. by left.
Defined.

Example idle_waits :
  w_slept (poll_loop (H := acking) outbox_config_default 6 1 outbox_world).2
  = [1000; 2000; 4000; 8000; 8000; 8000].
Proof. vm_compute. reflexivity. Qed.

(** An interval of 2^61 ms fits its field; eight of them wrap to no wait at all. *)
Example idle_wait_wraps :
  let cfg := mkOutboxConfig "" "" "x" "k" (2 ^ 61) 50 2 300 5 in
  map (wait_ms cfg) multipliers = [2 ^ 61; 2 ^ 62; 2 ^ 63; 0].
Proof. reflexivity. Qed.

(** ** A late failure report *)

(** A worker claims a row and stalls for longer than the lock timeout; the
    reaper frees it, another worker publishes it, and then the first worker's
    attempt fails. *)
Definition stalled_run : World :=
  let row := outbox_row 1 10 [] in
  let w0 := world0 (set_outbox (λ _, [row]) empty_db) in
  let w1 := (fetch_pending_batch (H := acking) 10 w0).2 in
  let w2 := (reap_stale_in_progress (H := acking) 300 (set_tick 1000 w1)).2 in
  let w3 := (poll_once (H := acking) outbox_config_default w2).2 in
  (record_publish_failure (H := acking) 1 5 w3).2.

(** Recording a failure looks at the id only: when the row was reaped and
    published by another worker in the meantime it goes from PUBLISHED back to
    PENDING, and the next poll publishes the event again. *)
Theorem published_row_reopened :
  bodies stalled_run = ["1"] ∧ ob_states stalled_run = [(1%N, "PENDING", 1)]
  ∧ bodies (poll_once (H := acking) outbox_config_default stalled_run).2 = ["1"; "1"].
Proof. vm_compute. by split_and!. Qed.
