(* ===== verification/OutboxCut.v ===== *)
(** * A poll cut short

    The poll runs inside a [select!] with the shutdown token
    ([crates/outbox/src/worker.rs], [connect_amqp_and_poll]): when the token is
    set the poll's future is dropped at whichever [await] it is waiting in.
    [poll_cut] is what such a poll has done by then, for every place it can be
    cut.  No row is lost: what it leaves in progress, the reaper of any worker
    frees once the lock is old enough. *)

From S2P Require Import Prelude Order Json AppErr Event World LogStore Outbox OutboxSpec OutboxPoll.

(** Where the future is dropped: in the claim's transaction, which is then
    rolled back; before a row's event is published; or after that and before
    its outcome is written.  A statement the server is executing when its
    client goes away either takes effect, as if the poll had been cut after it,
    or does not. *)
Inductive CutPoint : Type :=
  | InClaim
  | BeforePublish (n : nat)
  | BeforeOutcome (n : nat).

Section cut.
Context `{Env, WireCodec}.

(** The row in hand when the future is dropped. *)
Definition cut_row (cfg : OutboxConfig) (published : bool) (row : OutboxRow) : M unit :=
  if negb published then st_ret tt
  else match row_body row with
       | Err _ => st_ret tt
       | Ok body =>
           basic_publish (oc_exchange cfg) (oc_routing_key cfg) persistent_json body ;;! st_ret tt
       end.

(** [n] rows done, the next one in hand. *)
Definition cut_rows (cfg : OutboxConfig) (n : nat) (published : bool) : M unit :=
  let! batch := fetch_pending_batch (oc_batch_size cfg) in
  match batch with
  | Err _ => st_ret tt
  | Ok rows =>
      let sorted := order_by priority_key rows in
      let! r := publish_rows cfg (take n sorted) in
      match r, sorted !! n with
      | Ok _, Some row => cut_row cfg published row
      | _, _ => st_ret tt
      end
  end.

Definition poll_cut (cfg : OutboxConfig) (at_ : CutPoint) : M unit :=
  match at_ with
  | InClaim => next_tick ;;! st_ret tt
  | BeforePublish n => cut_rows cfg n false
  | BeforeOutcome n => cut_rows cfg n true
  end.

(** The [select!]: the poll's result, or [None] when the shutdown came first. *)
Definition poll_or_shutdown (cfg : OutboxConfig) (cut : option CutPoint) :
    M (option (result bool string)) :=
  match cut with
  | None => let! r := poll_once cfg in st_ret (Some r)
  | Some at_ => poll_cut cfg at_ ;;! st_ret None
  end.

(** The loop of [connect_amqp_and_poll], the poll of each round cut or not. *)
Fixpoint poll_rounds (cfg : OutboxConfig) (cuts : list (option CutPoint)) (m : Z) :
    M (option (result unit string)) :=
  match cuts with
  | [] => st_ret None
  | cut :: cuts =>
      let! cancelled := is_cancelled in
      if cancelled then st_ret (Some (Ok tt))
      else
        let! r := poll_or_shutdown cfg cut in
        match r with
        | None => st_ret (Some (Ok tt))
        | Some (Err e) => st_ret (Some (Err e))
        | Some (Ok had_rows) =>
            let m := next_multiplier had_rows m in
            let! woke := sleep_or_shutdown (wait_ms cfg m) in
            if (woke : bool) then poll_rounds cfg cuts m else st_ret (Some (Ok tt))
        end
  end.

(** Without a cut it is the loop of [Outbox]. *)
Theorem poll_rounds_uncut cfg n m w :
  poll_rounds cfg (repeat None n) m w = poll_loop cfg n m w.
Proof.
  revert m w. induction n as [|n IH]; intros m w; [done|]. cbn [repeat poll_rounds poll_loop].
  unfold poll_or_shutdown, st_bind. destruct (is_cancelled w) as [[] w1]; [done|].
  destruct (poll_once cfg w1) as [[had|e] w2]; [|done]. unfold st_ret. cbv beta iota zeta.
  destruct (sleep_or_shutdown (wait_ms cfg (next_multiplier had m)) w2) as [[] w3]; [apply IH|done].
Qed.

(** ** Nothing is lost *)

Lemma publish_rows_evolves cfg rows : keeps outbox_evolves (publish_rows cfg rows).
Proof.
  induction rows as [|row rows IH]; [apply keeps_ret, _|]. cbn [publish_rows].
  apply keeps_bind; [apply _|apply publish_and_mark_evolves|].
  intros [[]|e]; [done|]. apply keeps_bind; [apply _|apply failure_evolves|]. intros _.
  apply keeps_bind; [apply _|intros w; by apply same_db_evolves|]. intros [|]; [done|apply keeps_ret, _].
Qed.

Lemma cut_row_evolves cfg published row : keeps outbox_evolves (cut_row cfg published row).
Proof.
  unfold cut_row. destruct (negb published); [apply keeps_ret, _|]. destruct (row_body row); [|apply keeps_ret, _].
  apply keeps_bind; [apply _| |intros; apply keeps_ret, _]. intros w. apply same_db_evolves.
  unfold basic_publish, next_tick. run_st. by destruct (amqp_publish_err _).
Qed.

Lemma poll_cut_evolves cfg at_ : keeps outbox_evolves (poll_cut cfg at_).
Proof.
  assert (Hrows : ∀ n published, keeps outbox_evolves (cut_rows cfg n published)).
  { intros n published. apply keeps_bind; [apply _|apply fetch_evolves|]. intros [rows|e]; [|apply keeps_ret, _].
    apply keeps_bind; [apply _|apply publish_rows_evolves|]. intros [b|e]; [|apply keeps_ret, _].
    destruct (_ !! n); [apply cut_row_evolves|apply keeps_ret, _]. }
  destruct at_ as [|n|n]; [intros w; by apply same_db_evolves|apply Hrows..].
Qed.

(** Once a reap finds every lock old, no row is in progress. *)
Lemma reap_frees secs w :
  db_err (w_tick w) = None →
  (∀ x, x ∈ db_outbox (w_db w) → ob_status x = "IN_PROGRESS" →
     match ob_locked_at x with Some l => l < clock (w_tick w) - secs * 1000000000 | None => True end) →
  ∀ x, x ∈ db_outbox (w_db (reap_stale_in_progress secs w).2) → ob_status x ≠ "IN_PROGRESS".
Proof.
  intros Hdb Hold. unfold reap_stale_in_progress, query, next_tick. run_st. rewrite Hdb. simpl.
  intros x (y & Hy & ->)%update_outbox_elem. destruct (lock_is_stale _ _ y) eqn:Hs; [done|].
  intros Hst. specialize (Hold y Hy Hst). unfold lock_is_stale in Hs.
  apply ob_is_iff in Hst. rewrite Hst in Hs. simpl in Hs. destruct (ob_locked_at y); [lia|done].
Qed.

(** Time passes: from some interaction on, the clock is past any given moment. *)
Definition time_passes : Prop := ∀ z, ∃ n, ∀ t, (n <= t)%nat → z < clock t.

Lemma locks_expire secs (rows : list OutboxDbRow) :
  time_passes →
  ∃ n, ∀ t, (n <= t)%nat → ∀ x l, x ∈ rows → ob_locked_at x = Some l → l < clock t - secs * 1000000000.
Proof.
  intros Hclock. induction rows as [|r rows [n IH]].
  - exists 0%nat. intros t _ x l Hx. by apply not_elem_of_nil in Hx.
  - destruct (Hclock (default 0 (ob_locked_at r) + secs * 1000000000)) as [m Hm].
    exists (n `max` m)%nat. intros t Ht x l [->|Hx]%elem_of_cons Hl; [|by apply (IH t ltac:(lia) x)].
    specialize (Hm t ltac:(lia)). rewrite Hl in Hm. simpl in Hm. lia.
Qed.

(** C19: wherever a shutdown cuts a poll, no row is lost, rewritten or left behind:
    every row is still there with its event, and once time has passed a reap
    leaves each PENDING, for the next worker to claim, PUBLISHED or FAILED. *)
Theorem cut_poll_recovered cfg at_ secs w :
  time_passes → (∀ t, db_err t = None) → Forall ob_wf (db_outbox (w_db w)) →
  let w1 := (poll_cut cfg at_ w).2 in
  ∃ n, ∀ w2, w_db w2 = w_db w1 → (n <= w_tick w2)%nat →
    let w3 := (reap_stale_in_progress secs w2).2 in
    Forall2 (λ r r', ob_evolves r r' ∧ ob_status r' ∈ ["PENDING"; "PUBLISHED"; "FAILED"])
      (db_outbox (w_db w)) (db_outbox (w_db w3)).
Proof.
  intros Hclock Hdb Hwf w1. destruct (locks_expire secs (db_outbox (w_db w1)) Hclock) as [n Hn].
  exists n. intros w2 Hd Hle. cbv zeta.
  assert (Hev : outbox_evolves w (reap_stale_in_progress secs w2).2).
  { etransitivity; [apply (poll_cut_evolves cfg at_)|]. etransitivity; [by apply (same_db_evolves w1 w2)|].
    apply reap_evolves. }
  pose proof (reap_frees secs w2 (Hdb _)) as Hfree.
  apply Forall2_same_length_lookup_2; [by eapply Forall2_length|].
  intros i r r' Hr Hr'. pose proof (Forall2_lookup_lr _ _ _ _ _ _ Hev Hr Hr') as He. split; [done|].
  assert (Hst : ob_status r' ∈ ob_statuses).
  { apply (oe_wf _ _ He). by eapply Forall_lookup_1. }
  assert (Hno : ob_status r' ≠ "IN_PROGRESS").
  { apply Hfree; [|by eapply list_elem_of_lookup_2]. intros x Hx Hst'. rewrite Hd in Hx.
    destruct (ob_locked_at x) as [l|] eqn:Hl; [|done]. by apply (Hn _ Hle x). }
  unfold ob_statuses in Hst. set_solver.
Qed.
End cut.

(** ** A concrete cut *)

(** Dropped while the second event's confirmation is awaited. *)
Definition cut_world : World :=
  (poll_cut (H := acking) outbox_config_default (BeforeOutcome 1) outbox_world).2.

Example cut_in_the_middle :
  (bodies cut_world, map ob_status (db_outbox (w_db cut_world)))
  = (["3"; "2"], ["IN_PROGRESS"; "IN_PROGRESS"; "PUBLISHED"; "IN_PROGRESS"]).
Proof. vm_compute. reflexivity. Qed.

(** The reaper frees the rest, and the event published before the cut goes out
    again with it. *)
Example cut_republished :
  let w := (reap_stale_in_progress (H := acking) 300 (set_tick 1000 cut_world)).2 in
  (map ob_status (db_outbox (w_db w)),
   bodies (poll_once (H := acking) outbox_config_default w).2)
  = (["PENDING"; "PENDING"; "PUBLISHED"; "PENDING"], ["3"; "2"; "2"; "4"; "1"]).
Proof. vm_compute. reflexivity. Qed.

Lemma cut_poll_recovered_witness :
  ∃ n, ∀ w2, w_db w2 = w_db cut_world → (n <= w_tick w2)%nat →
    let w3 := (reap_stale_in_progress (H := acking) 300 w2).2 in
    Forall2 (λ r r', ob_evolves r r' ∧ ob_status r' ∈ ["PENDING"; "PUBLISHED"; "FAILED"])
      (db_outbox (w_db outbox_world)) (db_outbox (w_db w3)).
Proof.
  apply (cut_poll_recovered (H := acking) outbox_config_default (BeforeOutcome 1) 300 outbox_world).
  - intros z. exists (S (Z.to_nat z)). intros t Ht. simpl. lia.
  - done.
  - repeat (apply Forall_cons_2; [constructor; simpl; [set_solver|by split; [intros []|]|done]|]).
    apply Forall_nil_2.
Defined.
