(* ===== verification/OutboxMain.v ===== *)
(** * The outbox-worker binary ([src/outbox_worker.rs])

    Its settings with their defaults, their validation, and [main] up to the
    worker it runs. *)

From S2P Require Import Prelude Order Json AppErr Event World Outbox OutboxSpec.

(** ** Settings *)

Record OutboxEnv : Type := mkOutboxEnv {
  oe_database_url : string;
  oe_amqp_url : string;
  oe_exchange : string;
  oe_routing_key : string;
  oe_poll_interval_ms : Z;
  oe_batch_size : Z;
  oe_pool_size : Z;
  oe_stale_lock_timeout_secs : Z;
  oe_max_publish_failures : Z;
  oe_metrics_port : Z;
}.

Definition default_exchange : string := "anvil-notify".
Definition default_routing_key : string := "email.requested".
Definition default_poll_interval_ms : Z := 1000.
Definition default_batch_size : Z := 50.
Definition default_pool_size : Z := 2.
Definition default_stale_lock_timeout_secs : Z := 300.
Definition default_max_publish_failures : Z := 5.
Definition default_metrics_port : Z := 9092.

(** The variables that are set, as the [config] crate hands them to serde. *)
Record OutboxVars : Type := mkOutboxVars {
  ov_database_url : string;
  ov_amqp_url : string;
  ov_exchange : option string;
  ov_routing_key : option string;
  ov_poll_interval_ms : option Z;
  ov_batch_size : option Z;
  ov_pool_size : option Z;
  ov_stale_lock_timeout_secs : option Z;
  ov_max_publish_failures : option Z;
  ov_metrics_port : option Z;
}.

(** [try_deserialize], with the fields' [serde(default)]s. *)
Definition with_defaults (v : OutboxVars) : OutboxEnv :=
  {| oe_database_url := ov_database_url v;
     oe_amqp_url := ov_amqp_url v;
     oe_exchange := default default_exchange (ov_exchange v);
     oe_routing_key := default default_routing_key (ov_routing_key v);
     oe_poll_interval_ms := default default_poll_interval_ms (ov_poll_interval_ms v);
     oe_batch_size := default default_batch_size (ov_batch_size v);
     oe_pool_size := default default_pool_size (ov_pool_size v);
     oe_stale_lock_timeout_secs := default default_stale_lock_timeout_secs (ov_stale_lock_timeout_secs v);
     oe_max_publish_failures := default default_max_publish_failures (ov_max_publish_failures v);
     oe_metrics_port := default default_metrics_port (ov_metrics_port v) |}.

Definition load (vars : result OutboxVars string) : result OutboxEnv string :=
  result_bind vars (λ v,
  let env := with_defaults v in
  if is_empty_str (oe_database_url env) then Err "AN__OUTBOX__DATABASE_URL must not be empty"
  else if is_empty_str (oe_amqp_url env) then Err "AN__OUTBOX__AMQP_URL must not be empty"
  else Ok env).

Definition outbox_config_of (env : OutboxEnv) : OutboxConfig :=
  {| oc_database_url := oe_database_url env;
     oc_amqp_url := oe_amqp_url env;
     oc_exchange := oe_exchange env;
     oc_routing_key := oe_routing_key env;
     oc_poll_interval_ms := oe_poll_interval_ms env;
     oc_batch_size := oe_batch_size env;
     oc_pool_size := oe_pool_size env;
     oc_stale_lock_timeout_secs := oe_stale_lock_timeout_secs env;
     oc_max_publish_failures := oe_max_publish_failures env |}.

(** ** [main] *)

Inductive LogSink : Type := PrettySink | CompactSink | JsonSink.

(** Unlike the service, no syslog. *)
Definition log_sink `{Env} (LOG_FORMAT : option string) : LogSink :=
  let format := to_lowercase (default "json" LOG_FORMAT) in
  if String.eqb format "pretty" then PrettySink
  else if String.eqb format "compact" then CompactSink
  else JsonSink.

Section main.
Context `{Env, WireCodec}.

(** The metrics exporter and the database pool may fail; [None] is success.
    The result is [None] while the worker runs. *)
Definition main (vars : result OutboxVars string) (metrics_exporter postgres : option string)
    (fuel : nat) : M (option (result unit string)) :=
  match load vars with
  | Err e => st_ret (Some (Err ("Failed to load outbox worker config: " +:+ e)))
  | Ok env =>
      match metrics_exporter with
      | Some e => st_ret (Some (Err ("Failed to install Prometheus metrics exporter: " +:+ e)))
      | None =>
          match postgres with
          | Some e => st_ret (Some (Err ("Outbox worker: failed to connect to business DB: " +:+ e)))
          | None =>
              let! r := run_outbox_worker (outbox_config_of env) fuel in
              st_ret (option_map Ok r)
          end
      end
  end.
(** ** Properties *)

(** With only the URLs set, the binary runs the library's default
    configuration: the two lists of defaults agree. *)
Theorem defaults_agree database_url amqp_url :
  let d := outbox_config_default in
  database_url ≠ "" → amqp_url ≠ "" →
  result_map outbox_config_of
    (load (Ok (mkOutboxVars database_url amqp_url None None None None None None None None)))
  = Ok (mkOutboxConfig database_url amqp_url (oc_exchange d) (oc_routing_key d)
          (oc_poll_interval_ms d) (oc_batch_size d) (oc_pool_size d)
          (oc_stale_lock_timeout_secs d) (oc_max_publish_failures d)).
Proof. intros d H1 H2. by destruct database_url, amqp_url. Qed.

(** Nothing is published, only an exchange declared, and no outbox row changes. *)
Definition idle (exchange : string) : relation World := λ w w',
  (∃ k, w_amqp w' = w_amqp w ++ repeat (ExchangeDeclare exchange ExchangeKind.Direct) k)
  ∧ db_outbox (w_db w') = db_outbox (w_db w).

Lemma idle_same x w w' : w_amqp w' = w_amqp w → db_outbox (w_db w') = db_outbox (w_db w) → idle x w w'.
Proof. intros E ?. split; [|done]. exists 0%nat. by rewrite app_nil_r. Qed.

#[local] Instance idle_preorder x : PreOrder (idle x).
Proof.
  split; [intros w; by apply idle_same|]. intros w1 w2 w3 [[k E] D] [[l E'] D']. split; [|congruence].
  exists (k + l)%nat. by rewrite E', E, repeat_app, app_assoc.
Qed.

Lemma idle_fetch x cfg w :
  oc_batch_size cfg ≤ 0 →
  idle x w (fetch_pending_batch (oc_batch_size cfg) w).2
  ∧ match (fetch_pending_batch (oc_batch_size cfg) w).1 with Ok rows => rows = [] | Err _ => True end.
Proof.
  intros Hb. destruct (fetch_pending_batch _ w) as [r w'] eqn:Hf. simpl.
  assert (Hq : quiet w w').
  { assert (Hk : keeps quiet (fetch_pending_batch (oc_batch_size cfg))).
    { unfold fetch_pending_batch, claim_batch. apply keeps_try; [apply _| |intros; apply keeps_ret, _].
      apply transaction_quiet. apply keeps_try; [apply _|apply query_quiet|]. intros [|r0 rows]; [apply keeps_ret, _|].
      apply keeps_try; [apply _|apply query_quiet|]. intros. apply keeps_ret, _. }
    specialize (Hk w). by rewrite Hf in Hk. }
  destruct Hq as (_ & Ha & _). destruct r as [rows|e].
  - apply fetch_spec in Hf as (-> & t & Hd).
    assert (Hn : oldest_pending (oc_batch_size cfg) (w_db w) = []).
    { unfold oldest_pending. by replace (Z.to_nat (oc_batch_size cfg)) with 0%nat by lia. }
    rewrite Hn in Hd |- *. split; [|done]. apply idle_same; [done|]. rewrite Hd. simpl. unfold in_ids. simpl.
    by rewrite map_id.
  - split; [|done]. apply idle_same; [done|]. revert Hf. unfold fetch_pending_batch, st_try.
    destruct (transaction _ w) as [[a|e0] w0] eqn:Ht; [done|]. intros [= _ <-].
    by apply transaction_spec in Ht as [(? & _ & ->)|(? & ? & ? & [=] & _)].
Qed.

Lemma idle_poll x cfg : oc_batch_size cfg ≤ 0 → keeps (idle x) (poll_once cfg).
Proof.
  intros Hb w. unfold poll_once, st_bind. destruct (idle_fetch x cfg w Hb) as [Hi Hr].
  destruct (fetch_pending_batch _ w) as [[rows|e] w1]; simpl in *; [|done]. by rewrite Hr.
Qed.

Lemma idle_cancelled x : keeps (idle x) is_cancelled.
Proof. intros w. by apply idle_same. Qed.
Lemma idle_sleep x ms : keeps (idle x) (sleep_or_shutdown ms).
Proof. intros w. by apply idle_same. Qed.
Lemma idle_step x : keeps (idle x) amqp_step.
Proof. intros w. by apply idle_same. Qed.

Lemma idle_open cfg : keeps (idle (oc_exchange cfg)) (open_worker cfg).
Proof.
  do 2 (apply keeps_try; [apply _|apply idle_step|intros _]). apply keeps_try; [apply _| |intros _].
  - do 2 (apply keeps_bind; [apply _| |intros; apply keeps_ret, _]). apply idle_step.
  - intros w. destruct (active _ w) as [r w'] eqn:E. apply active_run in E as [-> _].
    destruct (is_ok r); [|by apply idle_same]. split; [by exists 1%nat|done].
Qed.

#[local] Hint Resolve idle_poll idle_cancelled idle_sleep idle_open : keeps.

Lemma idle_poll_loop x cfg fuel m : oc_batch_size cfg ≤ 0 → keeps (idle x) (poll_loop cfg fuel m).
Proof.
  intros Hb. revert m. induction fuel as [|fuel IH]; intros m; [apply keeps_ret, _|]. cbn [poll_loop].
  apply keeps_bind; [apply _|eauto with keeps|]. intros [|]; [apply keeps_ret, _|].
  apply keeps_bind; [apply _|eauto with keeps|]. intros [had|e]; [|apply keeps_ret, _].
  apply keeps_bind; [apply _|eauto with keeps|]. intros [|]; [apply IH|apply keeps_ret, _].
Qed.

Lemma idle_worker cfg fuel : oc_batch_size cfg ≤ 0 → keeps (idle (oc_exchange cfg)) (run_outbox_worker cfg fuel).
Proof.
  intros Hb. induction fuel as [|fuel IH]; [apply keeps_ret, _|]. cbn [run_outbox_worker].
  apply keeps_bind; [apply _|eauto with keeps|]. intros [|]; [apply keeps_ret, _|].
  apply keeps_bind; [apply _| |].
  - unfold connect_amqp_and_poll. apply keeps_bind; [apply _|apply idle_open|].
    intros [[]|e]; [by apply idle_poll_loop|apply keeps_ret, _].
  - intros [[[]|e]|]; [apply keeps_ret, _| |apply keeps_ret, _].
    apply keeps_bind; [apply _|eauto with keeps|]. intros [|]; [apply keeps_ret, _|].
    apply keeps_bind; [apply _|eauto with keeps|]. intros [|]; [done|apply keeps_ret, _].
Qed.

(** [load] accepts any batch size, but a worker started with one that is not
    positive polls for ever without publishing or claiming a single row. *)
Theorem empty_batch_never_publishes vars env metrics postgres fuel w :
  load vars = Ok env → oe_batch_size env ≤ 0 →
  idle (oe_exchange env) w (main vars metrics postgres fuel w).2.
Proof.
  intros Hl Hb. revert w. change (keeps (idle (oe_exchange env)) (main vars metrics postgres fuel)). unfold main.
  rewrite Hl. destruct metrics; [apply keeps_ret, _|]. destruct postgres; [apply keeps_ret, _|].
  apply keeps_bind; [apply _|by apply (idle_worker (outbox_config_of env))|]. intros. apply keeps_ret, _.
Qed.
End main.

(** ** Concrete settings *)

Definition sample_vars (batch : option Z) : OutboxVars :=
  mkOutboxVars "postgres://db" "amqp://mq" None None None batch None None None None.

Lemma empty_batch_never_publishes_witness :
  let row := mkOutboxDbRow 1 2 "ORDER" (JObj []) "PENDING" 0 0 None None in
  let w := world0 (set_outbox (λ _, [row]) empty_db) in
  idle "anvil-notify" w (main (H := sample_env) (H0 := sample_wire_codec) (Ok (sample_vars (Some 0))) None None 9 w).2.
Proof.
  eapply (empty_batch_never_publishes (H := sample_env) (H0 := sample_wire_codec)
            (Ok (sample_vars (Some 0))) (with_defaults (sample_vars (Some 0)))); [reflexivity|]. simpl. lia.
Defined.

Lemma defaults_agree_witness :
  result_map outbox_config_of (load (Ok (sample_vars None)))
  = Ok (mkOutboxConfig "postgres://db" "amqp://mq" "anvil-notify" "email.requested" 1000 50 2 300 5).
Proof. by apply (defaults_agree "postgres://db" "amqp://mq"). Defined.

Example load_refuses :
  map load [Ok (mkOutboxVars "" "amqp://mq" None None None None None None None None);
            Ok (mkOutboxVars "postgres://db" "" None None None None None None None None)]
  = [Err "AN__OUTBOX__DATABASE_URL must not be empty"; Err "AN__OUTBOX__AMQP_URL must not be empty"].
Proof. reflexivity. Qed.
