(* ===== verification/Queue.v ===== *)
(** * The consumer's queue

    A queue as the bodies it holds: which of the frames on the broker arrive
    there, the consumer taking one body after the other, and what each event
    needs and leaves behind ([job_ready], [job_delivered]), in either send
    mode. *)

From S2P Require Import Prelude Json AppErr EmailValidation Event World Interfaces Filter.
From S2P Require Import LogStore LogInvariant BlockList TemplateStore Mailer Fetcher.
From S2P Require Import Processor ProcessorSpec GroupSpec Delivery Loops AtMostOnce Settle.
From S2P Require Import Healthy HealthyStore HealthyGroup.

(** ** Events without the rows around them *)

(** One event's delivery, with what it is expected to use. *)
Record Job : Type := mkJob {
  job_event : NotificationEvent;
  job_opts : EmailOptions;
  job_attachments : list ResolvedAttachment;
  job_prepared : Prepared;
}.

Lemma Forall2_impl_in {A B} (P Q : A → B → Prop) l k :
  Forall2 P l k → (∀ x y, x ∈ l → y ∈ k → P x y → Q x y) → Forall2 Q l k.
Proof.
  induction 1 as [|x y l k Hxy _ IH]; intros Hall; constructor.
  - apply Hall; [constructor|constructor|done].
  - apply IH. intros x' y' ??. apply Hall; by constructor.
Qed.

Section queue.
Context `{Env}.
Context `{Serialize Recipient, Serialize FromOverride, Serialize AttachmentRef, EventCodec}.
Context (ctx : ProcessorContext) (cfg : ConsumerConfig).
Context (tpls : string → option NotificationTemplate) (snap : BlockListSnapshot).

(** The consumer takes the bodies in turn; [sched] gives every task of an event
    of admissible size a turn. *)
Fixpoint deliver_all (fuel : nat) (sched : list nat) (bodies : list string) : M (option unit) :=
  match bodies with
  | [] => st_ret (Some tt)
  | body :: bodies =>
      let! r := handle_delivery ctx cfg fuel sched body in
      match r with
      | None => st_ret None
      | Some _ => deliver_all fuel sched bodies
      end
  end.

(** The bodies the broker routes to the consumer's queue: the queue is bound to
    the consumer's exchange, a direct one, under its routing key. *)
Definition arriving (frames : list AmqpFrame) : list string :=
  omap (λ f, match f with
             | BasicPublish x key _ body =>
                 if String.eqb x (cc_exchange cfg) && String.eqb key (cc_routing_key cfg)
                 then Some body else None
             | _ => None
             end) frames.

(** What the environment has to answer for the event, and how its rows stand. *)
Definition job_ready (w : World) (j : Job) : Prop :=
  match eo_send_mode (job_opts j) with
  | SendMode.Individual =>
      answers ctx cfg (job_event j) (job_opts j) (job_attachments j) (job_prepared j) tpls snap
      ∧ clean (job_event j) (job_opts j) (email_cells w)
  | SendMode.Group =>
      ∃ primary rest,
        answers_group ctx cfg (job_event j) (job_opts j) (job_attachments j) (job_prepared j) tpls snap
          primary rest
        ∧ group_ok ctx (job_event j) (job_opts j) primary rest (email_cells w)
  end.

(** The event can be delivered now. *)
Definition job_ok (w : World) (body : string) (j : Job) : Prop :=
  sendable cfg body (job_event j) (job_opts j) ∧ job_ready w j.

(** A group event is through: one message for everybody the configured filter
    lets through, and the event's rows settled. *)
Definition group_delivered (j : Job) (m m' : gmap Key Cell) (msgs : list SendRecord) : Prop :=
  ∃ primary rest,
    eo_recipients (job_opts j) = primary :: rest
    ∧ (∀ r, r ∈ rows_to_insert (job_opts j) primary →
         m' !! event_key (job_event j) r = Some (group_row ctx (r_email r)))
    ∧ (∀ k, k.1 = ne_event_id (job_event j) →
         k ∉ map (event_key (job_event j)) (rows_to_insert (job_opts j) primary) → m' !! k = m !! k)
    ∧ msgs = [mkSendRecord (transport ctx (job_opts j))
                (group_mail ctx (snapshot_check snap) (job_event j) (job_opts j) (job_attachments j)
                   (job_prepared j) primary (let_in ctx rest)) true].

Definition job_delivered (m m' : gmap Key Cell) (j : Job) (msgs : list SendRecord) : Prop :=
  match eo_send_mode (job_opts j) with
  | SendMode.Individual =>
      delivered ctx (snapshot_check snap) (job_event j) (job_opts j) (job_attachments j) (job_prepared j)
        (eo_recipients (job_opts j)) m m' msgs
  | SendMode.Group => group_delivered j m m' msgs
  end.

Definition job_id (j : Job) : Uuid := ne_event_id (job_event j).

Lemma clean_ext event opts m m' :
  (∀ email, m' !! row_of event email = m !! row_of event email) → clean event opts m → clean event opts m'.
Proof. intros He Hc r c Hr. rewrite He. by apply Hc. Qed.

Lemma job_ok_ext w w' body j :
  (∀ k, k.1 = job_id j → email_cells w' !! k = email_cells w !! k) → job_ok w body j → job_ok w' body j.
Proof.
  intros He [Hs Hr]. split; [done|]. revert Hr. unfold job_ready. destruct (eo_send_mode _).
  - intros [? Hc]. split; [done|]. apply (clean_ext _ _ (email_cells w)); [|done]. intros email. by apply He.
  - intros (primary & rest & ? & [? ? ? ? Hf]). exists primary, rest. split; [done|]. constructor; try done.
    intros r Hr. rewrite He by done. by apply Hf.
Qed.

Lemma job_delivered_ext m1 m2 m1' m2' j msgs :
  (∀ k, k.1 = job_id j → m2 !! k = m1 !! k) → (∀ k, k.1 = job_id j → m2' !! k = m1' !! k) →
  job_delivered m1 m1' j msgs → job_delivered m2 m2' j msgs.
Proof.
  intros He He'. unfold job_delivered. destruct (eo_send_mode _).
  - apply delivered_ext; intros email; [by apply He|by apply He'].
  - intros (primary & rest & Hrs & Hrows & Hothers & Hm). exists primary, rest. split_and!; [done| | |done].
    + intros r Hr. rewrite He' by done. by apply Hrows.
    + intros k Hk Hnot. rewrite He, He' by done. by apply Hothers.
Qed.

(** One event of a queue. *)
Lemma job_works fuel sched body j w :
  (0 < fuel)%nat → ready tpls snap w → job_ok w body j →
  (∀ i, (i < cc_max_recipients_per_event cfg)%nat → i ∈ sched) →
  let '(res, w') := handle_delivery ctx cfg fuel sched body w in
  res = Some tt ∧ ready tpls snap w' ∧ w_amqp w' = w_amqp w ++ [BasicAck]
  ∧ (∀ k, k.1 ≠ job_id j → email_cells w' !! k = email_cells w !! k)
  ∧ ∃ msgs, w_sends w' = w_sends w ++ msgs ∧ job_delivered (email_cells w) (email_cells w') j msgs.
Proof.
  intros Hfuel Hw [Hs Hr] Hcov. unfold job_ready, job_delivered in *.
  destruct (eo_send_mode (job_opts j)) eqn:Hm.
  - destruct Hr as [Hans Hc].
    assert (Hcov' : ∀ i, (i < length (eo_recipients (job_opts j)))%nat → i ∈ sched).
    { intros i Hi. apply Hcov. destruct Hs as (_ & _ & _ & Hmax). lia. }
    pose proof (handle_works ctx cfg _ _ _ _ _ _ (answers_healthy _ _ _ _ _ _ _ _ Hans Hans)
      fuel sched body w Hs Hm Hw Hc Hcov') as Hd.
    destruct (handle_delivery ctx cfg fuel sched body w) as [res w1].
    destruct Hd as (-> & Hw1 & Hack & msgs & Hsends & Hdel & Honly). split_and!; [done..|]. by exists msgs.
  - destruct Hr as (primary & rest & Hans & Hok). destruct fuel as [|fuel]; [lia|].
    pose proof (group_first_delivery ctx cfg _ _ _ _ _ _ _ _ (answers_healthy_group _ _ _ _ _ _ _ _ _ _ Hans)
      _ Hok fuel sched body w Hs Hm Hw eq_refl) as Hd.
    destruct (handle_delivery ctx cfg (S fuel) sched body w) as [res w1].
    destruct Hd as (-> & Hw1 & Hack & [Hrows Hothers] & Hsends). split_and!; [done..| |].
    + intros k Hk. apply Hothers. intros (r & -> & _)%list_elem_of_fmap. done.
    + eexists. split; [exact Hsends|]. exists primary, rest. split_and!; [apply Hok|done| |done].
      intros k _. apply Hothers.
Qed.
End queue.
