(* ===== verification/AtLeastOnce.v ===== *)
(** * A broker that delivers more than once

    The broker promises every message at least once: after a lost connection, a
    requeue, or a row the outbox worker publishes a second time, the consumer is
    handed bytes it has dealt with before.  The effect of a queue with any
    repetitions, in any order, is that of each event delivered once. *)

From S2P Require Import Prelude Json AppErr EmailValidation Event World Interfaces Filter.
From S2P Require Import LogStore LogInvariant BlockList TemplateStore Mailer Fetcher.
From S2P Require Import Processor ProcessorSpec GroupSpec Delivery Loops AtMostOnce Settle.
From S2P Require Import Healthy HealthyStore HealthyGroup Queue.

(** The first delivery of each event that [seen] does not have. *)
Fixpoint once (seen : list Uuid) (jobs : list Job) : list Job :=
  match jobs with
  | [] => []
  | j :: jobs =>
      if decide (job_id j ∈ seen) then once seen jobs else j :: once (job_id j :: seen) jobs
  end.

Lemma once_unseen seen jobs j : j ∈ once seen jobs → job_id j ∉ seen.
Proof.
  revert seen. induction jobs as [|j0 jobs IH]; intros seen; simpl; [by intros Hj%elem_of_nil|].
  destruct (decide _) as [|Hn]; [apply IH|]. intros [->|Hj]%elem_of_cons; [done|].
  apply IH in Hj. by apply not_elem_of_cons in Hj as [_ ?].
Qed.

Lemma once_ids seen jobs e : e ∈ map job_id jobs → e ∈ seen ∨ e ∈ map job_id (once seen jobs).
Proof.
  revert seen. induction jobs as [|j jobs IH]; intros seen; simpl; [by intros ?%elem_of_nil|].
  intros [->|He]%elem_of_cons.
  - destruct (decide _); [by left|]. right. simpl. constructor.
  - destruct (decide _); [by apply IH|]. simpl. destruct (IH (job_id j :: seen) He) as [[->|?]%elem_of_cons|?].
    + right. constructor.
    + by left.
    + right. by constructor.
Qed.

Lemma once_all seen jobs :
  NoDup (map job_id jobs) → (∀ j, j ∈ jobs → job_id j ∉ seen) → once seen jobs = jobs.
Proof.
  revert seen. induction jobs as [|j jobs IH]; intros seen; [done|]. simpl. intros [Hj Hnd]%NoDup_cons Hs.
  rewrite decide_False by (apply Hs; constructor). f_equal. apply IH; [done|].
  intros j' Hj' [Heq|Hin]%elem_of_cons; [|by apply (Hs j'); [constructor|]].
  apply Hj. rewrite <- Heq. apply list_elem_of_fmap. by exists j'.
Qed.

Lemma once_distinct seen jobs : NoDup (map job_id (once seen jobs)).
Proof.
  revert seen. induction jobs as [|j jobs IH]; intros seen; simpl; [constructor|].
  destruct (decide _); [apply IH|]. simpl. constructor; [|apply IH].
  intros (j' & Heq & Hj')%list_elem_of_fmap. apply once_unseen in Hj'. apply Hj'. rewrite <- Heq. constructor.
Qed.

Section at_least_once.
Context `{Env}.
Context `{Serialize Recipient, Serialize FromOverride, Serialize AttachmentRef, EventCodec}.
Context (ctx : ProcessorContext) (cfg : ConsumerConfig).
Context (tpls : string → option NotificationTemplate) (snap : BlockListSnapshot).

(** The event has been dealt with, in an environment that answers. *)
Definition job_settled (w : World) (j : Job) : Prop :=
  match eo_send_mode (job_opts j) with
  | SendMode.Individual =>
      answers ctx cfg (job_event j) (job_opts j) (job_attachments j) (job_prepared j) tpls snap
      ∧ clean (job_event j) (job_opts j) (email_cells w)
      ∧ all_known (job_event j) (job_opts j) (email_cells w)
  | SendMode.Group =>
      ∃ primary rest,
        answers_group ctx cfg (job_event j) (job_opts j) (job_attachments j) (job_prepared j) tpls snap
          primary rest
        ∧ (∃ m, group_ok ctx (job_event j) (job_opts j) primary rest m)
        ∧ ∀ r, r ∈ rows_to_insert (job_opts j) primary →
            email_cells w !! event_key (job_event j) r = Some (group_row ctx (r_email r))
  end.

Lemma job_settled_ext w w' j :
  (∀ k, k.1 = job_id j → email_cells w' !! k = email_cells w !! k) → job_settled w j → job_settled w' j.
Proof.
  intros He. unfold job_settled. destruct (eo_send_mode _).
  - intros (? & Hc & Hk). split_and!; [done| |].
    + apply (clean_ext _ _ (email_cells w)); [|done]. intros email. by apply He.
    + intros r Hr Hv. rewrite He by done. by apply Hk.
  - intros (primary & rest & ? & ? & Hrows). exists primary, rest. split_and!; [done..|].
    intros r Hr. rewrite He by done. by apply Hrows.
Qed.

(** A first delivery settles the event ... *)
Lemma delivered_settled w w' j msgs :
  job_ready ctx cfg tpls snap w j → job_delivered ctx snap (email_cells w) (email_cells w') j msgs →
  job_settled w' j.
Proof.
  unfold job_ready, job_delivered, job_settled. destruct (eo_send_mode _).
  - intros [? Hc] Hd. eapply delivered_clean in Hd as [? ?]; [by split_and!|done].
  - intros (primary & rest & ? & Hok) (primary' & rest' & Hrs & Hrows & _).
    rewrite (go_recipients _ _ _ _ _ _ Hok) in Hrs. injection Hrs as <- <-.
    exists primary, rest. split_and!; [done|by eexists|done].
Qed.

(** ... and every later one adds an acknowledgement. *)
Lemma settled_again fuel sched body j w :
  (0 < fuel)%nat → ready tpls snap w → sendable cfg body (job_event j) (job_opts j) → job_settled w j →
  (∀ i, (i < cc_max_recipients_per_event cfg)%nat → i ∈ sched) →
  let '(res, w') := handle_delivery ctx cfg fuel sched body w in
  res = Some tt ∧ ready tpls snap w' ∧ w_amqp w' = w_amqp w ++ [BasicAck]
  ∧ w_sends w' = w_sends w ∧ email_cells w' = email_cells w.
Proof.
  intros Hfuel Hw Hs Hset Hcov. unfold job_settled in Hset. destruct (eo_send_mode _) eqn:Hm.
  - destruct Hset as (Hans & Hc & Hk).
    apply (known_delivery ctx cfg _ _ _ _ _ _ (answers_healthy _ _ _ _ _ _ _ _ Hans Hans)); try done.
    intros i Hi. apply Hcov. destruct Hs as (_ & _ & _ & Hmax). lia.
  - destruct Hset as (primary & rest & Hans & (m & Hok) & Hrows). destruct fuel as [|fuel]; [lia|].
    by apply (group_later_delivery ctx cfg _ _ _ _ _ _ _ _ (answers_healthy_group _ _ _ _ _ _ _ _ _ _ Hans) _ Hok).
Qed.

(** What is asked of each delivery when the events of [seen] are settled. *)
Definition job_stands (seen : list Uuid) (w : World) (body : string) (j : Job) : Prop :=
  sendable cfg body (job_event j) (job_opts j)
  ∧ if decide (job_id j ∈ seen) then job_settled w j else job_ready ctx cfg tpls snap w j.

Lemma job_stands_ext seen w w' body j :
  (∀ k, k.1 = job_id j → email_cells w' !! k = email_cells w !! k) →
  job_stands seen w body j → job_stands seen w' body j.
Proof.
  intros He [Hs Hj]. split; [done|]. destruct (decide _); [by apply (job_settled_ext w)|].
  by apply (job_ok_ext ctx cfg tpls snap w w' body j He).
Qed.

Lemma stands_afresh w bodies jobs :
  Forall2 (job_ok ctx cfg tpls snap w) bodies jobs → Forall2 (job_stands [] w) bodies jobs.
Proof.
  intros Hjobs. apply (Forall2_impl_in _ _ _ _ Hjobs). intros b j _ _ [Hs Hj]. split; [done|].
  by rewrite decide_False by apply not_elem_of_nil.
Qed.

Lemma repeated_works fuel sched bodies jobs seen w :
  (0 < fuel)%nat → (∀ i, (i < cc_max_recipients_per_event cfg)%nat → i ∈ sched) →
  ready tpls snap w → Forall2 (job_stands seen w) bodies jobs →
  (∀ j j', j ∈ jobs → j' ∈ jobs → job_id j = job_id j' → j = j') →
  let '(res, w') := deliver_all ctx cfg fuel sched bodies w in
  res = Some tt ∧ ready tpls snap w'
  ∧ w_amqp w' = w_amqp w ++ map (λ _, BasicAck) bodies
  ∧ (∀ k, k.1 ∈ seen ∨ k.1 ∉ map job_id jobs → email_cells w' !! k = email_cells w !! k)
  ∧ ∃ msgss, w_sends w' = w_sends w ++ concat msgss
             ∧ Forall2 (job_delivered ctx snap (email_cells w) (email_cells w')) (once seen jobs) msgss.
Proof.
  intros Hfuel Hcov. revert jobs seen w.
  induction bodies as [|body bodies IH]; intros jobs seen w Hw Hjobs Hsame.
  { apply Forall2_nil_inv_l in Hjobs as ->. split_and!; [done|done|by rewrite app_nil_r|done|].
    exists []. simpl. by rewrite app_nil_r. }
  apply Forall2_cons_inv_l in Hjobs as (j & jobs' & [Hs Hj] & Hjobs & ->). cbn [deliver_all once]. run_st.
  assert (Hsame' : ∀ j1 j2, j1 ∈ jobs' → j2 ∈ jobs' → job_id j1 = job_id j2 → j1 = j2).
  { intros j1 j2 ??. apply Hsame; by constructor. }
  destruct (decide (job_id j ∈ seen)) as [Hseen|Hseen].
  - pose proof (settled_again fuel sched body j w Hfuel Hw Hs Hj Hcov) as Hd.
    destruct (handle_delivery ctx cfg fuel sched body w) as [res w1]. destruct Hd as (-> & Hw1 & Ha & Hs1 & Hc1).
    assert (Hjobs1 : Forall2 (job_stands seen w1) bodies jobs').
    { apply (Forall2_impl_in _ _ _ _ Hjobs). intros b j' _ _. apply job_stands_ext. intros k _. by rewrite Hc1. }
    specialize (IH jobs' seen w1 Hw1 Hjobs1 Hsame'). destruct (deliver_all _ _ _ _ _ w1) as [res w2].
    destruct IH as (-> & Hw2 & Ha2 & Hrest & msgss & Hs2 & Hall). rewrite Hc1 in Hrest, Hall.
    split_and!; [done|done|by rewrite Ha2, Ha, <- app_assoc| |].
    + intros k [Hk|Hk]; apply Hrest; [by left|]. right. intros Hin. apply Hk. by constructor.
    + exists msgss. split; [by rewrite Hs2, Hs1|done].
  - pose proof (job_works ctx cfg tpls snap fuel sched body j w Hfuel Hw (conj Hs Hj) Hcov) as Hd.
    destruct (handle_delivery ctx cfg fuel sched body w) as [res w1].
    destruct Hd as (-> & Hw1 & Ha & Honly & msgs & Hs1 & Hdel).
    assert (Hjobs1 : Forall2 (job_stands (job_id j :: seen) w1) bodies jobs').
    { apply (Forall2_impl_in _ _ _ _ Hjobs). intros b j' _ Hj' [Hsb Hst]. split; [done|].
      destruct (decide (job_id j' = job_id j)) as [Heq|Hne].
      - assert (j' = j) as -> by (apply Hsame; [by constructor|constructor|done]).
        rewrite decide_True by constructor. by apply (delivered_settled w _ _ msgs).
      - pose proof (job_stands_ext seen w w1 b j') as Hext. destruct Hext as [_ Hst1]; [|done|].
        { intros k Hk. apply Honly. by rewrite Hk. }
        destruct (decide (job_id j' ∈ seen)).
        + by rewrite decide_True by (by constructor).
        + by rewrite decide_False by (by apply not_elem_of_cons). }
    specialize (IH jobs' _ w1 Hw1 Hjobs1 Hsame'). destruct (deliver_all _ _ _ _ _ w1) as [res w2].
    destruct IH as (-> & Hw2 & Ha2 & Hrest & msgss & Hs2 & Hall).
    split_and!; [done|done|by rewrite Ha2, Ha, <- app_assoc| |].
    + intros k Hk. assert (k.1 ≠ job_id j).
      { destruct Hk as [Hk|Hk]; [by intros Heq; rewrite Heq in Hk|]. intros Heq. apply Hk. rewrite Heq. constructor. }
      rewrite Hrest; [by apply Honly|]. destruct Hk as [Hk|Hk]; [left; by constructor|].
      right. intros Hin. apply Hk. by constructor.
    + exists (msgs :: msgss). simpl. split; [by rewrite Hs2, Hs1, app_assoc|]. constructor.
      * apply (job_delivered_ext ctx snap (email_cells w) _ (email_cells w1)); [done| |done].
        intros k Hk. apply Hrest. left. rewrite Hk. constructor.
      * apply (Forall2_impl_in _ _ _ _ Hall). intros j' ms Hj' _.
        apply job_delivered_ext; [|done]. intros k Hk. symmetry. apply Honly. rewrite Hk.
        apply once_unseen in Hj'. by apply not_elem_of_cons in Hj' as [? _].
Qed.

(** The same without repetitions. *)
Lemma deliver_all_works fuel sched bodies jobs w :
  (0 < fuel)%nat → ready tpls snap w → Forall2 (job_ok ctx cfg tpls snap w) bodies jobs →
  NoDup (map job_id jobs) → (∀ i, (i < cc_max_recipients_per_event cfg)%nat → i ∈ sched) →
  let '(res, w') := deliver_all ctx cfg fuel sched bodies w in
  res = Some tt
  ∧ w_amqp w' = w_amqp w ++ map (λ _, BasicAck) bodies
  ∧ ∃ msgss, w_sends w' = w_sends w ++ concat msgss
             ∧ Forall2 (job_delivered ctx snap (email_cells w) (email_cells w')) jobs msgss.
Proof.
  intros Hfuel Hw Hjobs Hnd Hcov.
  pose proof (repeated_works fuel sched bodies jobs [] w Hfuel Hcov Hw (stands_afresh _ _ _ Hjobs)
    (λ j j', NoDup_map_eq job_id jobs j j' Hnd)) as Hr.
  rewrite once_all in Hr by (try done; intros; apply not_elem_of_nil).
  destruct (deliver_all _ _ _ _ _ w) as [res w1]. by destruct Hr as (-> & _ & ? & _ & ?).
Qed.

(** C8: exactly one effect from at least one delivery, when everything answers:
    let each event be deliverable as its rows stand at first ([job_ok]: the
    environment answers at every tick, none of the event's rows is half-way, as
    a crash or a transient failure leaves them (then see
    [Retry.duplicate_livelock]), and a group event is new with a first recipient
    the filter lets through).  Then, whatever queue the broker hands over, with
    these events repeated any number of times and in any order, every delivery
    is acknowledged; the messages mailed and the rows written are
    those of delivering each event once, at its first occurrence; and no row of
    any other event changes. *)
Theorem repeated_deliveries_mail_once fuel sched bodies jobs w :
  (0 < fuel)%nat → ready tpls snap w → Forall2 (job_ok ctx cfg tpls snap w) bodies jobs →
  (∀ j j', j ∈ jobs → j' ∈ jobs → job_id j = job_id j' → j = j') →
  (∀ i, (i < cc_max_recipients_per_event cfg)%nat → i ∈ sched) →
  let '(res, w') := deliver_all ctx cfg fuel sched bodies w in
  res = Some tt ∧ w_amqp w' = w_amqp w ++ map (λ _, BasicAck) bodies
  ∧ (∀ k, k.1 ∉ map job_id jobs → email_cells w' !! k = email_cells w !! k)
  ∧ ∃ msgss, w_sends w' = w_sends w ++ concat msgss
             ∧ Forall2 (job_delivered ctx snap (email_cells w) (email_cells w')) (once [] jobs) msgss.
Proof.
  intros Hfuel Hw Hjobs Hsame Hcov.
  pose proof (repeated_works fuel sched bodies jobs [] w Hfuel Hcov Hw (stands_afresh _ _ _ Hjobs) Hsame) as Hr.
  destruct (deliver_all _ _ _ _ _ w) as [res w1]. destruct Hr as (-> & _ & Ha & Hrest & Hm).
  split_and!; [done|done|intros k Hk; apply Hrest; by right|done].
Qed.
End at_least_once.

(** ** A concrete queue *)

#[local] Existing Instance sample_env.

Definition pair_job : Job := mkJob (sample_event pair_opts) pair_opts [] sample_prepared.

Definition group_event : NotificationEvent :=
  mkNotificationEvent 8 0 "ORDER" (JObj []) (mkMetadata None) (mkChannelOverrides (Some sample_group_opts)).
Definition group_job : Job := mkJob group_event sample_group_opts [] sample_prepared.

Definition queue_codec : EventCodec :=
  sample_codec [("pair", sample_event pair_opts); ("group", group_event)].

(** Two events, one delivered twice and one three times, interleaved. *)
Definition repeated_bodies : list string := ["pair"; "group"; "group"; "pair"; "group"].
Definition repeated_jobs : list Job := [pair_job; group_job; group_job; pair_job; group_job].

Lemma pair_job_ok :
  job_ok (H3 := queue_codec) sample_ctx consumer_config_default sample_templates empty_snapshot sample_world
    "pair" pair_job.
Proof.
  split; [split_and!; [reflexivity|reflexivity|done|vm_compute; lia]|].
  split; [apply sample_answers|]. intros r c _ Hc. vm_compute in Hc. discriminate Hc.
Qed.

Lemma group_job_ok :
  job_ok (H3 := queue_codec) sample_ctx consumer_config_default sample_templates empty_snapshot sample_world
    "group" group_job.
Proof.
  split; [split_and!; [reflexivity|reflexivity|done|vm_compute; lia]|].
  exists (rcp "p@example.com"), [rcp "q@example.com"; rcp "r@example.com"]. split.
  - constructor; [|by eexists|eexists; by split]. constructor; try done.
    + intros t t'. simpl. lia.
    + by left.
    + by exists sample_template.
  - constructor; [reflexivity| | |reflexivity|intros r _; reflexivity].
    + intros r Hr. repeat (apply elem_of_cons in Hr as [->|Hr]; [reflexivity|]). by apply not_elem_of_nil in Hr.
    + vm_compute. repeat constructor; set_solver.
Qed.

Lemma repeated_deliveries_mail_once_witness :
  let '(res, w') := deliver_all (H3 := queue_codec) sample_ctx consumer_config_default 8 (seq 0 500)
                      repeated_bodies sample_world in
  res = Some tt ∧ w_amqp w' = w_amqp sample_world ++ map (λ _, BasicAck) repeated_bodies
  ∧ (∀ k, k.1 ∉ map job_id repeated_jobs → email_cells w' !! k = email_cells sample_world !! k)
  ∧ ∃ msgss, w_sends w' = w_sends sample_world ++ concat msgss
             ∧ Forall2 (job_delivered sample_ctx empty_snapshot (email_cells sample_world) (email_cells w'))
                 (once [] repeated_jobs) msgss.
Proof.
  apply (repeated_deliveries_mail_once (H3 := queue_codec) sample_ctx consumer_config_default sample_templates
    empty_snapshot 8 (seq 0 500) repeated_bodies repeated_jobs sample_world).
  - lia.
  - exact sample_ready.
  - unfold repeated_bodies, repeated_jobs.
    repeat (apply Forall2_cons_2; [first [exact pair_job_ok|exact group_job_ok]|]). constructor.
  - intros j j' Hj Hj'. unfold repeated_jobs in *. rewrite !elem_of_cons, elem_of_nil in Hj, Hj'.
    repeat (destruct Hj as [->|Hj]; [repeat (destruct Hj' as [->|Hj']; [done|]); done|]). done.
  - intros i Hi. apply list_elem_of_In, in_seq. simpl in Hi. lia.
Defined.

Example repeated_queue_mail :
  let w := (deliver_all (H3 := queue_codec) sample_ctx consumer_config_default 8 (seq 0 500)
              repeated_bodies sample_world).2 in
  (to_addresses w, length (w_amqp w))
  = ([["a@example.com"]; ["b@example.com"]; ["p@example.com"; "q@example.com"; "r@example.com"]], 5%nat).
Proof. vm_compute. reflexivity. Qed.
