(* ===== verification/EndToEnd.v ===== *)
(** * From the outbox table to the mail

    The composition of the two processes: what one poll of the outbox worker
    publishes, the broker routes to the consumer's queue, and the consumer
    delivers one body after the other.  With a broker that acknowledges and
    stores that answer, every row the poll claimed ends PUBLISHED and every
    valid, unblocked recipient its payload names is mailed exactly once, in
    individual mode by a message of its own and in group mode by the event's one
    message. *)

From S2P Require Import Prelude Order Json AppErr EmailValidation Event World Interfaces Filter.
From S2P Require Import LogStore LogInvariant BlockList TemplateStore Mailer Fetcher.
From S2P Require Import Processor ProcessorSpec GroupSpec Delivery Loops AtMostOnce Settle.
From S2P Require Import Healthy HealthyStore HealthyGroup Queue AtLeastOnce.
From S2P Require Import Outbox OutboxSpec OutboxPoll.

(** ** The poll beside the log *)

(** The outbox worker changes no other table, no cache, and mails nothing. *)
Definition apart (w w' : World) : Prop :=
  beside w w' ∧ same_log w w' ∧ w_sends w' = w_sends w.

#[export] Instance apart_preorder : PreOrder apart.
Proof.
  split; [by intros w|]. intros w1 w2 w3 (?&?&?) (?&?&?).
  split_and!; [by etransitivity|by etransitivity|congruence].
Qed.

Section poll.
Context `{Env, WireCodec}.

Lemma apart_mono w w' :
  w_db w' = w_db w → w_tpl_cache w' = w_tpl_cache w → w_block_cache w' = w_block_cache w →
  (w_tick w <= w_tick w')%nat → w_sends w' = w_sends w → apart w w'.
Proof. intros Hd ????. unfold apart, beside, same_log. rewrite Hd. by split_and!. Qed.

Lemma tick_apart : keeps apart next_tick.
Proof. intros w. apply apart_mono; simpl; (done || lia). Qed.

Lemma basic_publish_apart x key props body : keeps apart (basic_publish x key props body).
Proof.
  intros w. unfold basic_publish, next_tick. run_st.
  destruct (amqp_publish_err _); apply apart_mono; simpl; (done || lia).
Qed.

Lemma query_apart {A} (stmt : nat → Db → result (A * Db) string) :
  (∀ t d a d', stmt t d = Ok (a, d') → ∃ f, d' = set_outbox f d) → keeps apart (query stmt).
Proof.
  intros Hst w. unfold query, next_tick. run_st.
  destruct (db_err _); [apply apart_mono; simpl; (done || lia)|]. simpl.
  destruct (stmt _ _) as [[a d]|e] eqn:He; [|apply apart_mono; simpl; (done || lia)].
  apply Hst in He as [f ->]. unfold apart, beside, same_log; simpl; split_and!; (done || lia).
Qed.

Lemma outbox_same d : ∃ f, d = set_outbox f d.
Proof. exists id. by destruct d. Qed.

Lemma transaction_apart {A} (m : M (result A AppError)) : keeps apart m → keeps apart (transaction m).
Proof.
  intros Hm w. unfold transaction. run_st.
  assert (Hq : keeps apart (query (λ _ d, Ok (tt, d)))).
  { apply query_apart. intros t d a d' [= _ <-]. apply outbox_same. }
  pose proof (Hq w) as H1. destruct (query _ w) as [[[]|e] w1]; [|done]. simpl in H1.
  assert (Hback : ∀ w2, apart w w2 → apart w (set_db (w_db w) w2)).
  { intros w2 ((_ & _ & ? & ? & ?) & _ & ?). by apply apart_mono. }
  pose proof (Hm w1) as H2. destruct (m w1) as [[a|e] w2]; simpl in H2.
  - pose proof (Hq w2) as H3. destruct (query _ w2) as [[[]|e] w3]; simpl in H3.
    + by do 2 (etransitivity; [eassumption|]).
    + apply Hback. by do 2 (etransitivity; [eassumption|]).
  - apply Hback. by etransitivity.
Qed.

Lemma fetch_apart limit : keeps apart (fetch_pending_batch limit).
Proof.
  apply keeps_try; [apply _| |intros; apply keeps_ret, _]. apply transaction_apart.
  apply keeps_try; [apply _| |].
  - apply query_apart. intros t d a d'. unfold sql_select_pending. destruct (limit <? 0); [done|].
    intros [= _ <-]. apply outbox_same.
  - intros [|r rows]; [apply keeps_ret, _|]. apply keeps_try; [apply _| |intros; apply keeps_ret, _].
    apply query_apart. intros t d a d' [= _ <-]. by eexists.
Qed.

Lemma publish_and_mark_apart cfg row : keeps apart (publish_and_mark cfg row).
Proof.
  unfold publish_and_mark. destruct (row_body row) as [body|e]; [|apply keeps_ret, _].
  apply keeps_try; [apply _| |intros _].
  - apply keeps_bind; [apply _|apply tick_apart|]. intros t. destruct (amqp_publish_err t); [apply keeps_ret, _|].
    apply keeps_bind; [apply _| |intros; apply keeps_ret, _]. intros w. by apply apart_mono.
  - apply keeps_bind; [apply _| |].
    + apply keeps_bind; [apply _|apply tick_apart|]. intros t. destruct (confirm_in_time t); [|apply keeps_ret, _].
      apply keeps_bind; [apply _| |intros; apply keeps_ret, _].
      apply keeps_bind; [apply _|apply tick_apart|]. intros. apply keeps_ret, _.
    + intros [[c|e]|]; [|apply keeps_ret, _..]. destruct (negb _); [apply keeps_ret, _|].
      apply keeps_bind; [apply _| |intros; apply keeps_ret, _].
      apply query_apart. intros t d a d' [= _ <-]. by eexists.
Qed.

Lemma publish_rows_apart cfg rows : keeps apart (publish_rows cfg rows).
Proof.
  induction rows as [|row rows IH]; [apply keeps_ret, _|]. cbn [publish_rows].
  apply keeps_bind; [apply _|apply publish_and_mark_apart|]. intros [[]|e]; [done|].
  apply keeps_bind; [apply _| |intros _].
  - apply query_apart. intros t d a d'. destruct (existsb _ _); [done|].
    destruct (existsb _ _); [|done]. intros [= _ <-]. by eexists.
  - apply keeps_bind; [apply _| |].
    + apply keeps_bind; [apply _|apply tick_apart|]. intros. apply keeps_ret, _.
    + intros [|]; [done|apply keeps_ret, _].
Qed.

Lemma poll_once_apart cfg : keeps apart (poll_once cfg).
Proof.
  apply keeps_bind; [apply _|apply fetch_apart|].
  intros [[|row rows]|e]; [apply keeps_ret, _|apply publish_rows_apart|apply keeps_ret, _].
Qed.

(** ** A batch the broker acknowledges *)

Lemma oldest_pending_submseteq limit d : oldest_pending limit d ⊆+ db_outbox d.
Proof.
  unfold oldest_pending. etransitivity; [apply submseteq_take|]. rewrite order_by_perm.
  apply sublist_submseteq, sublist_filter.
Qed.

Lemma submseteq_NoDup {A} (l k : list A) : l ⊆+ k → NoDup k → NoDup l.
Proof. intros [l' ->]%submseteq_Permutation [? _]%NoDup_app. done. Qed.

(** The claimed rows carry distinct event ids, and are in progress. *)
Lemma claimed_distinct limit w rows w' :
  fetch_pending_batch limit w = (Ok rows, w') → NoDup (map ob_event_id (db_outbox (w_db w))) →
  NoDup (map or_event_id rows).
Proof.
  intros [-> _]%fetch_spec Hnd. rewrite map_map. simpl.
  eapply submseteq_NoDup; [|exact Hnd]. apply fmap_submseteq, oldest_pending_submseteq.
Qed.

Lemma claimed_in_progress limit w rows w' :
  fetch_pending_batch limit w = (Ok rows, w') → NoDup (map ob_id (db_outbox (w_db w))) →
  ∀ x, x ∈ db_outbox (w_db w') → ob_id x ∈ map or_id rows → ob_status x = "IN_PROGRESS".
Proof.
  intros (-> & t & ->)%fetch_spec Hnd x (y & Hy & ->)%update_outbox_elem. rewrite map_map. simpl.
  set (chosen := oldest_pending limit (w_db w)).
  destruct (in_ids (map ob_id chosen) y && ob_is "PENDING" y) eqn:Hp; [done|]. intros Hin. exfalso.
  apply list_elem_of_fmap in Hin as (r & Hid & Hr).
  assert (r = y) as ->.
  { apply oldest_pending_In in Hr as [Hr _]. by apply (NoDup_map_eq ob_id (db_outbox (w_db w))). }
  apply andb_false_iff in Hp as [Hp|Hp].
  - assert (in_ids (map ob_id chosen) y = true); [|congruence]. apply in_ids_spec, list_elem_of_fmap. by exists y.
  - apply oldest_pending_In in Hr as [_ Hst]. apply ob_is_iff in Hst. congruence.
Qed.

Context (Hdb : ∀ t, db_err t = None).
Context (Hpub : ∀ t, amqp_publish_err t = None).
Context (Htime : ∀ t, confirm_in_time t = true).
Context (Hack : ∀ t, amqp_confirm t = Ok ConfirmAck).

(** What is in progress among the batch is published; what is published stays. *)
Lemma publish_rows_published cfg (body : OutboxRow → string) rows w :
  (∀ row, row ∈ rows → row_body row = Ok (body row)) →
  let d' := w_db (publish_rows cfg rows w).2 in
  ∀ x, x ∈ db_outbox d' →
    ∃ y, y ∈ db_outbox (w_db w) ∧ ob_id x = ob_id y
         ∧ (ob_status y = "IN_PROGRESS" → ob_id y ∈ map or_id rows → ob_status x = "PUBLISHED")
         ∧ (ob_status y = "PUBLISHED" → ob_status x = "PUBLISHED").
Proof.
  revert w. induction rows as [|row rows IH]; intros w Hb; cbv zeta.
  { intros x Hx. exists x. split_and!; [done..| |done]. intros _ Hin. by apply not_elem_of_nil in Hin. }
  cbn [publish_rows]. run_st.
  pose proof (publish_acked Hdb Hpub Htime Hack cfg row (body row) w (Hb row ltac:(constructor))) as Hp.
  pose proof (publish_and_mark_spec cfg row w) as Hsp.
  destruct (publish_and_mark cfg row w) as [r w1]. destruct Hp as [-> _].
  destruct Hsp as [(b & t & tm & _ & _ & _ & Hd) _]. intros x Hx.
  destruct (IH w1 (λ r Hr, Hb r ltac:(by constructor)) x Hx) as (y & Hy & Hid & H1 & H2).
  rewrite Hd in Hy. apply update_outbox_elem in Hy as (z & Hz & ->). exists z. split; [done|].
  destruct (has_id (or_id row) z && ob_is "IN_PROGRESS" z) eqn:Hm; simpl in *.
  - split_and!; [done| |]; intros; by apply H2.
  - split_and!; [done| |done]. intros Hst [Heq|Hin]%elem_of_cons; [|by apply H1].
    apply andb_false_iff in Hm as [Hm|Hm].
    + unfold has_id in Hm. rewrite Heq, N.eqb_refl in Hm. done.
    + apply ob_is_iff in Hst. congruence.
Qed.

Lemma poll_publishes cfg (body : OutboxRow → string) w rows w0 :
  fetch_pending_batch (oc_batch_size cfg) w = (Ok rows, w0) → rows ≠ [] →
  (∀ row, row ∈ rows → row_body row = Ok (body row)) →
  NoDup (map ob_id (db_outbox (w_db w))) →
  let '(r, w1) := poll_once cfg w in
  r = Ok true
  ∧ (∀ x, x ∈ db_outbox (w_db w1) → ob_id x ∈ map or_id rows → ob_status x = "PUBLISHED")
  ∧ ∃ sorted, sorted ≡ₚ rows ∧ w_amqp w1 = w_amqp w ++ map (row_frame cfg body) sorted.
Proof.
  intros Hf Hne Hb Hnd. pose proof (claimed_in_progress _ _ _ _ Hf Hnd) as Hprog.
  pose proof (fetch_quiet (oc_batch_size cfg) w) as (_ & Ha & _). rewrite Hf in Ha. simpl in Ha.
  unfold poll_once. run_st. rewrite Hf. destruct rows as [|row rows]; [done|].
  set (sorted := order_by priority_key (row :: rows)).
  assert (Hperm : sorted ≡ₚ row :: rows) by apply order_by_perm.
  assert (Hb' : ∀ x, x ∈ sorted → row_body x = Ok (body x)).
  { intros x Hx. apply Hb. by rewrite <- Hperm. }
  pose proof (publish_rows_frames Hdb Hpub Htime Hack cfg body sorted w0 Hb') as Hp.
  pose proof (publish_rows_published cfg body sorted w0 Hb') as Hst.
  destruct (publish_rows cfg sorted w0) as [r w1]. destruct Hp as [-> Hp]. simpl in Hst. split_and!; [done| |].
  - intros x Hx Hin. destruct (Hst x Hx) as (y & Hy & Hid & H1 & _). rewrite Hid in Hin.
    apply H1; [by apply Hprog|]. by rewrite Hperm.
  - exists sorted. split; [done|]. by rewrite Hp, Ha.
Qed.
End poll.

(** ** The composition *)

Section compose.
Context `{Env, WireCodec}.
Context `{Serialize Recipient, Serialize FromOverride, Serialize AttachmentRef, EventCodec}.
Context (ctx : ProcessorContext) (cfg : ConsumerConfig) (ocfg : OutboxConfig).
Context (tpls : string → option NotificationTemplate) (snap : BlockListSnapshot).

(** The worker publishes where the consumer listens. *)
Definition same_route : Prop :=
  oc_exchange ocfg = cc_exchange cfg ∧ oc_routing_key ocfg = cc_routing_key cfg.

Lemma arriving_rows (body : OutboxRow → string) rows :
  same_route → arriving cfg (map (row_frame ocfg body) rows) = map body rows.
Proof.
  intros [He Hk]. induction rows as [|row rows IH]; [done|]. unfold arriving in *. simpl.
  rewrite He, Hk, !String.eqb_refl. simpl. f_equal. exact IH.
Qed.

Lemma ready_apart w w' : apart w w' → ready tpls snap w → ready tpls snap w'.
Proof.
  intros (Hb & [Hl Hdt] & _) Hw. apply (ready_beside tpls snap w); [done| | |done].
  - destruct (rd_log _ _ _ Hw). constructor; rewrite ?Hl, ?Hdt; assumption.
  - apply (same_ids_new w); [by rewrite Hl|apply Hb|apply Hw].
Qed.

(** The broker acknowledges every event within the time given. *)
Definition broker_acks : Prop :=
  ∀ t, amqp_publish_err t = None ∧ confirm_in_time t = true ∧ amqp_confirm t = Ok ConfirmAck.

(** C4: from a claimed batch to the mail, when everything answers: the database
    never fails, the broker acknowledges, the consumer's neighbours answer, and
    each event can be delivered as it stands ([job_ok]: its body decodes to it,
    none of its rows is half-way, and a group event is new and has a first
    recipient the configured filter lets through; without that see
    [GroupSpec.blocked_primary_still_addressed]).  Then one poll publishes the
    batch and marks its rows PUBLISHED; the bodies arrive at the consumer's
    queue; and when the consumer has taken them all, each has been acknowledged
    and each row's event has been delivered: in individual mode with exactly one
    accepted message for every valid, unblocked address that had no row, in
    group mode with one message to the first recipient and all the others the
    configured filter lets through, every row the event owns settled. *)
Theorem outbox_to_mail fuel sched (job : OutboxRow → Job) body w rows w0 :
  (0 < fuel)%nat → (∀ t, db_err t = None) → broker_acks → same_route → ready tpls snap w →
  NoDup (map ob_id (db_outbox (w_db w))) → NoDup (map ob_event_id (db_outbox (w_db w))) →
  fetch_pending_batch (oc_batch_size ocfg) w = (Ok rows, w0) → rows ≠ [] →
  (∀ row, row ∈ rows → row_event row = Ok (job_event (job row)) ∧ row_body row = Ok (body row)
                       ∧ job_ok ctx cfg tpls snap w (body row) (job row)) →
  (∀ i, (i < cc_max_recipients_per_event cfg)%nat → i ∈ sched) →
  let '(r, w1) := poll_once ocfg w in
  let queue := arriving cfg (drop (length (w_amqp w)) (w_amqp w1)) in
  let '(res, w2) := deliver_all ctx cfg fuel sched queue w1 in
  r = Ok true ∧ res = Some tt
  ∧ (∀ x, x ∈ db_outbox (w_db w1) → ob_id x ∈ map or_id rows → ob_status x = "PUBLISHED")
  ∧ w_amqp w2 = w_amqp w1 ++ map (λ _, BasicAck) queue
  ∧ ∃ sorted msgss, sorted ≡ₚ rows ∧ w_sends w2 = w_sends w ++ concat msgss
      ∧ Forall2 (λ row msgs, job_delivered ctx snap (email_cells w) (email_cells w2) (job row) msgs)
          sorted msgss.
Proof.
  intros Hfuel Hdb Hack Hroute Hw Hids Hevents Hf Hne Hjobs Hcov.
  pose proof (poll_publishes Hdb (λ t, proj1 (Hack t)) (λ t, proj1 (proj2 (Hack t)))
    (λ t, proj2 (proj2 (Hack t))) ocfg body w rows w0 Hf Hne
    (λ row Hr, proj1 (proj2 (Hjobs row Hr))) Hids) as Hp.
  pose proof (poll_once_apart ocfg w) as Hapart.
  destruct (poll_once ocfg w) as [r w1]. destruct Hp as (-> & Hst & sorted & Hperm & Ha). simpl in Hapart.
  cbv zeta. rewrite Ha, drop_app_length, arriving_rows by done.
  assert (Hc1 : email_cells w1 = email_cells w).
  { destruct Hapart as (_ & [Hl _] & _). unfold email_cells. by rewrite Hl. }
  assert (Hsorted : ∀ row, row ∈ sorted → row ∈ rows) by (intros row; by rewrite Hperm).
  assert (Hall : Forall2 (job_ok ctx cfg tpls snap w1) (map body sorted) (map job sorted)).
  { apply Forall2_fmap_2, Forall_Forall2_diag, Forall_forall. intros row Hr.
    destruct (Hjobs row (Hsorted row Hr)) as (_ & _ & Hok).
    apply (job_ok_ext _ _ _ _ w); [|done]. intros k _. by rewrite Hc1. }
  assert (Hnd : NoDup (map job_id (map job sorted))).
  { rewrite map_map. pose proof (claimed_distinct _ _ _ _ Hf Hevents) as Hnd. rewrite <- Hperm in Hnd.
    rewrite (map_ext_in _ or_event_id); [done|]. intros row Hr%list_elem_of_In.
    destruct (Hjobs row (Hsorted row Hr)) as (Hev & _). unfold job_id. revert Hev. unfold row_event.
    destruct (map_err _ _); simpl; [|done]. by intros [= <-]. }
  pose proof (deliver_all_works ctx cfg tpls snap fuel sched _ _ w1 Hfuel (ready_apart _ _ Hapart Hw)
    Hall Hnd Hcov) as Hd.
  destruct (deliver_all _ _ _ _ _ w1) as [res w2]. destruct Hd as (-> & Hacks & msgss & Hs & Hdel).
  split_and!; [done..|by rewrite Hacks, Ha|]. exists sorted, msgss. split_and!; [done| |].
  - destruct Hapart as (_ & _ & Hs1). by rewrite Hs, Hs1.
  - rewrite Hc1 in Hdel. exact (proj1 (Forall2_fmap_l job _ sorted msgss) Hdel).
Qed.
End compose.

(** ** A concrete run *)

(** The sample codec with a send mode. *)
#[local] Instance shop_wire : WireCodec := {|
  de_recipient := @de_recipient sample_wire_codec;
  de_from_override := @de_from_override sample_wire_codec;
  de_attachment := @de_attachment sample_wire_codec;
  de_send_mode v := match v with
                    | JStr "individual" => Ok SendMode.Individual
                    | JStr "group" => Ok SendMode.Group
                    | _ => Err "unknown variant"
                    end;
  de_group_retry_mode := @de_group_retry_mode sample_wire_codec;
  de_metadata := @de_metadata sample_wire_codec;
  de_datetime := @de_datetime sample_wire_codec;
  rfc3339 := @rfc3339 sample_wire_codec;
  encode_event := @encode_event sample_wire_codec;
|}.

Definition order_row (id : Uuid) (created : Z) (mode : string) (to : list string) : OutboxDbRow :=
  mkOutboxDbRow id id "ORDER" (JObj [("recipients", JArr (map JStr to)); ("send_mode", JStr mode)])
    "PENDING" 0 created None None.

(** One order of each mode. *)
Definition shop_rows : list OutboxDbRow :=
  [order_row 1 10 "individual" ["a@example.com"; "b@example.com"];
   order_row 2 20 "group" ["a@example.com"; "c@example.com"]].

(** Two orders waiting, one template, nothing blocked. *)
Definition shop_world : World := set_db (set_outbox (λ _, shop_rows) (w_db sample_world)) sample_world.

Definition claimed_orders : list OutboxRow := map project shop_rows.

Definition order_event (row : OutboxRow) : NotificationEvent :=
  match row_event row with Ok e => e | Err _ => sample_event no_recipient_opts end.

Definition order_job (row : OutboxRow) : Job :=
  mkJob (order_event row)
    (match co_email (ne_channel_overrides (order_event row)) with Some o => o | None => no_recipient_opts end)
    [] sample_prepared.

(** The codec reads back what it wrote for the two orders. *)
Definition order_codec : EventCodec :=
  sample_codec (map (λ row, (sample_body row, order_event row)) claimed_orders).

(** The goal for each element of a concrete list. *)
Ltac each_in Hin tac :=
  repeat (apply elem_of_cons in Hin as [->|Hin]; [tac|]); by apply not_elem_of_nil in Hin.

(** The same whatever the broker confirms. *)
Lemma order_base confirm row :
  row ∈ claimed_orders →
  answers_base (H := vary db_up cache_kept smtp_accepts confirm) sample_ctx consumer_config_default (job_event (order_job row))
    (job_opts (order_job row)) [] sample_prepared sample_templates empty_snapshot.
Proof.
  intros Hrow. constructor; try done.
  - intros t t'. simpl. lia.
  - by left.
  - intros send_at t. each_in Hrow ltac:(done).
  - intros w. each_in Hrow ltac:(done).
  - each_in Hrow ltac:(done).
  - each_in Hrow ltac:(by exists sample_template).
  - each_in Hrow ltac:(done).
Qed.

Lemma order_ready confirm row :
  row ∈ claimed_orders →
  job_ready (H := vary db_up cache_kept smtp_accepts confirm) sample_ctx consumer_config_default sample_templates empty_snapshot shop_world
    (order_job row).
Proof.
  intros Hrow. pose proof (order_base confirm row Hrow) as Hbase. unfold job_ready.
  apply elem_of_cons in Hrow as [->|Hrow].
  - split; [|intros r c _ Hc; vm_compute in Hc; discriminate Hc]. constructor; [exact Hbase|].
    intros [email [name|]] _ _; [destruct (is_empty_str name) eqn:Hn|]; eexists;
      (split; [unfold smtp_compose, format_mailbox; simpl; rewrite ?Hn; reflexivity|done]).
  - apply list_elem_of_singleton in Hrow as ->.
    exists (rcp "a@example.com"), [rcp "c@example.com"]. split.
    + constructor; [exact Hbase|by eexists|]. eexists. by split.
    + constructor; [reflexivity| | |reflexivity|].
      * intros r Hr. each_in Hr ltac:(reflexivity).
      * vm_compute. repeat constructor; set_solver.
      * intros r _. reflexivity.
Qed.

Lemma outbox_to_mail_witness :
  let '(r, w1) := poll_once (H := acking) outbox_config_default shop_world in
  let queue := arriving consumer_config_default (drop (length (w_amqp shop_world)) (w_amqp w1)) in
  let '(res, w2) := deliver_all (H := acking) (H3 := order_codec) sample_ctx consumer_config_default 8
                      (seq 0 500) queue w1 in
  r = Ok true ∧ res = Some tt
  ∧ (∀ x, x ∈ db_outbox (w_db w1) → ob_id x ∈ map or_id claimed_orders → ob_status x = "PUBLISHED")
  ∧ w_amqp w2 = w_amqp w1 ++ map (λ _, BasicAck) queue
  ∧ ∃ sorted msgss, sorted ≡ₚ claimed_orders ∧ w_sends w2 = w_sends shop_world ++ concat msgss
      ∧ Forall2 (λ row msgs, job_delivered (H := acking) sample_ctx empty_snapshot
            (email_cells shop_world) (email_cells w2) (order_job row) msgs) sorted msgss.
Proof.
  apply (outbox_to_mail (H := acking) (H4 := order_codec) sample_ctx consumer_config_default
    outbox_config_default sample_templates empty_snapshot 8 (seq 0 500) order_job sample_body shop_world
    claimed_orders (fetch_pending_batch (H := acking) 50 shop_world).2).
  - lia.
  - done.
  - done.
  - done.
  - destruct sample_ready as [[? ? ? ?] ? ? ? ? ?]. constructor; done.
  - vm_compute. repeat constructor; set_solver.
  - vm_compute. repeat constructor; set_solver.
  - vm_compute. reflexivity.
  - done.
  - intros row Hrow. split_and!; [| |split; [|by apply (order_ready (confirms ConfirmAck))]].
    + each_in Hrow ltac:(reflexivity).
    + each_in Hrow ltac:(reflexivity).
    + each_in Hrow ltac:(split_and!; [reflexivity|reflexivity|done|vm_compute; lia]).
  - intros i Hi. apply list_elem_of_In, in_seq. simpl in Hi. lia.
Defined.

Example shop_mail :
  let '(_, w1) := poll_once (H := acking) outbox_config_default shop_world in
  let '(_, w2) := deliver_all (H := acking) (H3 := order_codec) sample_ctx consumer_config_default 8
                    (seq 0 500) (arriving consumer_config_default (w_amqp w1)) w1 in
  (to_addresses w2, row_states w2, map ob_status (db_outbox (w_db w2)))
  = ([["a@example.com"]; ["b@example.com"]; ["a@example.com"; "c@example.com"]],
     [("a@example.com", "SENT"); ("b@example.com", "SENT"); ("a@example.com", "SENT")],
     ["PUBLISHED"; "PUBLISHED"]).
Proof. vm_compute. reflexivity. Qed.
