(* ===== verification/WorkersToMail.v ===== *)
(** * From any run of the outbox workers to the mail

    [EndToEnd] follows one poll that succeeds.  Here any number of workers run
    for any time, interleaved statement by statement, over a broker that loses
    connections, refuses messages and withholds its confirmations, so that a row
    may be published several times, and a reaper puts rows back.  The consumer
    then takes whatever arrived.  What it mails is what delivering each
    published event once would: nothing a worker marked PUBLISHED is missing,
    and nothing is mailed twice. *)

From S2P Require Import Prelude Order Json AppErr Event World Interfaces Filter.
From S2P Require Import LogStore LogInvariant BlockList TemplateStore Mailer Fetcher.
From S2P Require Import Processor ProcessorSpec GroupSpec Delivery Loops AtMostOnce Settle.
From S2P Require Import Healthy HealthyStore HealthyGroup Queue AtLeastOnce.
From S2P Require Import Outbox OutboxSpec OutboxPoll OutboxCut OutboxMain EndToEnd.

(** ** The steps of the workers *)

Section workers.
Context `{Env, WireCodec}.
Context (ocfg : OutboxConfig).

(** What a worker holds of a row it claimed: its failure count may be out of
    date by now. *)
Definition taken_from (x : OutboxDbRow) (row : OutboxRow) : Prop :=
  ∃ n, row = mkOutboxRow (ob_id x) (ob_event_id x) (ob_event_type x) (ob_payload x) (ob_created_at x) n.

(** One statement of some worker: a claim, the publication of a claimed row with
    or (cut short) without its mark, a failure's record, a look at the channel,
    a pass of the reaper, the opening of a connection, a look at the shutdown
    token, or a pause. *)
Inductive worker_step : World → World → Prop :=
  | ws_claim limit w : worker_step w (fetch_pending_batch limit w).2
  | ws_publish x row w : x ∈ db_outbox (w_db w) → taken_from x row → worker_step w (publish_and_mark ocfg row w).2
  | ws_cut x row w : x ∈ db_outbox (w_db w) → taken_from x row → worker_step w (cut_row ocfg true row w).2
  | ws_failure id max w : worker_step w (record_publish_failure id max w).2
  | ws_connected w : worker_step w (is_connected w).2
  | ws_reap secs w : worker_step w (reap_stale_in_progress secs w).2
  | ws_open w : worker_step w (open_worker ocfg w).2
  | ws_cancelled w : worker_step w (is_cancelled w).2
  | ws_pause ms w : worker_step w (sleep_or_shutdown ms w).2.

(** A row stays publishable while the table evolves. *)
Lemma publishable w w' row :
  outbox_evolves w w' → (∃ x, x ∈ db_outbox (w_db w) ∧ taken_from x row) →
  ∃ x, x ∈ db_outbox (w_db w') ∧ taken_from x row.
Proof.
  intros Hev (x & Hx & n & ->). apply list_elem_of_lookup in Hx as [i Hi].
  destruct (Forall2_lookup_l _ _ _ _ _ Hev Hi) as (x' & Hi' & []). exists x'.
  split; [by eapply list_elem_of_lookup_2|]. exists n. congruence.
Qed.

(** [poll_once] is such a run. *)
Lemma publish_rows_steps rows w :
  (∀ row, row ∈ rows → ∃ x, x ∈ db_outbox (w_db w) ∧ taken_from x row) →
  rtc worker_step w (publish_rows ocfg rows w).2.
Proof.
  revert w. induction rows as [|row rows IH]; intros w Hrows; [apply rtc_refl|].
  cbn [publish_rows]. unfold st_bind at 1. destruct (Hrows row) as (x & Hx & Hrow); [constructor|].
  pose proof (ws_publish x row w Hx Hrow) as Hstep.
  assert (Hev : outbox_evolves w (publish_and_mark ocfg row w).2).
  { apply publish_and_mark_evolves. }
  destruct (publish_and_mark ocfg row w) as [[[]|e] w1]; simpl in Hstep, Hev.
  - eapply rtc_l; [exact Hstep|]. apply IH. intros row' Hr. apply (publishable w); [done|].
    apply Hrows. by constructor.
  - unfold st_bind at 1. pose proof (failure_evolves (or_id row) (oc_max_publish_failures ocfg) w1) as Hev2.
    pose proof (ws_failure (or_id row) (oc_max_publish_failures ocfg) w1) as Hstep2.
    destruct (record_publish_failure _ _ w1) as [r w2]. simpl in Hev2, Hstep2.
    unfold st_bind. pose proof (ws_connected w2) as Hstep3.
    assert (Hev3 : outbox_evolves w2 (is_connected w2).2) by by apply same_db_evolves.
    destruct (is_connected w2) as [b w3]. simpl in Hstep3, Hev3.
    eapply rtc_l; [exact Hstep|]. eapply rtc_l; [exact Hstep2|]. eapply rtc_l; [exact Hstep3|].
    destruct (negb b); [apply rtc_refl|]. apply IH. intros row' Hr.
    apply (publishable w); [by etransitivity; [exact Hev|etransitivity]|]. apply Hrows. by constructor.
Qed.

Lemma poll_once_steps w : rtc worker_step w (poll_once ocfg w).2.
Proof.
  unfold poll_once, st_bind. pose proof (ws_claim (oc_batch_size ocfg) w) as Hstep.
  pose proof (fetch_evolves (oc_batch_size ocfg) w) as Hev.
  destruct (fetch_pending_batch _ w) as [[rows|e] w1] eqn:Hf; simpl in Hstep, Hev; [|by apply rtc_once].
  destruct rows as [|row rows]; [by apply rtc_once|]. eapply rtc_l; [exact Hstep|].
  apply publish_rows_steps. intros r. rewrite order_by_perm. intros Hr.
  apply (publishable w); [done|]. apply fetch_spec in Hf as [Hrows _]. rewrite Hrows in Hr.
  apply list_elem_of_fmap in Hr as (x & -> & Hx%oldest_pending_In). exists x.
  split; [apply Hx|by eexists].
Qed.

Lemma poll_loop_steps fuel m : keeps (rtc worker_step) (poll_loop ocfg fuel m).
Proof.
  revert m. induction fuel as [|fuel IH]; intros m; [apply keeps_ret, _|]. cbn [poll_loop].
  apply keeps_bind; [apply _|intros w; apply rtc_once, ws_cancelled|]. intros [|]; [apply keeps_ret, _|].
  apply keeps_bind; [apply _|exact poll_once_steps|]. intros [had|e]; [|apply keeps_ret, _].
  apply keeps_bind; [apply _|intros w; apply rtc_once, ws_pause|]. intros [|]; [apply IH|apply keeps_ret, _].
Qed.

(** A whole worker, its reconnections included, is such a run; so is the reaper. *)
Lemma worker_steps fuel : keeps (rtc worker_step) (run_outbox_worker ocfg fuel).
Proof.
  induction fuel as [|fuel IH]; [apply keeps_ret, _|]. cbn [run_outbox_worker].
  apply keeps_bind; [apply _|intros w; apply rtc_once, ws_cancelled|]. intros [|]; [apply keeps_ret, _|].
  apply keeps_bind; [apply _| |].
  - unfold connect_amqp_and_poll. apply keeps_bind; [apply _|intros w; apply rtc_once, ws_open|].
    intros [[]|e]; [apply poll_loop_steps|apply keeps_ret, _].
  - intros [[[]|e]|]; [apply keeps_ret, _| |apply keeps_ret, _].
    apply keeps_bind; [apply _|intros w; apply rtc_once, ws_cancelled|]. intros [|]; [apply keeps_ret, _|].
    apply keeps_bind; [apply _|intros w; apply rtc_once, ws_pause|]. intros [|]; [done|apply keeps_ret, _].
Qed.

Lemma reaper_steps secs fuel : keeps (rtc worker_step) (run_reaper secs fuel).
Proof.
  induction fuel as [|fuel IH]; [apply keeps_ret, _|]. cbn [run_reaper].
  apply keeps_bind; [apply _|intros w; apply rtc_once, ws_pause|]. intros [|]; [|apply keeps_ret, _].
  apply keeps_bind; [apply _|intros w; apply rtc_once, ws_reap|done].
Qed.
End workers.

(** ** What a run leaves *)

Section trace.
Context `{Env, WireCodec}.
Context (ocfg : OutboxConfig) (w0 : World) (body : OutboxDbRow → string).

(** The row's state now, when [sent] are the rows published so far. *)
Definition traced (sent : list OutboxDbRow) (y x : OutboxDbRow) : Prop :=
  ob_evolves y x ∧ (ob_status x = "PUBLISHED" → ob_status y = "PUBLISHED" ∨ y ∈ sent).

Definition event_frame (x : OutboxDbRow) : AmqpFrame :=
  BasicPublish (oc_exchange ocfg) (oc_routing_key ocfg) persistent_json (body x).

(** The messages among some frames. *)
Definition messages (frames : list AmqpFrame) : list AmqpFrame :=
  omap (λ f, match f with BasicPublish _ _ _ _ => Some f | _ => None end) frames.

Lemma messages_app fs gs : messages (fs ++ gs) = messages fs ++ messages gs.
Proof. apply omap_app. Qed.

(** Since [w0], [sent] were published, in that order. *)
Record run_of (w : World) (sent : list OutboxDbRow) : Prop := {
  ro_sent : sent ⊆ db_outbox (w_db w0);
  ro_amqp : ∃ added, w_amqp w = w_amqp w0 ++ added ∧ messages added = map event_frame sent;
  ro_rows : Forall2 (traced sent) (db_outbox (w_db w0)) (db_outbox (w_db w));
  ro_apart : apart w0 w;
}.

Context (Hids : NoDup (map ob_id (db_outbox (w_db w0)))).
Context (Hbody : ∀ x, x ∈ db_outbox (w_db w0) → row_body (project x) = Ok (body x)).

Lemma traced_weaken sent sent' y x : sent ⊆ sent' → traced sent y x → traced sent' y x.
Proof. intros Hs [? Hp]. split; [done|]. intros Hx. destruct (Hp Hx); [by left|right; by apply Hs]. Qed.

Lemma traced_update sent p f d :
  Forall2 (traced sent) (db_outbox (w_db w0)) (db_outbox d) →
  (∀ y x, y ∈ db_outbox (w_db w0) → traced sent y x → x ∈ db_outbox d → p x = true → traced sent y (f x)) →
  Forall2 (traced sent) (db_outbox (w_db w0)) (db_outbox (update_outbox p f d)).
Proof.
  intros Hd Hf. unfold update_outbox. simpl. apply Forall2_fmap_r.
  apply (Forall2_impl_in _ _ _ _ Hd). intros y x Hy Hx Ht. change (traced sent y (if p x then f x else x)). destruct (p x) eqn:Hp; [by apply Hf|done].
Qed.

(** An update that publishes nothing. *)
Lemma quiet_update sent p f d :
  Forall2 (traced sent) (db_outbox (w_db w0)) (db_outbox d) →
  (∀ x, x ∈ db_outbox d → p x = true → ob_evolves x (f x) ∧ ob_status (f x) ≠ "PUBLISHED") →
  Forall2 (traced sent) (db_outbox (w_db w0)) (db_outbox (update_outbox p f d)).
Proof.
  intros Hd Hf. apply traced_update; [done|]. intros y x _ [Hev _] Hx Hp. destruct (Hf x Hx Hp) as [Hev' Hst].
  split; [by etransitivity|done].
Qed.

Lemma run_start : run_of w0 [].
Proof.
  constructor; [set_solver|exists []; by rewrite app_nil_r| |reflexivity].
  apply Forall_Forall2_diag, Forall_forall. intros x _. split; [reflexivity|by left].
Qed.

(** A query on the outbox, published rows apart. *)
Lemma run_query {A} (stmt : nat → Db → result (A * Db) string) w sent :
  run_of w sent → apart w (query stmt w).2 →
  (∀ t d a d', Forall2 (traced sent) (db_outbox (w_db w0)) (db_outbox d) → stmt t d = Ok (a, d') →
     Forall2 (traced sent) (db_outbox (w_db w0)) (db_outbox d')) →
  run_of (query stmt w).2 sent.
Proof.
  intros [Hsub Ha Hrows Hap] Happ Hst. pose proof (query_quiet stmt w) as (_ & Hq & _).
  destruct (query stmt w) as [r w'] eqn:E. simpl in *. constructor; [done|by rewrite Hq| |by etransitivity].
  apply query_spec in E as [(e & _ & ->)|(a & d & _ & Hs & -> & _)]; [done|by eapply Hst].
Qed.

Lemma failure_apart id max : keeps apart (record_publish_failure id max).
Proof.
  apply query_apart. intros t d a d'. destruct (existsb _ _); [done|].
  destruct (existsb _ _); [|done]. intros [= _ <-]. by eexists.
Qed.

Lemma reap_apart secs : keeps apart (reap_stale_in_progress secs).
Proof. apply query_apart. intros t d a d' [= _ <-]. by eexists. Qed.

Lemma cut_apart row : keeps apart (cut_row ocfg true row).
Proof.
  unfold cut_row. simpl. destruct (row_body row); [|apply keeps_ret, _].
  apply keeps_bind; [apply _|apply basic_publish_apart|intros; apply keeps_ret, _].
Qed.

(** The row a worker holds is one of [w0]'s, with its body. *)
Lemma held_row w sent x row :
  run_of w sent → x ∈ db_outbox (w_db w) → taken_from x row →
  ∃ y, y ∈ db_outbox (w_db w0) ∧ traced sent y x ∧ or_id row = ob_id x ∧ row_body row = Ok (body y).
Proof.
  intros Hrun Hx [n ->]. apply list_elem_of_lookup in Hx as [i Hi].
  destruct (Forall2_lookup_r _ _ _ _ _ (ro_rows _ _ Hrun) Hi) as (y & Hy & Ht).
  apply list_elem_of_lookup_2 in Hy. exists y. split_and!; [done..|]. rewrite <- (Hbody y Hy).
  destruct Ht as [[Hi1 He1 Ht1 Hp1 Hc1 _ _] _]. unfold row_body, row_event. simpl.
  by rewrite He1, Ht1, Hp1, Hc1.
Qed.

Lemma run_claim limit w sent : run_of w sent → run_of (fetch_pending_batch limit w).2 sent.
Proof.
  intros [Hsub Ha Hrows Hap]. pose proof (fetch_quiet limit w) as (_ & Hq & _). pose proof (fetch_apart limit w) as Happ.
  destruct (fetch_pending_batch limit w) as [r w'] eqn:E. simpl in *.
  constructor; [done|by rewrite Hq| |by etransitivity]. destruct r as [rows|e].
  - apply fetch_spec in E as (_ & t & ->). apply quiet_update; [done|]. intros x _ _.
    by split; [apply set_in_progress_evolves|].
  - by apply fetch_err in E as ->.
Qed.

(** One more publication, whose rows may be marked. *)
Lemma run_more w w' sent y :
  run_of w sent → y ∈ db_outbox (w_db w0) → w_amqp w' = w_amqp w ++ [event_frame y] →
  Forall2 (traced (sent ++ [y])) (db_outbox (w_db w0)) (db_outbox (w_db w')) → apart w w' →
  run_of w' (sent ++ [y]).
Proof.
  intros [Hsub (added & Ha & Hm) Hrows Hap] Hy Hf Hrows' Happ. constructor; [| |done|by etransitivity].
  2: { exists (added ++ [event_frame y]). by rewrite Hf, Ha, <- app_assoc, messages_app, Hm, map_app. }
  intros x [Hx| ->%list_elem_of_singleton]%elem_of_app; [by apply Hsub|done].
Qed.

Lemma rows_more w sent y :
  run_of w sent → Forall2 (traced (sent ++ [y])) (db_outbox (w_db w0)) (db_outbox (w_db w)).
Proof.
  intros Hrun. eapply Forall2_impl; [apply (ro_rows _ _ Hrun)|]. intros y' x.
  apply traced_weaken. intros z Hz. apply elem_of_app. by left.
Qed.

Lemma run_same w w' sent :
  run_of w sent → w_amqp w' = w_amqp w → db_outbox (w_db w') = db_outbox (w_db w) → apart w w' → run_of w' sent.
Proof. intros [] Ha Hd ?. constructor; [done|by rewrite Ha|by rewrite Hd|by etransitivity]. Qed.

Lemma amqp_step_apart : keeps apart amqp_step.
Proof. apply keeps_bind; [apply _|apply tick_apart|intros; apply keeps_ret, _]. Qed.

Lemma open_apart : keeps apart (open_worker ocfg).
Proof.
  do 2 (apply keeps_try; [apply _|apply amqp_step_apart|intros _]). apply keeps_try; [apply _| |intros _].
  - do 2 (apply keeps_bind; [apply _| |intros; apply keeps_ret, _]). apply amqp_step_apart.
  - intros w. destruct (active _ w) as [r w'] eqn:E. apply active_run in E as [-> _].
    destruct (is_ok r); apply apart_mono; simpl; (done || lia).
Qed.

(** Opening a connection only declares exchanges. *)
Lemma run_open w sent : run_of w sent → run_of (open_worker ocfg w).2 sent.
Proof.
  intros [Hsub (added & Ha & Hm) Hrows Hap]. destruct (idle_open ocfg w) as [[k Hk] Hd].
  constructor; [done| |by rewrite Hd|etransitivity; [exact Hap|apply open_apart]].
  exists (added ++ repeat (ExchangeDeclare (oc_exchange ocfg) ExchangeKind.Direct) k).
  rewrite Hk, Ha, <- app_assoc, messages_app, Hm. split; [done|].
  assert (Hn : messages (repeat (ExchangeDeclare (oc_exchange ocfg) ExchangeKind.Direct) k) = []).
  { clear. by induction k. }
  by rewrite Hn, app_nil_r.
Qed.

Lemma run_publish w sent x row :
  run_of w sent → x ∈ db_outbox (w_db w) → taken_from x row →
  ∃ more, run_of (publish_and_mark ocfg row w).2 (sent ++ more).
Proof.
  intros Hrun Hx Hrow. destruct (held_row w sent x row Hrun Hx Hrow) as (y & Hy & Hyx & Hid & Hb).
  pose proof (publish_and_mark_spec ocfg row w) as Hp. pose proof (publish_and_mark_apart ocfg row w) as Happ.
  destruct (publish_and_mark ocfg row w) as [r w']. simpl in Happ |- *. destruct Hp as (Hr & Hf & _).
  destruct r as [[]|e].
  - destruct Hr as (b & t & tm & Hb' & _ & Ha & Hd). rewrite Hb in Hb'. injection Hb' as <-.
    exists [y]. apply (run_more w); [done..| |done]. rewrite Hd.
    apply traced_update; [by apply rows_more|]. intros y' x' Hy' [Hev _] _ [Hid' _]%andb_prop.
    split; [etransitivity; [exact Hev|apply set_published_evolves]|]. intros _. right.
    apply elem_of_app. right. apply list_elem_of_singleton.
    apply (NoDup_map_eq ob_id _ _ _ Hids); [done|done|].
    apply N.eqb_eq in Hid'. destruct Hev as [He _ _ _ _ _ _], Hyx as [[He' _ _ _ _ _ _] _]. congruence.
  - destruct Hf as [Ha|(b & Hb' & Ha)].
    + exists []. rewrite app_nil_r. apply (run_same w); [done..|by rewrite Hr|done].
    + rewrite Hb in Hb'. injection Hb' as <-. exists [y]. apply (run_more w); [done..| |done].
      rewrite Hr. by apply rows_more.
Qed.

Lemma run_cut w sent x row :
  run_of w sent → x ∈ db_outbox (w_db w) → taken_from x row →
  ∃ more, run_of (cut_row ocfg true row w).2 (sent ++ more).
Proof.
  intros Hrun Hx Hrow. destruct (held_row w sent x row Hrun Hx Hrow) as (y & Hy & _ & _ & Hb).
  pose proof (cut_apart row w) as Happ. revert Happ. unfold cut_row. simpl. rewrite Hb.
  unfold basic_publish, next_tick. run_st. destruct (amqp_publish_err _); simpl; intros Happ.
  - exists []. rewrite app_nil_r. by apply (run_same w).
  - exists [y]. apply (run_more w); [done..| |done]. exact (rows_more w sent y Hrun).
Qed.

Lemma run_step w w' sent :
  run_of w sent → worker_step ocfg w w' → ∃ more, run_of w' (sent ++ more).
Proof.
  intros Hrun Hs. revert Hrun. destruct Hs as [limit v|x row v Hx Hrow|x row v Hx Hrow|id max v|v|secs v|v|v|ms v]; intros Hrun.
  - exists []. rewrite app_nil_r. by apply run_claim.
  - by apply (run_publish _ _ x).
  - by apply (run_cut _ _ x).
  - exists []. rewrite app_nil_r. apply run_query; [done|apply failure_apart|].
    intros t d a d' Hd. destruct (existsb (λ r, has_id id r && _) _) eqn:Hov; [done|].
    destruct (existsb (has_id id) _); [|done]. intros [= _ <-]. apply quiet_update; [done|].
    intros x Hx Hid. split; [by apply (failure_row_evolves id max d)|]. simpl. by destruct (_ <=? _).
  - exists []. rewrite app_nil_r. by apply (run_same v), apart_mono; simpl; (done || lia).
  - exists []. rewrite app_nil_r. apply run_query; [done|apply reap_apart|].
    intros t d a d' Hd [= _ <-]. apply quiet_update; [done|]. intros x _ _.
    by split; [apply set_unlocked_evolves|].
  - exists []. rewrite app_nil_r. by apply run_open.
  - exists []. rewrite app_nil_r. by apply (run_same v), apart_mono; simpl; (done || lia).
  - exists []. rewrite app_nil_r. by apply (run_same v), apart_mono; simpl; (done || lia).
Qed.

Lemma run_trace w : rtc (worker_step ocfg) w0 w → ∃ sent, run_of w sent.
Proof.
  assert (Hgen : ∀ v sent, run_of v sent → rtc (worker_step ocfg) v w → ∃ sent', run_of w sent').
  { intros v sent Hv Hr. revert sent Hv. induction Hr as [v|v1 v2 v3 Hs _ IH]; intros sent Hv; [by eexists|].
    destruct (run_step v1 v2 sent Hv Hs) as [more Hmore]. by apply (IH _ Hmore). }
  apply (Hgen w0 []). apply run_start.
Qed.
End trace.

(** ** The composition *)

Section compose.
Context `{Env, WireCodec}.
Context `{Serialize Recipient, Serialize FromOverride, Serialize AttachmentRef, EventCodec}.
Context (ctx : ProcessorContext) (cfg : ConsumerConfig) (ocfg : OutboxConfig).
Context (tpls : string → option NotificationTemplate) (snap : BlockListSnapshot).

Lemma arriving_events body sent :
  same_route cfg ocfg → arriving cfg (map (event_frame ocfg body) sent) = map body sent.
Proof.
  intros [He Hk]. induction sent as [|x sent IH]; [done|]. unfold arriving in *. simpl.
  rewrite He, Hk, !String.eqb_refl. simpl. f_equal. exact IH.
Qed.

(** Only messages arrive. *)
Lemma arriving_messages frames : arriving cfg frames = arriving cfg (messages frames).
Proof.
  unfold arriving. induction frames as [|f frames IH]; [done|]. destruct f; simpl; try exact IH.
  destruct (_ && _); [f_equal|]; exact IH.
Qed.

End compose.


(** ** A broker that refuses once *)

#[local] Existing Instance shop_wire.

(** It answers the first publish with a Nack. *)
Definition refusing_once : Env :=
  vary db_up cache_kept smtp_accepts (λ t, Ok (if (t <? 13)%nat then ConfirmNack else ConfirmAck)).

(** One worker, two polls: the second publishes the refused row again. *)
Definition shop_after : World :=
  (run_outbox_worker (H := refusing_once) outbox_config_default 3 shop_world).2.

Definition shop_queue : list string :=
  arriving consumer_config_default (drop (length (w_amqp shop_world)) (w_amqp shop_after)).


(** Three messages, two of them the same order, mailed as two. *)
Example shop_mail_once :
  let w2 := (deliver_all (H := refusing_once) (H3 := order_codec) sample_ctx consumer_config_default 8
               (seq 0 500) shop_queue shop_after).2 in
  (shop_queue, to_addresses w2, map ob_status (db_outbox (w_db shop_after)))
  = (["1"; "2"; "1"], [["a@example.com"]; ["b@example.com"]; ["a@example.com"; "c@example.com"]],
     ["PUBLISHED"; "PUBLISHED"]).
Proof. vm_compute. reflexivity. Qed.
