(* ===== verification/Publisher.v ===== *)
(** * The API's publisher ([crates/api/src/publisher.rs])

    [Publisher]: one connection behind a mutex, whether it is held being
    [w_held] of the world; [publish] with its reconnection and its single
    retry. *)

From S2P Require Import Prelude Json AppErr Event World.

Record Publisher : Type := mkPublisher {
  pb_amqp_url : string;
  pb_exchange : string;
  pb_routing_key : string;
}.

Section publisher.
Context `{Env}.
Context (p : Publisher).

(** [open_channel]: connection, channel, [confirm_select] and exchange. *)
Definition open_channel : M (result unit Anyhow) :=
  let? _ := under_context "Publisher: failed to connect to RabbitMQ" amqp_step in
  let? _ := under_context "Publisher: create channel" amqp_step in
  let? _ := under_context "Publisher: confirm_select" amqp_step in
  let? _ := under_context "Publisher: exchange_declare"
              (active (ExchangeDeclare (pb_exchange p) ExchangeKind.Direct)) in
  st_ret (Ok tt).

(** [guard.as_ref()] with a connected channel, or a new one. *)
Definition ensure_channel : M (result unit AppError) :=
  let! held := st_get w_held in
  let! connected := (if (held : bool) then is_connected else st_ret false) in
  if (connected : bool) then st_ret (Ok tt)
  else
    let! r := open_channel in
    match r with
    | Ok _ => st_modify (set_held true) ;;! st_ret (Ok tt)
    | Err e => st_ret (Err (AppError.Queue ("Publisher reconnect failed: " +:+ ah_context e)))
    end.

(** Any confirmation is success. *)
Definition confirmed : M (result unit AppError) :=
  let! confirm := timed_confirm in
  st_ret (match confirm with
          | None => Err (AppError.Queue ("Publisher: broker confirm timed out after "
                      +:+ show_Z CONFIRM_TIMEOUT_SECS
                      +:+ "s — message may or may not have been persisted; retry the operation"))
          | Some (Ok _) => Ok tt
          | Some (Err e) => Err (AppError.Queue e)
          end).

(** [for attempt in 0..2u8], with [n] rounds left. *)
Fixpoint publish_rounds (n attempt : nat) (body : string) : M (result unit AppError) :=
  match n with
  | O => st_ret (Err (AppError.Queue "Publisher: publish failed after reconnect"))
  | S n =>
      let? _ := ensure_channel in
      let! result := basic_publish (pb_exchange p) (pb_routing_key p) persistent_json body in
      match result with
      | Ok _ => confirmed
      | Err e =>
          if (attempt =? 0)%nat
          then st_modify (set_held false) ;;! publish_rounds n (S attempt) body
          else st_ret (Err (AppError.Queue e))
      end
  end.

Definition publish (body : string) : M (result unit AppError) := publish_rounds 2 0 body.

(** [Publisher::disconnected]: no connection, and nowhere to connect to. *)
Definition disconnected : M Publisher := st_modify (set_held false) ;;! st_ret (mkPublisher "" "" "").

(** [Publisher::connect]: the publisher, holding its first connection. *)
Definition connect : M (result Publisher Anyhow) :=
  let? _ := open_channel in st_modify (set_held true) ;;! st_ret (Ok p).

(** ** Properties *)

(** The tables, the caches and the mail are not the publisher's business. *)
Definition only_frames : relation World := λ w w',
  w_db w' = w_db w ∧ w_tpl_cache w' = w_tpl_cache w ∧ w_block_cache w' = w_block_cache w
  ∧ w_sends w' = w_sends w ∧ w_slept w' = w_slept w.

#[local] Instance only_frames_preorder : PreOrder only_frames.
Proof.
  split; [by intros w|]. intros w1 w2 w3 (?&?&?&?&?) (?&?&?&?&?).
  unfold only_frames. split_and!; congruence.
Qed.

(** [fs] was written, after at most [n] declarations of the exchange. *)
Definition declaration : AmqpFrame := ExchangeDeclare (pb_exchange p) ExchangeKind.Direct.

Definition written (n : nat) (fs : list AmqpFrame) (w w' : World) : Prop :=
  ∃ k, (k <= n)%nat ∧ w_amqp w' = w_amqp w ++ repeat declaration k ++ fs.

Lemma written_nothing n w w' : w_amqp w' = w_amqp w → written n [] w w'.
Proof. intros E. exists 0%nat. split; [lia|]. by rewrite app_nil_r. Qed.

Lemma written_more n m fs w w' : written n fs w w' → (n <= m)%nat → written m fs w w'.
Proof. intros (k & ? & ?) ?. exists k. split; [lia|done]. Qed.

Lemma written_from n fs w v w' : w_amqp w = w_amqp v → written n fs w w' → written n fs v w'.
Proof. unfold written. by intros ->. Qed.

Lemma written_trans n m fs w1 w2 w3 :
  written n [] w1 w2 → written m fs w2 w3 → written (n + m) fs w1 w3.
Proof.
  intros (k & Hk & E) (l & Hl & E'). exists (k + l)%nat. split; [lia|].
  by rewrite E', E, repeat_app, app_nil_r, <- !app_assoc.
Qed.

(** The broker turned a connection away, or the declaration. *)
Definition unreachable (e : Anyhow) : Prop :=
  (∃ t, amqp_open_err t = Some (ah_cause e))
  ∨ (∃ t b, amqp_command t declaration = Err b ∧ ah_cause e = broker_text b).

(** Opening touches the clock and, in its last step, the broker; it fails in
    one of its four steps. *)
Lemma open_channel_spec w r w' :
  open_channel w = (r, w') →
  only_frames w w' ∧ (w_tick w <= w_tick w')%nat ∧ w_held w' = w_held w
  ∧ match r with
    | Ok _ => w_amqp w' = w_amqp w ++ [declaration]
    | Err e => w_amqp w' = w_amqp w ∧ unreachable e
    end.
Proof.
  unfold open_channel. rewrite under_context_step.
  destruct (amqp_open_err _) eqn:E1; [intros [= <- <-]; split_and!; [done|simpl; lia|done..|left; by eauto]|].
  rewrite under_context_step.
  destruct (amqp_open_err (w_tick (set_tick _ w))) eqn:E2; [intros [= <- <-]; split_and!; [done|simpl; lia|done..|left; by eauto]|].
  rewrite under_context_step.
  destruct (amqp_open_err (w_tick (set_tick _ (set_tick _ w)))) eqn:E3; [intros [= <- <-]; split_and!; [done|simpl; lia|done..|left; by eauto]|].
  rewrite under_context_active.
  destruct (amqp_command _ _) as [[]|b] eqn:E4; intros [= <- <-];
    (split_and!; [done|simpl; lia|done..|]); [done|right; by eauto].
Qed.

Lemma connect_Ok w q w' : connect w = (Ok q, w') → q = p.
Proof. unfold connect. run_st. destruct (open_channel w) as [[[]|e] w1]; [by intros [= <- _]|done]. Qed.

Lemma ensure_channel_spec w r w' :
  ensure_channel w = (r, w') →
  only_frames w w' ∧ written 1 [] w w' ∧ (w_tick w <= w_tick w')%nat
  ∧ match r with
    | Ok _ => True
    | Err e => ∃ a, unreachable a ∧ e = AppError.Queue ("Publisher reconnect failed: " +:+ ah_context a)
    end.
Proof.
  unfold ensure_channel, is_connected, next_tick. run_st.
  assert (Hreopen : ∀ v, w_tick v = w_tick w ∨ w_tick v = S (w_tick w) → only_frames w v →
    w_amqp v = w_amqp w →
    (match open_channel v with
     | (Ok _, v1) => (Ok tt, set_held true v1)
     | (Err a, v1) => (Err (AppError.Queue ("Publisher reconnect failed: " +:+ ah_context a)), v1)
     end) = (r, w') →
    only_frames w w' ∧ written 1 [] w w' ∧ (w_tick w <= w_tick w')%nat
    ∧ match r with
      | Ok _ => True
      | Err e => ∃ a, unreachable a ∧ e = AppError.Queue ("Publisher reconnect failed: " +:+ ah_context a)
      end).
  { intros v Htv Hov Hav. destruct (open_channel v) as [[[]|a] v1] eqn:E;
      apply open_channel_spec in E as (Ho & Ht & _ & Hr); intros [= <- <-];
      (split_and!; [by etransitivity| |simpl; lia|]); [|done| |].
    - exists 1%nat. split; [done|]. simpl. by rewrite Hr, Hav.
    - apply written_nothing. destruct Hr as [-> _]. done.
    - exists a. by split; [apply Hr|]. }
  destruct (w_held w); simpl; [destruct (channel_connected _); simpl|].
  - intros [= <- <-]. split_and!; [done|by apply written_nothing|simpl; lia|done].
  - intros Hrun. apply (Hreopen (set_tick (S (w_tick w)) w)); [by right|done..|].
    destruct (open_channel _) as [[]?]; exact Hrun.
  - intros Hrun. apply (Hreopen w); [by left|done..|]. destruct (open_channel _) as [[]?]; exact Hrun.
Qed.

Lemma confirmed_spec w r w' :
  confirmed w = (r, w') →
  only_frames w w' ∧ w_amqp w' = w_amqp w
  ∧ match r with
    | Ok _ => ∃ t c, confirm_in_time t = true ∧ amqp_confirm (S t) = Ok c
    | Err e => ∃ m, e = AppError.Queue m
    end.
Proof.
  unfold confirmed, timed_confirm, await_confirm, next_tick. run_st.
  destruct (confirm_in_time (w_tick w)) eqn:Ec; simpl.
  - destruct (amqp_confirm (S (w_tick w))) as [c|m] eqn:Ea; intros [= <- <-]; (split_and!; [done..|]).
    + by exists (w_tick w), c.
    + by eexists.
  - intros [= <- <-]. split_and!; [done..|]. by eexists.
Qed.

Definition frame_of (body : string) : AmqpFrame :=
  BasicPublish (pb_exchange p) (pb_routing_key p) persistent_json body.

Lemma publish_rounds_spec n attempt body w r w' :
  publish_rounds n attempt body w = (r, w') →
  only_frames w w'
  ∧ match r with
    | Ok _ => written n [frame_of body] w w'
              ∧ ∃ t c, confirm_in_time t = true ∧ amqp_confirm (S t) = Ok c
    | Err e => (written n [] w w' ∨ written n [frame_of body] w w') ∧ ∃ m, e = AppError.Queue m
    end.
Proof.
  revert attempt w r w'. induction n as [|n IH]; intros attempt w r w'; simpl.
  { intros [= <- <-]. split; [done|]. split; [left; by apply written_nothing|by eexists]. }
  run_st. destruct (ensure_channel w) as [[[]|e] w1] eqn:E1;
    apply ensure_channel_spec in E1 as (Ho & Ha & _ & Hr); pose proof (written_more _ (S n) _ _ _ Ha ltac:(lia)) as Ha'.
  2: { intros [= <- <-]. destruct Hr as (t & c & ->). split; [done|]. split; [by left|by eexists]. }
  unfold basic_publish, next_tick. run_st. destruct (amqp_publish_err _) as [e|]; simpl.
  - destruct (attempt =? 0)%nat.
    + intros Hrun. apply IH in Hrun as (Ho2 & Hr2). split; [etransitivity; [exact Ho|exact Ho2]|].
      assert (Hjoin : ∀ fs, written n fs (set_held false (set_tick (S (w_tick w1)) w1)) w' →
        written (S n) fs w w') by (intros fs Hfs; exact (written_trans 1 n fs w w1 w' Ha Hfs)).
      destruct r as [[]|e']; [|destruct Hr2 as [[Hw|Hw] ?]; (split; [|done])];
        [by destruct Hr2; split; [apply Hjoin|]|left; by apply Hjoin|right; by apply Hjoin].
    + intros [= <- <-]. split; [done|]. split; [by left|by eexists].
  - intros Hrun. apply confirmed_spec in Hrun as (Ho2 & Ha2 & Hr2). simpl in Ha2.
    split; [etransitivity; [exact Ho|exact Ho2]|].
    assert (Hw : written (S n) [frame_of body] w w').
    { destruct Ha' as (k & Hk & Ea). exists k. split; [done|].
      by rewrite Ha2, Ea, app_nil_r, <- app_assoc. }
    destruct r; [done|]. split; [by right|done].
Qed.

(** What [publish] promises its callers. *)
Lemma publish_spec body w r w' :
  publish body w = (r, w') →
  only_frames w w'
  ∧ match r with
    | Ok _ => written 2 [frame_of body] w w'
              ∧ ∃ t c, confirm_in_time t = true ∧ amqp_confirm (S t) = Ok c
    | Err e => (written 2 [] w w' ∨ written 2 [frame_of body] w w') ∧ ∃ m, e = AppError.Queue m
    end.
Proof. apply publish_rounds_spec. Qed.

(** Confirmations arrive in time, whatever they say. *)
Definition prompt_broker : Prop :=
  (∀ t, confirm_in_time t = true) ∧ (∀ t, ∃ c, amqp_confirm t = Ok c).

Lemma confirmed_prompt w : prompt_broker → (confirmed w).1 = Ok tt.
Proof.
  intros [Htime Hconf]. unfold confirmed, timed_confirm, await_confirm, next_tick. run_st.
  rewrite Htime. simpl. by destruct (Hconf (S (w_tick w))) as [c ->].
Qed.

(** The broker accepts connections and knows the exchange. *)
Definition reachable_broker : Prop :=
  (∀ t, amqp_open_err t = None) ∧ (∀ t, amqp_command t declaration = Ok tt).

(** One round when it does. *)
Lemma publish_round n attempt body w :
  reachable_broker →
  ∃ w1, (w_tick w <= w_tick w1)%nat
    ∧ publish_rounds (S n) attempt body w
      = match amqp_publish_err (w_tick w1) with
        | None => confirmed (log_frame (frame_of body) (set_tick (S (w_tick w1)) w1))
        | Some e => if (attempt =? 0)%nat
                    then publish_rounds n (S attempt) body (set_held false (set_tick (S (w_tick w1)) w1))
                    else (Err (AppError.Queue e), set_tick (S (w_tick w1)) w1)
        end.
Proof.
  intros [Hopen Hcmd]. cbn [publish_rounds]. unfold st_try.
  destruct (ensure_channel w) as [[[]|e] w1] eqn:E1; apply ensure_channel_spec in E1 as (_ & _ & Ht & Hr).
  - exists w1. split; [done|]. unfold basic_publish, next_tick. run_st.
    destruct (amqp_publish_err (w_tick w1)); [|done]. by destruct (attempt =? 0)%nat.
  - destruct Hr as (a & [[t Hc]|(t & b & Hc & _)] & _); [by rewrite Hopen in Hc|by rewrite Hcmd in Hc].
Qed.

(** C35: a broken channel is repaired: whatever the publisher holds, when the
    broker accepts connections, knows the exchange and answers in time and at
    most one write fails, [publish] succeeds with exactly one message written,
    besides at most two declarations of its exchange, and touches neither
    tables, caches nor mail. *)
Theorem publish_recovers t0 body w :
  reachable_broker →
  (∀ t, t ≠ t0 → amqp_publish_err t = None) →
  prompt_broker →
  let '(r, w') := publish body w in
  r = Ok tt ∧ written 2 [frame_of body] w w' ∧ only_frames w w'.
Proof.
  intros Hopen Hpub Hprompt.
  assert (Hok : (publish body w).1 = Ok tt).
  { unfold publish. destruct (publish_round 1 0 body w Hopen) as (w1 & _ & ->).
    destruct (amqp_publish_err (w_tick w1)) as [e|] eqn:Ee; [|by apply confirmed_prompt].
    assert (w_tick w1 = t0) as <-.
    { destruct (decide (w_tick w1 = t0)) as [|Hne]; [done|]. apply Hpub in Hne. congruence. }
    set (v := set_held _ _). destruct (publish_round 0 1 body v Hopen) as (w2 & Ht & Hrun).
    change (0 =? 0)%nat with true. cbv iota. rewrite Hrun. simpl in Ht.
    rewrite Hpub by lia. by apply confirmed_prompt. }
  destruct (publish body w) as [r w'] eqn:E. simpl in Hok. subst r.
  apply publish_spec in E as (Ho & Ha & _). done.
Qed.

End publisher.

(** ** Concrete runs *)

Definition sample_publisher : Publisher :=
  mkPublisher "amqp://localhost" "anvil-notify" "email.requested".

(** The first write fails, and a connection is held. *)
Definition stale_env : Env :=
  vary_amqp acking (λ _, None) (λ t, if (t =? 1)%nat then Some "broken pipe" else None).

Lemma publish_recovers_witness :
  let '(r, w') := publish (H := stale_env) sample_publisher "{}" (world0 empty_db) in
  r = Ok tt ∧ written sample_publisher 2 [frame_of sample_publisher "{}"] (world0 empty_db) w'
  ∧ only_frames (world0 empty_db) w'.
Proof.
  apply (publish_recovers (H := stale_env) sample_publisher 1 "{}" (world0 empty_db)).
  - by split.
  - intros t Ht. simpl. by destruct (Nat.eqb_spec t 1).
  - split; intros t; [done|]. by exists ConfirmAck.
Defined.

(** The confirmation itself is not looked at: a message the broker refuses
    (basic.nack) is reported as published. *)
Example nacked_publish_succeeds :
  (publish (H := nacking) sample_publisher "{}" (world0 empty_db)).1 = Ok tt
  ∧ ∀ t, amqp_confirm (Env := nacking) t = Ok ConfirmNack.
Proof. done. Qed.
