(* ===== verification/Api.v ===== *)
(** * The HTTP API ([crates/api/src])

    [errors.rs], [state.rs], the handlers of [handlers.rs] and the two
    middlewares of [routes.rs].  A handler returns a response or an [AppError];
    [into_response] is what the client sees of the latter.  Request bodies are
    given as decoded values; [Routes] puts the router around the handlers.  Log lines and metrics
    are not modelled. *)

From S2P Require Import Prelude Json AppErr EmailValidation Event World Interfaces.
From S2P Require Import Filter BlockList TemplateStore Publisher.

(** ** Responses *)

Record ApiResponse : Type := mkApiResponse {
  rs_status : Z;
  rs_headers : list (string * string);
  rs_body : option json;
}.

Definition json_response (status : Z) (body : json) : ApiResponse :=
  mkApiResponse status [] (Some body).
Definition NO_CONTENT : ApiResponse := mkApiResponse 204 [] None.

Definition json_int (z : Z) : json := JNum (if z <? 0 then NegInt z else PosInt z).
Definition json_nat (n : nat) : json := json_int (Z.of_nat n).
Definition json_opt_str (s : option string) : json := match s with Some s => JStr s | None => JNull end.
Definition json_opt (v : option json) : json := default JNull v.

(** [impl IntoResponse for ApiError]. *)
Definition error_status (e : AppError) : Z :=
  match e with
  | AppError.NotFound _ => 404
  | AppError.Duplicate _ => 409
  | AppError.Template _ => 422
  | AppError.Mailer _ MailerKind.Permanent => 422
  | AppError.Blocked _ => 400
  | AppError.Queue _ => 503
  | _ => 500
  end.

Definition error_message (e : AppError) : string :=
  match e with
  | AppError.NotFound msg | AppError.Duplicate msg | AppError.Template msg
  | AppError.Mailer msg MailerKind.Permanent | AppError.Blocked msg | AppError.Queue msg => msg
  | AppError.UnknownStatus msg =>
      "data integrity error: unknown status '" +:+ msg +:+ "' — check DB schema vs code version"
  | other => app_error_to_string other
  end.

Definition into_response (r : result ApiResponse AppError) : ApiResponse :=
  match r with
  | Ok resp => resp
  | Err e => json_response (error_status e) (JObj [("error", JStr (error_message e))])
  end.

(** [ApiState], less its stores. *)
Record ApiState : Type := mkApiState {
  as_publisher : Publisher;
  as_api_key : option string;
  as_filter : RecipientFilter;
  as_max_recipients_per_event : nat;
}.

Record SendEmailRequest : Type := mkSendEmailRequest {
  rq_event_id : option Uuid;
  rq_event_type : string;
  rq_payload : json;
  rq_email : EmailOptions;
  rq_source : option string;
}.

(** [get(field).and_then(as_str)], and with [ok_or_else] and [trim]. *)
Definition str_field (field : string) (body : json) : option string :=
  match json_get field body with Some v => as_str v | None => None end.

Definition require_field (field : string) (body : json) : result string AppError :=
  match str_field field body with
  | Some s => Ok s
  | None => Err (permanent_mailer ("missing field '" +:+ field +:+ "'"))
  end.

Section handlers.
Context `{Env, NotificationStore, WireCodec}.
Context (state : ApiState).

Definition trimmed_field (field : string) (body : json) : result string AppError :=
  result_map trim (require_field field body).

(** ** Re-publishing a stored event *)

(** Step 3. *)
Definition check_stored_from (from_override : option json) : result unit AppError :=
  match from_override with
  | Some ov =>
      match str_field "email" ov with
      | Some email =>
          if is_valid_email email then Ok tt
          else Err (permanent_mailer ("stored from_override email address '" +:+ email
                 +:+ "' is invalid — fix the notification_log row before retrying"))
      | None => Ok tt
      end
  | None => Ok tt
  end.

(** Step 5: the [filter_map] over the attachment references. *)
Definition expired_name (age_secs : Z) (r : json) : option string :=
  match json_get "max_age_secs" r with
  | Some m =>
      match as_u64 m with
      | Some max_age =>
          if max_age <? age_secs
          then match json_get "filename" r with Some f => as_str f | None => None end
          else None
      | None => None
      end
  | None => None
  end.

Definition check_expiry (attachments_raw : json) (original_timestamp : DateTime) :
    M (result unit AppError) :=
  match as_array attachments_raw with
  | None => st_ret (Ok tt)
  | Some refs =>
      let! now := next_tick in
      let age_secs := Z.max (num_seconds (clock now - original_timestamp)) 0 in
      st_ret (match omap (expired_name age_secs) refs with
              | [] => Ok tt
              | expired =>
                  Err (permanent_mailer (show_nat (length expired)
                    +:+ " attachment URL(s) have expired (age " +:+ show_Z age_secs
                    +:+ "s > max_age_secs): " +:+ join ", " expired
                    +:+ ". The business service must re-publish the event with fresh URLs before retrying."))
              end)
  end.

(** Step 6. *)
Definition is_skipped (l : NotificationLog) : bool :=
  match nl_status l with NotificationStatus.Skipped => true | _ => false end.

Definition wanted (only_emails : option (list string)) (l : NotificationLog) : bool :=
  match only_emails with
  | Some set => existsb (String.eqb (nl_recipient_email l)) set
  | None => true
  end.

Definition replay_recipients (logs : list NotificationLog) (only_emails : option (list string)) :
    list Recipient :=
  map (λ l, mkRecipient (nl_recipient_email l) (nl_recipient_name l))
    (base.filter (λ l, (negb (is_skipped l) && wanted only_emails l) = true) logs).

(** Step 7. *)
Definition stored {A} `{Deserialize A} (what : string) (v : json) : result A AppError :=
  map_err (λ e, permanent_mailer ("stored " +:+ what +:+ " is malformed and cannot be deserialized: " +:+ e))
    (from_value v).

Definition stored_opt {A} `{Deserialize A} (what : string) (v : option json) :
    result (option A) AppError :=
  match v with Some v => result_map Some (stored what v) | None => Ok None end.

Definition stored_send_mode (s : option string) : result SendMode AppError :=
  match s with
  | None => Ok SendMode.Individual
  | Some s =>
      if String.eqb s "group" then Ok SendMode.Group
      else if String.eqb s "individual" then Ok SendMode.Individual
      else Err (permanent_mailer ("unknown send_mode value '" +:+ s
             +:+ "' in notification_log row — fix the DB row before retrying"))
  end.

Definition stored_group_retry_mode (s : option string) : result GroupRetryMode AppError :=
  match s with
  | None => Ok group_retry_mode_default
  | Some s =>
      map_err (λ _, permanent_mailer ("unknown group_retry_mode value '" +:+ s
                 +:+ "' in notification_log row — fix the DB row before retrying"))
        (group_retry_mode_try_from s)
  end.

Definition replay_options (detail : EventDeliveryDetail) (attachments_raw : json)
    (recipients : list Recipient) : result EmailOptions AppError :=
  result_bind (stored_opt "from_override" (ev_from_override detail)) (λ from_override,
  result_bind (stored "attachments JSON" attachments_raw) (λ attachments,
  result_bind (stored_opt "cc JSON" (ev_cc detail)) (λ cc,
  result_bind (stored_opt "bcc JSON" (ev_bcc detail)) (λ bcc,
  result_bind (stored_send_mode (ev_send_mode detail)) (λ send_mode,
  result_bind (stored_group_retry_mode (ev_group_retry_mode detail)) (λ group_retry_mode,
  Ok {| eo_send_mode := send_mode;
        eo_group_retry_mode := group_retry_mode;
        eo_retry_policy := retry_policy_default;
        eo_recipients := recipients;
        eo_cc := default [] cc;
        eo_bcc := default [] bcc;
        eo_from_override := from_override;
        eo_attachments := attachments;
        eo_sender_account := ev_sender_account detail;
        eo_send_at := None;
        eo_priority := None |})))))).

(** Step 9: the copies are rejected, the recipients only warned about. *)
Fixpoint check_copies (copies : list Recipient) : result unit AppError :=
  match copies with
  | [] => Ok tt
  | r :: copies =>
      match filter_check (as_filter state) (r_email r) with
      | Err (AppError.Blocked reason) =>
          Err (permanent_mailer ("cc/bcc address " +:+ r_email r +:+ " is blocked: " +:+ reason
                 +:+ ". Remove the blocked address before retrying."))
      | _ => check_copies copies
      end
  end.

(** Step 10: the envelope published again. *)
Definition replay_envelope (event_id : Uuid) (detail : EventDeliveryDetail) (opts : EmailOptions) :
    NotificationEvent :=
  {| ne_event_id := event_id;
     ne_timestamp := ev_event_timestamp detail;
     ne_event_type := ev_event_type detail;
     ne_payload := ev_payload detail;
     ne_metadata := mkMetadata None;
     ne_channel_overrides := mkChannelOverrides (Some opts) |}.

(** Its encoding and publication. *)
Definition publish_replay (event : NotificationEvent) : M (result unit AppError) :=
  let? body := st_ret (map_err AppError.Queue (encode_event event)) in
  publish (as_publisher state) body.

(** Steps 6 to 10 up to the encoding. *)
Definition replay_event (event_id : Uuid) (only_emails : option (list string))
    (logs : list NotificationLog) (detail : EventDeliveryDetail) (attachments_raw : json) :
    result NotificationEvent AppError :=
  let recipients := replay_recipients logs only_emails in
  if match recipients with [] => forallb is_skipped logs | _ => false end
  then Err (permanent_mailer ("Event " +:+ uuid_str event_id
         +:+ " was skipped at validation time and has no deliverable recipients. The publisher must re-publish a corrected event."))
  else
    result_bind (replay_options detail attachments_raw recipients) (λ opts,
    result_bind (check_copies (eo_cc opts ++ eo_bcc opts)) (λ _,
    if is_null (ev_payload detail)
    then Err (permanent_mailer "stored payload is null — the notification_log row must be repaired with a valid JSON payload before this event can be retried")
    else Ok (replay_envelope event_id detail opts))).

Definition republish_event (event_id : Uuid) (only_emails : option (list string)) :
    M (result unit AppError) :=
  let? logs := get_recipients_for_event event_id only_emails in
  let? detail := get_event_delivery_detail event_id in
  let? _ := st_ret (check_stored_from (ev_from_override detail)) in
  let attachments_raw := default (JArr []) (ev_attachments detail) in
  let? _ := check_expiry attachments_raw (ev_event_timestamp detail) in
  let? event := st_ret (replay_event event_id only_emails logs detail attachments_raw) in
  publish_replay event.

Definition republish_or_revert (event_id : Uuid) (only_emails : list string) :
    M (result unit AppError) :=
  let! r := republish_event event_id (Some only_emails) in
  match r with
  | Ok _ => st_ret (Ok tt)
  | Err e =>
      revert_to_failed event_id only_emails
        ("manual retry aborted: re-enqueue failed: " +:+ app_error_to_string e) ;;!
      st_ret (Err e)
  end.

(** ** Retry endpoints *)

Definition retry_recipient (event_id : Uuid) (email : string) : M (result ApiResponse AppError) :=
  if negb (is_valid_email email)
  then st_ret (Err (permanent_mailer ("'" +:+ email +:+ "' is not a valid email address")))
  else
    let? _ := reset_for_retry event_id email in
    let? _ := republish_or_revert event_id [email] in
    st_ret (Ok (json_response 202 (JObj [
      ("message", JStr "Reset to PENDING and re-enqueued for immediate retry.");
      ("eventId", JStr (uuid_str event_id));
      ("email", JStr email)]))).

Definition retry_event (event_id : Uuid) : M (result ApiResponse AppError) :=
  let? reset := reset_all_failed_for_event event_id in
  match reset with
  | [] =>
      let? logs := get_by_event_id event_id in
      if existsb is_skipped logs
      then st_ret (Err (permanent_mailer ("Event " +:+ uuid_str event_id
             +:+ " was skipped at validation time (no email channel, empty recipients, or recipient count exceeded limit) and cannot be retried. The publisher must re-publish a corrected event.")))
      else st_ret (Err (AppError.NotFound ("No FAILED recipients for event " +:+ uuid_str event_id)))
  | _ =>
      let? _ := republish_or_revert event_id reset in
      st_ret (Ok (json_response 202 (JObj [
        ("message", JStr "FAILED recipients reset to PENDING and re-enqueued.");
        ("eventId", JStr (uuid_str event_id));
        ("recipientsReset", json_nat (length reset));
        ("recipients", JArr (map JStr reset))])))
  end.

(** ** Status endpoints *)

Definition count_status (s : NotificationStatus) (logs : list NotificationLog) : nat :=
  length (base.filter (λ l, nl_status l = s) logs).

Definition status_entry (log : NotificationLog) : json :=
  JObj [("email", JStr (nl_recipient_email log));
        ("status", JStr (status_as_str (nl_status log)));
        ("retryCount", json_int (nl_retry_count log));
        ("totalAttempts", json_int (nl_total_attempts log));
        ("lastError", json_opt_str (nl_last_error log));
        ("toRecipients", json_opt (nl_to_recipients log));
        ("createdAt", JStr (rfc3339 (nl_created_at log)));
        ("updatedAt", JStr (rfc3339 (nl_updated_at log)))].

Definition status_summary (logs : list NotificationLog) : json :=
  let total := length logs in
  JObj [("total", json_nat total);
        ("sent", json_nat (count_status NotificationStatus.Sent logs));
        ("blocked", json_nat (count_status NotificationStatus.Blocked logs));
        ("failed", json_nat (count_status NotificationStatus.Failed logs));
        ("pending", json_nat (count_status NotificationStatus.Pending logs));
        ("skipped", json_nat (count_status NotificationStatus.Skipped logs));
        ("truncated", JBool (500 <=? total)%nat)].

Definition get_email_status (event_id : Uuid) : M (result ApiResponse AppError) :=
  let? logs := get_by_event_id event_id in
  st_ret (Ok (json_response 200 (JObj [
    ("eventId", JStr (uuid_str event_id));
    ("recipients", JArr (map status_entry logs));
    ("summary", status_summary logs)]))).

Definition get_recipient_status (event_id : Uuid) (email : string) :
    M (result ApiResponse AppError) :=
  let? log := get_by_event_and_recipient event_id email in
  st_ret (Ok (json_response 200 (JObj [
    ("eventId", JStr (uuid_str (nl_event_id log)));
    ("email", JStr (nl_recipient_email log));
    ("status", JStr (status_as_str (nl_status log)));
    ("retryCount", json_int (nl_retry_count log));
    ("totalAttempts", json_int (nl_total_attempts log));
    ("lastError", json_opt_str (nl_last_error log));
    ("createdAt", JStr (rfc3339 (nl_created_at log)));
    ("updatedAt", JStr (rfc3339 (nl_updated_at log)))]))).

(** ** Template endpoints *)

Definition template_summary (r : TemplateRow) : json :=
  JObj [("event_type", JStr (tr_event_type r)); ("channel", JStr (tr_channel r));
        ("subject", JStr (tr_subject r)); ("version", json_int (tr_version r));
        ("active", JBool (tr_active r)); ("updated_at", JStr (rfc3339 (tr_updated_at r)))].

Definition template_full (r : TemplateRow) : json :=
  JObj [("event_type", JStr (tr_event_type r)); ("channel", JStr (tr_channel r));
        ("subject", JStr (tr_subject r)); ("body_html", JStr (tr_body_html r));
        ("body_text", JStr (tr_body_text r)); ("version", json_int (tr_version r));
        ("active", JBool (tr_active r)); ("updated_at", JStr (rfc3339 (tr_updated_at r)))].

Definition list_templates : M (result ApiResponse AppError) :=
  let? rows := TemplateStore.list_templates in
  st_ret (Ok (json_response 200 (JObj [("templates", JArr (map template_summary rows))]))).

Definition get_template (event_type : string) : M (result ApiResponse AppError) :=
  let? rows := TemplateStore.get event_type in
  match rows with
  | [] => st_ret (Err (AppError.NotFound ("No template found for event type '" +:+ event_type +:+ "'")))
  | _ => st_ret (Ok (json_response 200 (JObj [("templates", JArr (map template_full rows))])))
  end.

Definition must_not_be_empty (field value : string) : result unit AppError :=
  if is_empty_str value then Err (permanent_mailer ("'" +:+ field +:+ "' must not be empty")) else Ok tt.

Definition upsert_template (body : json) : M (result ApiResponse AppError) :=
  let? event_type := st_ret (trimmed_field "event_type" body) in
  let channel := trim (default "email" (str_field "channel" body)) in
  let? subject := st_ret (trimmed_field "subject" body) in
  let? body_html := st_ret (trimmed_field "body_html" body) in
  let? body_text := st_ret (trimmed_field "body_text" body) in
  let active := default true (match json_get "active" body with Some v => as_bool v | None => None end) in
  let? _ := st_ret (must_not_be_empty "event_type" event_type) in
  let? _ := st_ret (must_not_be_empty "channel" channel) in
  let? _ := st_ret (must_not_be_empty "subject" subject) in
  let? row := TemplateStore.upsert event_type channel subject body_html body_text active in
  let '(version, inserted) := row in
  st_ret (Ok (json_response (if (inserted : bool) then 201 else 200) (JObj [
    ("event_type", JStr event_type);
    ("channel", JStr channel);
    ("version", json_int version);
    ("active", JBool active);
    ("inserted", JBool inserted)]))).

Definition patch_template (event_type : string) (body : json) : M (result ApiResponse AppError) :=
  let channel := trim (default "email" (str_field "channel" body)) in
  let active := match json_get "active" body with Some v => as_bool v | None => None end in
  let? row := TemplateStore.patch event_type channel (str_field "subject" body)
                (str_field "body_html" body) (str_field "body_text" body) active in
  match row with
  | None =>
      st_ret (Err (AppError.NotFound ("No template found for event type '" +:+ event_type
                     +:+ "' channel '" +:+ channel +:+ "'")))
  | Some (version, active) =>
      st_ret (Ok (json_response 200 (JObj [
        ("event_type", JStr event_type);
        ("channel", JStr channel);
        ("version", json_int version);
        ("active", JBool active)])))
  end.

Definition invalidate_template_cache (event_type : string) : M ApiResponse :=
  TemplateStore.invalidate event_type ;;! st_ret NO_CONTENT.

Definition invalidate_all_template_cache : M ApiResponse :=
  TemplateStore.invalidate_all ;;! st_ret NO_CONTENT.

(** ** Block list endpoints *)

Definition entry_json (e : BlockListEntry) : json :=
  JObj [("id", json_int (bl_id e)); ("kind", JStr (bl_kind e)); ("value", JStr (bl_value e));
        ("reason", json_opt_str (bl_reason e)); ("createdAt", JStr (rfc3339 (bl_created_at e)))].

Definition list_blocklist : M (result ApiResponse AppError) :=
  let? entries := BlockList.list_entries in
  st_ret (Ok (json_response 200 (JObj [("entries", JArr (map entry_json entries))]))).

Definition valid_kinds : list string :=
  ["blocked_email"; "blocked_domain"; "allowed_email"; "allowed_domain"].

Definition check_entry (kind value : string) : result unit AppError :=
  if String.eqb kind "blocked_email" || String.eqb kind "allowed_email"
  then if is_valid_email value then Ok tt
       else Err (permanent_mailer ("'" +:+ value +:+ "' is not a valid email address for kind '"
                   +:+ kind +:+ "'"))
  else if contains_char "@" value || negb (contains_char "." value)
       then Err (permanent_mailer ("'" +:+ value +:+ "' is not a valid domain for kind '" +:+ kind
                   +:+ "' (expected format: 'example.com')"))
       else Ok tt.

Definition add_blocklist_entry (body : json) : M (result ApiResponse AppError) :=
  let? kind := st_ret (require_field "kind" body) in
  let? value := st_ret (require_field "value" body) in
  let reason := str_field "reason" body in
  if negb (existsb (String.eqb kind) valid_kinds)
  then st_ret (Err (permanent_mailer ("invalid kind '" +:+ kind +:+ "' — must be one of: "
                      +:+ join ", " valid_kinds)))
  else
    let value := trim value in
    let? _ := st_ret (must_not_be_empty "value" value) in
    let? _ := st_ret (check_entry kind value) in
    let? entry := BlockList.add_entry kind value reason in
    st_ret (Ok (json_response 201 (entry_json entry))).

Definition remove_blocklist_entry (id : Z) : M (result ApiResponse AppError) :=
  let? _ := BlockList.remove_entry id in st_ret (Ok NO_CONTENT).

Definition invalidate_blocklist_cache : M ApiResponse :=
  BlockList.invalidate ;;! st_ret NO_CONTENT.

Definition reload_blocklist_cache : M ApiResponse :=
  BlockList.invalidate ;;!
  let! r := BlockList.list_entries in
  match r with
  | Ok entries =>
      BlockList.check "__cache_warmup__@example.com" ;;!
      st_ret (json_response 200 (JObj [("reloaded", JBool true);
                                       ("entry_count", json_nat (length entries))]))
  | Err e => st_ret (json_response 500 (JObj [("error", JStr (app_error_to_string e))]))
  end.

(** ** Sending *)

Fixpoint check_addresses (label : string) (l : list Recipient) : result unit AppError :=
  match l with
  | [] => Ok tt
  | r :: l =>
      if is_valid_email (r_email r) then check_addresses label l
      else Err (permanent_mailer ("invalid " +:+ label +:+ " email address: '" +:+ r_email r +:+ "'"))
  end.

Fixpoint check_attachments (now : DateTime) (l : list AttachmentRef) : result unit AppError :=
  match l with
  | [] => Ok tt
  | a :: l =>
      result_bind (map_err permanent_mailer (attachment_validate a now now))
        (λ _, check_attachments now l)
  end.

(** Step 1. *)
Definition validate_send (req : SendEmailRequest) : result unit AppError :=
  let email := rq_email req in
  if is_empty_str (trim (rq_event_type req))
  then Err (permanent_mailer "event_type must not be empty")
  else if match eo_recipients email with [] => true | _ => false end
  then Err (permanent_mailer "email.recipients must contain at least one entry")
  else if (as_max_recipients_per_event state <? length (eo_recipients email))%nat
  then Err (permanent_mailer ("recipient count " +:+ show_nat (length (eo_recipients email))
              +:+ " exceeds max_recipients_per_event "
              +:+ show_nat (as_max_recipients_per_event state)))
  else
    result_bind (check_addresses "recipient" (eo_recipients email)) (λ _,
    result_bind (check_addresses "cc" (eo_cc email)) (λ _,
    result_bind (check_addresses "bcc" (eo_bcc email)) (λ _,
    match eo_from_override email with
    | Some ov =>
        if is_valid_email (fo_email ov) then Ok tt
        else Err (permanent_mailer ("invalid from_override email address: '" +:+ fo_email ov +:+ "'"))
    | None => Ok tt
    end))).

Definition request_event (req : SendEmailRequest) (event_id : Uuid) (now : DateTime) :
    NotificationEvent :=
  {| ne_event_id := event_id;
     ne_timestamp := now;
     ne_event_type := rq_event_type req;
     ne_payload := rq_payload req;
     ne_metadata := mkMetadata (rq_source req);
     ne_channel_overrides := mkChannelOverrides (Some (rq_email req)) |}.

Definition send_email (req : SendEmailRequest) : M (result ApiResponse AppError) :=
  let? _ := st_ret (validate_send req) in
  let! t := next_tick in
  let now := clock t in
  let? _ := st_ret (check_attachments now (eo_attachments (rq_email req))) in
  let! event_id := (match rq_event_id req with
                    | Some id => st_ret id
                    | None => let! t := next_tick in st_ret (fresh_uuid t)
                    end) in
  let? body := st_ret (map_err (λ e, permanent_mailer ("failed to serialize event: " +:+ e))
                         (encode_event (request_event req event_id now))) in
  let? _ := publish (as_publisher state) body in
  st_ret (Ok (json_response 202 (JObj [
    ("message", JStr "Event accepted and enqueued for delivery.");
    ("eventId", JStr (uuid_str event_id));
    ("eventType", JStr (rq_event_type req))]))).

(** ** Probes *)

Definition health : ApiResponse := json_response 200 (JObj [("status", JStr "ok")]).

(** [probe_in_time] tells whether the query beat its 500 ms timeout. *)
Definition ready (probe_in_time : bool) : M ApiResponse :=
  if negb probe_in_time
  then st_ret (json_response 503 (JObj [("status", JStr "unavailable");
                 ("error", JStr "db pool acquire timed out (500ms)")]))
  else
    let! r := query (λ _ d, Ok (tt, d)) in
    st_ret (match r with
            | Ok _ => json_response 200 (JObj [("status", JStr "ready")])
            | Err (AppError.Database e) =>
                json_response 503 (JObj [("status", JStr "unavailable"); ("error", JStr e)])
            | Err e =>
                json_response 503 (JObj [("status", JStr "unavailable");
                                         ("error", JStr (app_error_to_string e))])
            end).

(** ** Middlewares ([routes.rs]) *)

(** [authorization] is the header when it is present and visible ASCII;
    [hmac key input] is HMAC-SHA256. *)
Definition bearer_auth (hmac : string → string → string) (authorization : option string)
    (next : M ApiResponse) : M ApiResponse :=
  match as_api_key state with
  | None => next
  | Some expected =>
      match match authorization with Some v => strip_prefix "Bearer " v | None => None end with
      | None =>
          st_ret (json_response 401 (JObj [("error", JStr "Authorization header missing or malformed")]))
      | Some t =>
          if negb (String.eqb (hmac expected t) (hmac expected expected))
          then st_ret (json_response 403 (JObj [("error", JStr "Invalid API key")]))
          else next
      end
  end.

Definition retry_rate_limit (next : M ApiResponse) : M ApiResponse :=
  let! t := next_tick in
  if negb (token_available t)
  then st_ret (mkApiResponse 429 [("Retry-After", "60")]
                 (Some (JObj [("error", JStr "retry rate limit exceeded — maximum 60 retries per minute")])))
  else next.

(** The stack around the two retry endpoints: authentication outside, the rate
    limit inside. *)
Definition retry_route (hmac : string → string → string) (authorization : option string)
    (handler : M (result ApiResponse AppError)) : M ApiResponse :=
  bearer_auth hmac authorization
    (retry_rate_limit (let! r := handler in st_ret (into_response r))).

(** The stack around every other protected endpoint. *)
Definition protected_route (hmac : string → string → string) (authorization : option string)
    (handler : M (result ApiResponse AppError)) : M ApiResponse :=
  bearer_auth hmac authorization (let! r := handler in st_ret (into_response r)).

End handlers.
