(* ===== verification/ReplaySpec.v ===== *)
(** * Manual retry through the API

    What the two retry endpoints do to the delivery log and to the queue:
    nothing is reset without being re-published or put back to FAILED, and the
    replayed event is addressed to the reset recipients only. *)

From S2P Require Import Prelude Order Json AppErr EmailValidation Event World Interfaces.
From S2P Require Import LogStore LogInvariant LogRetry Filter Publisher Api.

(** ** Reading an event back *)

Section reads.
Context `{Env}.

(** The rows [get_recipients_for_event] selects for a non-empty list. *)
Definition rows_for (e : Uuid) (emails : list string) (d : Db) :
    list (LogRow * option EmailDeliveryDetail) :=
  select_rows (λ r dt, event_matches e CHANNEL_EMAIL r
                       && existsb (String.eqb (joined_email r dt)) emails) d.

Lemma collect_logs_spec e rows w r w' :
  collect_logs e rows w = (r, w') →
  w' = w ∧ match r with
           | Ok logs => result_mapM (λ rd, to_log rd.1 rd.2) rows = Ok logs
           | Err _ => True
           end.
Proof.
  unfold collect_logs, st_ret. destruct (result_mapM _ rows) eqn:E.
  - destruct rows as [|x rows]; intros Heq; injection Heq as <- <-; by split.
  - destruct rows; intros Heq; injection Heq as <- <-; by split.
Qed.

Lemma read_recipients e m emails w r w' :
  email_get_recipients_for_event e (Some (m :: emails)) w = (r, w') →
  quiet w w' ∧ w_db w' = w_db w
  ∧ match r with
    | Ok logs => result_mapM (λ rd, to_log rd.1 rd.2)
        (take 500 (order_by (λ rd, lr_created_at rd.1) (rows_for e (m :: emails) (w_db w)))) = Ok logs
    | Err _ => True
    end.
Proof.
  unfold email_get_recipients_for_event. run_st.
  match goal with |- context [query ?q w] => pose proof (query_quiet q w) as Hquiet;
    destruct (query q w) as [[rows|er] w1] eqn:Hq end;
    apply query_spec in Hq as [(?&He&Hd)|(x & d & He & Hs & Hd & _)]; try done.
  - injection He as ->. injection Hs as <- <-. intros Hc. apply collect_logs_spec in Hc as [-> Hc].
    by split_and!.
  - intros [= <- <-]. by split_and!.
Qed.

Lemma read_detail e w r w' :
  email_get_event_delivery_detail e w = (r, w') → quiet w w' ∧ w_db w' = w_db w.
Proof.
  unfold email_get_event_delivery_detail. run_st.
  match goal with |- context [query ?q w] => pose proof (query_quiet q w) as Hquiet;
    destruct (query q w) as [[rows|er] w1] eqn:Hq end;
    apply query_spec in Hq as [(?&He&Hd)|(x & d & He & Hs & Hd & _)]; try done.
  - injection Hs as _ <-. destruct rows as [|[? [?|]] ?]; intros [= _ <-]; by split.
  - intros [= _ <-]. by split.
Qed.

Lemma read_event e w r w' : email_get_by_event_id e w = (r, w') → quiet w w' ∧ w_db w' = w_db w.
Proof.
  unfold email_get_by_event_id. run_st.
  match goal with |- context [query ?q w] => pose proof (query_quiet q w) as Hquiet;
    destruct (query q w) as [[rows|er] w1] eqn:Hq end;
    apply query_spec in Hq as [(?&He&Hd)|(x & d & He & Hs & Hd & _)]; try done.
  - injection Hs as _ <-. intros Hc. by apply collect_logs_spec in Hc as [-> _].
  - intros [= _ <-]. by split.
Qed.

(** The address of a joined row is the one it is keyed by. *)
Lemma joined_email_key d r :
  log_wf d → r ∈ db_log d → joined_email r (find_detail (lr_id r) (db_detail d)) = lr_recipient_id r.
Proof.
  intros [Hi _ _ Ha] Hin. unfold find_detail, joined_email.
  destruct (List.find _ _) as [x|] eqn:Hf; [|done].
  apply find_some in Hf as [Hx Hid%N.eqb_eq]. apply list_elem_of_In in Hx.
  destruct (Ha x Hx) as (r' & Hr' & Hid' & ->). f_equal.
  assert (lr_id r' = lr_id r) as Heq by congruence. clear -Hi Hin Hr' Heq.
  induction (db_log d) as [|y l IH]; [by apply not_elem_of_nil in Hin|].
  simpl in Hi. apply NoDup_cons in Hi as [Hy Hi].
  assert (Hno : ∀ z, z ∈ l → lr_id z ≠ lr_id y).
  { intros z Hz Hzy. apply Hy. apply list_elem_of_fmap. by exists z. }
  apply elem_of_cons in Hin as [->|Hin]; apply elem_of_cons in Hr' as [->|Hr']; try done; [..|by apply IH].
  - exfalso. by apply (Hno r').
  - exfalso. by apply (Hno r).
Qed.

Lemma rows_for_elem d e emails rd :
  log_wf d →
  rd ∈ rows_for e emails d ↔
  rd.2 = find_detail (lr_id rd.1) (db_detail d) ∧ rd.1 ∈ db_log d
  ∧ lr_event_id rd.1 = e ∧ lr_channel rd.1 = CHANNEL_EMAIL ∧ lr_recipient_id rd.1 ∈ emails.
Proof.
  intros Hwf. unfold rows_for, select_rows. rewrite list_elem_of_filter, list_elem_of_fmap.
  assert (Hex : ∀ x : string, existsb (String.eqb x) emails = true ↔ x ∈ emails).
  { intros x. rewrite existsb_exists. setoid_rewrite String.eqb_eq. setoid_rewrite <- list_elem_of_In.
    naive_solver. }
  unfold event_matches. rewrite !andb_true_iff, N.eqb_eq, String.eqb_eq, Hex. split.
  - intros [[[? ?] Hj] (r & -> & Hin)]. simpl in *. rewrite joined_email_key in Hj by done. done.
  - destruct rd as [r x]. simpl. intros (-> & Hin & ? & ? & ?).
    rewrite joined_email_key by done. split; [done|]. by exists r.
Qed.

Lemma rows_for_keys d e emails :
  log_wf d → NoDup (map (λ rd, lr_recipient_id rd.1) (rows_for e emails d)).
Proof.
  intros Hwf. unfold rows_for, select_rows.
  assert (Hall : ∀ rd, rd ∈ rows_for e emails d → lr_event_id rd.1 = e ∧ lr_channel rd.1 = CHANNEL_EMAIL).
  { intros rd Hrd. by apply rows_for_elem in Hrd as (_ & _ & ? & ? & _). }
  unfold rows_for, select_rows in Hall. pose proof (wf_keys d Hwf) as Hk. clear Hwf.
  revert Hk Hall. induction (db_log d) as [|r l IH]; intros Hk Hall; [constructor|].
  simpl in Hk. apply NoDup_cons in Hk as [Hr Hk]. cbn [map] in *. rewrite filter_cons in *.
  case_decide as Hp; [|by apply IH]. simpl. constructor.
  - intros (rd & Heq & Hrd)%list_elem_of_fmap.
    destruct (Hall rd) as [He Hc]; [by constructor|]. destruct (Hall _ (list_elem_of_here _ _)) as [He' Hc'].
    apply list_elem_of_filter in Hrd as [_ (y & -> & Hy)%list_elem_of_fmap]. simpl in *.
    apply Hr, list_elem_of_fmap. exists y. split; [|done]. unfold row_key. congruence.
  - apply IH; [done|]. intros rd Hrd. apply Hall. by constructor.
Qed.

End reads.

(** ** The replayed event *)

Section replay.
Context `{Env, WireCodec}.
Context (state : ApiState).

(** Every listed address has a PENDING row of the event. *)
Definition all_pending (e : Uuid) (emails : list string) (d : Db) : Prop :=
  ∀ m, m ∈ emails → ∃ r, r ∈ db_log d ∧ key_matches e CHANNEL_EMAIL m r = true ∧ lr_status r = "PENDING".

(** Each listed address once, nothing else; all of them when the read was not cut off. *)
Definition addressed_to (emails : list string) (rs : list Recipient) : Prop :=
  NoDup (map r_email rs)
  ∧ (∀ m, m ∈ map r_email rs → m ∈ emails)
  ∧ ((length emails <= 500)%nat → ∀ m, m ∈ emails → m ∈ map r_email rs).

Lemma row_unique d r r' :
  log_wf d → r ∈ db_log d → r' ∈ db_log d → row_key r = row_key r' → r = r'.
Proof.
  intros [_ Hk _ _] Hr Hr' Heq. induction (db_log d) as [|y l IH]; [by apply not_elem_of_nil in Hr|].
  simpl in Hk. apply NoDup_cons in Hk as [Hy Hk].
  assert (Hno : ∀ z, z ∈ l → row_key z ≠ row_key y).
  { intros z Hz Hzy. apply Hy. apply list_elem_of_fmap. by exists z. }
  apply elem_of_cons in Hr as [->|Hr]; apply elem_of_cons in Hr' as [->|Hr']; try done; [..|by apply IH].
  - exfalso. by apply (Hno r').
  - exfalso. by apply (Hno r).
Qed.

Lemma pending_row e emails d rd :
  log_wf d → all_pending e emails d → rd ∈ rows_for e emails d → lr_status rd.1 = "PENDING".
Proof.
  intros Hwf Hp (_ & Hin & He & Hc & Hm)%rows_for_elem; [|done].
  destruct (Hp _ Hm) as (r & Hr & [Hch Hk]%key_matches_iff & Hst).
  replace rd.1 with r; [done|]. apply (row_unique d); [done..|].
  unfold row_key. injection Hk as -> ->. by rewrite Hch, Hc, He.
Qed.

(** Nothing is filtered out of the rows read. *)
Lemma replay_recipients_rows e emails d rows logs :
  log_wf d → all_pending e emails d → rows ⊆ rows_for e emails d →
  result_mapM (λ rd, to_log rd.1 rd.2) rows = Ok logs →
  map r_email (replay_recipients logs (Some emails)) = map (λ rd, lr_recipient_id rd.1) rows.
Proof.
  intros Hwf Hp Hsub Hm%result_mapM_Ok. unfold replay_recipients. rewrite map_map.
  induction Hm as [|rd l rows logs Hl Hm IH]; [done|].
  assert (Hrd : rd ∈ rows_for e emails d) by (apply Hsub; constructor).
  pose proof (pending_row _ _ _ _ Hwf Hp Hrd) as Hst.
  apply rows_for_elem in Hrd as (Hd & Hin & _ & _ & Hmem); [|done].
  unfold to_log in Hl. rewrite Hst in Hl. injection Hl as <-. rewrite filter_cons.
  rewrite decide_True.
  - simpl. rewrite Hd, joined_email_key by done. f_equal. apply IH. set_solver.
  - unfold wanted. simpl. rewrite Hd, joined_email_key by done.
    apply existsb_exists. exists (lr_recipient_id rd.1). rewrite <- list_elem_of_In.
    by rewrite String.eqb_refl.
Qed.

Lemma rows_for_length d e emails :
  log_wf d → (length (rows_for e emails d) <= length emails)%nat.
Proof.
  intros Hwf. rewrite <- (length_map (λ rd, lr_recipient_id rd.1)).
  apply submseteq_length, NoDup_submseteq; [by apply rows_for_keys|].
  intros m (rd & -> & Hrd)%list_elem_of_fmap. by apply rows_for_elem in Hrd as (_ & _ & _ & _ & ?).
Qed.

Lemma replay_addresses e emails d logs :
  log_wf d → all_pending e emails d →
  result_mapM (λ rd, to_log rd.1 rd.2)
    (take 500 (order_by (λ rd, lr_created_at rd.1) (rows_for e emails d))) = Ok logs →
  addressed_to emails (replay_recipients logs (Some emails)).
Proof.
  intros Hwf Hp Hm.
  set (sorted := order_by (λ rd, lr_created_at rd.1) (rows_for e emails d)) in *.
  assert (Hperm : sorted ≡ₚ rows_for e emails d) by apply order_by_perm.
  assert (Hsub : take 500 sorted ⊆ rows_for e emails d).
  { intros rd Hrd. rewrite <- Hperm. by apply (subseteq_take 500). }
  unfold addressed_to. rewrite (replay_recipients_rows e emails d _ logs Hwf Hp Hsub Hm).
  split_and!.
  - apply (sublist_NoDup _ (map (λ rd, lr_recipient_id rd.1) sorted)).
    + rewrite Hperm. by apply rows_for_keys.
    + rewrite <- firstn_map. apply sublist_take.
  - intros m (rd & -> & Hrd)%list_elem_of_fmap. apply Hsub in Hrd.
    by apply rows_for_elem in Hrd as (_ & _ & _ & _ & ?).
  - intros Hlen m Hin. rewrite take_ge.
    + destruct (Hp m Hin) as (r & Hr & [Hch [= He Hrid]]%key_matches_iff & _).
      apply list_elem_of_fmap. exists (r, find_detail (lr_id r) (db_detail d)). split; [done|].
      rewrite Hperm. apply rows_for_elem; [done|]. simpl. by rewrite Hrid.
    + rewrite Hperm. etransitivity; [by apply rows_for_length|done].
Qed.

Lemma result_bind_Ok {A B E} (r : result A E) (f : A → result B E) b :
  result_bind r f = Ok b → ∃ a, r = Ok a ∧ f a = Ok b.
Proof. destruct r; simpl; [eauto|done]. Qed.

Lemma replay_options_spec detail raw rs opts :
  replay_options detail raw rs = Ok opts → eo_recipients opts = rs ∧ eo_send_at opts = None.
Proof.
  unfold replay_options. intros Hrun.
  do 6 (apply result_bind_Ok in Hrun as (? & _ & Hrun)). by injection Hrun as <-.
Qed.

Lemma replay_event_spec e only logs detail raw ev :
  replay_event state e only logs detail raw = Ok ev →
  ne_event_id ev = e
  ∧ ∃ opts, co_email (ne_channel_overrides ev) = Some opts ∧ eo_send_at opts = None
            ∧ eo_recipients opts = replay_recipients logs only.
Proof.
  unfold replay_event. destruct (match replay_recipients logs only with [] => _ | _ => _ end); [done|].
  intros (opts & Ho & Hrun)%result_bind_Ok. apply result_bind_Ok in Hrun as ([] & _ & Hrun).
  destruct (is_null _); [done|]. injection Hrun as <-.
  apply replay_options_spec in Ho as [? ?]. split; [done|]. by exists opts.
Qed.

Lemma check_expiry_only raw ts w :
  w_db (check_expiry raw ts w).2 = w_db w ∧ w_amqp (check_expiry raw ts w).2 = w_amqp w.
Proof. unfold check_expiry. by destruct (as_array raw). Qed.

(** A frame that replays event [e] to [emails]. *)
Definition replayed (e : Uuid) (emails : list string) (f : AmqpFrame) : Prop :=
  ∃ ev opts body, f = frame_of (as_publisher state) body ∧ encode_event ev = Ok body
    ∧ ne_event_id ev = e ∧ co_email (ne_channel_overrides ev) = Some opts
    ∧ eo_send_at opts = None ∧ addressed_to emails (eo_recipients opts).

(** One such frame on success, at most one on failure, besides what opening a
    connection writes. *)
Definition frames_after (e : Uuid) (emails : list string) (ok : bool) (w w' : World) : Prop :=
  (∃ f, replayed e emails f ∧ written (as_publisher state) 2 [f] w w')
  ∨ (ok = false ∧ written (as_publisher state) 2 [] w w').

Lemma frames_after_from e emails ok w v w' :
  w_amqp w = w_amqp v → frames_after e emails ok w w' → frames_after e emails ok v w'.
Proof.
  intros Ha [(f & ? & Hf)|[-> Hf]]; [left; exists f; split; [done|]|right; split; [done|]];
    by apply (written_from _ _ _ w).
Qed.

Lemma frames_after_onto e emails ok w w' v :
  w_amqp v = w_amqp w' → frames_after e emails ok w w' → frames_after e emails ok w v.
Proof. unfold frames_after, written. by intros ->. Qed.

Lemma frames_after_nothing e emails w w' : w_amqp w' = w_amqp w → frames_after e emails false w w'.
Proof. intros Ha. right. split; [done|by apply written_nothing]. Qed.

Lemma republish_spec e m ms w r w' :
  log_wf (w_db w) → all_pending e (m :: ms) (w_db w) →
  republish_event state e (Some (m :: ms)) w = (r, w') →
  w_db w' = w_db w ∧ frames_after e (m :: ms) (is_ok r) w w'.
Proof.
  intros Hwf Hp. unfold republish_event, publish_replay, st_try.
  destruct (get_recipients_for_event e (Some (m :: ms)) w) as [[logs|er] w1] eqn:E1;
    apply read_recipients in E1 as ((_ & Ha1 & _) & Hd1 & Hlogs);
    [|intros [= <- <-]; split; [done|by apply frames_after_nothing]].
  destruct (get_event_delivery_detail e w1) as [[detail|er] w2] eqn:E2;
    apply read_detail in E2 as ((_ & Ha2 & _) & Hd2); rewrite Ha1 in Ha2; rewrite Hd1 in Hd2;
    [|intros [= <- <-]; split; [done|by apply frames_after_nothing]].
  unfold st_ret at 1. destruct (check_stored_from _); [|intros [= <- <-]; split; [done|by apply frames_after_nothing]].
  match goal with |- context [check_expiry ?raw ?ts w2] =>
    pose proof (check_expiry_only raw ts w2) as [Hd3 Ha3]; destruct (check_expiry raw ts w2) as [[[]|er] w3] end;
    simpl in Hd3, Ha3; rewrite Hd2 in Hd3; rewrite Ha2 in Ha3;
    [|intros [= <- <-]; split; [done|by apply frames_after_nothing]].
  unfold st_ret at 1. destruct (replay_event _ _ _ _ _ _) as [ev|er] eqn:Eev;
    [|intros [= <- <-]; split; [done|by apply frames_after_nothing]].
  unfold st_ret at 1. destruct (encode_event ev) as [body|er] eqn:Eb; simpl;
    [|intros [= <- <-]; split; [done|by apply frames_after_nothing]].
  intros Hpub. apply publish_spec in Hpub as ((Hd4 & _) & Hr). rewrite Hd4, Hd3. split; [done|].
  apply replay_event_spec in Eev as (He & opts & Ho & Hs & Hrs).
  assert (Hf : replayed e (m :: ms) (frame_of (as_publisher state) body)).
  { exists ev, opts, body. split_and!; try done. rewrite Hrs. by apply (replay_addresses e _ (w_db w)). }
  apply (frames_after_from _ _ _ w3); [done|]. destruct r as [[]|er].
  - left. exists (frame_of (as_publisher state) body). by destruct Hr as [? _].
  - destruct Hr as [[?|?] _]; [by right|]. left. by eexists.
Qed.

(** ** Compensation *)

Definition abort_reason (err : AppError) : string :=
  "manual retry aborted: re-enqueue failed: " +:+ app_error_to_string err.

Definition aborted_cell (err : AppError) (c : Cell) : Cell :=
  mkCell "FAILED" 0 (c_total_attempts c) (Some (abort_reason err)).

(** The cells [sel] selects were reset; on failure they are FAILED again,
    unless the database failed too. *)
Definition retried (sel : Key → Cell → bool) (r : result ApiResponse AppError) (w w' : World) : Prop :=
  match r with
  | Ok resp => rs_status resp = 202 ∧ reworked sel reset_cell w w'
  | Err err =>
      reworked sel (aborted_cell err) w w'
      ∨ (reworked sel reset_cell w w' ∧ ∃ t m, db_err t = Some m)
      ∨ email_cells w' = email_cells w
  end.

Lemma revert_failure e rids reason w er w' :
  email_revert_to_failed e rids reason w = (Err er, w') →
  w_db w' = w_db w ∧ ∃ t m, db_err t = Some m.
Proof.
  unfold email_revert_to_failed, query, next_tick. run_st.
  destruct (db_err (w_tick w)) as [m|] eqn:E; [|done]. intros [= _ <-]. split; [done|by eauto].
Qed.

Lemma revert_amqp e rids reason w : w_amqp (email_revert_to_failed e rids reason w).2 = w_amqp w.
Proof. apply (query_quiet _ w). Qed.

Lemma republish_or_revert_spec (sel : Key → Cell → bool) e m ms w0 w r w' :
  log_wf (w_db w) → all_pending e (m :: ms) (w_db w) →
  reworked sel reset_cell w0 w →
  (∀ k c, email_cells w0 !! k = Some c → sel k c = true → k.1 = e ∧ k.2 ∈ m :: ms) →
  (∀ k c, email_cells w0 !! k = Some c → k.1 = e → k.2 ∈ m :: ms → sel k c = true) →
  republish_or_revert state e (m :: ms) w = (r, w') →
  frames_after e (m :: ms) (is_ok r) w w'
  ∧ match r with
    | Ok _ => w_db w' = w_db w
    | Err err => reworked sel (aborted_cell err) w0 w'
                 ∨ (reworked sel reset_cell w0 w' ∧ ∃ t m, db_err t = Some m)
    end.
Proof.
  intros Hwf Hp Hre Hsel Hall. unfold republish_or_revert, st_bind at 1.
  destruct (republish_event state e (Some (m :: ms)) w) as [[[]|err] w1] eqn:E1;
    apply republish_spec in E1 as (Hd & Hf); try done.
  { intros [= <- <-]. done. }
  unfold st_bind. change revert_to_failed with email_revert_to_failed.
  pose proof (revert_amqp e (m :: ms) (abort_reason err) w1) as Ha. unfold abort_reason in Ha.
  destruct (email_revert_to_failed _ _ _ w1) as [rv w2] eqn:Erv. simpl in Ha.
  unfold st_ret. intros [= <- <-]. split.
  { by apply (frames_after_onto _ _ _ _ w1). }
  destruct rv as [n|er].
  - left. intros k. rewrite (revert_cells _ _ _ _ _ _ _ Erv).
    assert (email_cells w1 = email_cells w) as -> by (unfold email_cells; by rewrite Hd).
    rewrite Hre. destruct (email_cells w0 !! k) as [c|] eqn:Ek; [|done]. simpl. f_equal.
    destruct (sel k c) eqn:Es.
    + destruct (Hsel _ _ Ek Es) as [-> Hin]. rewrite N.eqb_refl. simpl.
      replace (String.eqb (k.2) m || existsb (String.eqb k.2) ms) with true; [done|].
      symmetry. apply (existsb_exists _ (m :: ms)). exists k.2. rewrite <- list_elem_of_In.
      by rewrite String.eqb_refl.
    + destruct (N.eqb_spec k.1 e) as [He|]; [|done].
      destruct (String.eqb k.2 m || existsb (String.eqb k.2) ms) eqn:Ex; [|done].
      apply (existsb_exists _ (m :: ms)) in Ex as (y & Hy & <-%String.eqb_eq).
      apply list_elem_of_In in Hy. rewrite (Hall k c Ek He Hy) in Es. done.
  - right. apply revert_failure in Erv as [Hd2 Ht]. split; [|done]. intros k.
    unfold email_cells at 1. rewrite Hd2, Hd. apply Hre.
Qed.

(** ** The endpoints *)

Lemma pending_rows e emails w :
  (∀ m, m ∈ emails → ∃ c, email_cells w !! (e, m) = Some c ∧ c_status c = "PENDING") →
  all_pending e emails (w_db w).
Proof.
  intros Hc m (c & Hl & Hst)%Hc. unfold email_cells in Hl. rewrite log_cells_find in Hl.
  destruct (List.find _ _) as [r|] eqn:Hf; [|done]. injection Hl as <-.
  apply find_some in Hf as [Hin Hk]. exists r. by rewrite list_elem_of_In.
Qed.

Lemma rejected_retry sel err e emails w w' :
  w_db w' = w_db w → w_amqp w' = w_amqp w →
  retried sel (Err err) w w' ∧ frames_after e emails false w w'.
Proof.
  intros Hd Ha. split; [|by apply frames_after_nothing]. right. right. unfold email_cells. by rewrite Hd.
Qed.

Lemma retry_recipient_spec e rid w :
  log_wf (w_db w) →
  let '(r, w') := retry_recipient state e rid w in
  retried (retryable_row e rid) r w w'
  ∧ frames_after e [rid] (is_ok r) w w'
  ∧ (is_ok r = true → ∃ c, email_cells w !! (e, rid) = Some c ∧ can_retry c = true).
Proof.
  intros Hwf. unfold retry_recipient. destruct (is_valid_email rid); simpl.
  2: { split_and!; [by right; right|by apply frames_after_nothing|done]. }
  unfold st_try at 1. change reset_for_retry with email_reset_for_retry.
  pose proof (run_op_evolves (OpReset e rid) w) as (_ & _ & Hwf1). specialize (Hwf1 Hwf). simpl in Hwf1.
  assert (Ha1 : w_amqp (email_reset_for_retry e rid w).2 = w_amqp w).
  { apply (keeps_try quiet (query _) _ (query_quiet _)). intros n. unfold require_row.
    by destruct (n =? 0); intros ?. }
  destruct (email_reset_for_retry e rid w) as [[[]|err] w1] eqn:E1; simpl in Hwf1, Ha1;
    apply reset_one_spec in E1; try done.
  2: { destruct (rejected_retry (retryable_row e rid) err e [rid] w w1 E1 Ha1) as [? ?].
       by split_and!. }
  destruct E1 as ((c & Hc & Hcan) & Hre). unfold st_try, st_ret.
  destruct (republish_or_revert state e [rid] w1) as [r w2] eqn:E2.
  apply (republish_or_revert_spec (retryable_row e rid) _ _ _ w) in E2 as [Hf Hr]; try done.
  - apply (frames_after_from _ _ _ _ w) in Hf; [|done]. destruct r as [[]|err]; simpl in *.
    + split_and!; [done|intros k; unfold email_cells at 1; rewrite Hr; apply Hre|done|by eauto].
    + split_and!; [by destruct Hr; [left|right; left]|done|done].
  - apply pending_rows. intros m ->%list_elem_of_singleton. exists (reset_cell c).
    rewrite Hre, Hc. simpl. unfold retryable_row. rewrite bool_decide_true by done. by rewrite Hcan.
  - unfold retryable_row. intros k c' _ [->%bool_decide_eq_true _]%andb_prop. split; [done|constructor].
  - intros [k1 k2] c' Hk. simpl. intros -> ->%list_elem_of_singleton.
    rewrite Hc in Hk. injection Hk as <-. unfold retryable_row. by rewrite bool_decide_true.
Qed.

(** C13: retrying one recipient either resets exactly its FAILED or BLOCKED row
    and publishes one message for this event addressed to nobody else, or
    reports an error and leaves the row FAILED with the reason or the log as it
    was (unless the database itself failed); no other row is ever touched and
    at most one message is written. *)
Theorem retry_recipient_outcome e rid w :
  log_wf (w_db w) →
  let '(r, w') := retry_recipient state e rid w in
  retried (retryable_row e rid) r w w'
  ∧ frames_after e [rid] (is_ok r) w w'
  ∧ (is_ok r = true → ∃ c, email_cells w !! (e, rid) = Some c ∧ can_retry c = true).
Proof. apply retry_recipient_spec. Qed.

Lemma failed_row_iff e k c : failed_row e k c = true ↔ k.1 = e ∧ c_status c = "FAILED".
Proof. unfold failed_row. by rewrite andb_true_iff, N.eqb_eq, String.eqb_eq. Qed.

(** Nothing FAILED: nothing is reset, and the error tells why. *)
Lemma nothing_failed_spec e w w1 :
  email_cells w1 = email_cells w → w_amqp w1 = w_amqp w →
  let '(r, w2) := (let? logs := get_by_event_id e in
    if existsb is_skipped logs
    then st_ret (Err (permanent_mailer ("Event " +:+ uuid_str e
           +:+ " was skipped at validation time (no email channel, empty recipients, or recipient count exceeded limit) and cannot be retried. The publisher must re-publish a corrected event.")))
    else st_ret (Err (AppError.NotFound ("No FAILED recipients for event " +:+ uuid_str e)))) w1 in
  is_ok (A := ApiResponse) r = false ∧ email_cells w2 = email_cells w ∧ w_amqp w2 = w_amqp w.
Proof.
  intros Hc Ha. unfold st_try. destruct (get_by_event_id e w1) as [r w2] eqn:E2.
  apply read_event in E2 as ((_ & Ha2 & _) & Hd2). rewrite Ha in Ha2.
  assert (email_cells w2 = email_cells w) by (unfold email_cells in *; by rewrite Hd2).
  destruct r as [logs|err]; [by destruct (existsb is_skipped logs)|done].
Qed.

Lemma retry_event_spec e w :
  log_wf (w_db w) →
  let '(r, w') := retry_event state e w in
  let failed m := ∃ c, email_cells w !! (e, m) = Some c ∧ c_status c = "FAILED" in
  retried (failed_row e) r w w'
  ∧ ∃ emails : list string, frames_after e emails (is_ok r) w w'
    ∧ (∀ m, m ∈ emails → failed m) ∧ (is_ok r = true → ∀ m, failed m → m ∈ emails).
Proof.
  intros Hwf. unfold retry_event, st_try at 1.
  change reset_all_failed_for_event with email_reset_all_failed_for_event.
  pose proof (run_op_evolves (OpResetAll e) w) as (_ & _ & Hwf1). specialize (Hwf1 Hwf). simpl in Hwf1.
  assert (Ha1 : w_amqp (email_reset_all_failed_for_event e w).2 = w_amqp w) by apply (query_quiet _ w).
  destruct (email_reset_all_failed_for_event e w) as [[rids|err] w1] eqn:E1; simpl in Hwf1, Ha1;
    apply reset_all_spec in E1; try done.
  2: { destruct (rejected_retry (failed_row e) err e [] w w1 E1 Ha1) as [? ?].
       split; [done|]. exists []. split_and!; [done| |done]. intros m Hm. by apply not_elem_of_nil in Hm. }
  destruct E1 as [Hrids Hre]. destruct rids as [|m ms].
  - assert (Hsame : email_cells w1 = email_cells w).
    { apply map_eq. intros k. rewrite Hre. destruct (email_cells w !! k) as [c|] eqn:Ek; [|done].
      simpl. destruct (failed_row e k c) eqn:Ef; [|done]. apply failed_row_iff in Ef as [<- Hst].
      exfalso. apply (not_elem_of_nil k.2), Hrids. exists c. by destruct k. }
    pose proof (nothing_failed_spec e w w1 Hsame Ha1) as Hno.
    match type of Hno with let '(_, _) := ?m in _ => destruct m as [r w2] end.
    destruct Hno as (Hok & Hc2 & Ha2). destruct r as [|err]; [done|].
    split; [by right; right|]. exists []. split_and!; [by apply frames_after_nothing| |done].
    intros m Hm. by apply not_elem_of_nil in Hm.
  - unfold st_try, st_ret. destruct (republish_or_revert state e (m :: ms) w1) as [r w2] eqn:E2.
    apply (republish_or_revert_spec (failed_row e) _ _ _ w) in E2 as [Hf Hr]; try done.
    + apply (frames_after_from _ _ _ _ w) in Hf; [|done]. destruct r as [[]|err]; simpl in *.
      * split; [split; [done|intros k; unfold email_cells at 1; rewrite Hr; apply Hre]|].
        exists (m :: ms). split_and!; [done|by intros x ?%Hrids|by intros _ x ?%Hrids].
      * split; [by destruct Hr; [left|right; left]|].
        exists (m :: ms). split_and!; [done|by intros x ?%Hrids|done].
    + apply pending_rows. intros x (c & Hc & Hst)%Hrids. exists (reset_cell c).
      rewrite Hre, Hc. simpl. replace (failed_row e (e, x) c) with true; [done|].
      symmetry. by apply failed_row_iff.
    + intros k c Hk [<- Hst]%failed_row_iff. split; [done|]. apply Hrids. exists c. by destruct k.
    + intros k c Hk He Hin. apply Hrids in Hin as (c' & Hc' & Hst). apply failed_row_iff.
      split; [done|]. destruct k as [k1 k2]. simpl in *. congruence.
Qed.

(** C14: the bulk retry resets exactly the FAILED rows of the event and publishes
    one message addressed to those recipients, each once (to all of them up to
    the 500 rows a read returns; any further rows stay PENDING), or reports an error and leaves every one of
    them FAILED with the reason or the log as it was (unless the database
    itself failed); rows in any other state are never touched. *)
Theorem retry_event_outcome e w :
  log_wf (w_db w) →
  let '(r, w') := retry_event state e w in
  let failed m := ∃ c, email_cells w !! (e, m) = Some c ∧ c_status c = "FAILED" in
  retried (failed_row e) r w w'
  ∧ ∃ emails : list string, frames_after e emails (is_ok r) w w'
    ∧ (∀ m, m ∈ emails → failed m) ∧ (is_ok r = true → ∀ m, failed m → m ∈ emails).
Proof. apply retry_event_spec. Qed.

End replay.

(** ** Concrete retries *)

Definition sample_state : ApiState :=
  mkApiState sample_publisher None (mkRecipientFilter ∅ ∅ ∅ ∅ false) 500.

(** The broker is down for good. *)
Definition no_broker : Env :=
  vary_amqp acking (λ _, Some "connection refused") (λ _, Some "connection closed").

Lemma failed_world_wf : log_wf (w_db failed_world).
Proof.
  apply (store_run_evolves (H := sample_env) (world0 empty_db) failed_world); [|apply log_wf_empty].
  eapply rtc_l; [eexists; reflexivity|]. apply rtc_once. eexists. reflexivity.
Qed.

Lemma retry_recipient_outcome_witness :
  let '(r, w') := retry_recipient (H := sample_env) (H0 := EmailNotificationStore (H := sample_env)) sample_state 7 "a@example.com" failed_world in
  retried (H := sample_env) (retryable_row 7 "a@example.com") r failed_world w'
  ∧ frames_after sample_state 7 ["a@example.com"] (is_ok r) failed_world w'
  ∧ (is_ok r = true →
     ∃ c, email_cells failed_world !! (7%N, "a@example.com") = Some c ∧ can_retry c = true).
Proof. apply (retry_recipient_outcome (H := sample_env)), failed_world_wf. Defined.

Lemma retry_event_outcome_witness :
  let '(r, w') := retry_event (H := no_broker) (H0 := EmailNotificationStore (H := no_broker)) sample_state 7 failed_world in
  let failed m := ∃ c, email_cells failed_world !! (7%N, m) = Some c ∧ c_status c = "FAILED" in
  retried (H := no_broker) (failed_row 7) r failed_world w'
  ∧ ∃ emails : list string, frames_after sample_state 7 emails (is_ok r) failed_world w'
    ∧ (∀ m, m ∈ emails → failed m) ∧ (is_ok r = true → ∀ m, failed m → m ∈ emails).
Proof. apply (retry_event_outcome (H := no_broker)), failed_world_wf. Defined.

(** Accepted with the broker up; with the broker down a 503, and the row can be
    retried again. *)
Example retry_up_and_down :
  let up := retry_recipient (H := sample_env) (H0 := EmailNotificationStore (H := sample_env)) sample_state 7 "a@example.com" failed_world in
  let down := retry_recipient (H := no_broker) (H0 := EmailNotificationStore (H := no_broker)) sample_state 7 "a@example.com" failed_world in
  (rs_status (into_response up.1), c_status <$> email_cells up.2 !! (7%N, "a@example.com"),
   length (w_amqp up.2)) = (202, Some "PENDING", 1%nat)
  ∧ (rs_status (into_response down.1), can_retry <$> email_cells down.2 !! (7%N, "a@example.com"),
     w_amqp down.2) = (503, Some true, []).
Proof. by vm_compute. Qed.
