(* ===== verification/ApiSpec.v ===== *)
(** * What the API promises its callers

    The direct-send endpoint, the status summary, the error statuses, the
    authentication gate and the block-list administration. *)

From S2P Require Import Prelude Order Json AppErr EmailValidation Event World Interfaces.
From S2P Require Import LogStore LogInvariant Filter BlockList Publisher Api ReplaySpec.
From S2P Require Import Delivery Settle.

Section api.
Context `{Env, NotificationStore, WireCodec}.
Context (state : ApiState).

(** ** Errors *)

(** A client error (4xx) is answered exactly for the errors the consumer
    would not retry either, a status the schema does not know excepted: what a
    caller may usefully repeat is always answered 5xx. *)
Theorem error_status_class e :
  400 ≤ error_status e < 600
  ∧ (error_status e < 500 ↔ is_retryable e = false ∧ ∀ m, e ≠ AppError.UnknownStatus m).
Proof.
  destruct e as [|m []| | | | | | | |msg]; simpl; (split; [lia|]); split;
    first [lia|intros [? Hn]; first [done|lia|by destruct (Hn msg)]|by split].
Qed.

(** ** Sending *)

Record request_ok (req : SendEmailRequest) (now : DateTime) : Prop := {
  ro_type : trim (rq_event_type req) ≠ "";
  ro_some : eo_recipients (rq_email req) ≠ [];
  ro_max : (length (eo_recipients (rq_email req)) <= as_max_recipients_per_event state)%nat;
  ro_to : Forall (λ r, email_wf (r_email r)) (eo_recipients (rq_email req));
  ro_cc : Forall (λ r, email_wf (r_email r)) (eo_cc (rq_email req));
  ro_bcc : Forall (λ r, email_wf (r_email r)) (eo_bcc (rq_email req));
  ro_from : ∀ ov, eo_from_override (rq_email req) = Some ov → email_wf (fo_email ov);
  ro_attachments : Forall (λ a, attachment_validate a now now = Ok tt) (eo_attachments (rq_email req));
}.

Lemma check_addresses_iff label l :
  match check_addresses label l with
  | Ok _ => Forall (λ r, email_wf (r_email r)) l
  | Err e => ¬ Forall (λ r, email_wf (r_email r)) l ∧ error_status e = 422
  end.
Proof.
  induction l as [|r l IH]; [constructor|]. simpl. destruct (is_valid_email (r_email r)) eqn:E.
  - apply is_valid_email_spec in E. destruct (check_addresses label l); [by constructor|].
    destruct IH as [Hn ?]. split; [|done]. by intros [_ ?]%Forall_cons.
  - split; [|done]. intros [Hr%is_valid_email_spec _]%Forall_cons. congruence.
Qed.

Lemma check_attachments_iff now l :
  match check_attachments now l with
  | Ok _ => Forall (λ a, attachment_validate a now now = Ok tt) l
  | Err e => ¬ Forall (λ a, attachment_validate a now now = Ok tt) l ∧ error_status e = 422
  end.
Proof.
  induction l as [|a l IH]; [constructor|]. simpl.
  destruct (attachment_validate a now now) as [[]|e] eqn:E; simpl.
  - destruct (check_attachments now l); [by constructor|].
    destruct IH as [Hn ?]. split; [|done]. by intros [_ ?]%Forall_cons.
  - split; [|done]. intros [? _]%Forall_cons. congruence.
Qed.

(** The pure part of the validation. *)
Lemma validate_send_iff req now :
  match validate_send state req with
  | Ok _ => Forall (λ a, attachment_validate a now now = Ok tt) (eo_attachments (rq_email req)) →
            request_ok req now
  | Err e => ¬ request_ok req now ∧ error_status e = 422
  end.
Proof.
  unfold validate_send.
  destruct (is_empty_str (trim (rq_event_type req))) eqn:E1.
  { split; [|done]. intros [Ht _ _ _ _ _ _ _]. by destruct (trim _). }
  destruct (eo_recipients (rq_email req)) as [|r rs] eqn:E2.
  { split; [|done]. intros [_ Hne _ _ _ _ _ _]. by rewrite E2 in Hne. }
  rewrite <- E2. destruct (_ <? _)%nat eqn:E3.
  { split; [|done]. intros [_ _ Hm _ _ _ _ _]. apply Nat.ltb_lt in E3. lia. }
  apply Nat.ltb_ge in E3.
  pose proof (check_addresses_iff "recipient" (eo_recipients (rq_email req))) as Hto.
  destruct (check_addresses _ _) as [[]|e1]; simpl.
  2: { destruct Hto as [Hn He]. split; [|done]. by intros [_ _ _ ? _ _ _ _]. }
  pose proof (check_addresses_iff "cc" (eo_cc (rq_email req))) as Hcc.
  destruct (check_addresses "cc" _) as [[]|e2]; simpl.
  2: { destruct Hcc as [Hn He]. split; [|done]. by intros [_ _ _ _ ? _ _ _]. }
  pose proof (check_addresses_iff "bcc" (eo_bcc (rq_email req))) as Hbcc.
  destruct (check_addresses "bcc" _) as [[]|e3]; simpl.
  2: { destruct Hbcc as [Hn He]. split; [|done]. by intros [_ _ _ _ _ ? _ _]. }
  assert (Hty : trim (rq_event_type req) ≠ "") by (intros Hx; by rewrite Hx in E1).
  destruct (eo_from_override (rq_email req)) as [ov|] eqn:E4.
  - destruct (is_valid_email (fo_email ov)) eqn:E5.
    + intros Hatt. constructor; try done; [by rewrite E2|]. intros ov'. rewrite E4. intros [= <-].
      by apply is_valid_email_spec.
    + split; [|done]. intros [_ _ _ _ _ _ Hf _]. specialize (Hf _ E4).
      apply is_valid_email_spec in Hf. congruence.
  - intros Hatt. constructor; try done; [by rewrite E2|]. intros ov'. by rewrite E4.
Qed.

(** What an accepted request put on the queue. *)
Definition enqueued (req : SendEmailRequest) (now : DateTime) (w w' : World) : Prop :=
  ∃ id body, (∀ id', rq_event_id req = Some id' → id = id')
    ∧ encode_event (request_event req id now) = Ok body
    ∧ written (as_publisher state) 2 [frame_of (as_publisher state) body] w w'.

Lemma send_email_spec req w :
  let '(r, w') := send_email state req w in
  let now := clock (w_tick w) in
  w_db w' = w_db w ∧ w_sends w' = w_sends w
  ∧ match r with
    | Ok resp => rs_status resp = 202 ∧ request_ok req now ∧ enqueued req now w w'
    | Err e =>
        (error_status e = 422 ∧ w_amqp w' = w_amqp w
         ∧ (request_ok req now → ∃ id m, encode_event (request_event req id now) = Err m))
        ∨ (error_status e = 503 ∧ request_ok req now
           ∧ (written (as_publisher state) 2 [] w w' ∨ enqueued req now w w'))
    end.
Proof.
  cbv zeta. set (now := clock (w_tick w)).
  pose proof (validate_send_iff req now) as Hv.
  pose proof (check_attachments_iff now (eo_attachments (rq_email req))) as Hatt.
  unfold send_email. unfold st_try at 1. unfold st_ret at 1.
  destruct (validate_send state req) as [[]|e]; simpl.
  2: { destruct Hv as [Hn He]. split_and!; [done..|]. left. by split_and!. }
  unfold st_bind at 1, next_tick, st_try at 1, st_ret at 1. fold now.
  destruct (check_attachments now _) as [[]|e].
  2: { destruct Hatt as [Hn He]. split_and!; [done..|]. left. split_and!; [done..|].
       by intros [_ _ _ _ _ _ _ ?]. }
  specialize (Hv Hatt). clear Hatt.
  set (draw := match rq_event_id req with Some id => st_ret id | None => _ end).
  assert (Hid : ∃ id v, draw (set_tick (S (w_tick w)) w) = (id, v)
    ∧ (∀ id', rq_event_id req = Some id' → id = id')
    ∧ w_db v = w_db w ∧ w_sends v = w_sends w ∧ w_amqp v = w_amqp w).
  { subst draw. destruct (rq_event_id req) as [id|]; do 2 eexists; (split; [reflexivity|]);
      split_and!; try done. by intros id' [= ->]. }
  destruct Hid as (id & v & Hdraw & Hid & Hd & Hs & Ha). unfold st_bind. rewrite Hdraw. clear draw Hdraw.
  unfold st_try, st_ret.
  destruct (encode_event (request_event req id now)) as [body|m] eqn:Eb; simpl.
  2: { split_and!; [done..|]. left. split_and!; [done..|]. intros _. by eauto. }
  destruct (publish (as_publisher state) body v) as [r v'] eqn:Ep.
  apply publish_spec in Ep as ((Hd' & _ & _ & Hs' & _) & Hr).
  assert (Hfrom : ∀ fs, written (as_publisher state) 2 fs v v' → written (as_publisher state) 2 fs w v').
  { intros fs. by apply written_from. }
  rewrite Hd in Hd'. rewrite Hs in Hs'. destruct r as [[]|e].
  - split_and!; [done..|]. destruct Hr as [Hr%Hfrom _]. by exists id, body.
  - destruct Hr as [Hr [m ->]]. split_and!; [done..|]. right. split_and!; [done..|].
    destruct Hr as [Hr|Hr]; apply Hfrom in Hr; [by left|]. right. by exists id, body.
Qed.

(** C29: [send_email] never touches the tables; it answers 202 only to a request
    that passes every check, having written exactly one message that carries it
    (besides the exchange, which a new connection declares, twice at most); a
    request that fails a check is answered 422 and nothing is written; any other
    failure is a serialization error (422, nothing written) or a broker error
    (503, at most one message written). *)
Theorem send_email_outcome req w :
  let '(r, w') := send_email state req w in
  let now := clock (w_tick w) in
  w_db w' = w_db w ∧ w_sends w' = w_sends w
  ∧ match r with
    | Ok resp => rs_status resp = 202 ∧ request_ok req now ∧ enqueued req now w w'
    | Err e =>
        (error_status e = 422 ∧ w_amqp w' = w_amqp w
         ∧ (request_ok req now → ∃ id m, encode_event (request_event req id now) = Err m))
        ∨ (error_status e = 503 ∧ request_ok req now
           ∧ (written (as_publisher state) 2 [] w w' ∨ enqueued req now w w'))
    end.
Proof. apply send_email_spec. Qed.

(** ** Authentication *)

(** The header is a bearer token with the key's digest. *)
Definition accepted_header (hmac : string → string → string) (key : string) (auth : option string) : Prop :=
  ∃ t, auth = Some ("Bearer " +:+ t) ∧ hmac key t = hmac key key.

(** With a key configured, a request reaches its handler exactly when its
    header is a bearer token whose digest under the key is the key's own;
    otherwise it is answered 401 or 403 and nothing changes.  The key itself
    always passes, and without a key every request does. *)
Theorem bearer_gate (hmac : string → string → string) auth next w :
  match as_api_key state with
  | None => bearer_auth state hmac auth next w = next w
  | Some key =>
      (accepted_header hmac key auth → bearer_auth state hmac auth next w = next w)
      ∧ (¬ accepted_header hmac key auth → ∃ resp, bearer_auth state hmac auth next w = (resp, w)
                              ∧ (rs_status resp = 401 ∨ rs_status resp = 403))
      ∧ bearer_auth state hmac (Some ("Bearer " +:+ key)) next w = next w
  end.
Proof.
  unfold bearer_auth. destruct (as_api_key state) as [key|]; [|done]. cbv zeta.
  assert (Hstrip : ∀ p s t, strip_prefix p s = Some t ↔ s = p +:+ t).
  { clear. induction p as [|c p IH]; intros s t; simpl.
    - split; [by intros [= ->]|]. by intros ->.
    - destruct s as [|d s]; [done|]. destruct (Ascii.eqb_spec c d) as [->|Hne].
      + rewrite IH. split; [by intros ->|]. change (String d p +:+ t) with (String d (p +:+ t)).
        by intros [= ->].
      + split; [done|]. change (String c p +:+ t) with (String c (p +:+ t)). by intros [= ->]. }
  split_and!.
  - intros (t & -> & Heq). rewrite (proj2 (Hstrip "Bearer " _ t) eq_refl), Heq. by rewrite String.eqb_refl.
  - intros Hn. destruct auth as [v|]; [|by eexists; split; [|left]].
    destruct (strip_prefix "Bearer " v) as [t|] eqn:E; [|by eexists; split; [|left]].
    apply Hstrip in E as ->. destruct (String.eqb_spec (hmac key t) (hmac key key)) as [Heq|Hne].
    + exfalso. apply Hn. by exists t.
    + eexists. split; [done|by right].
  - rewrite (proj2 (Hstrip "Bearer " _ key) eq_refl). by rewrite String.eqb_refl.
Qed.

End api.

(** ** The status summary *)

Section status.
Context `{Env, WireCodec}.

Definition statuses : list NotificationStatus :=
  [NotificationStatus.Pending; NotificationStatus.Sent; NotificationStatus.Failed;
   NotificationStatus.Blocked; NotificationStatus.Skipped].

(** Rows of the event that are in this state. *)
Definition rows_in (e : Uuid) (s : NotificationStatus) (d : Db) : nat :=
  length (selected (λ r, event_matches e CHANNEL_EMAIL r && String.eqb (lr_status r) (status_as_str s))
            (db_log d)).

Lemma counts_add_up logs :
  sum_list_with (λ s, count_status s logs) statuses = length logs.
Proof.
  unfold count_status. induction logs as [|l logs IH]; [done|]. cbn [length]. rewrite <- IH.
  unfold statuses. cbn [sum_list_with]. rewrite !filter_cons.
  destruct (nl_status l); repeat (case_decide; try done); simpl; lia.
Qed.

Lemma count_status_rows s (rows : list (LogRow * option EmailDeliveryDetail)) logs :
  result_mapM (λ rd, to_log rd.1 rd.2) rows = Ok logs →
  count_status s logs
  = length (base.filter (λ rd, lr_status rd.1 = status_as_str s) rows).
Proof.
  intros Hm%result_mapM_Ok. unfold count_status.
  induction Hm as [|rd l rows logs Hl Hm IH]; [done|]. rewrite !filter_cons.
  assert (Hst : status_try_from (lr_status rd.1) = Ok (nl_status l)).
  { unfold to_log in Hl. destruct (status_try_from (lr_status rd.1)); [|done]. by injection Hl as <-. }
  apply status_try_from_spec in Hst. rewrite Hst.
  destruct (decide (nl_status l = s)) as [<-|Hne].
  - rewrite decide_True by done. simpl. by rewrite IH.
  - rewrite decide_False; [done|]. intros Heq. apply Hne. by apply status_as_str_inj.
Qed.

Lemma selected_joined e s d :
  length (base.filter (λ rd, lr_status rd.1 = status_as_str s)
            (select_rows (λ r _, event_matches e CHANNEL_EMAIL r) d)) = rows_in e s d.
Proof.
  unfold rows_in, selected, select_rows. induction (db_log d) as [|r l IH]; [done|].
  cbn [map]. rewrite !filter_cons. simpl.
  destruct (event_matches e CHANNEL_EMAIL r); simpl.
  - rewrite filter_cons. simpl. destruct (String.eqb_spec (lr_status r) (status_as_str s)) as [Hs|Hs].
    + rewrite decide_True by done. rewrite decide_True by done. simpl. by rewrite IH.
    + rewrite decide_False by done. by rewrite decide_False.
  - exact IH.
Qed.

(** The status endpoint changes nothing and reports at most 500 rows whose
    five counts add up to the total; unless the [truncated] flag is set, each
    count is the number of the event's rows in that state. *)
Theorem status_summary_exact e w :
  let '(r, w') := get_email_status e w in
  w_db w' = w_db w
  ∧ match r with
    | Ok resp =>
        ∃ logs, resp = json_response 200 (JObj [("eventId", JStr (uuid_str e));
                         ("recipients", JArr (map status_entry logs));
                         ("summary", status_summary logs)])
          ∧ (length logs <= 500)%nat
          ∧ sum_list_with (λ s, count_status s logs) statuses = length logs
          ∧ ((length logs < 500)%nat → ∀ s, count_status s logs = rows_in e s (w_db w))
    | Err _ => True
    end.
Proof.
  unfold get_email_status, st_try. change (get_by_event_id e) with (email_get_by_event_id e).
  destruct (email_get_by_event_id e w) as [[logs|err] w1] eqn:E;
    pose proof (read_event _ _ _ _ E) as [_ Hd]; [|done].
  unfold st_ret. split; [done|]. exists logs.
  unfold email_get_by_event_id, st_try in E.
  destruct (query _ w) as [[rows|?] w2] eqn:Hq; [|done].
  apply query_spec in Hq as [(?&He&_)|(x & d & He & Hs & _ & _)]; [done|].
  injection He as ->. injection Hs as <- _. apply collect_logs_spec in E as [_ Hm].
  set (rows := select_rows _ _) in Hm.
  pose proof (order_by_perm (λ rd : LogRow * option EmailDeliveryDetail, lr_created_at rd.1) rows) as Hperm.
  set (sorted := order_by _ rows) in *.
  assert (Hlen : length logs = length (take 500 sorted)).
  { pose proof Hm as Hm2. apply result_mapM_Ok, Forall2_length in Hm2. done. }
  rewrite length_take in Hlen. split_and!; [done|lia|apply counts_add_up|].
  intros Hlt s. rewrite (count_status_rows s _ _ Hm), take_ge by lia.
  rewrite Hperm. apply selected_joined.
Qed.

End status.

(** ** Block-list administration *)

Section blocking.
Context `{Env, WireCodec}.

Lemma ascii_lower_idem c : ascii_lower (ascii_lower c) = ascii_lower c.
Proof. by destruct c as [[] [] [] [] [] [] [] []]. Qed.

Lemma to_lowercase_idem s : all_chars is_ascii s = true → to_lowercase (to_lowercase s) = to_lowercase s.
Proof.
  intros Ha. unfold to_lowercase at 2 3. rewrite Ha. unfold to_lowercase.
  assert (all_chars is_ascii (map_chars ascii_lower s) = true) as ->.
  { induction s as [|c s IH]; [done|]. simpl in *. apply andb_prop in Ha as [Hc Hs].
    rewrite IH by done. rewrite andb_true_r. revert Hc. by destruct c as [[] [] [] [] [] [] [] []]. }
  clear. induction s as [|c s IH]; [done|]. simpl. by rewrite ascii_lower_idem, IH.
Qed.

(** The stored values are in lower case, as [add_entry] writes them. *)
Definition entries_lower (d : Db) : Prop :=
  ∀ b, b ∈ db_blocks d → to_lowercase (bl_value b) = bl_value b.

Lemma sql_add_entry_active kind v reason t d b d' :
  entries_lower d → to_lowercase v = v →
  sql_add_entry kind v reason t d = Ok (b, d') → (kind, v) ∈ active_rows d'.
Proof.
  intros Hl Hv. unfold sql_add_entry. destruct (negb _); [done|]. rewrite Hv.
  assert (Hact : ∀ x l, x ∈ l → bl_active x = true →
            (bl_kind x, bl_value x) ∈ map (λ b, (bl_kind b, bl_value b)) (base.filter (λ b, bl_active b = true) l)).
  { intros x l Hx Ha. apply list_elem_of_fmap. exists x. split; [done|]. by apply list_elem_of_filter. }
  destruct (List.find _ _) as [x|] eqn:Hf.
  - apply find_some in Hf as [Hin Hsame]. intros [= <- <-]. apply list_elem_of_In in Hin.
    pose proof Hsame as Hs. unfold same_entry in Hs.
    apply andb_prop in Hs as [<-%String.eqb_eq Hval%String.eqb_eq].
    rewrite Hl in Hval by done. rewrite <- Hval in *.
    apply (Hact (reactivate reason x)); [|done]. simpl. apply list_elem_of_fmap. exists x.
    split; [|done]. by rewrite Hsame.
  - destruct (existsb _ _); [done|]. intros [= <- <-].
    apply (Hact (mkBlockListEntry (serial t) kind v reason true (clock t))); [|done].
    simpl. apply elem_of_app. right. constructor.
Qed.

(** A listed address is blocked by a check that reads the table. *)
Definition refuses (r : result unit AppError) : Prop :=
  match r with
  | Ok _ => False
  | Err e => (∃ m, e = AppError.Blocked m) ∨ ∃ m, e = AppError.Database m
  end.

Lemma listed_is_blocked email w :
  block_cache_ok w → ("blocked_email", to_lowercase email) ∈ active_rows (w_db w) →
  refuses (check email w).1.
Proof.
  intros Hok Hin. unfold check, st_try. destruct (snapshot _) as [r w2] eqn:Hsnap.
  apply snapshot_spec in Hsnap as (_ & _ & [->|[m ->]]); [|simpl; by eauto|done].
  unfold st_ret. cbn [fst].
  destruct (fold_snapshot_members (active_rows (w_db w)) empty_snapshot) as (Hb & _).
  fold (snapshot_of (w_db w)) in Hb. unfold snapshot_check.
  rewrite (proj2 (contains_true _ _)); [left; by eexists|]. apply Hb. by right.
Qed.

(** C32: once the API has accepted a blocked address, no later check lets it
    through: every spelling of it is blocked at the very next check, whatever
    was cached before, unless the database fails. *)
Theorem block_entry_effective body v email w resp w1 :
  entries_lower (w_db w) →
  str_field "kind" body = Some "blocked_email" → str_field "value" body = Some v →
  to_lowercase email = to_lowercase (trim v) →
  add_blocklist_entry body w = (Ok resp, w1) →
  rs_status resp = 201
  ∧ refuses (BlockList.check email w1).1.
Proof.
  intros Hl Hk Hval Hemail. unfold add_blocklist_entry, require_field. rewrite Hk, Hval.
  unfold st_try at 1, st_ret at 1. unfold st_try at 1, st_ret at 1. simpl negb. cbv iota zeta.
  unfold st_try at 1, st_ret at 1. destruct (must_not_be_empty _ _); [|done].
  unfold st_try at 1, st_ret at 1, check_entry. simpl orb. cbv iota.
  destruct (is_valid_email (trim v)) eqn:Hv; [|done].
  apply is_valid_email_spec, email_wf_ascii, to_lowercase_idem in Hv.
  unfold st_try, add_entry, BlockList.invalidate. run_st.
  destruct (query _ w) as [[b|e] w0] eqn:Hq; [|done].
  apply query_spec in Hq as [(?&?&_)|(b' & d & [= <-] & Hs & Hd & _)]; [done|].
  apply sql_add_entry_active in Hs; [|done..]. intros [= <- <-]. split; [done|].
  apply listed_is_blocked; [by intros s|]. rewrite Hemail. simpl. by rewrite Hd.
Qed.

End blocking.

(** ** From the API to the consumer *)

Section accepted.
Context `{Env, WireCodec, EventCodec}.
Context (state : ApiState) (cfg : ConsumerConfig).

(** The consumer decodes the events the API encodes for this request. *)
Definition reads_back (req : SendEmailRequest) : Prop :=
  ∀ id now body, encode_event (request_event req id now) = Ok body →
                 decode_delivery body = Ok (request_event req id now).

(** What [send_email] accepts the consumer will try to send: when its limit
    is no lower than the API's and it reads back the events the API writes,
    the one message of an accepted request decodes to an event the consumer
    neither rejects nor skips, with the requested options and only well-formed
    recipients. *)
Theorem accepted_event_sendable req w resp w' :
  (as_max_recipients_per_event state <= cc_max_recipients_per_event cfg)%nat →
  reads_back req →
  send_email state req w = (Ok resp, w') →
  ∃ body event, written (as_publisher state) 2 [frame_of (as_publisher state) body] w w'
    ∧ sendable cfg body event (rq_email req)
    ∧ Forall (λ r, is_valid_email (r_email r) = true) (eo_recipients (rq_email req)).
Proof.
  intros Hmax Hcodec Hrun. pose proof (send_email_spec state req w) as Hspec. rewrite Hrun in Hspec.
  destruct Hspec as (_ & _ & _ & Hok & id & body & _ & Henc & Hf).
  exists body, (request_event req id (clock (w_tick w))). split_and!; [done| |].
  - split_and!; [by apply Hcodec|done|apply Hok|]. pose proof (ro_max _ _ _ Hok). lia.
  - eapply Forall_impl; [apply (ro_to _ _ _ Hok)|]. intros r. apply is_valid_email_spec.
Qed.

End accepted.

(** ** Concrete requests *)

Definition blocked_body : json :=
  JObj [("kind", JStr "blocked_email"); ("value", JStr " Bad@Example.com ")].

Lemma block_entry_effective_witness :
  let w1 := (add_blocklist_entry (H := sample_env) blocked_body (world0 empty_db)).2 in
  201 = 201 ∧ refuses (BlockList.check (H := sample_env) "BAD@example.com" w1).1.
Proof.
  apply (block_entry_effective (H := sample_env) blocked_body " Bad@Example.com " "BAD@example.com"
           (world0 empty_db)
           (json_response 201 (entry_json (mkBlockListEntry 0 "blocked_email" "bad@example.com" None true 0)))).
  - by intros b Hb%not_elem_of_nil.
  - reflexivity.
  - reflexivity.
  - reflexivity.
  - vm_compute. reflexivity.
Defined.

Definition one_request : SendEmailRequest :=
  mkSendEmailRequest (Some 5%N) "ORDER" (JObj [])
    (mkEmailOptions SendMode.Individual GroupRetryMode.Whole RetryPolicy.Retry
       [mkRecipient "a@example.com" None] [] [] None [] None None None) None.

(** Codecs of the one event the request becomes at tick 0. *)
Definition one_event_wire : WireCodec := {|
  de_recipient := @de_recipient sample_wire_codec;
  de_from_override := @de_from_override sample_wire_codec;
  de_attachment := @de_attachment sample_wire_codec;
  de_send_mode := @de_send_mode sample_wire_codec;
  de_group_retry_mode := @de_group_retry_mode sample_wire_codec;
  de_metadata := @de_metadata sample_wire_codec;
  de_datetime := @de_datetime sample_wire_codec;
  rfc3339 t := pretty t;
  encode_event e := if N.eqb (ne_event_id e) 5 && (ne_timestamp e =? 0) then Ok "event" else Err "?";
|}.

Definition one_event_codec : EventCodec := {|
  decode_notification_event s :=
    if String.eqb s "event" then Ok (request_event one_request 5 0) else Err "?";
  decode_email_event _ := Err "?";
|}.

Lemma accepted_event_sendable_witness :
  let w' := (send_email (H := sample_env) (H1 := one_event_wire) sample_state one_request
               (world0 empty_db)).2 in
  ∃ body event, written (as_publisher sample_state) 2 [frame_of (as_publisher sample_state) body]
                  (world0 empty_db) w'
    ∧ sendable (H9 := one_event_codec) consumer_config_default body event (rq_email one_request)
    ∧ Forall (λ r, is_valid_email (r_email r) = true) (eo_recipients (rq_email one_request)).
Proof.
  eapply (accepted_event_sendable (H := sample_env) (H0 := one_event_wire) (H1 := one_event_codec)
            sample_state consumer_config_default one_request (world0 empty_db)).
  - simpl. lia.
  - intros id now body. simpl. destruct (N.eqb_spec id 5) as [->|]; [|done].
    destruct (Z.eqb_spec now 0) as [->|]; [|done]. by intros [= <-].
  - vm_compute. reflexivity.
Defined.
