(* ===== verification/Routes.v ===== *)
(** * The router of the HTTP API ([crates/api/src/routes.rs], [docs.rs])

    [build_router]: the route table with its middleware stacks, and a request's
    way to its handler.  Paths are matched as axum documents it: segment by
    segment, a literal one before a capture; the path picks the route and the
    method the handler.  The extractors' decoding is a parameter. *)

From S2P Require Import Prelude Json AppErr Event World Interfaces.
From S2P Require Import BlockList TemplateStore Publisher Api ApiSpec.

(** ** The table *)

Inductive Method : Type := GET | POST | PATCH | DELETE.

#[export] Instance Method_eq_dec : EqDecision Method.
Proof. solve_decision. Defined.

Inductive Endpoint : Type :=
  | Health | Ready
  | DocsPage | OpenApi | AsyncApi
  | SendEmail
  | GetEmailStatus
  | GetRecipientStatus
  | ListTemplates | UpsertTemplate | GetTemplate | PatchTemplate
  | InvalidateAllTemplateCache | InvalidateTemplateCache
  | ListBlocklist | AddBlocklistEntry | InvalidateBlocklistCache | ReloadBlocklistCache
  | RemoveBlocklistEntry
  | RetryEvent | RetryRecipient.

#[export] Instance Endpoint_eq_dec : EqDecision Endpoint.
Proof. solve_decision. Defined.

(** The three groups of [build_router] and the documents. *)
Inductive Stack : Type := Open | Protected | RetryLimited.

Definition probes : list (string * Method * Endpoint) :=
  [("/health", GET, Health); ("/ready", GET, Ready)].
Definition docs_routes : list (string * Method * Endpoint) :=
  [("/docs", GET, DocsPage); ("/openapi.yaml", GET, OpenApi); ("/asyncapi.yaml", GET, AsyncApi)].
Definition retry_routes : list (string * Method * Endpoint) :=
  [("/emails/{event_id}/retry", POST, RetryEvent);
   ("/emails/{event_id}/recipients/{email}/retry", POST, RetryRecipient)].
Definition protected : list (string * Method * Endpoint) :=
  [("/emails/send", POST, SendEmail);
   ("/emails/{event_id}", GET, GetEmailStatus);
   ("/emails/{event_id}/recipients/{email}", GET, GetRecipientStatus);
   ("/templates", GET, ListTemplates);
   ("/templates", POST, UpsertTemplate);
   ("/templates/{event_type}", GET, GetTemplate);
   ("/templates/{event_type}", PATCH, PatchTemplate);
   ("/template-cache", DELETE, InvalidateAllTemplateCache);
   ("/template-cache/{event_type}", DELETE, InvalidateTemplateCache);
   ("/admin/blocklist", GET, ListBlocklist);
   ("/admin/blocklist", POST, AddBlocklistEntry);
   ("/admin/blocklist/cache", DELETE, InvalidateBlocklistCache);
   ("/admin/blocklist/cache", POST, ReloadBlocklistCache);
   ("/admin/blocklist/{id}", DELETE, RemoveBlocklistEntry)].

Definition routes : list (string * Method * Endpoint) :=
  probes ++ docs_routes ++ protected ++ retry_routes.

Definition stack_of (e : Endpoint) : Stack :=
  if existsb (λ r, bool_decide (r.2 = e)) (probes ++ docs_routes) then Open
  else if existsb (λ r, bool_decide (r.2 = e)) retry_routes then RetryLimited
  else Protected.

(** ** Matching *)

Definition segments (path : string) : list string := split_char "/" path.
Definition is_capture (seg : string) : bool := starts_with_char "{" seg.

(** The captured segments, none of them empty, when the path fits. *)
Fixpoint captures (pattern path : list string) : option (list string) :=
  match pattern, path with
  | [], [] => Some []
  | p :: pattern, s :: path =>
      if is_capture p then
        if is_empty_str s then None
        else option_map (cons s) (captures pattern path)
      else if String.eqb p s then captures pattern path else None
  | _, _ => None
  end.

(** At the first segment where two patterns differ the literal one wins. *)
Fixpoint more_literal (p q : list string) : bool :=
  match p, q with
  | a :: p, b :: q =>
      if Bool.eqb (is_capture a) (is_capture b) then more_literal p q else is_capture b
  | _, _ => false
  end.

Fixpoint best_pattern (path : list string) (rs : list (string * Method * Endpoint)) : option string :=
  match rs with
  | [] => None
  | (p, _, _) :: rs =>
      match captures (segments p) path, best_pattern path rs with
      | Some _, Some q => if more_literal (segments q) (segments p) then Some q else Some p
      | Some _, None => Some p
      | None, o => o
      end
  end.

(** [WrongMethod]: the path has handlers, [e] is one of them, but none for the
    method. *)
Inductive Routed : Type :=
  | To (e : Endpoint) (captured : list string)
  | NoRoute
  | WrongMethod (e : Endpoint).

Definition route_segments (m : Method) (path : list string) : Routed :=
  match best_pattern path routes with
  | None => NoRoute
  | Some p =>
      let same_path := base.filter (λ r, r.1.1 = p) routes in
      match List.find (λ r : string * Method * Endpoint, bool_decide (r.1.2 = m)) same_path,
            captures (segments p) path, same_path with
      | Some (_, _, e), Some caps, _ => To e caps
      | None, _, (_, _, e) :: _ => WrongMethod e
      | _, _, _ => NoRoute
      end
  end.

Definition route (m : Method) (path : string) : Routed := route_segments m (segments path).

(** ** Requests *)

Definition MAX_BODY_BYTES : Z := 1024 * 1024.

Record HttpRequest : Type := mkHttpRequest {
  hq_method : Method;
  hq_path : string;
  hq_authorization : option string;
  hq_length : Z;
  (** The body as JSON, or the status the extractor rejects it with. *)
  hq_json : result json Z;
}.

Section router.
Context `{Env, NotificationStore, WireCodec}.
Context (state : ApiState) (hmac : string → string → string).
(** axum's percent-decoding of a captured segment, [FromStr] of [Uuid] and
    [i64], the derived decoder of the send request, and whether the probe's
    query beats its time limit. *)
Context (decode_segment : string → option string).
Context (parse_uuid : string → option Uuid) (parse_i64 : string → option Z).
Context (de_send_request : json → option SendEmailRequest).
Context (probe_in_time : bool).
(** axum's answer to a path that fits no route. *)
Context (fallback : M ApiResponse).

Definition rejected (status : Z) : M ApiResponse := st_ret (mkApiResponse status [] None).

(** A text embedded at compile time. *)
Definition document (content_type : string) : M ApiResponse :=
  st_ret (mkApiResponse 200 [("content-type", content_type)] None).

Definition answer (handler : M (result ApiResponse AppError)) : M ApiResponse :=
  let! r := handler in st_ret (into_response r).

(** [Path<Uuid>], [Path<(Uuid, String)>], [Path<String>], [Path<i64>]. *)
Definition path_uuid (caps : list string) : option Uuid :=
  match caps with s :: _ => match decode_segment s with Some s => parse_uuid s | None => None end | [] => None end.
Definition path_string (caps : list string) : option string :=
  match caps with s :: _ => decode_segment s | [] => None end.
Definition path_i64 (caps : list string) : option Z :=
  match caps with s :: _ => match decode_segment s with Some s => parse_i64 s | None => None end | [] => None end.

Definition with_path {A} (a : option A) (k : A → M ApiResponse) : M ApiResponse :=
  match a with Some a => k a | None => rejected 400 end.

Definition with_json (req : HttpRequest) (k : json → M ApiResponse) : M ApiResponse :=
  if MAX_BODY_BYTES <? hq_length req then rejected 413
  else match hq_json req with Ok v => k v | Err status => rejected status end.

(** Extractors and handler. *)
Definition run_endpoint (e : Endpoint) (caps : list string) (req : HttpRequest) : M ApiResponse :=
  match e with
  | Health => st_ret health
  | Ready => ready probe_in_time
  | DocsPage => document "text/html; charset=utf-8"
  | OpenApi | AsyncApi => document "application/yaml"
  | SendEmail =>
      with_json req (λ v, match de_send_request v with
                          | Some r => answer (send_email state r)
                          | None => rejected 422
                          end)
  | GetEmailStatus => with_path (path_uuid caps) (λ id, answer (get_email_status id))
  | GetRecipientStatus =>
      with_path (path_uuid caps) (λ id, with_path (path_string (tail caps)) (λ email,
        answer (get_recipient_status id email)))
  | ListTemplates => answer list_templates
  | UpsertTemplate => with_json req (λ v, answer (upsert_template v))
  | GetTemplate => with_path (path_string caps) (λ ty, answer (get_template ty))
  | PatchTemplate =>
      with_path (path_string caps) (λ ty, with_json req (λ v, answer (patch_template ty v)))
  | InvalidateAllTemplateCache => invalidate_all_template_cache
  | InvalidateTemplateCache => with_path (path_string caps) invalidate_template_cache
  | ListBlocklist => answer list_blocklist
  | AddBlocklistEntry => with_json req (λ v, answer (add_blocklist_entry v))
  | InvalidateBlocklistCache => invalidate_blocklist_cache
  | ReloadBlocklistCache => reload_blocklist_cache
  | RemoveBlocklistEntry => with_path (path_i64 caps) (λ id, answer (remove_blocklist_entry id))
  | RetryEvent => with_path (path_uuid caps) (λ id, answer (retry_event state id))
  | RetryRecipient =>
      with_path (path_uuid caps) (λ id, with_path (path_string (tail caps)) (λ email,
        answer (retry_recipient state id email)))
  end.

(** The layers around a route, its answer to a wrong method included. *)
Definition layered (e : Endpoint) (req : HttpRequest) (inner : M ApiResponse) : M ApiResponse :=
  match stack_of e with
  | Open => inner
  | Protected => bearer_auth state hmac (hq_authorization req) inner
  | RetryLimited => bearer_auth state hmac (hq_authorization req) (retry_rate_limit inner)
  end.

(** [build_router]. *)
Definition serve (req : HttpRequest) : M ApiResponse :=
  match route (hq_method req) (hq_path req) with
  | To e caps => layered e req (run_endpoint e caps req)
  | WrongMethod e => layered e req (rejected 405)
  | NoRoute => fallback
  end.

(** ** Authentication *)

Definition open_endpoint (e : Endpoint) : bool :=
  match e with Health | Ready | DocsPage | OpenApi | AsyncApi => true | _ => false end.

Lemma stack_open e : stack_of e = Open ↔ open_endpoint e = true.
Proof. by destruct e. Qed.

(** C30: nothing but the probes and the documents is reachable without the key:
    with a key configured, a request whose header is not a bearer token with
    the key's digest is refused before its handler, its extractors or the
    retry limiter see it, whatever its path and method, and nothing changes. *)
Theorem router_gate key req w :
  as_api_key state = Some key → ¬ accepted_header hmac key (hq_authorization req) →
  match route (hq_method req) (hq_path req) with
  | NoRoute => serve req w = fallback w
  | To e _ | WrongMethod e =>
      open_endpoint e = true
      ∨ ∃ resp, serve req w = (resp, w) ∧ (rs_status resp = 401 ∨ rs_status resp = 403)
  end.
Proof.
  intros Hk Hn.
  assert (Hl : ∀ e inner, open_endpoint e = true
    ∨ ∃ resp, layered e req inner w = (resp, w) ∧ (rs_status resp = 401 ∨ rs_status resp = 403)).
  { intros e inner. unfold layered. destruct (stack_of e) eqn:Hs; [left; by apply stack_open|right..].
    all: match goal with |- context [bearer_auth state hmac ?a ?next] =>
           pose proof (bearer_gate state hmac a next w) as Hg end.
    all: rewrite Hk in Hg; destruct Hg as (_ & Hg & _); exact (Hg Hn). }
  unfold serve. by destruct (route _ _) as [e caps| |e].
Qed.
End router.

(** ** Every handler has its address *)

(** The path of a pattern, its captures filled in. *)
Fixpoint fill (pattern captured : list string) : list string :=
  match pattern with
  | [] => []
  | p :: pattern =>
      if is_capture p
      then match captured with
           | s :: captured => s :: fill pattern captured
           | [] => p :: fill pattern []
           end
      else p :: fill pattern captured
  end.

Definition path_of (pattern : string) (captured : list string) : string :=
  join "/" (fill (segments pattern) captured).

(** A value a client may put into a path: not empty, one segment, and none of
    the two names the table has as a literal next to a capture. *)
Definition segment_ok (s : string) : Prop :=
  is_empty_str s = false ∧ contains_char "/" s = false
  ∧ String.eqb "send" s = false ∧ String.eqb "cache" s = false.

Lemma split_join_segments l :
  l ≠ [] → Forall (λ s, contains_char "/" s = false) l → split_char "/" (join "/" l) = l.
Proof.
  intros Hne Hl. induction Hl as [|s l Hs Hl IH]; [done|].
  destruct l as [|x l]; [by apply split_char_none|]. cbn [join].
  change (s +:+ "/" +:+ ?y) with (s +:+ String "/" y).
  rewrite split_char_app, split_char_none by done. simpl. f_equal. by apply IH.
Qed.

Lemma segments_path_of p captured :
  fill (segments p) captured ≠ [] →
  Forall (λ s, contains_char "/" s = false) (fill (segments p) captured) →
  segments (path_of p captured) = fill (segments p) captured.
Proof. apply split_join_segments. Qed.

Lemma best_skip p m e rs path :
  captures (segments p) path = None → best_pattern path ((p, m, e) :: rs) = best_pattern path rs.
Proof. intros Hc. simpl. by rewrite Hc. Qed.

Lemma best_step p m e rs path c o :
  captures (segments p) path = Some c → best_pattern path rs = o →
  best_pattern path ((p, m, e) :: rs)
  = match o with
    | Some q => if more_literal (segments q) (segments p) then Some q else Some p
    | None => Some p
    end.
Proof. intros Hc <-. simpl. by rewrite Hc. Qed.

(** Comparisons of literals are evaluated; of captures, known. *)
Ltac eval_eqb :=
  repeat match goal with
  | |- context [String.eqb ?a ?b] =>
      let v := eval vm_compute in (String.eqb a b) in
      lazymatch v with true => idtac | false => idtac end;
      change (String.eqb a b) with v
  end.
Ltac solve_captures :=
  cbv -[String.eqb is_empty_str]; eval_eqb;
  repeat match goal with
  | H : is_empty_str _ = false |- _ => rewrite H
  | H : String.eqb _ _ = false |- _ => rewrite H
  end; reflexivity.
Ltac solve_best :=
  lazymatch goal with
  | |- best_pattern _ [] = _ => reflexivity
  | |- _ =>
      first
        [ rewrite best_skip by solve_captures; solve_best
        | eapply eq_trans; [eapply best_step; [solve_captures|solve_best]|vm_compute; reflexivity] ]
  end.
Ltac solve_route :=
  unfold route_segments;
  match goal with
  | |- context [best_pattern ?path routes] =>
      let rs := eval vm_compute in routes in
      let o := fresh in
      evar (o : option string);
      assert (best_pattern path rs = o) as Hbest by (subst o; solve_best);
      change (best_pattern path routes) with (best_pattern path rs); rewrite Hbest; subst o
  end.

(** Filling in the captures of a route's pattern gives a path that leads back to
    that route's handler, with the same values: no route shadows another. *)
Theorem route_round_trip p m e captured :
  (p, m, e) ∈ routes → length captured = length (base.filter (λ s, is_capture s = true) (segments p)) →
  Forall segment_ok captured → route m (path_of p captured) = To e captured.
Proof.
  intros Hin. vm_compute in Hin.
  repeat (apply elem_of_cons in Hin as [[= -> -> ->]|Hin]); [..|by apply not_elem_of_nil in Hin].
  all: intros Hlen Hok; vm_compute in Hlen.
  all: destruct captured as [|a [|b [|c captured]]]; try discriminate Hlen; clear Hlen.
  all: rewrite ?Forall_cons, ?Forall_nil in Hok; unfold route.
  all: unfold segment_ok in Hok; destruct_and?.
  all: match goal with |- context [segments (path_of ?p ?c)] =>
         let l := eval cbv in (fill (segments p) c) in
         assert (segments (path_of p c) = l) as -> by
           (apply (segments_path_of p c); change (fill (segments p) c) with l;
            [discriminate|rewrite !Forall_cons, Forall_nil; split_and!; done]) end.
  all: solve_route.
  all: solve_captures.
Qed.

(** ** Concrete requests *)

Lemma route_round_trip_witness :
  route GET (path_of "/emails/{event_id}/recipients/{email}" ["42"; "a@example.com"])
  = To GetRecipientStatus ["42"; "a@example.com"].
Proof.
  apply route_round_trip.
  - apply (bool_decide_unpack _). vm_compute. exact I.
  - reflexivity.
  - repeat constructor.
Defined.

Definition keyed_state : ApiState :=
  mkApiState (mkPublisher "amqp://mq" "anvil-notify" "email.requested") (Some "secret")
    (Filter.filter_new (H := sample_env) (Filter.mkFilterConfig [] [] [] [])) 500.

(** The identity stands for the digest. *)
Definition sample_hmac : string → string → string := λ _ input, input.

Definition anonymous (m : Method) (path : string) : HttpRequest := mkHttpRequest m path None 0 (Err 400).

Lemma router_gate_witness :
  let answer := serve (H := sample_env) (H0 := LogStore.EmailNotificationStore (H := sample_env))
    (H1 := sample_wire_codec) keyed_state sample_hmac Some
    (λ s, if String.eqb s "42" then Some 42%N else None) (λ _, None) (λ _, None) true (rejected 404) in
  open_endpoint RetryEvent = true
  ∨ ∃ resp, answer (anonymous POST "/emails/42/retry") (world0 empty_db) = (resp, world0 empty_db)
            ∧ (rs_status resp = 401 ∨ rs_status resp = 403).
Proof.
  apply (router_gate (H := sample_env) (H0 := LogStore.EmailNotificationStore (H := sample_env))
           (H1 := sample_wire_codec) keyed_state sample_hmac Some
           (λ s, if String.eqb s "42" then Some 42%N else None) (λ _, None) (λ _, None) true (rejected 404)
           "secret" (anonymous POST "/emails/42/retry") (world0 empty_db)).
  - reflexivity.
  - by intros (t & Ht & _).
Defined.

Example routed :
  (route GET "/emails/send", route DELETE "/admin/blocklist/cache", route DELETE "/admin/blocklist/7",
   route POST "/emails/42/recipients/a/b@example.com/retry", route GET "/templates/")
  = (WrongMethod SendEmail, To InvalidateBlocklistCache [], To RemoveBlocklistEntry ["7"], NoRoute, NoRoute).
Proof. vm_compute. reflexivity. Qed.

Example stacks : (stack_of Ready, stack_of SendEmail, stack_of RetryEvent) = (Open, Protected, RetryLimited).
Proof. reflexivity. Qed.
