(* ===== verification/RequestToMail.v ===== *)
(** * From a request to the mail

    The other composition: a running service accepts a send request over its
    API, publishes the event, receives it back on the queue its own consumer
    declared, and mails it, everything with the one configuration it was started
    with. *)

From S2P Require Import Prelude Json AppErr EmailValidation Event World Interfaces Filter.
From S2P Require Import LogStore LogInvariant BlockList TemplateStore Mailer Fetcher.
From S2P Require Import Processor ProcessorSpec GroupSpec Delivery Loops AtMostOnce Settle.
From S2P Require Import Healthy HealthyStore HealthyGroup Queue AtLeastOnce EndToEnd Runner Publisher Api ApiSpec Startup.

(** ** The request beside the log *)

Section request.
Context `{Env, WireCodec}.

Lemma confirmed_apart : keeps apart confirmed.
Proof.
  unfold confirmed, timed_confirm, await_confirm.
  apply keeps_bind; [apply _| |intros; apply keeps_ret, _].
  apply keeps_bind; [apply _|apply tick_apart|]. intros t. destruct (confirm_in_time t); [|apply keeps_ret, _].
  apply keeps_bind; [apply _| |intros; apply keeps_ret, _].
  apply keeps_bind; [apply _|apply tick_apart|]. intros; apply keeps_ret, _.
Qed.

Lemma ensure_channel_apart p : keeps apart (ensure_channel p).
Proof.
  intros w. destruct (ensure_channel p w) as [r w'] eqn:He. apply ensure_channel_spec in He as (Hf & _ & Ht & _).
  destruct Hf as (Hd & Htc & Hbc & Hs & _). by apply apart_mono.
Qed.

Lemma publish_rounds_apart p n attempt body : keeps apart (publish_rounds p n attempt body).
Proof.
  revert attempt. induction n as [|n IH]; intros attempt; [apply keeps_ret, _|].
  cbn [publish_rounds]. apply keeps_try; [apply _|apply ensure_channel_apart|]. intros _.
  apply keeps_bind; [apply _|apply basic_publish_apart|]. intros [u|e]; [apply confirmed_apart|].
  destruct (attempt =? 0)%nat; [|apply keeps_ret, _].
  apply keeps_bind; [apply _|by intros w; apply apart_mono|]. intros _. apply IH.
Qed.

(** The API's direct send changes no table and no cache, and mails nothing. *)
Lemma send_email_apart state req : keeps apart (send_email state req).
Proof.
  apply keeps_try; [apply _|apply keeps_ret, _|]. intros _.
  apply keeps_bind; [apply _|apply tick_apart|]. intros t.
  apply keeps_try; [apply _|apply keeps_ret, _|]. intros _.
  apply keeps_bind; [apply _| |].
  - destruct (rq_event_id req); [apply keeps_ret, _|].
    apply keeps_bind; [apply _|apply tick_apart|]. intros; apply keeps_ret, _.
  - intros id. apply keeps_try; [apply _|apply keeps_ret, _|]. intros body.
    apply keeps_try; [apply _|apply publish_rounds_apart|]. intros; apply keeps_ret, _.
Qed.
End request.

(** ** The composition *)

Section compose.
Context `{Env, WireCodec}.
Context `{Serialize Recipient, Serialize FromOverride, Serialize AttachmentRef, EventCodec}.
Context (mcp_feature : bool).
Context (tpls : string → option NotificationTemplate) (snap : BlockListSnapshot).

(** Declarations carry no body. *)
Lemma arriving_declared cfg p k fs : arriving cfg (repeat (declaration p) k ++ fs) = arriving cfg fs.
Proof. by induction k. Qed.

(** What a service publishes arrives at its own queue. *)
Lemma arriving_own o cfg sv body :
  coherent o cfg sv → arriving (sv_consumer sv) [frame_of (as_publisher (sv_api sv)) body] = [body].
Proof.
  intros Hco. unfold frame_of. rewrite (coh_broker _ _ _ Hco). unfold arriving. simpl.
  by rewrite !String.eqb_refl.
Qed.

(** Everybody the delivery was for has a row. *)
Lemma delivered_rows ctx verdict event opts atts p to m m' msgs r :
  delivered ctx verdict event opts atts p to m m' msgs →
  r ∈ to → is_valid_email (r_email r) = true → is_Some (m' !! row_of event (r_email r)).
Proof.
  intros [Hold Hnew _] Hr Hv. destruct (m !! row_of event (r_email r)) as [c|] eqn:Hm.
  - rewrite Hold; [by eexists|by eexists].
  - rewrite Hnew, Hv by done.
    assert (existsb (λ x, String.eqb (r_email x) (r_email r)) to = true) as ->; [|by eexists].
    apply existsb_email, list_elem_of_fmap. by exists r.
Qed.

(** The recipients the event has a row for. *)
Definition job_rows (j : Job) : list Recipient :=
  match eo_send_mode (job_opts j), eo_recipients (job_opts j) with
  | SendMode.Individual, rs => rs
  | SendMode.Group, primary :: _ => rows_to_insert (job_opts j) primary
  | SendMode.Group, [] => []
  end.

Lemma job_rows_exist ctx m m' j msgs r :
  job_delivered ctx snap m m' j msgs → r ∈ job_rows j →
  (∀ x, x ∈ eo_recipients (job_opts j) → is_valid_email (r_email x) = true) →
  is_Some (m' !! (job_id j, r_email r)).
Proof.
  unfold job_delivered, job_rows. intros Hd Hr Hv. destruct (eo_send_mode _).
  - exact (delivered_rows _ _ _ _ _ _ _ _ _ _ _ Hd Hr (Hv r Hr)).
  - destruct Hd as (primary & rest & Hrs & Hrows & _). rewrite Hrs in Hr. apply Hrows in Hr.
    unfold event_key in Hr. unfold job_id. rewrite Hr. by eexists.
Qed.

(** C5: in a running service an accepted send request is mailed, in either send
    mode, when the request names its event id, the environment answers
    ([HealthyStore.ready]) and the event can be delivered as its rows stand
    ([job_ready]: none of them is half-way, and a group event has no row yet and
    has a first recipient the configured filter lets through).  Then the event
    it published is the one body that arrives at the service's own queue; the
    consumer acknowledges it; every address the event owns a row for has it; and
    in individual mode those that had none and are not blocked have each been
    sent exactly one accepted message, in group mode one message has gone to the
    first recipient and all the others the configured filter lets through. *)
Theorem accepted_request_mailed o w sv w1 req id j resp wr wr' fuel sched :
  main mcp_feature o w = (Ok sv, w1) →
  reads_back req → rq_event_id req = Some id → rq_email req = job_opts j →
  request_event req id (clock (w_tick wr)) = job_event j →
  send_email (sv_api sv) req wr = (Ok resp, wr') →
  job_ready (sv_context sv) (sv_consumer sv) tpls snap wr j → HealthyStore.ready tpls snap wr →
  (0 < fuel)%nat → (∀ i, (i < cc_max_recipients_per_event (sv_consumer sv))%nat → i ∈ sched) →
  let queue := arriving (sv_consumer sv) (drop (length (w_amqp wr)) (w_amqp wr')) in
  let '(res, w2) := deliver_all (sv_context sv) (sv_consumer sv) fuel sched queue wr' in
  res = Some tt ∧ w_amqp w2 = w_amqp wr' ++ [BasicAck]
  ∧ (∀ r, r ∈ job_rows j → is_Some (email_cells w2 !! (id, r_email r)))
  ∧ ∃ msgs, w_sends w2 = w_sends wr ++ msgs
            ∧ job_delivered (sv_context sv) snap (email_cells wr) (email_cells w2) j msgs.
Proof.
  intros [cfg Hco]%start_coherent Hcodec Hid Hopts Hevent Hsend Hready Hw Hfuel Hcov.
  pose proof (send_email_spec (sv_api sv) req wr) as Hspec. pose proof (send_email_apart (sv_api sv) req wr) as Hap.
  rewrite Hsend in Hspec, Hap. simpl in Hap.
  destruct Hspec as (_ & _ & _ & Hreq & id' & body & Hid' & Henc & k & _ & Hf).
  specialize (Hid' id Hid). subst id'.
  assert (arriving (sv_consumer sv) (drop (length (w_amqp wr)) (w_amqp wr')) = [body]) as ->.
  { rewrite Hf, drop_app_length, arriving_declared. by apply (arriving_own o cfg). }
  cbv zeta.
  assert (Hc : email_cells wr' = email_cells wr).
  { destruct Hap as (_ & [Hl _] & _). unfold email_cells. by rewrite Hl. }
  assert (Hjid : job_id j = id) by (unfold job_id; by rewrite <- Hevent).
  assert (Hok : job_ok (sv_context sv) (sv_consumer sv) tpls snap wr' body j).
  { apply (job_ok_ext _ _ _ _ wr); [by intros; rewrite Hc|]. split; [|done]. rewrite <- Hevent, <- Hopts.
    split_and!; [by apply Hcodec|done|apply Hreq|]. pose proof (ro_max _ _ _ Hreq) as Hmax.
    rewrite (coh_limit _ _ _ Hco) in Hmax. done. }
  pose proof (job_works (sv_context sv) (sv_consumer sv) tpls snap fuel sched body j wr' Hfuel
    (ready_apart _ _ _ _ Hap Hw) Hok Hcov) as Hd.
  cbn [deliver_all]. run_st. destruct (handle_delivery _ _ _ _ _ wr') as [res w2].
  destruct Hd as (-> & _ & Hack & _ & msgs & Hs2 & Hdel). rewrite Hc in Hdel. split_and!; [done|done| |].
  - intros r Hr. rewrite <- Hjid. apply (job_rows_exist _ _ _ _ _ _ Hdel Hr). rewrite <- Hopts.
    intros x Hx. apply is_valid_email_spec. pose proof (ro_to _ _ _ Hreq) as Hto.
    rewrite Forall_forall in Hto. by apply Hto.
  - exists msgs. split; [|done]. destruct Hap as (_ & _ & Hs1). by rewrite Hs2, Hs1.
Qed.
End compose.

(** ** A concrete request *)

#[local] Existing Instance sample_env.

(** The template of the shipped tables, and an event whose codecs read back. *)
Definition one_event : NotificationEvent := request_event one_request 5 0.

Definition one_job : Job := mkJob one_event (rq_email one_request) [] sample_prepared.

Lemma one_request_answers :
  answers (sv_context shipped_service) (sv_consumer shipped_service) one_event (rq_email one_request) []
    sample_prepared sample_templates empty_snapshot.
Proof.
  constructor; [constructor; try done|].
  - intros t t'. simpl. lia.
  - by left.
  - by exists sample_template.
  - intros r Hr _. apply list_elem_of_singleton in Hr as ->. eexists.
    split; [vm_compute; reflexivity|done].
Qed.

Definition one_accepted : result ApiResponse AppError * World :=
  send_email (H1 := one_event_wire) (sv_api shipped_service) one_request sample_world.

Lemma accepted_request_mailed_witness :
  let queue := arriving (sv_consumer shipped_service)
                 (drop (length (w_amqp sample_world)) (w_amqp one_accepted.2)) in
  let '(res, w2) := deliver_all (H3 := one_event_codec) (sv_context shipped_service) (sv_consumer shipped_service)
                      8 (seq 0 500) queue one_accepted.2 in
  res = Some tt ∧ w_amqp w2 = w_amqp one_accepted.2 ++ [BasicAck]
  ∧ (∀ r, r ∈ job_rows one_job → is_Some (email_cells w2 !! (5%N, r_email r)))
  ∧ ∃ msgs, w_sends w2 = w_sends sample_world ++ msgs
            ∧ job_delivered (sv_context shipped_service) empty_snapshot (email_cells sample_world)
                (email_cells w2) one_job msgs.
Proof.
  apply (accepted_request_mailed (H0 := one_event_wire) (H4 := one_event_codec) false sample_templates
    empty_snapshot (all_well shipped_config) (world0 empty_db) shipped_service started_world one_request 5
    one_job
    (match one_accepted.1 with Ok r => r | Err _ => json_response 0 JNull end) sample_world one_accepted.2
    8 (seq 0 500)).
  - exact shipped_starts.
  - intros id now body. simpl. destruct (N.eqb_spec id 5) as [->|]; [|done].
    destruct (Z.eqb_spec now 0) as [->|]; [|done]. by intros [= <-].
  - reflexivity.
  - reflexivity.
  - reflexivity.
  - vm_compute. reflexivity.
  - split; [exact one_request_answers|]. intros r c _ Hc. vm_compute in Hc. discriminate Hc.
  - exact sample_ready.
  - lia.
  - intros i Hi. apply list_elem_of_In, in_seq. vm_compute in Hi |- *. lia.
Defined.

Example one_request_mail :
  let wr' := (send_email (H1 := one_event_wire) (sv_api shipped_service) one_request sample_world).2 in
  let w2 := (deliver_all (H3 := one_event_codec) (sv_context shipped_service) (sv_consumer shipped_service)
               8 [0%nat] (arriving (sv_consumer shipped_service) (w_amqp wr')) wr').2 in
  (map message_key (w_sends w2), row_states w2)
  = ([(5%N, "a@example.com")], [("a@example.com", "SENT")]).
Proof. vm_compute. reflexivity. Qed.
