(* ===== verification/RetryToMail.v ===== *)
(** * What becomes of a manual retry

    The third composition: the API resets a FAILED or BLOCKED row to PENDING and
    publishes its event again; the service's own consumer takes the message;
    and the attempt finds the row the retry has just reset, which is neither
    SENT nor BLOCKED.  Such a row is the duplicate turn of [Retry], so the
    retried mail is never sent. *)

From S2P Require Import Prelude Json AppErr EmailValidation Event World Interfaces Filter.
From S2P Require Import LogStore LogInvariant LogRetry BlockList TemplateStore Mailer Fetcher.
From S2P Require Import Processor ProcessorSpec GroupSpec Delivery Retry Loops AtMostOnce Settle.
From S2P Require Import Healthy HealthyStore HealthyGroup Queue AtLeastOnce EndToEnd Runner Publisher Api ReplaySpec.
From S2P Require Import ApiSpec Startup RequestToMail.

(** ** Events whose rows are all live *)

Section stuck.
Context `{Env}.
Context `{Serialize Recipient, Serialize FromOverride, Serialize AttachmentRef}.
Context `{!NotificationStore, !NotificationStoreLaws}.
Context `{!TemplateResolver, !TemplateResolverLaws, !BlockListChecker, !BlockListCheckerLaws}.
Context `{!EventCodec}.
Context (ctx : ProcessorContext) (cfg : ConsumerConfig).
Context (Inv : World → Prop) (event : NotificationEvent) (opts : EmailOptions).
Context (atts : list ResolvedAttachment) (ccbcc : EffectiveCcBcc).

Definition stuck_task (w : World) (t : Task) : Prop :=
  is_Some t.2 ∧ attempt_reaches_insert Inv event opts t.1 ccbcc
  ∧ live_row (cells w) (ne_event_id event, r_email t.1).

(** No schedule ends a task whose row is live: whatever runs, every task is
    still running, and nothing has left the process. *)
Lemma schedule_stuck sched tasks w :
  Inv w → Forall (stuck_task w) tasks →
  let '(tasks', w') := run_schedule ctx cfg sched event opts atts ccbcc tasks w in
  length tasks' = length tasks ∧ Forall (stuck_task w') tasks' ∧ cells w' = cells w ∧ quiet w w'.
Proof.
  revert tasks w. induction sched as [|i sched IH]; intros tasks w Hw Htasks; [by split_and!|].
  cbn [run_schedule]. destruct (tasks !! i) as [[r c]|] eqn:Hi; [|by apply IH].
  pose proof (Forall_lookup_1 _ _ _ _ Htasks Hi) as ([[a rl] [= ->]] & Hreach & Hlive). simpl in Hreach, Hlive.
  destruct (live_row_iteration ctx cfg Inv event opts r atts ccbcc a rl w Hreach Hw Hlive)
    as (a' & w1 & Hit & Hc & Hq & Hw1).
  unfold run_task. run_st. rewrite Hit.
  assert (Htasks1 : Forall (stuck_task w1) (<[i := (r, Some (a', rl))]> tasks)).
  { apply Forall_insert.
    - eapply Forall_impl; [exact Htasks|]. intros t (? & ? & ?). unfold stuck_task. by rewrite Hc.
    - split_and!; [by eexists|done|by rewrite Hc]. }
  specialize (IH _ w1 Hw1 Htasks1). destruct (run_schedule _ _ _ _ _ _ _ _ w1) as [tasks' w2].
  destruct IH as (Hlen & Ht & Hc2 & Hq2). rewrite length_insert in Hlen.
  split_and!; [done|done|congruence|by etransitivity].
Qed.

Lemma join_stuck sched rs w :
  Inv w → rs ≠ [] →
  (∀ r, r ∈ rs → attempt_reaches_insert Inv event opts r ccbcc
                 ∧ live_row (cells w) (ne_event_id event, r_email r)) →
  let '(res, w') := spawn_and_join ctx cfg sched event opts atts ccbcc rs w in
  res = None ∧ cells w' = cells w ∧ quiet w w'.
Proof.
  intros Hw Hne Hrs. unfold spawn_and_join. run_st.
  assert (Hstart : Forall (stuck_task w) (start_tasks rs)).
  { apply Forall_forall. intros t (r & -> & Hr)%list_elem_of_fmap. split; [by eexists|]. by apply Hrs. }
  pose proof (schedule_stuck sched (start_tasks rs) w Hw Hstart) as Hs.
  destruct (run_schedule _ _ _ _ _ _ _ _ w) as [tasks w1]. destruct Hs as (Hlen & Ht & Hc & Hq).
  unfold start_tasks in Hlen. rewrite length_map in Hlen. split_and!; [|done|done].
  destruct tasks as [|t tasks]; [by destruct rs|]. simpl. apply Forall_cons in Ht as [([x Hx] & _) _].
  by rewrite Hx.
Qed.
End stuck.

(** ** A group whose rows are all live *)

Section stuck_group.
Context `{Env}.
Context `{Serialize Recipient, Serialize FromOverride, Serialize AttachmentRef}.
Context `{!NotificationStore, !NotificationStoreLaws}.
Context `{!TemplateResolver, !TemplateResolverLaws, !BlockListChecker, !BlockListCheckerLaws}.
Context `{!EventCodec}.
Context (ctx : ProcessorContext) (cfg : ConsumerConfig).
Context (Inv : World → Prop) (event : NotificationEvent) (opts : EmailOptions).
Context (atts : list ResolvedAttachment) (ccbcc : EffectiveCcBcc) (primary : Recipient).

(** In the worlds of [Inv] a group attempt gets as far as its inserts. *)
Record group_reaches_insert : Prop := {
  gi_valid : validate_group opts (cc_max_recipients_per_event cfg) = Ok primary;
  gi_prepare w : Inv w → is_ok (prepare event opts ccbcc w).1 = true ∧ Inv (prepare event opts ccbcc w).2;
  gi_to : ∃ to, group_to_recipients opts = Ok to;
  gi_insert l w : Inv w → is_ok (insert_pending_batch l w).1 = true ∧ Inv (insert_pending_batch l w).2;
}.

Context (Hreach : group_reaches_insert).

(** The duplicate turn of a group. *)
Lemma live_group_attempt w :
  Inv w → (∀ r, r ∈ rows_to_insert opts primary → is_Some (cells w !! event_key event r)) →
  head (rows_to_insert opts primary) = Some primary → live_row (cells w) (event_key event primary) →
  let '(o, w') := process_group ctx event opts atts ccbcc (cc_max_recipients_per_event cfg) w in
  (∃ n, o = RecipientOutcome.Duplicate n) ∧ Inv w' ∧ cells w' = cells w ∧ quiet w w'.
Proof.
  intros Hw Hrows Hhead (c & st & Hk & Hst & Hns & Hnb).
  unfold process_group. rewrite (gi_valid Hreach). run_st.
  destruct (gi_prepare Hreach w Hw) as [Hok Hw1]. pose proof (prepare_aside event opts ccbcc w) as Ha.
  destruct (prepare event opts ccbcc w) as [[p|] w1]; [|done]. simpl in Ha, Hw1.
  pose proof (aside_cells _ _ Ha) as Hc1. destruct Ha as [Hq1 _].
  destruct (gi_to Hreach) as [to ->]. run_st. set (args := map _ (rows_to_insert _ _)).
  destruct (gi_insert Hreach args w1 Hw1) as [Hok2 Hw2].
  destruct (insert_pending_batch args w1) as [ins w2] eqn:Hins. simpl in Hok2, Hw2.
  apply insert_pending_batch_law in Hins as [Hq2 Hpost]. destruct ins as [xs|]; [|done].
  subst args. rewrite map_map, Hc1 in Hpost. change (λ x, _) with (event_key event) in Hpost.
  assert (Hc2 : cells w2 = cells w).
  { refine (insert_cells_present _ _ _ _ _ Hpost). intros k (r & -> & Hr)%list_elem_of_fmap. by apply Hrows. }
  destruct (rows_to_insert opts primary) as [|r0 rs]; [done|]. simpl in Hhead. injection Hhead as ->.
  cbn [map insert_cells] in Hpost. unfold insert_cell in Hpost. rewrite Hk in Hpost.
  destruct (insert_cells _ (cells w)) as [ys m2]. injection Hpost as <- _. cbn [inspect_primary].
  split_and!; [|done|done|by etransitivity]. exists (c_retry_count c). unfold duplicate_outcome.
  rewrite Hst. by destruct st.
Qed.

Lemma live_group_loops fuel sched attempt rl w :
  Inv w → (∀ r, r ∈ rows_to_insert opts primary → is_Some (cells w !! event_key event r)) →
  head (rows_to_insert opts primary) = Some primary → live_row (cells w) (event_key event primary) →
  let '(res, w') := group_loop ctx cfg fuel sched event opts atts ccbcc attempt rl w in
  res = None ∧ cells w' = cells w ∧ quiet w w'.
Proof.
  revert attempt w. induction fuel as [|fuel IH]; intros attempt w Hw Hrows Hhead Hlive; [by split_and!|].
  cbn [group_loop]. run_st. pose proof (live_group_attempt w Hw Hrows Hhead Hlive) as Hat.
  destruct (process_group _ _ _ _ _ _ w) as [o w1]. destruct Hat as ((n & ->) & Hw1 & Hc & Hq).
  cbn [group_step act_on_step]. run_st. specialize (IH (as_u32 n) w1 Hw1). rewrite Hc in IH.
  specialize (IH Hrows Hhead Hlive). destruct (group_loop _ _ _ _ _ _ _ _ _ _ w1) as [res w2].
  destruct IH as (-> & Hc2 & Hq2). split_and!; [done|congruence|by etransitivity].
Qed.
End stuck_group.

(** ** A replay in a running service *)

Section replay.
Context `{Env, WireCodec}.
Context `{Serialize Recipient, Serialize FromOverride, Serialize AttachmentRef, EventCodec}.
Context (mcp_feature : bool).
Context (tpls : string → option NotificationTemplate) (snap : BlockListSnapshot).

(** The consumer decodes the replays of event [e] the API encodes. *)
Definition replays_read_back (e : Uuid) : Prop :=
  ∀ ev body, ne_event_id ev = e → encode_event ev = Ok body → decode_delivery body = Ok ev.

(** A delivery that never ends and sends nothing. *)
Definition spins (ctx : ProcessorContext) (cfg : ConsumerConfig) (body : string) (w : World) : Prop :=
  ∀ fuel sched,
    let '(res, w') := handle_delivery ctx cfg fuel sched body w in
    res = None ∧ w_sends w' = w_sends w ∧ w_amqp w' = w_amqp w ∧ email_cells w' = email_cells w.

Lemma live_rows_spin ctx cfg event opts atts p body w :
  answers_base ctx cfg event opts atts p tpls snap → (∃ to, group_to_recipients opts = Ok to) →
  HealthyStore.ready tpls snap w → sendable cfg body event opts →
  (∀ r, r ∈ eo_recipients opts → is_valid_email (r_email r) = true
                                 ∧ live_row (email_cells w) (ne_event_id event, r_email r)) →
  spins ctx cfg body w.
Proof.
  intros Hans Hto Hw Hs Hrs fuel sched.
  pose proof (answers_healthy_base _ _ _ _ _ _ _ _ Hans) as Hbase.
  destruct (handle_dispatches ctx cfg _ _ _ _ _ _ Hbase fuel sched body w Hs Hw) as (w1 & Hw1 & Hc1 & Hs1 & Ha1 & ->).
  assert (Hprep : ∀ v, HealthyStore.ready tpls snap v →
    is_ok (prepare event opts (kept_copies ctx (snapshot_check snap) opts) v).1 = true
    ∧ HealthyStore.ready tpls snap (prepare event opts (kept_copies ctx (snapshot_check snap) opts) v).2).
  { intros v Hv. by destruct (hy_prepare _ _ _ _ _ _ _ _ Hbase v Hv) as [-> ?]. }
  change (email_cells w) with (cells w) in Hrs. rewrite <- Hc1 in Hrs. run_st.
  assert (Hd : let '(res, w2) := dispatch ctx cfg fuel sched event opts atts
                                   (kept_copies ctx (snapshot_check snap) opts) w1 in
    res = None ∧ cells w2 = cells w1 ∧ w_sends w2 = w_sends w1 ∧ w_amqp w2 = w_amqp w1).
  { destruct Hs as (_ & _ & Hne & Hmax). unfold dispatch. destruct (eo_send_mode opts).
    - pose proof (join_stuck ctx cfg (HealthyStore.ready tpls snap) event opts atts
        (kept_copies ctx (snapshot_check snap) opts) sched (eo_recipients opts) w1 Hw1 Hne) as Hj.
      destruct (spawn_and_join _ _ _ _ _ _ _ _ w1) as [res w2].
      destruct Hj as (-> & Hc2 & Hs2 & Ha2 & _); [|by split_and!].
      intros r Hr. destruct (Hrs r Hr) as [Hv Hlive]. split; [|done]. split_and!; [done|done|].
      intros a v Hv' _. by apply (insert_works _ _ _ _ _ _ _ _ Hans).
    - run_st. destruct (probe_works ctx cfg _ _ _ _ _ _ Hbase w1 Hw1) as (Hv1 & (Hs2 & Ha2 & _) & Hc2).
      destruct (probe_retry event opts w1) as [u v1]. simpl in Hv1, Hs2, Ha2.
      change (cells v1 = cells w1) in Hc2.
      destruct (eo_recipients opts) as [|primary rest] eqn:Hrec; [done|].
      assert (Hsub : ∀ r, r ∈ rows_to_insert opts primary → r ∈ primary :: rest).
      { intros r. unfold rows_to_insert. rewrite Hrec. destruct (eo_group_retry_mode opts); [|done].
        intros ->%list_elem_of_singleton. constructor. }
      pose proof (live_group_loops ctx cfg (HealthyStore.ready tpls snap) event opts atts
        (kept_copies ctx (snapshot_check snap) opts) primary) as Hg.
      assert (Hreach : group_reaches_insert cfg (HealthyStore.ready tpls snap) event opts
                         (kept_copies ctx (snapshot_check snap) opts) primary).
      { constructor; [|done|done|].
        - apply (validate_group_ok _ _ _ rest); [done|by rewrite Hrec; intros r ?; apply Hrs|by rewrite Hrec].
        - intros l v Hv. by apply (batch_works _ _ _ _ _ _ _ _ Hans). }
      specialize (Hg Hreach fuel sched 0 0 v1 Hv1). rewrite Hc2 in Hg.
      unfold process_one_group. destruct (group_loop _ _ _ _ _ _ _ _ _ _ v1) as [res w2].
      destruct Hg as (-> & Hc3 & Hs3 & Ha3 & _).
      + intros r Hr%Hsub. destruct (Hrs r Hr) as [_ (c & ? & Hc & _)]. by eexists.
      + unfold rows_to_insert. rewrite Hrec. by destruct (eo_group_retry_mode opts).
      + apply Hrs. constructor.
      + split_and!; [done|exact Hc3|congruence|congruence]. }
  destruct (dispatch _ _ _ _ _ _ _ _ w1) as [res w2]. destruct Hd as (-> & Hc2 & Hs2 & Ha2).
  change (email_cells w2 = email_cells w1) in Hc2. change (email_cells w1 = email_cells w) in Hc1.
  split_and!; congruence.
Qed.

(** What [replayed] publishes for rows that are PENDING spins. *)
Lemma replay_spins o cfg sv e emails wr wr' :
  coherent o cfg sv → replays_read_back e → emails ≠ [] → (length emails <= 500)%nat →
  (length emails <= cc_max_recipients_per_event (sv_consumer sv))%nat →
  (∀ m, m ∈ emails → is_valid_email m = true
                     ∧ ∃ c, email_cells wr' !! (e, m) = Some c ∧ c_status c = "PENDING") →
  frames_after (sv_api sv) e emails true wr wr' → HealthyStore.ready tpls snap wr' →
  ∃ body event opts,
    arriving (sv_consumer sv) (drop (length (w_amqp wr)) (w_amqp wr')) = [body]
    ∧ ne_event_id event = e ∧ sendable (sv_consumer sv) body event opts
    ∧ (∀ m, m ∈ map r_email (eo_recipients opts) ↔ m ∈ emails)
    ∧ ∀ atts p, answers_base (sv_context sv) (sv_consumer sv) event opts atts p tpls snap →
        (∃ to, group_to_recipients opts = Ok to) → spins (sv_context sv) (sv_consumer sv) body wr'.
Proof.
  intros Hco Hcodec Hne Hlen Hmax Hrows [(f & Hf & Hw)|[[=] _]] Hready.
  destruct Hf as (ev & opts & body & -> & Henc & Hid & Hopts & _ & Hnd & Hin & Hall). specialize (Hall Hlen).
  exists body, ev, opts.
  assert (Hiff : ∀ m, m ∈ map r_email (eo_recipients opts) ↔ m ∈ emails) by (split; auto).
  assert (Hsend : sendable (sv_consumer sv) body ev opts).
  { split_and!; [by apply Hcodec|done| |].
    - intros Hnil. destruct emails as [|m ms]; [done|]. rewrite Hnil in Hall.
      by apply (not_elem_of_nil m), Hall, elem_of_cons; left.
    - rewrite <- (length_map r_email). etransitivity; [|exact Hmax].
      by apply submseteq_length, NoDup_submseteq. }
  split_and!; [|done|done|done|].
  - destruct Hw as (k & _ & ->). rewrite drop_app_length, arriving_declared.
    by apply (arriving_own o cfg).
  - intros atts p Hans Hto. apply (live_rows_spin _ _ ev opts atts p); [done..|].
    intros r Hr. destruct (Hrows (r_email r)) as [Hv (c & Hc & Hst)].
    { apply Hin, list_elem_of_fmap. by exists r. }
    split; [done|]. rewrite Hid. by apply (live_pending _ _ c).
Qed.

(** C15: a manual retry in a running service is never mailed: the one message an
    accepted retry publishes arrives at the service's own queue and names that
    recipient alone; but the row the retry has just reset to PENDING makes every
    attempt a duplicate turn, so in individual mode the delivery never ends:
    under every schedule, for ever and with everything around it answering, it
    mails nothing, settles nothing and leaves the log as it is. *)
Theorem manual_retry_never_mailed o w sv w1 e rid wr resp wr' :
  main mcp_feature o w = (Ok sv, w1) →
  replays_read_back e → log_wf (w_db wr) →
  retry_recipient (sv_api sv) e rid wr = (Ok resp, wr') → HealthyStore.ready tpls snap wr' →
  ∃ body event opts,
    arriving (sv_consumer sv) (drop (length (w_amqp wr)) (w_amqp wr')) = [body]
    ∧ ne_event_id event = e ∧ sendable (sv_consumer sv) body event opts
    ∧ (∀ m, m ∈ map r_email (eo_recipients opts) ↔ m ∈ [rid])
    ∧ ∀ atts p, answers_base (sv_context sv) (sv_consumer sv) event opts atts p tpls snap →
        (∃ to, group_to_recipients opts = Ok to) → spins (sv_context sv) (sv_consumer sv) body wr'.
Proof.
  intros [cfg Hco]%start_coherent Hcodec Hwf Hrun Hready.
  pose proof (retry_recipient_spec (sv_api sv) e rid wr Hwf) as Hspec. rewrite Hrun in Hspec.
  destruct Hspec as ([_ Hre] & Hf & Hcan). destruct (Hcan eq_refl) as (c & Hc & Hretry).
  apply (replay_spins o cfg); [done|done|done|simpl; lia| |  |done|done].
  - destruct (coh_consumer _ _ _ Hco) as [_ Hval]. revert Hval. unfold consumer_config_validate.
    destruct (cc_max_concurrency _ =? 0)%nat; [done|].
    destruct (Nat.eqb_spec (cc_max_recipients_per_event (sv_consumer sv)) 0); [done|]. simpl. lia.
  - intros m ->%list_elem_of_singleton. split.
    + revert Hrun. unfold retry_recipient. by destruct (is_valid_email rid).
    + exists (reset_cell c). rewrite Hre, Hc. simpl. unfold retryable_row.
      rewrite bool_decide_true by done. by rewrite Hretry.
Qed.
End replay.

(** ** A concrete retry *)

#[local] Existing Instance sample_env.

(** One order mailed to an address that bounced. *)
Definition bounced_opts : EmailOptions :=
  sample_opts SendMode.Individual GroupRetryMode.Whole [rcp "a@example.com"].
Definition bounced_event : NotificationEvent := sample_event bounced_opts.

Definition bounced_args : EmailInsertPendingArgs :=
  mkInsertArgs 7 "ORDER" "a@example.com" (JObj []) 0 None None None None None None "individual" None None.

Definition bounced_world : World :=
  run_op (OpFailed 7 "a@example.com" "mailer error: 550" true) (run_op (OpInsert bounced_args) sample_world).

(** A codec of that event's replay. *)
Definition is_bounced (ev : NotificationEvent) : bool :=
  N.eqb (ne_event_id ev) 7 && (ne_timestamp ev =? 0) && String.eqb (ne_event_type ev) "ORDER"
  && match ne_payload ev, ne_metadata ev, ne_channel_overrides ev with
     | JObj [], mkMetadata None, mkChannelOverrides (Some (mkEmailOptions SendMode.Individual
         GroupRetryMode.Whole RetryPolicy.Retry [mkRecipient email None] [] [] None [] None None None)) =>
         String.eqb email "a@example.com"
     | _, _, _ => false
     end.

Lemma is_bounced_spec ev : is_bounced ev = true → ev = bounced_event.
Proof.
  destruct ev as [id ts ty payload [mt] [ov]]. unfold is_bounced. cbn -[String.eqb].
  rewrite !andb_true_iff. intros (((->%N.eqb_eq & ->%Z.eqb_eq) & ->%String.eqb_eq) & Hrest).
  repeat (case_match; simplify_eq; try done). apply String.eqb_eq in Hrest as ->. done.
Qed.

Definition bounced_wire : WireCodec := {|
  de_recipient := @de_recipient sample_wire_codec;
  de_from_override := @de_from_override sample_wire_codec;
  de_attachment := @de_attachment sample_wire_codec;
  de_send_mode := @de_send_mode sample_wire_codec;
  de_group_retry_mode := @de_group_retry_mode sample_wire_codec;
  de_metadata := @de_metadata sample_wire_codec;
  de_datetime := @de_datetime sample_wire_codec;
  rfc3339 := @rfc3339 sample_wire_codec;
  encode_event e := if is_bounced e then Ok "event" else Err "?";
|}.

Definition bounced_codec : EventCodec := sample_codec (one_to bounced_opts).

Definition bounced_retry : result ApiResponse AppError * World :=
  retry_recipient (H0 := EmailNotificationStore) (H1 := bounced_wire) (sv_api shipped_service) 7
    "a@example.com" bounced_world.

(** One row, with its detail. *)
Lemma one_row_wf r x :
  dr_notification_id x = lr_id r → ed_recipient_email (dr_detail x) = lr_recipient_id r →
  ∀ d, db_log d = [r] → db_detail d = [x] → log_wf d.
Proof.
  intros Hid Hrid d Hl Hd. constructor; rewrite ?Hl, ?Hd; try apply NoDup_singleton.
  intros y ->%list_elem_of_singleton. exists r. by split_and!; [constructor| |].
Qed.

Lemma bounced_wf : log_wf (w_db bounced_world).
Proof. eapply one_row_wf; [| |vm_compute; reflexivity..]; reflexivity. Qed.

Lemma bounced_ready : HealthyStore.ready sample_templates empty_snapshot bounced_retry.2.
Proof.
  assert (Hlog : ∃ r, db_log (w_db bounced_retry.2) = [r] ∧ lr_id r = 1%N).
  { eexists. split; [vm_compute; reflexivity|done]. }
  destruct Hlog as (r & Hlog & Hid). constructor.
  - eapply one_row_wf; [| |vm_compute; reflexivity..]; reflexivity.
  - intros x t. rewrite Hlog. intros ->%list_elem_of_singleton Ht. rewrite Hid. vm_compute in Ht. simpl. lia.
  - intros ty. assert (db_templates (w_db bounced_retry.2) = db_templates (w_db sample_world)) as Ht by by vm_compute.
    unfold find_active. rewrite Ht. apply sample_ready.
  - intros ch ty t _ Hc. exfalso. revert Hc. by vm_compute.
  - by vm_compute.
  - by vm_compute.
Qed.

Lemma bounced_answers :
  answers_base (sv_context shipped_service) (sv_consumer shipped_service) bounced_event bounced_opts []
    sample_prepared sample_templates empty_snapshot.
Proof.
  constructor; try done.
  - intros t t'. simpl. lia.
  - by left.
  - by exists sample_template.
Qed.

Lemma manual_retry_never_mailed_witness :
  let sv := shipped_service in
  let wr := bounced_world in
  let wr' := bounced_retry.2 in
  ∃ body event opts,
    arriving (sv_consumer sv) (drop (length (w_amqp wr)) (w_amqp wr')) = [body]
    ∧ ne_event_id event = 7%N ∧ sendable (H9 := bounced_codec) (sv_consumer sv) body event opts
    ∧ (∀ m, m ∈ map r_email (eo_recipients opts) ↔ m ∈ ["a@example.com"])
    ∧ ∀ atts p, answers_base (sv_context sv) (sv_consumer sv) event opts atts p sample_templates empty_snapshot →
        (∃ to, group_to_recipients opts = Ok to) →
        spins (H4 := bounced_codec) (sv_context sv) (sv_consumer sv) body wr'.
Proof.
  apply (manual_retry_never_mailed (H0 := bounced_wire) (H4 := bounced_codec) false sample_templates empty_snapshot
    (all_well shipped_config) (world0 empty_db) shipped_service started_world 7 "a@example.com" bounced_world
    (match bounced_retry.1 with Ok r => r | Err _ => json_response 0 JNull end) bounced_retry.2).
  - exact shipped_starts.
  - intros ev body _. simpl. destruct (is_bounced ev) eqn:He; [|done]. apply is_bounced_spec in He as ->.
    by intros [= <-].
  - exact bounced_wf.
  - vm_compute. reflexivity.
  - exact bounced_ready.
Defined.

(** The assumption can hold: the retried order spins, for any fuel and schedule. *)
Example bounced_retry_spins :
  spins (H4 := bounced_codec) (sv_context shipped_service) (sv_consumer shipped_service) "event" bounced_retry.2.
Proof.
  apply (live_rows_spin (H4 := bounced_codec) sample_templates empty_snapshot _ _ bounced_event bounced_opts []
           sample_prepared).
  - exact bounced_answers.
  - by eexists.
  - exact bounced_ready.
  - split_and!; [reflexivity|reflexivity|done|vm_compute; lia].
  - intros r ->%list_elem_of_singleton. split; [reflexivity|].
    eapply (live_pending _ _ (reset_cell (mkCell "FAILED" 1 1 (Some "mailer error: 550")))); [|reflexivity].
    vm_compute. reflexivity.
Qed.
