(* ===== verification/Syslog.v ===== *)
(** * Log shipping to syslog ([src/syslog_layer.rs])

    [SyslogLayer]: the facility and severity tables, the choice of transport,
    and the single-line JSON object a log event becomes.  Sending the datagram
    is the [syslog] crate's; its connection results are parameters. *)

From S2P Require Import Prelude Json AppErr Event World.

(** ** Facility and severity *)

Inductive Facility : Type :=
  | LOG_KERN | LOG_USER | LOG_MAIL | LOG_DAEMON | LOG_AUTH | LOG_SYSLOG | LOG_LPR | LOG_NEWS
  | LOG_UUCP | LOG_CRON | LOG_LOCAL0 | LOG_LOCAL1 | LOG_LOCAL2 | LOG_LOCAL3 | LOG_LOCAL4
  | LOG_LOCAL5 | LOG_LOCAL6 | LOG_LOCAL7.

#[export] Instance Facility_eq_dec : EqDecision Facility.
Proof. solve_decision. Defined.

Definition facility_names : list (string * Facility) :=
  [("kern", LOG_KERN); ("user", LOG_USER); ("mail", LOG_MAIL); ("daemon", LOG_DAEMON);
   ("auth", LOG_AUTH); ("syslog", LOG_SYSLOG); ("lpr", LOG_LPR); ("news", LOG_NEWS);
   ("uucp", LOG_UUCP); ("cron", LOG_CRON); ("local0", LOG_LOCAL0); ("local1", LOG_LOCAL1);
   ("local2", LOG_LOCAL2); ("local3", LOG_LOCAL3); ("local4", LOG_LOCAL4); ("local5", LOG_LOCAL5);
   ("local6", LOG_LOCAL6); ("local7", LOG_LOCAL7)].

Definition parse_facility `{Env} (s : string) : Facility :=
  default LOG_USER (assoc (to_lowercase s) facility_names).

Module Level.
Inductive Level : Type := ERROR | WARN | INFO | DEBUG | TRACE.
End Level.
Notation Level := Level.Level.

Inductive Severity : Type := LOG_ERR | LOG_WARNING | LOG_INFO | LOG_DEBUG.

Definition to_severity (level : Level) : Severity :=
  match level with
  | Level.ERROR => LOG_ERR
  | Level.WARN => LOG_WARNING
  | Level.INFO => LOG_INFO
  | Level.DEBUG | Level.TRACE => LOG_DEBUG
  end.

Definition level_text (level : Level) : string :=
  match level with
  | Level.ERROR => "ERROR"
  | Level.WARN => "WARN"
  | Level.INFO => "INFO"
  | Level.DEBUG => "DEBUG"
  | Level.TRACE => "TRACE"
  end.

(** ** The transport *)

Inductive Transport : Type :=
  | UnixSocket
  | Tcp (addr : string)
  | Udp (server : string).

Record SyslogLayer : Type := mkSyslogLayer {
  sl_facility : Facility;
  sl_process : string;
  sl_transport : Transport;
}.

(** [connect]: the error of opening the transport, if any. *)
Definition syslog_new (connect : Transport → option string) (server : string) (facility : Facility)
    (ident : string) : result SyslogLayer string :=
  let open t complaint :=
    match connect t with
    | None => Ok (mkSyslogLayer facility ident t)
    | Some e => Err (complaint +:+ ": " +:+ e)
    end in
  if is_empty_str server then open UnixSocket "Failed to connect to local syslog socket"
  else match strip_prefix "tcp://" server with
       | Some addr =>
           open (Tcp addr) ("Failed to connect to syslog TCP server '" +:+ addr +:+ "'")
       | None => open (Udp server) ("Failed to open UDP syslog socket to '" +:+ server +:+ "'")
       end.

Definition from_env `{Env} (connect : Transport → option string)
    (LOG_SYSLOG_SERVER LOG_SYSLOG_FACILITY LOG_SYSLOG_IDENT : option string) :
    result SyslogLayer string :=
  syslog_new connect (default "" LOG_SYSLOG_SERVER)
    (parse_facility (default "user" LOG_SYSLOG_FACILITY)) (default "anvil-notify" LOG_SYSLOG_IDENT).

(** ** Fields *)

(** A recorded value, by the [Visit] method that receives it; floats, errors
    and [Debug] values come as their text. *)
Inductive FieldValue : Type :=
  | VF64 (text : string)
  | VI64 (n : Z)
  | VU64 (n : Z)
  | VBool (b : bool)
  | VStr (s : string)
  | VError (text : string)
  | VDebug (text : string).

Definition value_text (v : FieldValue) : string :=
  match v with
  | VF64 s | VStr s | VError s | VDebug s => s
  | VI64 n | VU64 n => show_Z n
  | VBool b => if b then "true" else "false"
  end.

(** [BTreeMap<String, String>]: its entries by ascending key. *)
Definition FieldMap : Type := list (string * string).

Fixpoint bt_insert (k v : string) (m : FieldMap) : FieldMap :=
  match m with
  | [] => [(k, v)]
  | (k', v') :: m' =>
      match String.compare k k' with
      | Lt => (k, v) :: m
      | Eq => (k, v) :: m'
      | Gt => (k', v') :: bt_insert k v m'
      end
  end.

(** [record(&mut StringVisitor(..))]. *)
Definition record_fields (fields : list (string * FieldValue)) (m : FieldMap) : FieldMap :=
  fold_left (λ m f, bt_insert f.1 (value_text f.2) m) fields m.

(** [on_new_span]: the fields a span was opened with. *)
Definition on_new_span (attrs : list (string * FieldValue)) : FieldMap := record_fields attrs [].

(** The spans from the root to the event's own, then the event. *)
Definition collect_fields (spans : list FieldMap) (event : list (string * FieldValue)) : FieldMap :=
  record_fields event
    (fold_left (λ m span, fold_left (λ m kv, bt_insert kv.1 kv.2 m) span m) spans []).

(** ** The message *)

Definition DQUOTE : ascii := ascii_of_nat 34.
Definition BACKSLASH : ascii := ascii_of_nat 92.
Definition NEWLINE : ascii := ascii_of_nat 10.
Definition RETURN : ascii := ascii_of_nat 13.

Definition quoted (s : string) : string := String DQUOTE (s +:+ String DQUOTE EmptyString).

(** [str::replace(c, by)]. *)
Fixpoint replace_char (c : ascii) (by_ s : string) : string :=
  match s with
  | EmptyString => EmptyString
  | String d s => if Ascii.eqb c d then by_ +:+ replace_char c by_ s else String d (replace_char c by_ s)
  end.

Definition backslashed (c : ascii) : string := String BACKSLASH (String c EmptyString).

Definition escape (v : string) : string :=
  replace_char RETURN (backslashed "r")
    (replace_char NEWLINE (backslashed "n")
      (replace_char DQUOTE (backslashed DQUOTE)
        (replace_char BACKSLASH (backslashed BACKSLASH) v))).

Definition field_text (key value : string) : string :=
  quoted key +:+ ":" +:+ quoted (escape value).

Fixpoint fields_text (m : FieldMap) : string :=
  match m with
  | [] => "}"
  | (k, v) :: m => "," +:+ field_text k v +:+ fields_text m
  end.

Definition format_message (level : Level) (target : string) (spans : list FieldMap)
    (event : list (string * FieldValue)) : string :=
  "{" +:+ quoted "level" +:+ ":" +:+ quoted (level_text level)
  +:+ "," +:+ quoted "target" +:+ ":" +:+ quoted target
  +:+ fields_text (collect_fields spans event).

(** [on_event]: what is handed to the backend. *)
Definition on_event (layer : SyslogLayer) (level : Level) (target : string) (spans : list FieldMap)
    (event : list (string * FieldValue)) : Severity * string :=
  (to_severity level, format_message level target spans event).

(** ** Reading the message back

    A reader for the objects the layer writes, as RFC 8259 defines JSON strings
    (the numeric escapes, which it never writes, left out): a raw control
    character inside a string is an error. *)

Definition is_control (c : ascii) : bool := (N_of_ascii c <? 32)%N.

Definition unescape (c : ascii) : option ascii :=
  assoc (String c EmptyString)
    [(String DQUOTE EmptyString, DQUOTE); (String BACKSLASH EmptyString, BACKSLASH); ("/", "/"%char);
     ("b", ascii_of_nat 8); ("f", ascii_of_nat 12); ("n", NEWLINE); ("r", RETURN);
     ("t", ascii_of_nat 9)].

Definition prepend (c : ascii) (r : option (string * string)) : option (string * string) :=
  match r with Some (a, rest) => Some (String c a, rest) | None => None end.

(** The rest of a string after its opening quote, and what follows it. *)
Fixpoint read_body (s : string) : option (string * string) :=
  match s with
  | EmptyString => None
  | String c s =>
      if Ascii.eqb c DQUOTE then Some (EmptyString, s)
      else if Ascii.eqb c BACKSLASH then
        match s with
        | String d s => match unescape d with Some e => prepend e (read_body s) | None => None end
        | EmptyString => None
        end
      else if is_control c then None else prepend c (read_body s)
  end.

Definition expect (p s : string) : option string := strip_prefix p s.

Definition OPEN : string := String DQUOTE EmptyString.

(** ["key":"value"]. *)
Definition read_field (s : string) : option (string * string * string) :=
  s ← expect OPEN s;
  '(k, s) ← read_body s;
  s ← expect (":" +:+ OPEN) s;
  '(v, s) ← read_body s;
  Some (k, v, s).

Fixpoint read_fields (fuel : nat) (s : string) : option FieldMap :=
  match fuel with
  | O => None
  | S fuel =>
      '(k, v, s) ← read_field s;
      match s with
      | String "," s => m ← read_fields fuel s; Some ((k, v) :: m)
      | String "}" EmptyString => Some [(k, v)]
      | _ => None
      end
  end.

Definition read_object (s : string) : option FieldMap :=
  s ← expect "{" s; read_fields (String.length s) s.

(** Names: no character that JSON escapes.  Values: no control character but
    the two that [escape] handles. *)
Definition plain_char (c : ascii) : bool :=
  negb (Ascii.eqb c DQUOTE) && negb (Ascii.eqb c BACKSLASH) && negb (is_control c).
Definition plain (s : string) : Prop := all_chars plain_char s = true.

Definition legible_char (c : ascii) : bool :=
  Ascii.eqb c NEWLINE || Ascii.eqb c RETURN || negb (is_control c).
Definition legible (s : string) : Prop := all_chars legible_char s = true.

Definition readable_field (kv : string * string) : Prop := plain kv.1 ∧ legible kv.2.

(** ** [escape], character by character *)

Definition escape_char (c : ascii) : string :=
  if Ascii.eqb c BACKSLASH then backslashed BACKSLASH
  else if Ascii.eqb c DQUOTE then backslashed DQUOTE
  else if Ascii.eqb c NEWLINE then backslashed "n"
  else if Ascii.eqb c RETURN then backslashed "r"
  else String c EmptyString.

Lemma cons_app c s : String c s = String c EmptyString +:+ s.
Proof. done. Qed.

Lemma replace_char_app c b s t : replace_char c b (s +:+ t) = replace_char c b s +:+ replace_char c b t.
Proof.
  induction s as [|d s IH]; [done|]. change (String d s +:+ t) with (String d (s +:+ t)). simpl.
  rewrite IH. destruct (Ascii.eqb c d); [by rewrite str_app_assoc|done].
Qed.

Lemma escape_app s t : escape (s +:+ t) = escape s +:+ escape t.
Proof. unfold escape. by rewrite !replace_char_app. Qed.

Lemma escape_single c : escape (String c EmptyString) = escape_char c.
Proof. by destruct c as [[] [] [] [] [] [] [] []]. Qed.

Lemma escape_cons c s : escape (String c s) = escape_char c +:+ escape s.
Proof. by rewrite cons_app, escape_app, escape_single. Qed.

(** ** Reading what was written *)

Lemma read_body_plain_char c s : plain_char c = true → read_body (String c s) = prepend c (read_body s).
Proof.
  unfold plain_char. intros [[H1 H2]%andb_true_iff H3]%andb_true_iff. cbn [read_body].
  apply negb_true_iff in H1, H2, H3. by rewrite H1, H2, H3.
Qed.

Lemma read_body_plain k rest : plain k → read_body (k +:+ String DQUOTE rest) = Some (k, rest).
Proof.
  unfold plain. induction k as [|c k IH]; [done|]. simpl all_chars. intros [Hc Hk]%andb_true_iff.
  change (String c k +:+ String DQUOTE rest) with (String c (k +:+ String DQUOTE rest)).
  by rewrite read_body_plain_char, IH.
Qed.

Lemma read_body_escape_char c s :
  legible_char c = true → read_body (escape_char c +:+ s) = prepend c (read_body s).
Proof.
  destruct (plain_char c) eqn:Hp.
  - intros _. rewrite <- (read_body_plain_char c s Hp).
    revert Hp. by destruct c as [[] [] [] [] [] [] [] []].
  - revert Hp. by destruct c as [[] [] [] [] [] [] [] []].
Qed.

Lemma read_body_escape v rest :
  legible v → read_body (escape v +:+ String DQUOTE rest) = Some (v, rest).
Proof.
  unfold legible. induction v as [|c v IH]; [done|]. simpl all_chars. intros [Hc Hv]%andb_true_iff.
  rewrite escape_cons, str_app_assoc, read_body_escape_char, IH; done.
Qed.

Lemma strip_prefix_app p s : strip_prefix p (p +:+ s) = Some s.
Proof.
  induction p as [|c p IH]; [done|]. change (String c p +:+ s) with (String c (p +:+ s)). simpl.
  by rewrite Ascii.eqb_refl.
Qed.

Lemma quoted_app k rest : quoted k +:+ rest = String DQUOTE (k +:+ String DQUOTE rest).
Proof.
  unfold quoted. change (String DQUOTE (k +:+ String DQUOTE "") +:+ rest)
    with (String DQUOTE ((k +:+ String DQUOTE "") +:+ rest)). by rewrite str_app_assoc.
Qed.

Lemma strip_open s : strip_prefix OPEN (String DQUOTE s) = Some s.
Proof. done. Qed.
Lemma strip_colon s : strip_prefix (":" +:+ OPEN) (":" +:+ String DQUOTE s) = Some s.
Proof. done. Qed.

Lemma read_field_text k v rest :
  plain k → legible v → read_field (field_text k v +:+ rest) = Some (k, v, rest).
Proof.
  intros Hk Hv. unfold field_text, read_field, expect. rewrite !str_app_assoc, !quoted_app, strip_open.
  cbn [mbind option_bind]. rewrite read_body_plain by done. cbn [mbind option_bind].
  rewrite strip_colon. cbn [mbind option_bind]. by rewrite read_body_escape.
Qed.

(** Enough fuel for the fields: one per field. *)
Lemma read_fields_text m k v fuel :
  readable_field (k, v) → Forall readable_field m → (length m < fuel)%nat →
  read_fields fuel (field_text k v +:+ fields_text m) = Some ((k, v) :: m).
Proof.
  revert k v fuel. induction m as [|[k' v'] m IH]; intros k v [|fuel] [Hk Hv] Hm Hfuel;
    simpl in Hfuel; try lia; cbn [read_fields fields_text].
  - rewrite read_field_text by done. done.
  - inversion Hm as [|? ? Hkv Hm']; subst. rewrite read_field_text by done. simpl.
    change ("" +:+ ?x) with x. rewrite IH by (done || lia). done.
Qed.

Lemma escape_plain s : plain s → escape s = s.
Proof.
  unfold plain. induction s as [|c s IH]; [done|]. simpl all_chars. intros [Hc Hs]%andb_true_iff.
  rewrite escape_cons, IH by done. revert Hc. by destruct c as [[] [] [] [] [] [] [] []].
Qed.

Lemma plain_legible s : plain s → legible s.
Proof.
  unfold plain, legible. apply all_chars_impl. intros c. by destruct c as [[] [] [] [] [] [] [] []].
Qed.

Lemma level_plain level : plain (level_text level).
Proof. by destruct level. Qed.

Lemma str_length_app (s t : string) : String.length (s +:+ t) = (String.length s + String.length t)%nat.
Proof. induction s as [|c s IH]; [done|]. change (String c s +:+ t) with (String c (s +:+ t)). simpl. by rewrite IH. Qed.

Lemma fields_text_length m : (length m < String.length (fields_text m))%nat.
Proof.
  induction m as [|[k v] m IH]; [simpl; lia|]. cbn [fields_text length].
  rewrite !str_length_app. simpl (String.length ","). lia.
Qed.

(** ** The fields *)

Lemma compare_refl s : String.compare s s = Eq.
Proof.
  induction s as [|c s IH]; [done|]. simpl. unfold Ascii.compare. by rewrite N.compare_refl.
Qed.

Lemma bt_insert_lookup k v m k' :
  assoc k' (bt_insert k v m) = if String.eqb k' k then Some v else assoc k' m.
Proof.
  induction m as [|[k0 v0] m IH]; [done|]. simpl. destruct (String.compare k k0) eqn:Hc; simpl.
  - apply String.compare_eq_iff in Hc as ->. by destruct (String.eqb k' k0).
  - done.
  - rewrite IH. destruct (String.eqb_spec k' k0) as [->|]; [|done].
    destruct (String.eqb_spec k0 k) as [->|]; [|done]. by rewrite compare_refl in Hc.
Qed.

Lemma bt_insert_Forall (P : string * string → Prop) k v m : P (k, v) → Forall P m → Forall P (bt_insert k v m).
Proof.
  intros Hkv. induction 1 as [|[k0 v0] m H0 Hm IH]; simpl; [by constructor|].
  destruct (String.compare k k0); by repeat constructor.
Qed.

Lemma insert_all_Forall {A} (P : string * string → Prop) (key val : A → string) l m :
  (∀ a, a ∈ l → P (key a, val a)) → Forall P m →
  Forall P (fold_left (λ m a, bt_insert (key a) (val a) m) l m).
Proof.
  revert m. induction l as [|a l IH]; intros m Hl Hm; [done|]. simpl.
  apply IH; [set_solver|]. apply bt_insert_Forall; [apply Hl; set_solver|done].
Qed.

Lemma collect_fields_Forall (P : string * string → Prop) spans event :
  Forall (Forall P) spans → Forall (λ f : string * FieldValue, P (f.1, value_text f.2)) event →
  Forall P (collect_fields spans event).
Proof.
  intros Hs He. unfold collect_fields, record_fields.
  apply insert_all_Forall; [by rewrite <- Forall_forall|].
  assert (Hnil : Forall P []) by constructor. revert Hnil. generalize (@nil (string * string)).
  induction Hs as [|span spans Hspan Hs IH]; intros m Hm; [done|]. simpl. apply IH.
  apply insert_all_Forall; [|done]. intros [k v] Hin. rewrite Forall_forall in Hspan. by apply Hspan.
Qed.

(** C40: what the syslog line of an event says can be read back: it parses as the
    JSON object with the event's level and target followed by the collected
    fields, when names hold no character that JSON escapes and values no
    control character besides newline and carriage return. *)
Theorem syslog_round_trip level target spans event :
  plain target → Forall (Forall readable_field) spans →
  Forall (λ f : string * FieldValue, readable_field (f.1, value_text f.2)) event →
  read_object (format_message level target spans event)
  = Some (("level", level_text level) :: ("target", target) :: collect_fields spans event).
Proof.
  intros Ht Hs He. pose proof (collect_fields_Forall readable_field spans event Hs He) as Hm.
  unfold format_message, read_object, expect. rewrite strip_prefix_app. cbn [mbind option_bind].
  set (m := collect_fields spans event) in *.
  assert (Hall : Forall readable_field (("target", target) :: m)).
  { constructor; [|done]. split; [done|by apply plain_legible]. }
  assert (Htext : quoted "level" +:+ ":" +:+ quoted (level_text level) +:+ "," +:+ quoted "target"
            +:+ ":" +:+ quoted target +:+ fields_text m
          = field_text "level" (level_text level) +:+ fields_text (("target", target) :: m)).
  { cbn [fields_text]. unfold field_text. rewrite !(escape_plain) by (done || apply level_plain).
    by rewrite !str_app_assoc. }
  rewrite Htext. apply read_fields_text; [split; [done|apply plain_legible, level_plain]|done|].
  pose proof (fields_text_length (("target", target) :: m)) as Hl.
  rewrite str_length_app. lia.
Qed.

(** Closer bindings win: the event's over the spans', an inner span's over an
    outer one's, a later one over an earlier one in the same place. *)
Definition last_binding (k : string) (l : FieldMap) : option string := assoc k (rev l).

Lemma insert_all_lookup {A} (key val : A → string) l m k :
  assoc k (fold_left (λ m a, bt_insert (key a) (val a) m) l m)
  = match last_binding k (map (λ a, (key a, val a)) l) with Some v => Some v | None => assoc k m end.
Proof.
  unfold last_binding. revert m. induction l as [|a l IH]; intros m; [done|]. simpl.
  rewrite IH, assoc_app. destruct (assoc k (rev _)); [done|]. rewrite bt_insert_lookup. simpl.
  by destruct (String.eqb k (key a)).
Qed.

Theorem collected_field spans event k :
  assoc k (collect_fields spans event)
  = last_binding k (concat spans ++ map (λ f : string * FieldValue, (f.1, value_text f.2)) event).
Proof.
  unfold collect_fields, record_fields. rewrite insert_all_lookup. unfold last_binding.
  rewrite rev_app_distr, assoc_app. destruct (assoc k (rev (map _ event))); [done|].
  enough (∀ m, assoc k (fold_left (λ m span, fold_left (λ m kv, bt_insert kv.1 kv.2 m) span m) spans m)
    = match assoc k (rev (concat spans)) with Some v => Some v | None => assoc k m end) as ->;
    [by destruct (assoc k (rev (concat spans)))|].
  induction spans as [|span spans IH]; intros m; [done|]. simpl. rewrite IH, insert_all_lookup.
  rewrite rev_app_distr, assoc_app. destruct (assoc k (rev (concat spans))); [done|].
  unfold last_binding. by replace (map (λ a, (a.1, a.2)) span) with span
    by (clear; induction span as [|[] l IHl]; simpl; congruence).
Qed.

(** ** One line per event *)

Definition line_char (c : ascii) : bool := negb (Ascii.eqb c NEWLINE) && negb (Ascii.eqb c RETURN).
Definition one_line (s : string) : bool := all_chars line_char s.

Lemma escape_one_line v : one_line (escape v) = true.
Proof.
  induction v as [|c v IH]; [done|]. rewrite escape_cons. unfold one_line in *.
  rewrite all_chars_app, IH, andb_true_r. by destruct c as [[] [] [] [] [] [] [] []].
Qed.

Lemma plain_one_line s : plain s → one_line s = true.
Proof.
  unfold plain, one_line. apply all_chars_impl. intros c. by destruct c as [[] [] [] [] [] [] [] []].
Qed.

Lemma quoted_one_line s : one_line s = true → one_line (quoted s) = true.
Proof.
  intros Hs. unfold one_line, quoted in *. cbn [all_chars]. rewrite all_chars_app, Hs. done.
Qed.

Lemma fields_one_line m : Forall (λ kv, plain kv.1) m → one_line (fields_text m) = true.
Proof.
  induction 1 as [|[k v] m Hk Hm IH]; [done|]. cbn [fields_text]. unfold field_text, one_line in *.
  rewrite !all_chars_app, IH. pose proof (quoted_one_line _ (plain_one_line _ Hk)) as H1.
  pose proof (quoted_one_line _ (escape_one_line v)) as H2. unfold one_line in *. cbn [fst] in H1. by rewrite H1, H2.
Qed.

(** Whatever the values hold, line breaks included, an event is one line of the
    log. *)
Theorem syslog_single_line level target spans event :
  plain target → Forall (Forall (λ kv : string * string, plain kv.1)) spans →
  Forall (λ f : string * FieldValue, plain f.1) event →
  one_line (format_message level target spans event) = true.
Proof.
  intros Ht Hs He. unfold format_message.
  pose proof (fields_one_line _ (collect_fields_Forall (λ kv, plain kv.1) spans event Hs He)) as Hf.
  pose proof (quoted_one_line _ (plain_one_line _ (level_plain level))) as Hl.
  pose proof (quoted_one_line _ (plain_one_line _ Ht)) as Hq.
  unfold one_line in *. rewrite !all_chars_app, Hf, Hl, Hq. done.
Qed.

(** ** Concrete messages *)

Definition sample_spans : list FieldMap :=
  [on_new_span [("event_id", VStr "42"); ("to", VStr "a@example.com")]; on_new_span [("to", VStr "b@example.com")]].
Definition sample_fields : list (string * FieldValue) :=
  [("attempt", VU64 2); ("error", VDebug ("no route" +:+ String NEWLINE "to " +:+ quoted "host"))].

Lemma syslog_round_trip_witness :
  read_object (format_message Level.WARN "consumer::delivery" sample_spans sample_fields)
  = Some (("level", "WARN") :: ("target", "consumer::delivery") :: collect_fields sample_spans sample_fields).
Proof.
  apply (syslog_round_trip Level.WARN "consumer::delivery" sample_spans sample_fields).
  - reflexivity.
  - repeat constructor.
  - repeat constructor.
Defined.

Example collected :
  map fst (collect_fields sample_spans sample_fields) = ["attempt"; "error"; "event_id"; "to"]
  ∧ assoc "to" (collect_fields sample_spans sample_fields) = Some "b@example.com".
Proof. by vm_compute. Qed.

(** A tab, or any other control character, is copied as it is, which JSON does
    not allow: the line cannot be read back. *)
Theorem tab_unreadable :
  read_object (format_message Level.INFO "api" [] [("path", VStr ("a" +:+ String (ascii_of_nat 9) "b"))]) = None.
Proof. vm_compute. reflexivity. Qed.

Example facilities :
  (parse_facility (H := sample_env) "LOCAL7", parse_facility (H := sample_env) "authpriv")
  = (LOG_LOCAL7, LOG_USER).
Proof. vm_compute. reflexivity. Qed.

Example transports :
  map (λ s, result_map sl_transport (syslog_new (λ _, None) s LOG_USER "x")) [""; "10.0.0.1:514"; "tcp://h:601"]
  = [Ok UnixSocket; Ok (Udp "10.0.0.1:514"); Ok (Tcp "h:601")].
Proof. reflexivity. Qed.
