(* ===== verification/CliQueries.v ===== *)
(** * Read-only listings ([crates/store/src/cli_queries.rs])

    The queries behind [anctl] and the MCP server: rows of [notification_log],
    [notification_template] and [outbox], filtered, ordered and cut to a limit.
    [ILIKE] is the database's; its patterns are compiled to tokens and matched
    on the text, both sides in lower case. *)

From Stdlib Require Import Sorting.Sorted.
From S2P Require Import Prelude Order Json AppErr Event World Interfaces TemplateStore.

(** ** [ILIKE] *)

Inductive LikeToken : Type :=
  | AnyString
  | AnyChar
  | Literal (c : ascii).

(** [None]: the pattern ends in a lone escape. *)
Fixpoint like_tokens (p : string) : option (list LikeToken) :=
  match p with
  | EmptyString => Some []
  | String c p =>
      if Ascii.eqb c "%" then option_map (cons AnyString) (like_tokens p)
      else if Ascii.eqb c "_" then option_map (cons AnyChar) (like_tokens p)
      else if Ascii.eqb c "\" then
        match p with
        | EmptyString => None
        | String d p => option_map (cons (Literal d)) (like_tokens p)
        end
      else option_map (cons (Literal c)) (like_tokens p)
  end.

(** A byte that continues a UTF-8 character. *)
Definition is_continuation (c : ascii) : bool :=
  ((128 <=? N_of_ascii c) && (N_of_ascii c <? 192))%N.
Fixpoint skip_continuation (s : string) : string :=
  match s with
  | String c s' => if is_continuation c then skip_continuation s' else s
  | EmptyString => s
  end.

(** Some suffix of [s] satisfies [P]. *)
Fixpoint any_suffix (P : string → bool) (s : string) : bool :=
  P s || match s with EmptyString => false | String _ s => any_suffix P s end.

Fixpoint like_match (ts : list LikeToken) (s : string) : bool :=
  match ts with
  | [] => is_empty_str s
  | AnyString :: ts => any_suffix (like_match ts) s
  | AnyChar :: ts =>
      match s with EmptyString => false | String _ s => like_match ts (skip_continuation s) end
  | Literal c :: ts =>
      match s with EmptyString => false | String d s => Ascii.eqb c d && like_match ts s end
  end.

(** ** Result types *)

Record NotificationLogRow : Type := mkNotificationLogRow {
  nr_event_id : string;
  nr_event_type : string;
  nr_recipient_email : string;
  nr_status : string;
  nr_retry_count : Z;
  nr_last_error : option string;
  nr_updated_at : DateTime;
}.

Record RecipientStatusRow : Type := mkRecipientStatusRow {
  rr_recipient_email : string;
  rr_status : string;
  rr_retry_count : Z;
  rr_last_error : option string;
  rr_updated_at : DateTime;
}.

Record TemplateListRow : Type := mkTemplateListRow {
  tl_event_type : string;
  tl_channel : string;
  tl_subject : string;
  tl_version : Z;
  tl_active : bool;
  tl_updated_at : DateTime;
}.

Record TemplateDetailRow : Type := mkTemplateDetailRow {
  td_event_type : string;
  td_channel : string;
  td_subject : string;
  td_body_html : string;
  td_body_text : string;
  td_version : Z;
  td_active : bool;
  td_updated_at : DateTime;
}.

Record OutboxRow : Type := mkOutboxRow {
  ox_event_id : string;
  ox_event_type : string;
  ox_status : string;
  ox_fail_count : Z;
  ox_payload : json;
  ox_created_at : DateTime;
  ox_published_at : option DateTime;
}.

Section cli_queries.
Context `{Env}.
(** The database's [lower()] on text outside ASCII. *)
Context (db_lowercase : string → string).

Definition db_lower (s : string) : string :=
  if all_chars is_ascii s then map_chars ascii_lower s else db_lowercase s.

(** A pattern that ends in a lone escape is an error of the statement. *)
Definition ilike (pattern : string) : result (string → bool) string :=
  match like_tokens (db_lower pattern) with
  | Some ts => Ok (λ s, like_match ts (db_lower s))
  | None => Err "LIKE pattern must not end with escape character"
  end.

(** [fetch_all]: a failed query is a [sqlx::Error], here its text. *)
Definition fetch_all {A} (select : Db → result (list A) string) : M (result (list A) string) :=
  let! t := next_tick in
  match db_err t with
  | Some e => st_ret (Err e)
  | None => let! d := st_get w_db in st_ret (select d)
  end.

(** [LIMIT n]. *)
Definition limit_rows {A} (limit : Z) (l : list A) : result (list A) string :=
  if limit <? 0 then Err "LIMIT must not be negative" else Ok (take (Z.to_nat limit) l).

(** ** [notification_log] *)

Definition log_row (r : LogRow) : NotificationLogRow :=
  mkNotificationLogRow (uuid_str (lr_event_id r)) (lr_event_type r) (lr_recipient_id r)
    (lr_status r) (lr_retry_count r) (lr_last_error r) (lr_updated_at r).

Definition email_row (r : LogRow) : bool := String.eqb (lr_channel r) "email".

Definition status_is (status : option string) (r : LogRow) : bool :=
  match status with Some s => String.eqb (lr_status r) s | None => true end.

(** Both branches of the source: with a status predicate, and without. *)
Definition list_notification_logs (status : option string) (event_type_filter email_filter : string)
    (limit : Z) : M (result (list NotificationLogRow) string) :=
  fetch_all (λ d,
    result_bind (ilike event_type_filter) (λ match_type,
    result_bind (ilike email_filter) (λ match_email,
    result_map (map log_row) (limit_rows limit (order_by (λ r, - lr_updated_at r)
      (base.filter (λ r, (email_row r && status_is status r && match_type (lr_event_type r)
                          && match_email (lr_recipient_id r)) = true) (db_log d))))))).

Definition status_row (r : LogRow) : RecipientStatusRow :=
  mkRecipientStatusRow (lr_recipient_id r) (lr_status r) (lr_retry_count r) (lr_last_error r)
    (lr_updated_at r).

Definition get_status_for_event (event_id : Uuid) : M (result (list RecipientStatusRow) string) :=
  fetch_all (λ d, Ok (map status_row (order_by lr_created_at
    (base.filter (λ r, (N.eqb (lr_event_id r) event_id && email_row r) = true) (db_log d))))).

(** [fetch_optional]. *)
Definition get_status_for_recipient (event_id : Uuid) (email : string) :
    M (result (option RecipientStatusRow) string) :=
  let? rows := fetch_all (λ d, Ok (map status_row
    (base.filter (λ r, (N.eqb (lr_event_id r) event_id && email_row r
                        && String.eqb (lr_recipient_id r) email) = true) (db_log d)))) in
  st_ret (Ok (head rows)).

(** ** [notification_template] *)

Definition template_list_row (r : TemplateRow) : TemplateListRow :=
  mkTemplateListRow (tr_event_type r) (tr_channel r) (tr_subject r) (tr_version r) (tr_active r)
    (tr_updated_at r).

Definition list_templates : M (result (list TemplateListRow) string) :=
  fetch_all (λ d, Ok (map template_list_row
    (order_tpl (λ a b, str_ltb (tr_event_type a) (tr_event_type b)
       || String.eqb (tr_event_type a) (tr_event_type b) && str_ltb (tr_channel a) (tr_channel b))
       (db_templates d)))).

Definition template_detail_row (r : TemplateRow) : TemplateDetailRow :=
  mkTemplateDetailRow (tr_event_type r) (tr_channel r) (tr_subject r) (tr_body_html r)
    (tr_body_text r) (tr_version r) (tr_active r) (tr_updated_at r).

Definition show_template (event_type : string) : M (result (list TemplateDetailRow) string) :=
  fetch_all (λ d, Ok (map template_detail_row
    (order_tpl (λ a b, str_ltb (tr_channel a) (tr_channel b))
      (base.filter (λ r, tr_event_type r = event_type) (db_templates d))))).

(** ** [outbox] *)

Definition outbox_row (r : OutboxDbRow) : OutboxRow :=
  mkOutboxRow (uuid_str (ob_event_id r)) (ob_event_type r) (ob_status r) (ob_fail_count r)
    (ob_payload r) (ob_created_at r) (ob_published_at r).

Definition list_outbox_rows (status : string) (limit : Z) : M (result (list OutboxRow) string) :=
  fetch_all (λ d, result_map (map outbox_row) (limit_rows limit (order_by (λ r, - ob_created_at r)
    (base.filter (λ r, ob_status r = status) (db_outbox d))))).

(** ** [ILIKE '%text%'] *)

(** Neither [%], [_] nor a backslash. *)
Definition like_plain_char (c : ascii) : bool :=
  negb (Ascii.eqb c "%") && negb (Ascii.eqb c "_") && negb (Ascii.eqb c "\").
Definition like_plain (s : string) : bool := all_chars (λ c, is_ascii c && like_plain_char c) s.

Fixpoint literals (s : string) : list LikeToken :=
  match s with EmptyString => [] | String c s => Literal c :: literals s end.

Lemma like_tokens_plain v p :
  like_plain v = true →
  like_tokens (v +:+ p) = option_map (app (literals v)) (like_tokens p).
Proof.
  unfold like_plain, like_plain_char. induction v as [|c v IH]; intros Hv.
  - change ("" +:+ p) with p. destruct (like_tokens p); reflexivity.
  - cbn [all_chars] in Hv. apply andb_prop in Hv as [Hc Hv]. apply andb_prop in Hc as [_ Hc].
    rewrite !andb_true_iff, !negb_true_iff in Hc. destruct Hc as [[H1 H2] H3].
    change (String c v +:+ p) with (String c (v +:+ p)). cbn [like_tokens]. rewrite H1, H2, H3, IH by done.
    destruct (like_tokens p); reflexivity.
Qed.

Lemma any_suffix_ext P Q s : (∀ s, P s = Q s) → any_suffix P s = any_suffix Q s.
Proof. intros He. induction s as [|c s IH]; simpl; [by rewrite He|]. by rewrite He, IH. Qed.

Lemma like_match_any s : like_match [AnyString] s = true.
Proof. cbn [like_match]. induction s as [|c s IH]; [done|]. cbn [any_suffix]. by rewrite IH, orb_true_r. Qed.

Lemma like_match_literals v s :
  like_match (literals v ++ [AnyString]) s = starts_with v s.
Proof.
  unfold starts_with. revert s. induction v as [|c v IH]; intros s.
  - rewrite like_match_any. by destruct s.
  - simpl. destruct s as [|d s]; [done|]. rewrite IH. simpl. destruct (Ascii.eqb_spec c d), (ascii_dec c d); done.
Qed.

Lemma any_suffix_contains v s : any_suffix (starts_with v) s = contains_str v s.
Proof. induction s as [|c s IH]; [done|]. simpl. by rewrite IH. Qed.

Lemma map_chars_app f s t : map_chars f (s +:+ t) = map_chars f s +:+ map_chars f t.
Proof.
  induction s as [|c s IH]; [done|].
  change (String c s +:+ t) with (String c (s +:+ t)). simpl. by rewrite IH.
Qed.

Lemma like_plain_lower v : like_plain v = true → like_plain (map_chars ascii_lower v) = true.
Proof.
  unfold like_plain. induction v as [|c v IH]; [done|]. simpl. intros [Hc Hv]%andb_prop.
  rewrite IH by done. by destruct c as [[] [] [] [] [] [] [] []].
Qed.

(** The partial match [anctl logs] asks for: a text without wildcards matches
    the rows that contain it, in either case. *)
Theorem ilike_contains v :
  like_plain v = true →
  ∃ f, ilike ("%" +:+ v +:+ "%") = Ok f
       ∧ ∀ s, f s = contains_str (map_chars ascii_lower v) (db_lower s).
Proof.
  intros Hv. assert (Ha : all_chars is_ascii v = true).
  { revert Hv. apply all_chars_impl. intros c. by intros [? _]%andb_prop. }
  eexists. split.
  - unfold ilike, db_lower at 1. rewrite !all_chars_app, Ha. cbn [all_chars andb].
    change (is_ascii "%") with true. cbn [andb]. rewrite !map_chars_app.
    change (map_chars ascii_lower "%") with "%".
    change ("%" +:+ ?x) with (String "%" x). cbn [like_tokens].
    change (Ascii.eqb "%" "%") with true. cbn iota.
    rewrite like_tokens_plain by (by apply like_plain_lower). reflexivity.
  - intros s. simpl. rewrite <- any_suffix_contains. apply any_suffix_ext. apply like_match_literals.
Qed.
(** ** The listings *)

(** [out] is the first [limit] rows of [all] by [key], ties in any order. *)
Definition first_by {A} (key : A → Z) (limit : Z) (all out : list A) : Prop :=
  ∃ rest, out ++ rest ≡ₚ all ∧ length out = Nat.min (Z.to_nat limit) (length all)
          ∧ key_sorted key out ∧ ∀ a b, a ∈ out → b ∈ rest → key a ≤ key b.

Lemma key_sorted_take {A} (key : A → Z) n l : key_sorted key l → key_sorted key (take n l).
Proof.
  intros Hs. revert n. induction Hs as [|a l Hl IH Ha]; intros [|n]; simpl; try constructor; [apply IH|].
  by apply Forall_take.
Qed.

Lemma limit_rows_first {A} (key : A → Z) limit l out :
  limit_rows limit (order_by key l) = Ok out → 0 ≤ limit ∧ first_by key limit l out.
Proof.
  unfold limit_rows. destruct (limit <? 0) eqn:E; [done|]. intros [= <-]. split; [lia|].
  exists (drop (Z.to_nat limit) (order_by key l)). split_and!.
  - by rewrite take_drop, order_by_perm.
  - by rewrite length_take, order_by_perm.
  - apply key_sorted_take, order_by_sorted.
  - apply sorted_take_drop, order_by_sorted.
Qed.

Lemma fetch_all_Ok {A} (select : Db → result (list A) string) w rows w' :
  fetch_all select w = (Ok rows, w') →
  select (w_db w) = Ok rows ∧ w' = set_tick (S (w_tick w)) w.
Proof. unfold fetch_all, next_tick. run_st. destruct (db_err _); [done|]. by intros [= <- <-]. Qed.

Lemma fetch_all_world {A} (select : Db → result (list A) string) w :
  (fetch_all select w).2 = set_tick (S (w_tick w)) w.
Proof. unfold fetch_all, next_tick. run_st. by destruct (db_err _). Qed.

Definition asked_for (status : option string) (match_type match_email : string → bool) (r : LogRow) :
    Prop :=
  lr_channel r = "email" ∧ (∀ s, status = Some s → lr_status r = s)
  ∧ match_type (lr_event_type r) = true ∧ match_email (lr_recipient_id r) = true.

(** [anctl logs] shows the newest of the e-mail rows that satisfy every filter
    given, as many as the limit allows, and changes nothing. *)
Theorem logs_listing status type_filter email_filter limit w rows w' :
  list_notification_logs status type_filter email_filter limit w = (Ok rows, w') →
  ∃ match_type match_email all chosen,
    ilike type_filter = Ok match_type ∧ ilike email_filter = Ok match_email
    ∧ (∀ r, r ∈ all ↔ r ∈ db_log (w_db w) ∧ asked_for status match_type match_email r)
    ∧ sublist all (db_log (w_db w))
    ∧ first_by (λ r, - lr_updated_at r) limit all chosen
    ∧ rows = map log_row chosen ∧ w' = set_tick (S (w_tick w)) w.
Proof.
  intros [Hs ->]%fetch_all_Ok.
  destruct (ilike type_filter) as [mt|] eqn:Ht; [|done]. simpl in Hs.
  destruct (ilike email_filter) as [me|] eqn:He; [|done]. simpl in Hs.
  destruct (limit_rows _ _) as [chosen|] eqn:Hl; [|done]. injection Hs as <-.
  apply limit_rows_first in Hl as [_ Hf]. exists mt, me. eexists. exists chosen.
  split_and!; [done|done| | |exact Hf|done|done].
  - intros r. rewrite list_elem_of_filter, !andb_true_iff. unfold asked_for, email_row, status_is.
    rewrite String.eqb_eq. destruct status as [s|]; [rewrite String.eqb_eq|]; naive_solver.
  - apply sublist_filter.
Qed.

(** The rows [status] shows for an event are its e-mail rows, oldest first. *)
Theorem event_status_listing event_id w rows w' :
  get_status_for_event event_id w = (Ok rows, w') →
  ∃ all, all ≡ₚ base.filter (λ r, lr_event_id r = event_id ∧ lr_channel r = "email") (db_log (w_db w))
         ∧ key_sorted lr_created_at all ∧ rows = map status_row all ∧ w' = set_tick (S (w_tick w)) w.
Proof.
  intros [Hs ->]%fetch_all_Ok. injection Hs as <-.
  eexists. split_and!; [|apply order_by_sorted|done..].
  rewrite order_by_perm. erewrite list_filter_iff; [done|].
  intros r. unfold email_row. by rewrite andb_true_iff, N.eqb_eq, String.eqb_eq.
Qed.
End cli_queries.
