(* ===== verification/J2.v ===== *)
(** * Template files of the command line client ([crates/anctl/src/cmd/template.rs])

    [parse_j2] reads the three named sections of a [.j2] file, and
    [validate_j2_syntax] asks minijinja whether each is well formed. *)

From S2P Require Import Prelude Json AppErr Event World.

Definition LF : ascii := ascii_of_nat 10.
Definition CR : ascii := ascii_of_nat 13.
Definition newline : string := String LF EmptyString.

(** [strip_suffix] of a carriage return. *)
Fixpoint strip_cr (s : string) : string :=
  match s with
  | EmptyString => EmptyString
  | String c EmptyString => if Ascii.eqb c CR then EmptyString else s
  | String c s => String c (strip_cr s)
  end.

(** [str::lines]: a last line that is empty does not count, and one without a
    line feed keeps its carriage return. *)
Fixpoint drop_endings (l : list string) : list string :=
  match l with
  | [] => []
  | [last] => if is_empty_str last then [] else [last]
  | x :: l => strip_cr x :: drop_endings l
  end.
Definition lines (s : string) : list string := drop_endings (split_char LF s).

Definition SUBJECT : string := "{# subject #}".
Definition BODY_HTML : string := "{# body_html #}".
Definition BODY_TEXT : string := "{# body_text #}".

Record J2Sections : Type := mkJ2Sections {
  j2_subject : string;
  j2_body_html : string;
  j2_body_text : string;
}.

(** The local variables of [parse_j2]. *)
Record J2State : Type := mkJ2State {
  js_subject : option string;
  js_body_html : option string;
  js_body_text : option string;
  js_current : option string;
  js_buf : string;
}.

Definition j2_start : J2State := mkJ2State None None None None "".

Definition is_marker (s : string) : bool :=
  String.eqb s SUBJECT || String.eqb s BODY_HTML || String.eqb s BODY_TEXT.

Definition store_section (marker content : string) (st : J2State) : result J2State string :=
  if String.eqb marker SUBJECT then
    match js_subject st with
    | Some _ => Err "duplicate {# subject #} section"
    | None => Ok (mkJ2State (Some content) (js_body_html st) (js_body_text st) (js_current st) (js_buf st))
    end
  else if String.eqb marker BODY_HTML then
    match js_body_html st with
    | Some _ => Err "duplicate {# body_html #} section"
    | None => Ok (mkJ2State (js_subject st) (Some content) (js_body_text st) (js_current st) (js_buf st))
    end
  else
    match js_body_text st with
    | Some _ => Err "duplicate {# body_text #} section"
    | None => Ok (mkJ2State (js_subject st) (js_body_html st) (Some content) (js_current st) (js_buf st))
    end.

Section j2.
Context `{Env}.

(** [if let Some(sec) = current_section { store_section(..)? }]. *)
Definition flush (st : J2State) : result J2State string :=
  match js_current st with
  | Some sec => store_section sec (trim (js_buf st)) st
  | None => Ok st
  end.

Definition open_section (marker : string) (st : J2State) : J2State :=
  mkJ2State (js_subject st) (js_body_html st) (js_body_text st) (Some marker) "".

Definition push_line (line : string) (st : J2State) : J2State :=
  match js_current st with
  | Some _ =>
      mkJ2State (js_subject st) (js_body_html st) (js_body_text st) (js_current st)
        (if is_empty_str (js_buf st) then js_buf st +:+ line else js_buf st +:+ newline +:+ line)
  | None => st
  end.

(** One turn of the loop over the lines. *)
Definition read_line (line : string) (st : J2State) : result J2State string :=
  let trimmed := trim line in
  if is_marker trimmed then result_map (open_section trimmed) (flush st)
  else Ok (push_line line st).

Fixpoint read_lines (ls : list string) (st : J2State) : result J2State string :=
  match ls with
  | [] => Ok st
  | line :: ls => result_bind (read_line line st) (read_lines ls)
  end.

Definition need {A} (o : option A) (msg : string) : result A string :=
  match o with Some a => Ok a | None => Err msg end.

Definition finish (st : J2State) : result J2Sections string :=
  result_bind (need (js_subject st) "missing {# subject #} section") (λ subject,
  result_bind (need (js_body_html st) "missing {# body_html #} section") (λ body_html,
  result_bind (need (js_body_text st) "missing {# body_text #} section") (λ body_text,
  Ok (mkJ2Sections subject body_html body_text)))).

Definition parse_j2 (content : string) : result J2Sections string :=
  result_bind (read_lines (lines content) j2_start) (λ st,
  result_bind (flush st) finish).

(** One error per section that does not parse. *)
Definition validate_j2_syntax (s : J2Sections) : list string :=
  omap (λ check : string * string,
    match jinja_parse check.2 with
    | Some e => Some (check.1 +:+ ": " +:+ je_text e)
    | None => None
    end)
    [("subject", j2_subject s); ("body_html", j2_body_html s); ("body_text", j2_body_text s)].
(** ** The sections of a file *)

(** The lines before the first marker, and each marker with the lines up to
    the next. *)
Fixpoint segments (ls : list string) : list string * list (string * list string) :=
  match ls with
  | [] => ([], [])
  | l :: ls =>
      let '(before, segs) := segments ls in
      if is_marker (trim l) then ([], (trim l, before) :: segs) else (l :: before, segs)
  end.

Definition append_line (buf line : string) : string :=
  if is_empty_str buf then buf +:+ line else buf +:+ newline +:+ line.
Definition body_from (buf : string) (ls : list string) : string := trim (fold_left append_line ls buf).

(** The sections of a file, in order: their marker and their content. *)
Definition sections_of (content : string) : list (string * string) :=
  map (λ seg, (seg.1, body_from "" seg.2)) (segments (lines content)).2.

Definition parts (st : J2State) : option string * option string * option string :=
  (js_subject st, js_body_html st, js_body_text st).

Definition part (m : string) (p : option string * option string * option string) : option string :=
  if String.eqb m SUBJECT then p.1.1 else if String.eqb m BODY_HTML then p.1.2 else p.2.

Fixpoint store_all (l : list (string * string)) (st : J2State) : result J2State string :=
  match l with
  | [] => Ok st
  | (m, c) :: l => result_bind (store_section m c st) (store_all l)
  end.

Lemma result_map_bind {A B C E} (f : B → C) (r : result A E) (k : A → result B E) :
  result_map f (result_bind r k) = result_bind r (λ a, result_map f (k a)).
Proof. by destruct r. Qed.

(** Neither the open section nor the buffer matters to what is stored. *)
Lemma store_section_parts m c st st' :
  parts st = parts st' → result_map parts (store_section m c st) = result_map parts (store_section m c st').
Proof.
  unfold parts. intros [= H1 H2 H3]. unfold store_section. rewrite H1, H2, H3.
  repeat case_match; simplify_eq/=; unfold parts; simpl; congruence.
Qed.

Lemma store_all_parts l st st' :
  parts st = parts st' → result_map parts (store_all l st) = result_map parts (store_all l st').
Proof.
  revert st st'. induction l as [|[m c] l IH]; intros st st' Hp; simpl; [by rewrite Hp|].
  pose proof (store_section_parts m c st st' Hp) as Hs.
  destruct (store_section m c st), (store_section m c st'); simpl in *; [|congruence..].
  apply IH. congruence.
Qed.

Lemma push_line_open m line st :
  js_current st = Some m →
  push_line line st
  = mkJ2State (js_subject st) (js_body_html st) (js_body_text st) (Some m) (append_line (js_buf st) line).
Proof. intros Hm. unfold push_line. by rewrite Hm. Qed.

(** The loop stores the sections one after the other, beginning with the one
    that is open. *)
Lemma read_lines_store ls st :
  result_map parts (result_bind (read_lines ls st) flush)
  = result_map parts
      (store_all (match js_current st with
                  | Some m => [(m, body_from (js_buf st) (segments ls).1)]
                  | None => []
                  end ++ map (λ seg, (seg.1, body_from "" seg.2)) (segments ls).2) st).
Proof.
  revert st. induction ls as [|l ls IH]; intros st.
  - simpl. unfold flush. destruct (js_current st); [|done]. simpl. by destruct (store_section _ _ _).
  - cbn [read_lines segments]. unfold read_line. destruct (segments ls) as [before segs]. cbn [fst snd] in *.
    set (tail := map _ segs) in *. destruct (is_marker (trim l)).
    + unfold flush at 1. destruct (js_current st) as [m|]; simpl.
      * destruct (store_section _ _ _) as [st1|e]; simpl; [|done]. rewrite IH.
        by apply (store_all_parts ((trim l, body_from "" before) :: tail)).
      * rewrite IH. by apply (store_all_parts ((trim l, body_from "" before) :: tail)).
    + simpl. rewrite IH. destruct (js_current st) as [m|] eqn:Hm.
      * rewrite (push_line_open m) by done.
        by apply (store_all_parts ((m, body_from (js_buf st) (l :: before)) :: tail)).
      * replace (push_line l st) with st by (unfold push_line; by rewrite Hm). by rewrite Hm.
Qed.

(** ** Storing *)

Lemma is_marker_iff m : is_marker m = true ↔ m ∈ [SUBJECT; BODY_HTML; BODY_TEXT].
Proof. unfold is_marker. rewrite !orb_true_iff, !String.eqb_eq. set_solver. Qed.

Lemma store_section_spec m c st :
  is_marker m = true →
  match part m (parts st) with
  | Some _ => ∃ e, store_section m c st = Err e
  | None => ∃ st', store_section m c st = Ok st'
                   ∧ ∀ m', is_marker m' = true →
                       part m' (parts st') = if String.eqb m' m then Some c else part m' (parts st)
  end.
Proof.
  intros Hm%is_marker_iff. unfold part, parts, store_section. simpl.
  rewrite !elem_of_cons, elem_of_nil in Hm. destruct Hm as [->|[->|[->|[]]]]; simpl;
    (destruct (_ st); [by eexists|]); (eexists; split; [done|]);
    intros m' Hm'%is_marker_iff; rewrite !elem_of_cons, elem_of_nil in Hm';
    by destruct Hm' as [->|[->|[->|[]]]].
Qed.

Lemma store_all_Ok l st p :
  Forall (λ mc, is_marker mc.1 = true) l →
  result_map parts (store_all l st) = Ok p →
  NoDup (map fst l) ∧ (∀ m, m ∈ map fst l → part m (parts st) = None)
  ∧ ∀ m, is_marker m = true →
      part m p = match part m (parts st) with Some c => Some c | None => assoc m l end.
Proof.
  intros Hl. revert st. induction Hl as [|[m c] l Hm Hl IH]; intros st.
  - simpl. intros [= <-]. split_and!; [constructor|set_solver|]. intros m _. by destruct (part m _).
  - cbn [store_all]. simpl in Hm. pose proof (store_section_spec m c st Hm) as Hs.
    destruct (part m (parts st)) eqn:Hp; [by destruct Hs as [e ->]|].
    destruct Hs as (st' & -> & Hst'). simpl. intros (Hnd & Hnone & Hp')%IH. split_and!.
    + constructor; [|done]. intros Hin%Hnone. rewrite Hst' in Hin by done. by rewrite String.eqb_refl in Hin.
    + intros m' [->|Hin]%elem_of_cons; [done|]. pose proof Hin as Hin'. apply Hnone in Hin'.
      apply list_elem_of_fmap in Hin as ([m2 c2] & -> & Hin). rewrite Forall_forall in Hl.
      rewrite Hst' in Hin' by (by apply (Hl _ Hin)). by destruct (String.eqb _ m).
    + intros m' Hm'. rewrite Hp', Hst' by done. simpl. destruct (String.eqb_spec m' m) as [->|]; [by rewrite Hp|done].
Qed.

Lemma store_all_succeeds l st :
  Forall (λ mc, is_marker mc.1 = true) l → NoDup (map fst l) →
  (∀ m, m ∈ map fst l → part m (parts st) = None) →
  ∃ p, result_map parts (store_all l st) = Ok p.
Proof.
  intros Hl. revert st. induction Hl as [|[m c] l Hm Hl IH]; intros st Hnd Hnone; [by eexists|].
  simpl in *. pose proof (store_section_spec m c st Hm) as Hs. rewrite Hnone in Hs by set_solver.
  destruct Hs as (st' & -> & Hst'). simpl. inversion_clear Hnd as [|?? Hni Hnd']. apply IH; [done|].
  intros m' Hin. apply list_elem_of_fmap in Hin as Hx. destruct Hx as ([m2 c2] & -> & Hin2). simpl.
  rewrite Forall_forall in Hl. rewrite Hst' by (by apply (Hl _ Hin2)).
  destruct (String.eqb_spec m2 m) as [->|]; [done|]. apply Hnone. set_solver.
Qed.

Lemma segments_markers ls : Forall (λ seg, is_marker seg.1 = true) (segments ls).2.
Proof.
  induction ls as [|l ls IH]; [constructor|]. simpl. destruct (segments ls) as [before segs].
  destruct (is_marker (trim l)) eqn:Hm; [by constructor|done].
Qed.

Lemma sections_markers content : Forall (λ mc, is_marker mc.1 = true) (sections_of content).
Proof. unfold sections_of. rewrite Forall_map. apply segments_markers. Qed.
(** ** What [parse_j2] accepts *)

Lemma section_names content :
  map fst (sections_of content) = base.filter (λ l, is_marker l = true) (map trim (lines content)).
Proof.
  unfold sections_of. rewrite map_map. simpl. induction (lines content) as [|l ls IH]; [done|].
  simpl. destruct (segments ls) as [before segs]. rewrite filter_cons.
  destruct (is_marker (trim l)) eqn:Hm; case_decide; simpl in *; congruence.
Qed.

Lemma finish_iff st s :
  finish st = Ok s ↔ parts st = (Some (j2_subject s), Some (j2_body_html s), Some (j2_body_text s)).
Proof.
  unfold finish, need, parts. destruct (js_subject st), (js_body_html st), (js_body_text st), s; simpl;
    split; congruence.
Qed.

Lemma parse_j2_store content s :
  parse_j2 content = Ok s ↔
  result_map parts (store_all (sections_of content) j2_start)
  = Ok (Some (j2_subject s), Some (j2_body_html s), Some (j2_body_text s)).
Proof.
  unfold parse_j2. pose proof (read_lines_store (lines content) j2_start) as Hr. simpl in Hr.
  fold (sections_of content) in Hr. rewrite <- Hr.
  destruct (read_lines _ _) as [st|e]; simpl; [|done].
  destruct (flush st) as [st'|e]; simpl; [|done]. rewrite finish_iff. split; congruence.
Qed.

(** A file is accepted when each of the three markers is, spaces aside, exactly
    one of its lines, in any order; what is between a marker and the next is
    that section's text, and what precedes the first is ignored. *)
Theorem parse_j2_iff content s :
  parse_j2 content = Ok s ↔
  base.filter (λ l, is_marker l = true) (map trim (lines content)) ≡ₚ [SUBJECT; BODY_HTML; BODY_TEXT]
  ∧ assoc SUBJECT (sections_of content) = Some (j2_subject s)
  ∧ assoc BODY_HTML (sections_of content) = Some (j2_body_html s)
  ∧ assoc BODY_TEXT (sections_of content) = Some (j2_body_text s).
Proof.
  rewrite parse_j2_store, <- section_names. pose proof (sections_markers content) as Hm.
  set (secs := sections_of content) in *. split.
  - intros Hs. destruct (store_all_Ok _ _ _ Hm Hs) as (Hnd & _ & Hp).
    pose proof (Hp SUBJECT eq_refl) as H1. pose proof (Hp BODY_HTML eq_refl) as H2.
    pose proof (Hp BODY_TEXT eq_refl) as H3. simpl in H1, H2, H3. split_and!; [|done..].
    apply NoDup_Permutation; [done|by apply (bool_decide_unpack (NoDup [SUBJECT; BODY_HTML; BODY_TEXT])); vm_compute|].
    intros m. rewrite <- is_marker_iff. split.
    + intros (mc & -> & Hin)%list_elem_of_fmap. rewrite Forall_forall in Hm. by apply Hm.
    + intros Hmk%is_marker_iff. assert (Hin : ∀ m c, assoc m secs = Some c → m ∈ map fst secs).
      { clear. induction secs as [|[k v] l IH]; [done|]. intros m c. simpl.
        destruct (String.eqb_spec m k) as [->|]; [constructor|]. intros ?%IH. by constructor. }
      rewrite !elem_of_cons, elem_of_nil in Hmk. destruct Hmk as [->|[->|[->|[]]]];
        [exact (Hin _ _ (eq_sym H1))|exact (Hin _ _ (eq_sym H2))|exact (Hin _ _ (eq_sym H3))].
  - intros (Hperm & H1 & H2 & H3).
    assert (Hnd : NoDup (map fst secs)).
    { rewrite Hperm. by apply (bool_decide_unpack (NoDup [SUBJECT; BODY_HTML; BODY_TEXT])); vm_compute. }
    destruct (store_all_succeeds secs j2_start Hm Hnd) as [p Hp].
    { intros m _. unfold part. simpl. by repeat case_match. }
    rewrite Hp. f_equal. destruct (store_all_Ok _ _ _ Hm Hp) as (_ & _ & Hpart).
    pose proof (Hpart SUBJECT eq_refl) as E1. pose proof (Hpart BODY_HTML eq_refl) as E2.
    pose proof (Hpart BODY_TEXT eq_refl) as E3. simpl in E1, E2, E3. unfold part in E1, E2, E3. simpl in *.
    destruct p as [[p1 p2] p3]. simpl in *. congruence.
Qed.

(** ** Writing a file and reading it back *)

Definition print_section (mc : string * string) : string := mc.1 +:+ newline +:+ mc.2 +:+ newline.
Fixpoint print_sections (l : list (string * string)) : string :=
  match l with [] => "" | mc :: l => print_section mc +:+ print_sections l end.

(** A text that survives: trimmed, without carriage returns, none of its lines
    a marker. *)
Definition section_ok (c : string) : Prop :=
  trim c = c ∧ starts_with_char LF c = false ∧ contains_char CR c = false
  ∧ Forall (λ l, is_marker (trim l) = false) (split_char LF c).

Lemma strip_cr_clean s : contains_char CR s = false → strip_cr s = s.
Proof.
  induction s as [|c s IH]; [done|]. cbn [contains_char]. intros [Hc Hs]%orb_false_elim.
  cbn [strip_cr]. rewrite IH by done. destruct s; [|done]. by rewrite Ascii.eqb_sym, Hc.
Qed.

Lemma drop_endings_app l l2 :
  Forall (λ s, contains_char CR s = false) l → l2 ≠ [] → drop_endings (l ++ l2) = l ++ drop_endings l2.
Proof.
  intros Hl Hne. induction Hl as [|s l Hs Hl IH]; [done|]. simpl. rewrite IH, strip_cr_clean by done.
  destruct (l ++ l2) eqn:E; [|done]. by apply app_nil in E as [_ ->].
Qed.

Lemma lines_print_section m c rest :
  contains_char LF m = false → contains_char CR m = false → contains_char CR c = false →
  lines (print_section (m, c) +:+ rest) = m :: split_char LF c ++ lines rest.
Proof.
  intros Hm Hm' Hc. unfold lines, print_section, newline. simpl.
  rewrite !str_app_assoc. change (m +:+ String LF "" +:+ c +:+ String LF "" +:+ rest)
    with (m +:+ String LF (c +:+ String LF rest)). rewrite !split_char_app, (split_char_none LF m) by done. rewrite drop_endings_app.
  - simpl. f_equal. rewrite drop_endings_app; [done|by apply split_char_clean|apply split_char_nonempty].
  - by repeat constructor.
  - intros [He _]%app_nil. by destruct (split_char_nonempty LF c).
Qed.

(** The lines of a text, appended one by one, are the text. *)
Lemma append_lines_nonempty ls c buf :
  fold_left append_line ls (String c buf)
  = String c buf +:+ fold_right (λ l acc, newline +:+ l +:+ acc) "" ls.
Proof.
  revert c buf. induction ls as [|l ls IH]; intros c buf; simpl.
  - by rewrite str_app_nil.
  - change (append_line (String c buf) l) with (String c (buf +:+ newline +:+ l)). rewrite IH.
    change (String c ?x +:+ ?y) with (String c (x +:+ y)). by rewrite !str_app_assoc.
Qed.

Lemma join_split s :
  match split_char LF s with
  | [] => False
  | l :: ls => s = l +:+ fold_right (λ l acc, newline +:+ l +:+ acc) "" ls
  end.
Proof.
  induction s as [|c s IH]; [done|]. simpl. destruct (Ascii.eqb_spec LF c) as [<-|Hne].
  - destruct (split_char LF s) as [|l ls] eqn:E; [done|]. rewrite IH at 1. done.
  - destruct (split_char LF s) as [|l ls]; [done|]. rewrite IH at 1. done.
Qed.

Lemma body_of_split s : trim s = s → starts_with_char LF s = false → body_from "" (split_char LF s) = s.
Proof.
  intros Ht Hs. unfold body_from. pose proof (join_split s) as Hj.
  destruct s as [|c s]; [exact Ht|].
  destruct (split_char LF (String c s)) as [|l ls] eqn:E; [done|]. simpl in E, Hs. rewrite Hs in E.
  destruct (split_char LF s) eqn:E2; [by destruct (split_char_nonempty LF s)|].
  injection E as <- <-. cbn [fold_left]. change (append_line "" ?x) with x.
  rewrite append_lines_nonempty, <- Hj. exact Ht.
Qed.

Lemma is_marker_plain m :
  is_marker m = true → trim m = m ∧ contains_char LF m = false ∧ contains_char CR m = false.
Proof.
  intros Hm%is_marker_iff. rewrite !elem_of_cons, elem_of_nil in Hm.
  by destruct Hm as [->|[->|[->|[]]]].
Qed.

Lemma segments_skip ls rest :
  Forall (λ l, is_marker (trim l) = false) ls →
  segments (ls ++ rest) = (ls ++ (segments rest).1, (segments rest).2).
Proof.
  induction 1 as [|l ls Hl _ IH]; simpl; [by destruct (segments rest)|]. by rewrite IH, Hl.
Qed.

Lemma sections_print l :
  Forall (λ mc, is_marker mc.1 = true ∧ section_ok mc.2) l →
  sections_of (print_sections l) = l ∧ (segments (lines (print_sections l))).1 = [].
Proof.
  induction 1 as [|[m c] l [Hm (Ht & Hs & Hc & Hl)] _ [IH1 IH2]]; [done|]. simpl in Hm, Ht, Hs, Hc, Hl.
  destruct (is_marker_plain m Hm) as (Htm & Hlf & Hcr). unfold sections_of in *.
  cbn [print_sections]. rewrite lines_print_section by done. cbn [segments].
  rewrite segments_skip, Htm, Hm by done. cbn [fst snd map]. rewrite IH1, IH2, app_nil_r.
  split; [|done]. by rewrite body_of_split.
Qed.

(** C39: a file written with its sections in any order reads back as those
    sections, for trimmed texts without carriage returns or markers of their own. *)
Theorem j2_round_trip s order :
  order ≡ₚ [(SUBJECT, j2_subject s); (BODY_HTML, j2_body_html s); (BODY_TEXT, j2_body_text s)] →
  section_ok (j2_subject s) → section_ok (j2_body_html s) → section_ok (j2_body_text s) →
  parse_j2 (print_sections order) = Ok s.
Proof.
  intros Hp Hs Hh Ht.
  assert (Hall : Forall (λ mc : string * string, is_marker mc.1 = true ∧ section_ok mc.2) order).
  { rewrite Hp, !Forall_cons, Forall_nil. by split_and!; try apply Hs; try apply Hh; try apply Ht. }
  destruct (sections_print order Hall) as [Hsec _]. apply parse_j2_iff. rewrite <- section_names, Hsec.
  split; [exact (fmap_Permutation fst _ _ Hp)|].
  assert (Hnd : NoDup (map fst order)).
  { rewrite (fmap_Permutation fst _ _ Hp). by apply (bool_decide_unpack (NoDup [SUBJECT; BODY_HTML; BODY_TEXT])); vm_compute. }
  assert (Hin : ∀ m c, (m, c) ∈ order → assoc m order = Some c).
  { clear -Hnd. induction order as [|[k v] l IH]; [by intros m c ?%not_elem_of_nil|]. simpl in *.
    inversion_clear Hnd as [|?? Hni Hnd']. intros m c [[= -> ->]|Hin]%elem_of_cons.
    - by rewrite String.eqb_refl.
    - destruct (String.eqb_spec m k) as [->|]; [|by apply IH]. destruct Hni.
      apply list_elem_of_fmap. by exists (k, c). }
  split_and!; apply Hin; rewrite Hp; set_solver.
Qed.

(** ** Validation *)

(** No complaint means that no section can fail to parse later, when the
    consumer renders it. *)
Lemma validate_j2_nil s :
  validate_j2_syntax s = [] ↔
  jinja_parse (j2_subject s) = None ∧ jinja_parse (j2_body_html s) = None
  ∧ jinja_parse (j2_body_text s) = None.
Proof.
  unfold validate_j2_syntax. simpl.
  destruct (jinja_parse (j2_subject s)), (jinja_parse (j2_body_html s)), (jinja_parse (j2_body_text s));
    simpl; naive_solver.
Qed.
End j2.

(** ** A concrete file *)

Definition sample_sections : J2Sections :=
  mkJ2Sections "Order {{ orderId }} confirmed"
    ("<h1>Hi {{ name }}</h1>" +:+ newline +:+ newline +:+ "  <p>Thanks.</p>") "Hi {{ name }}".
Definition sample_order : list (string * string) :=
  [(BODY_TEXT, j2_body_text sample_sections); (SUBJECT, j2_subject sample_sections);
   (BODY_HTML, j2_body_html sample_sections)].

Lemma j2_round_trip_witness :
  parse_j2 (H := sample_env) (print_sections sample_order) = Ok sample_sections.
Proof.
  apply (j2_round_trip (H := sample_env)).
  - apply (bool_decide_unpack _). vm_compute. exact I.
  - split_and!; [reflexivity..|]. repeat constructor.
  - split_and!; [reflexivity..|]. repeat constructor.
  - split_and!; [reflexivity..|]. repeat constructor.
Defined.

Example j2_errors :
  map (λ f, parse_j2 (H := sample_env) f)
    ["hello"; SUBJECT +:+ newline +:+ "a" +:+ newline +:+ SUBJECT +:+ newline +:+ "b"]
  = [Err "missing {# subject #} section"; Err "duplicate {# subject #} section"].
Proof. vm_compute. reflexivity. Qed.

(** A marker with tighter braces is an ordinary line, and its section missing. *)
Example tight_marker_ignored :
  parse_j2 (H := sample_env) (print_sections [("{#subject#}", "a"); (BODY_HTML, "b"); (BODY_TEXT, "c")])
  = Err "missing {# subject #} section".
Proof. vm_compute. reflexivity. Qed.
