(* ===== verification/Mcp.v ===== *)
(** * The MCP server ([crates/mcp/src/server.rs])

    [NotifyServer]: the tools an assistant calls.  It works on the same
    database and broker as the service, through a [TemplateStore] and a
    [BlockListStore] of its own, so with caches of its own.  The transport, the
    tool router and the derived argument decoders are rmcp's; a result is the
    text or the JSON value it prints. *)

From S2P Require Import Prelude Json AppErr EmailValidation Event World Interfaces.
From S2P Require Import Filter BlockList TemplateStore Runner Config CliQueries Api.

(** ** State *)

(** [McpConfig] with its two sections in one record. *)
Record McpConfig : Type := mkMcpConfig {
  mc_database_url : string;
  mc_amqp_url : string;
  mc_exchange : string;
  mc_routing_key : string;
}.

Definition mcp_config_new (database_url amqp_url exchange routing_key : string) : McpConfig :=
  mkMcpConfig database_url amqp_url exchange routing_key.

(** The settings of a server mounted in the service. *)
Definition mcp_config_of (cfg : AppConfig) : McpConfig :=
  mcp_config_new (db_url (cf_database cfg)) (aq_url (cf_amqp cfg)) (aq_exchange (cf_amqp cfg))
    (aq_routing_key (cf_amqp cfg)).

(** The sources' values over the defaults [load] sets. *)
Definition load (database_url amqp_url : string) (exchange routing_key : option string) : McpConfig :=
  mkMcpConfig database_url amqp_url (default "anvil-notify" exchange) (default "email.requested" routing_key).

(** The world the service shares with the server, and the server's caches. *)
Record McpWorld : Type := mkMcpWorld {
  mw_world : World;
  mw_tpl_cache : gmap string NotificationTemplate;
  mw_block_cache : option BlockListSnapshot;
}.

(** [NotifyServer::new]: both stores start with an empty cache, kept for five
    minutes whatever the service's own settings are. *)
Definition mcp_new (w : World) : McpWorld := mkMcpWorld w ∅ None.
Definition mcp_cache_policies : CachePolicy * CachePolicy := (template_cache_default, block_cache_new 300).

(** Code that takes the pool or the broker only. *)
Definition on_pool {A} (m : M A) : ST McpWorld A :=
  λ s, let '(a, w) := m (mw_world s) in (a, mkMcpWorld w (mw_tpl_cache s) (mw_block_cache s)).

(** An operation of [self.template_store] or [self.block_list_store]. *)
Definition on_stores {A} (m : M A) : ST McpWorld A :=
  λ s, let w := mw_world s in
       let '(a, w') := m (set_tpl_cache (mw_tpl_cache s) (set_block_cache (mw_block_cache s) w)) in
       (a, mkMcpWorld (set_tpl_cache (w_tpl_cache w) (set_block_cache (w_block_cache w) w'))
             (w_tpl_cache w') (w_block_cache w')).

(** ** Arguments and results *)

Record SendEmailArgs : Type := mkSendEmailArgs {
  sa_event_type : string;
  sa_to : string;
  sa_name : option string;
  sa_payload : string;
  sa_from_email : option string;
  sa_from_name : option string;
  sa_subject : option string;
  sa_body_html : option string;
  sa_body_text : option string;
  sa_event_id : option string;
}.

Definition default_payload : string := "{}".

Record UpsertTemplateArgs : Type := mkUpsertTemplateArgs {
  ua_event_type : string;
  ua_channel : string;
  ua_subject : string;
  ua_body_html : string;
  ua_body_text : string;
  ua_active : bool;
}.

Definition default_channel : string := "email".
Definition default_true : bool := true.

Inductive ToolCall : Type :=
  | SendEmail (args : SendEmailArgs)
  | CheckDeliveryStatus (event_id : string)
  | ListTemplates
  | GetTemplate (event_type : string)
  | UpsertTemplate (args : UpsertTemplateArgs)
  | GetRecipientStatus (event_id email : string)
  | ListBlocklist
  | AddBlocklistEntry (kind value : string) (reason : option string)
  | RemoveBlocklistEntry (id : Z)
  | HealthCheck
  | GetServerInfo.

Inductive McpError : Type :=
  | InvalidParams (msg : string)
  | InternalError (msg : string).

(** [CallToolResult::success] of a text, or of a pretty-printed value. *)
Inductive ToolResult : Type :=
  | Said (text : string)
  | Printed (v : json).

Section server.
Context `{Env, WireCodec}.
(** [Uuid]'s [FromStr] and [serde_json::from_str]. *)
Context (parse_uuid : string → result Uuid string) (parse_json : string → result json string).
Context (version : string) (cfg : McpConfig).

(** [map_err(|e| McpError::internal_error(e.to_string(), None))]. *)
Definition internal {A} (r : result A string) : result A McpError := map_err InternalError r.
Definition internal_app {A} (r : result A AppError) : result A McpError :=
  map_err (λ e, InternalError (app_error_to_string e)) r.

Definition pooled {A} (m : M (result A string)) : ST McpWorld (result A McpError) :=
  let! r := on_pool m in st_ret (internal r).
Definition stored {A} (m : M (result A AppError)) : ST McpWorld (result A McpError) :=
  let! r := on_stores m in st_ret (internal_app r).

(** ** [send_email] *)

(** The subject and both bodies, when all three are given. *)
Definition generic_parts (args : SendEmailArgs) : option (string * string * string) :=
  match sa_subject args, sa_body_html args, sa_body_text args with
  | Some s, Some h, Some t => Some (s, h, t)
  | _, _, _ => None
  end.

Definition tool_payload (args : SendEmailArgs) : json :=
  match generic_parts args with
  | Some (s, h, t) => JObj [("subject", JStr s); ("body_html", JStr h); ("body_text", JStr t)]
  | None => match parse_json (sa_payload args) with Ok v => v | Err _ => JNull end
  end.

Definition tool_event_type (args : SendEmailArgs) : string :=
  match generic_parts args with Some _ => "GENERIC_HTML" | None => sa_event_type args end.

(** [event_id.and_then(|s| s.parse().ok())]. *)
Definition given_event_id (args : SendEmailArgs) : option Uuid :=
  match sa_event_id args with
  | Some s => match parse_uuid s with Ok id => Some id | Err _ => None end
  | None => None
  end.

(** [unwrap_or_else(Uuid::new_v4)]. *)
Definition event_id_for (args : SendEmailArgs) : M Uuid :=
  match given_event_id args with
  | Some id => st_ret id
  | None => let! t := next_tick in st_ret (fresh_uuid t)
  end.

Definition tool_event (args : SendEmailArgs) (event_id : Uuid) (now : DateTime) : NotificationEvent :=
  {| ne_event_id := event_id;
     ne_timestamp := now;
     ne_event_type := tool_event_type args;
     ne_payload := tool_payload args;
     ne_metadata := mkMetadata (Some "opencode-mcp");
     ne_channel_overrides := mkChannelOverrides (Some {|
       eo_send_mode := SendMode.Individual;
       eo_group_retry_mode := GroupRetryMode.Whole;
       eo_retry_policy := RetryPolicy.Retry;
       eo_recipients := [mkRecipient (sa_to args) (sa_name args)];
       eo_cc := []; eo_bcc := [];
       eo_from_override := option_map (λ email, mkFromOverride email (sa_from_name args)) (sa_from_email args);
       eo_attachments := []; eo_sender_account := None; eo_send_at := None; eo_priority := None |}) |}.

(** [Connection::connect], [create_channel], [confirm_select]. *)
Definition connect_confirming : M (result unit string) :=
  let? _ := amqp_step in let? _ := amqp_step in amqp_step.

(** On a connection of its own: declare the exchange, publish, await the
    confirm, whatever it says. *)
Definition publish_once (body : string) : M (result unit string) :=
  let? _ := connect_confirming in
  let? _ := active (ExchangeDeclare (mc_exchange cfg) ExchangeKind.Direct) in
  let? _ := basic_publish (mc_exchange cfg) (mc_routing_key cfg) persistent_json body in
  let? _ := await_confirm in
  st_ret (Ok tt).

Definition published_json (args : SendEmailArgs) (event : NotificationEvent) : json :=
  JObj [("status", JStr "published");
        ("event_id", JStr (uuid_str (ne_event_id event)));
        ("event_type", JStr (ne_event_type event));
        ("recipient", JStr (sa_to args));
        ("message", JStr ("Email event " +:+ uuid_str (ne_event_id event) +:+ " published to "
                          +:+ mc_routing_key cfg))].

Definition send_email (args : SendEmailArgs) : ST McpWorld (result ToolResult McpError) :=
  if negb (is_valid_email (sa_to args))
  then st_ret (Err (InvalidParams ("invalid email address: " +:+ sa_to args)))
  else
    let! event_id := on_pool (event_id_for args) in
    let! t := on_pool next_tick in
    let event := tool_event args event_id (clock t) in
    let? body := st_ret (internal (encode_event event)) in
    let? _ := pooled (publish_once body) in
    st_ret (Ok (Printed (published_json args event))).

(** ** Status *)

Definition tool_event_id (s : string) : result Uuid McpError :=
  map_err (λ e, InvalidParams ("invalid event_id UUID: " +:+ e)) (parse_uuid s).

Definition status_fields (r : RecipientStatusRow) : list (string * json) :=
  [("recipient", JStr (rr_recipient_email r)); ("status", JStr (rr_status r));
   ("retry_count", json_int (rr_retry_count r)); ("last_error", json_opt_str (rr_last_error r));
   ("updated_at", JStr (rfc3339 (rr_updated_at r)))].

Definition check_delivery_status (event_id : string) : ST McpWorld (result ToolResult McpError) :=
  let? id := st_ret (tool_event_id event_id) in
  let? rows := pooled (get_status_for_event id) in
  st_ret (Ok (match rows with
              | [] => Said ("No delivery records found for event " +:+ event_id)
              | _ => Printed (JObj [("event_id", JStr event_id);
                               ("recipients", JArr (map (λ r, JObj (status_fields r)) rows))])
              end)).

Definition get_recipient_status (event_id email : string) : ST McpWorld (result ToolResult McpError) :=
  let? id := st_ret (tool_event_id event_id) in
  let? row := pooled (get_status_for_recipient id email) in
  st_ret (Ok (match row with
              | None => Said ("No delivery record found for event " +:+ event_id +:+ " / recipient " +:+ email)
              | Some r => Printed (JObj (("event_id", JStr event_id) :: status_fields r))
              end)).

(** ** Templates *)

Definition template_list_json (r : TemplateListRow) : json :=
  JObj [("event_type", JStr (tl_event_type r)); ("channel", JStr (tl_channel r));
        ("subject", JStr (tl_subject r)); ("version", json_int (tl_version r));
        ("active", JBool (tl_active r)); ("updated_at", JStr (rfc3339 (tl_updated_at r)))].

Definition list_templates : ST McpWorld (result ToolResult McpError) :=
  let? rows := pooled CliQueries.list_templates in
  st_ret (Ok (Printed (JArr (map template_list_json rows)))).

Definition get_template (event_type : string) : ST McpWorld (result ToolResult McpError) :=
  let? rows := stored (TemplateStore.get event_type) in
  st_ret (Ok (match rows with
              | [] => Said ("No template found for event type '" +:+ event_type +:+ "'")
              | _ => Printed (JArr (map template_full rows))
              end)).

Definition upsert_template (args : UpsertTemplateArgs) : ST McpWorld (result ToolResult McpError) :=
  if is_empty_str (trim (ua_event_type args)) || is_empty_str (trim (ua_subject args))
  then st_ret (Err (InvalidParams "event_type and subject must not be empty"))
  else
    let? row := stored (TemplateStore.upsert (ua_event_type args) (ua_channel args) (ua_subject args)
                          (ua_body_html args) (ua_body_text args) (ua_active args)) in
    st_ret (Ok (Printed (JObj [
      ("event_type", JStr (ua_event_type args)); ("channel", JStr (ua_channel args));
      ("version", json_int row.1); ("active", JBool (ua_active args)); ("inserted", JBool row.2)]))).

(** ** Block list *)

Definition tool_entry_json (e : BlockListEntry) : json :=
  JObj [("id", json_int (bl_id e)); ("kind", JStr (bl_kind e)); ("value", JStr (bl_value e));
        ("reason", json_opt_str (bl_reason e)); ("created_at", JStr (rfc3339 (bl_created_at e)))].

Definition list_blocklist : ST McpWorld (result ToolResult McpError) :=
  let? entries := stored BlockList.list_entries in
  st_ret (Ok (Printed (JArr (map tool_entry_json entries)))).

Definition add_blocklist_entry (kind value : string) (reason : option string) :
    ST McpWorld (result ToolResult McpError) :=
  if negb (existsb (String.eqb kind) valid_kinds)
  then st_ret (Err (InvalidParams ("invalid kind '" +:+ kind +:+ "' — must be one of: "
                      +:+ join ", " valid_kinds)))
  else
    let? entry := stored (BlockList.add_entry kind value reason) in
    st_ret (Ok (Printed (tool_entry_json entry))).

Definition remove_blocklist_entry (id : Z) : ST McpWorld (result ToolResult McpError) :=
  let? _ := stored (BlockList.remove_entry id) in
  st_ret (Ok (Said ("Blocklist entry " +:+ show_Z id +:+ " removed"))).

(** ** The server itself *)

Definition health_check : ST McpWorld (result ToolResult McpError) :=
  let! r := on_pool (fetch_all (λ _, Ok [1])) in
  let db_ok := is_ok r in
  st_ret (Ok (Printed (JObj [
    ("status", JStr (if db_ok then "healthy" else "unhealthy"));
    ("database", JStr (if db_ok then "connected" else "disconnected"));
    ("service", JStr "anvil-notify")]))).

Definition listed_tools : list string :=
  ["send_email"; "check_delivery_status"; "list_templates"; "get_template"; "upsert_template";
   "get_recipient_status"; "list_blocklist"; "add_blocklist_entry"; "remove_blocklist_entry";
   "health_check"; "get_server_info"].

Definition get_server_info : ST McpWorld (result ToolResult McpError) :=
  st_ret (Ok (Printed (JObj [
    ("service", JStr "anvil-notify");
    ("version", JStr version);
    ("description", JStr "MCP server for anvil-notify — transactional email delivery service");
    ("tools", JArr (map JStr listed_tools));
    ("amqp_exchange", JStr (mc_exchange cfg));
    ("amqp_routing_key", JStr (mc_routing_key cfg))]))).

(** A routed call: the [tool_router] maps each method's name to it. *)
Definition run_tool (c : ToolCall) : ST McpWorld (result ToolResult McpError) :=
  match c with
  | SendEmail args => send_email args
  | CheckDeliveryStatus id => check_delivery_status id
  | ListTemplates => list_templates
  | GetTemplate ty => get_template ty
  | UpsertTemplate args => upsert_template args
  | GetRecipientStatus id email => get_recipient_status id email
  | ListBlocklist => list_blocklist
  | AddBlocklistEntry kind value reason => add_blocklist_entry kind value reason
  | RemoveBlocklistEntry id => remove_blocklist_entry id
  | HealthCheck => health_check
  | GetServerInfo => get_server_info
  end.

Definition tool_name (c : ToolCall) : string :=
  match c with
  | SendEmail _ => "send_email"
  | CheckDeliveryStatus _ => "check_delivery_status"
  | ListTemplates => "list_templates"
  | GetTemplate _ => "get_template"
  | UpsertTemplate _ => "upsert_template"
  | GetRecipientStatus _ _ => "get_recipient_status"
  | ListBlocklist => "list_blocklist"
  | AddBlocklistEntry _ _ _ => "add_blocklist_entry"
  | RemoveBlocklistEntry _ => "remove_blocklist_entry"
  | HealthCheck => "health_check"
  | GetServerInfo => "get_server_info"
  end.

(** [decode] is the router's argument decoding for the named tool. *)
Definition call_tool (decode : string → option (result ToolCall string)) (name : string) :
    ST McpWorld (result ToolResult McpError) :=
  match decode name with
  | None => st_ret (Err (InvalidParams "tool not found"))
  | Some (Err e) => st_ret (Err (InvalidParams e))
  | Some (Ok c) => run_tool c
  end.
End server.

(** ** The binary ([crates/mcp/src/main.rs]) *)

(** Header names in lower case, as the [http] crate keeps them. *)
Definition ensure_mcp_accept (path : string) (headers : list (string * string)) :
    list (string * string) :=
  if starts_with "/mcp" path && negb (existsb (λ h, String.eqb h.1 "accept") headers)
  then headers ++ [("accept", "application/json, text/event-stream")]
  else headers.

Inductive CorsOrigin : Type :=
  | AnyOrigin
  | OneOrigin (origin : string).

Inductive McpTransport : Type :=
  | Stdio
  | Http (addr base_url : string) (cors : option CorsOrigin).

(** The process's environment decides; an unusable CORS origin panics.
    [parse_u16] and [header_value] are the standard library's and [http]'s. *)
Definition mcp_transport (parse_u16 : string → option Z) (header_value : string → bool)
    (MCP_HTTP_PORT MCP_BASE_URL MCP_CORS_ORIGIN : option string) : result McpTransport string :=
  match match MCP_HTTP_PORT with Some s => parse_u16 s | None => None end with
  | None => Ok Stdio
  | Some port =>
      let base_url := default ("http://localhost:" +:+ show_Z port) MCP_BASE_URL in
      let addr := "0.0.0.0:" +:+ show_Z port in
      match MCP_CORS_ORIGIN with
      | None => Ok (Http addr base_url None)
      | Some o =>
          if String.eqb o "*" then Ok (Http addr base_url (Some AnyOrigin))
          else if header_value o then Ok (Http addr base_url (Some (OneOrigin o)))
          else Err "invalid CORS origin"
      end
  end.

(** A client that sends no [Accept] gets one on [/mcp] alone; one it sent is
    kept, and nothing else is touched. *)
Lemma ensure_mcp_accept_spec path headers :
  let out := ensure_mcp_accept path headers in
  headers `prefix_of` out
  ∧ (starts_with "/mcp" path = true → existsb (λ h, String.eqb h.1 "accept") out = true)
  ∧ (existsb (λ h, String.eqb h.1 "accept") headers = true ∨ starts_with "/mcp" path = false → out = headers).
Proof.
  unfold ensure_mcp_accept. destruct (starts_with "/mcp" path), (existsb _ headers) eqn:He; simpl;
    rewrite ?He; (split_and!; [first [exact (prefix_app_r _ _ _ (reflexivity headers))|reflexivity]|..]);
    try naive_solver.
  intros _. rewrite existsb_app. apply orb_true_r.
Qed.

(** Mounted in the service by [nest("/mcp", ..)] the middleware sees the path
    without its prefix, and leaves the headers alone. *)
Example nested_accept_not_added : ensure_mcp_accept "/" [] = [].
Proof. reflexivity. Qed.
