(* ===== verification/McpSpec.v ===== *)
(** * What the MCP tools do to the service

    Which frames and rows a tool call leaves, and what of it the running
    service sees: the database and the broker are shared, the caches are not. *)

From S2P Require Import Prelude Json AppErr EmailValidation Event World Interfaces.
From S2P Require Import Filter BlockList TemplateStore Delivery Settle Runner CliQueries.
From S2P Require Import Api ApiSpec Mcp.

Section mcp.
Context `{Env, WireCodec}.
Context (parse_uuid : string → result Uuid string) (parse_json : string → result json string).
Context (version : string) (cfg : McpConfig).

Notation run_tool := (run_tool parse_uuid parse_json version cfg).
Notation send_email := (Mcp.send_email parse_uuid parse_json cfg).

(** ** Sending *)

Definition declare_frame : AmqpFrame := ExchangeDeclare (mc_exchange cfg) ExchangeKind.Direct.
Definition event_frame (body : string) : AmqpFrame :=
  BasicPublish (mc_exchange cfg) (mc_routing_key cfg) persistent_json body.

Definition amqp_only : relation World := λ w w',
  w_db w' = w_db w ∧ w_tpl_cache w' = w_tpl_cache w ∧ w_block_cache w' = w_block_cache w
  ∧ w_sends w' = w_sends w.

Lemma connect_confirming_ticks w r w' :
  connect_confirming w = (r, w') → amqp_only w w' ∧ w_amqp w' = w_amqp w.
Proof.
  assert (Hk : keeps ticks_only connect_confirming).
  { apply keeps_try; [apply _|apply amqp_step_ticks|]. intros _.
    apply keeps_try; [apply _|apply amqp_step_ticks|]. intros _. apply amqp_step_ticks. }
  intros E. specialize (Hk w). rewrite E in Hk. red in Hk. simpl in Hk. by rewrite Hk.
Qed.

Lemma publish_once_spec body w r w' :
  publish_once cfg body w = (r, w') →
  amqp_only w w'
  ∧ match r with
    | Ok _ => w_amqp w' = w_amqp w ++ [declare_frame; event_frame body]
    | Err _ => ∃ sent, sent `prefix_of` [declare_frame; event_frame body]
                       ∧ w_amqp w' = w_amqp w ++ sent
    end.
Proof.
  unfold publish_once, st_try at 1. destruct (connect_confirming w) as [r0 w1] eqn:E0.
  apply connect_confirming_ticks in E0 as (Ho & Ha). rewrite <- Ha. destruct r0 as [[]|e].
  2: { intros [= <- <-]. split; [done|]. exists []. split; [apply prefix_nil|]. by rewrite app_nil_r. }
  unfold active, command, basic_publish, await_confirm, next_tick. run_st.
  destruct (amqp_command _ _) as [u|e]; simpl.
  2: { intros [= <- <-]. split; [done|]. exists []. split; [apply prefix_nil|]. by rewrite app_nil_r. }
  destruct (amqp_publish_err _) as [e|]; simpl.
  { intros [= <- <-]. split; [done|]. exists [declare_frame]. split; [by exists [event_frame body]|done]. }
  destruct (amqp_confirm _) as [c|e]; simpl; intros [= <- <-]; (split; [done|]).
  - simpl. by rewrite <- app_assoc.
  - eexists. split; [done|]. simpl. by rewrite <- app_assoc.
Qed.

Lemma event_id_for_spec args w id w' :
  event_id_for parse_uuid args w = (id, w') →
  amqp_only w w' ∧ w_amqp w' = w_amqp w
  ∧ ∀ given, given_event_id parse_uuid args = Some given → id = given.
Proof.
  unfold event_id_for, next_tick. run_st. destruct (given_event_id parse_uuid args); intros [= <- <-];
    (split_and!; [done..|]); by intros ? [=].
Qed.

Lemma send_email_eq args s :
  is_valid_email (sa_to args) = true →
  send_email args s
  = (let '(id, w1) := event_id_for parse_uuid args (mw_world s) in
     let event := tool_event parse_json args id (clock (w_tick w1)) in
     let w2 := set_tick (S (w_tick w1)) w1 in
     let pack w r := (r, mkMcpWorld w (mw_tpl_cache s) (mw_block_cache s)) in
     match encode_event event with
     | Err e => pack w2 (Err (InternalError e))
     | Ok body =>
         let '(r, w3) := publish_once cfg body w2 in
         match r with
         | Err e => pack w3 (Err (InternalError e))
         | Ok _ => pack w3 (Ok (Printed (published_json cfg args event)))
         end
     end).
Proof.
  intros Hv. unfold Mcp.send_email. rewrite Hv. cbn -[event_id_for publish_once encode_event tool_event].
  unfold st_bind, on_pool. destruct (event_id_for parse_uuid args (mw_world s)) as [id w1].
  cbn -[publish_once encode_event tool_event]. unfold st_try, st_ret, internal.
  destruct (encode_event (tool_event _ _ _ _)) as [body|e]; [|done].
  cbn -[publish_once encode_event tool_event]. unfold pooled, st_bind, on_pool, st_ret, internal.
  cbn -[publish_once]. by destruct (publish_once cfg body _) as [[[]|e] w3].
Qed.

(** What [send_email] promises its caller: a malformed recipient is refused and
    nothing happens; any other failure leaves at most the exchange declared or
    an unconfirmed event; and success means that exactly one event, persistent
    and to exactly that recipient, went to the service's exchange.  The tables,
    the mail and the service's caches are never touched. *)
Theorem mcp_send_outcome args s :
  let '(r, s') := send_email args s in
  amqp_only (mw_world s) (mw_world s')
  ∧ match r with
    | Err (InvalidParams _) => is_valid_email (sa_to args) = false ∧ s' = s
    | Err (InternalError _) =>
        is_valid_email (sa_to args) = true
        ∧ ∃ body sent, sent `prefix_of` [declare_frame; event_frame body]
                       ∧ w_amqp (mw_world s') = w_amqp (mw_world s) ++ sent
    | Ok _ =>
        is_valid_email (sa_to args) = true
        ∧ ∃ id now body,
            (∀ given, given_event_id parse_uuid args = Some given → id = given)
            ∧ encode_event (tool_event parse_json args id now) = Ok body
            ∧ w_amqp (mw_world s') = w_amqp (mw_world s) ++ [declare_frame; event_frame body]
    end.
Proof.
  destruct (is_valid_email (sa_to args)) eqn:Hv.
  2: { unfold Mcp.send_email. rewrite Hv. by split. }
  rewrite send_email_eq by done. set (w := mw_world s).
  destruct (event_id_for parse_uuid args w) as [id w1] eqn:Hid.
  apply event_id_for_spec in Hid as (Ha1 & Hf1 & Hid). cbv zeta.
  set (now := clock (w_tick w1)). set (w2 := set_tick (S (w_tick w1)) w1).
  assert (Ha2 : amqp_only w w2) by exact Ha1. assert (Hf2 : w_amqp w2 = w_amqp w) by exact Hf1.
  destruct (encode_event (tool_event parse_json args id now)) as [body|e] eqn:Henc.
  2: { split_and!; [done..|]. exists "", []. split; [apply prefix_nil|]. by rewrite app_nil_r. }
  destruct (publish_once cfg body w2) as [r w3] eqn:Hp.
  apply publish_once_spec in Hp as [Ha3 Hp]. rewrite Hf2 in Hp.
  assert (amqp_only w w3) by (unfold amqp_only in *; intuition congruence).
  destruct r as [[]|e]; (split_and!; [done..|]).
  - by exists id, now, body.
  - destruct Hp as (sent & ? & ?). by exists body, sent.
Qed.

(** ** The service's caches *)

Lemma on_pool_caches {A} (m : M A) s :
  keeps (λ w w', w_tpl_cache w' = w_tpl_cache w ∧ w_block_cache w' = w_block_cache w) m →
  w_tpl_cache (mw_world (on_pool m s).2) = w_tpl_cache (mw_world s)
  ∧ w_block_cache (mw_world (on_pool m s).2) = w_block_cache (mw_world s).
Proof. intros Hm. specialize (Hm (mw_world s)). unfold on_pool. by destruct (m _). Qed.

Lemma on_stores_caches {A} (m : M A) s :
  w_tpl_cache (mw_world (on_stores m s).2) = w_tpl_cache (mw_world s)
  ∧ w_block_cache (mw_world (on_stores m s).2) = w_block_cache (mw_world s).
Proof. unfold on_stores. by destruct (m _). Qed.

(** A successful store operation: it ran on the shared tables. *)
Lemma stored_Ok {A} (m : M (result A AppError)) s a s' :
  stored m s = (Ok a, s') →
  ∃ w w', m w = (Ok a, w') ∧ w_db w = w_db (mw_world s)
          ∧ w_db (mw_world s') = w_db w'
          ∧ w_block_cache w = mw_block_cache s ∧ mw_block_cache s' = w_block_cache w'
          ∧ w_tpl_cache (mw_world s') = w_tpl_cache (mw_world s)
          ∧ w_block_cache (mw_world s') = w_block_cache (mw_world s).
Proof.
  unfold stored, st_bind, on_stores, st_ret, internal_app.
  destruct (m _) as [[x|e] w'] eqn:Hm; intros [= <- <-]. by eexists _, w'.
Qed.

(** The answer of a check depends on its own cache only when that is live. *)
Lemma check_expired email w :
  cache_live (w_tick w) = false → (check email w).1 = (check email (set_block_cache None w)).1.
Proof.
  intros Hl. unfold check, snapshot, block_cache_get, query, next_tick. run_st. rewrite Hl. simpl.
  by destruct (db_err _).
Qed.

Lemma check_live email w sn :
  cache_live (w_tick w) = true → w_block_cache w = Some sn → (check email w).1 = snapshot_check sn email.
Proof. intros Hl Hc. unfold check, snapshot, block_cache_get, next_tick. run_st. by rewrite Hl, Hc. Qed.

(** A blocked address added by a tool is blocked at once for the server itself,
    but for the service only when its own snapshot has expired: until then its
    checks answer from the snapshot they held before. *)
Theorem mcp_block_entry_delayed value reason email s out s' :
  entries_lower (w_db (mw_world s)) → all_chars is_ascii value = true →
  to_lowercase email = to_lowercase value →
  run_tool (AddBlocklistEntry "blocked_email" value reason) s = (Ok out, s') →
  refuses (on_stores (check email) s').1
  ∧ (cache_live (w_tick (mw_world s')) = false → refuses (check email (mw_world s')).1)
  ∧ (∀ sn, w_block_cache (mw_world s) = Some sn → cache_live (w_tick (mw_world s')) = true →
           (check email (mw_world s')).1 = snapshot_check sn email).
Proof.
  intros Hl Ha Hemail. unfold Mcp.run_tool, Mcp.add_blocklist_entry. change (negb _) with false. cbv iota.
  unfold st_try at 1, st_ret. destruct (stored _ s) as [[b|e] s1] eqn:Hst; [|done].
  intros [= _ <-]. apply stored_Ok in Hst as (w & w1 & Hadd & Hdb & Hdb1 & _ & Hbc & _ & Hsc).
  unfold add_entry, BlockList.invalidate in Hadd. run_st in Hadd.
  destruct (query _ w) as [[b'|e] w0] eqn:Hq; [|done].
  apply query_spec in Hq as [(?&?&_)|(b'' & d & [= <-] & Hs & Hd & _)]; [done|].
  rewrite Hdb in Hs. apply sql_add_entry_active in Hs; [|done|by apply to_lowercase_idem].
  injection Hadd as _ <-. simpl in Hdb1, Hbc. rewrite Hd in Hdb1.
  assert (Hact : ("blocked_email", to_lowercase email) ∈ active_rows (w_db (mw_world s1)))
    by (rewrite Hdb1, Hemail; exact Hs).
  split_and!.
  - unfold on_stores. set (w2 := set_tpl_cache _ _).
    assert (Hr : refuses (check email w2).1).
    { apply listed_is_blocked; [|exact Hact]. intros sn. unfold w2. simpl. by rewrite Hbc. }
    by destruct (check email w2).
  - intros Hexp. rewrite check_expired by done. by apply listed_is_blocked; [intros ? ?|].
  - intros sn Hsn Hlive. apply check_live; [done|]. by rewrite Hsc.
Qed.

(** ** Templates *)

Lemma resolve_live ty ch w tpl :
  cache_live (w_tick w) = true → w_tpl_cache w !! cache_key ch ty = Some tpl →
  (resolve ty ch w).1 = Ok tpl.
Proof. intros Hl Hc. unfold resolve, tpl_cache_get, next_tick. run_st. by rewrite Hl, Hc. Qed.

(** A template a tool writes is the table's from then on, but an event whose
    template the service has cached is rendered with the old one until the
    entry expires. *)
Theorem mcp_template_delayed args s out s' :
  run_tool (UpsertTemplate args) s = (Ok out, s') →
  find_active (ua_event_type args) (ua_channel args) (w_db (mw_world s'))
  = (if ua_active args
     then Some (mkNotificationTemplate (ua_subject args) (ua_body_html args) (ua_body_text args)) else None)
  ∧ ∀ old, w_tpl_cache (mw_world s) !! cache_key (ua_channel args) (ua_event_type args) = Some old →
           cache_live (w_tick (mw_world s')) = true →
           (resolve (ua_event_type args) (ua_channel args) (mw_world s')).1 = Ok old.
Proof.
  unfold Mcp.run_tool, Mcp.upsert_template. destruct (is_empty_str _ || _); [done|].
  unfold st_try at 1, st_ret. destruct (stored _ s) as [[row|e] s1] eqn:Hst; [|done].
  intros [= _ <-]. apply stored_Ok in Hst as (w & w1 & Hup & _ & Hdb1 & _ & _ & Htc & _).
  unfold upsert in Hup. run_st in Hup. destruct (query _ w) as [[x|e] w0] eqn:Hq; [|done].
  apply query_spec in Hq as [(?&?&_)|(x' & d & [= <-] & Hs & Hd & _)]; [done|].
  apply sql_upsert_active in Hs. injection Hup as _ <-. simpl in Hdb1. split.
  - by rewrite Hdb1, Hd.
  - intros old Hold Hlive. apply resolve_live; [done|]. by rewrite Htc.
Qed.
(** ** From a tool to the consumer *)

Context `{EventCodec} (consumer : ConsumerConfig).

(** What a successful call published is, for a consumer that reads back the
    events the server writes, an event to send to that one valid address, and
    to it alone. *)
Theorem mcp_event_sendable args s out s' :
  (1 <= cc_max_recipients_per_event consumer)%nat →
  (∀ id now body, encode_event (tool_event parse_json args id now) = Ok body →
                  decode_delivery body = Ok (tool_event parse_json args id now)) →
  send_email args s = (Ok out, s') →
  is_valid_email (sa_to args) = true
  ∧ ∃ body event opts,
      w_amqp (mw_world s') = w_amqp (mw_world s) ++ [declare_frame; event_frame body]
      ∧ sendable consumer body event opts
      ∧ map r_email (eo_recipients opts) = [sa_to args] ∧ eo_cc opts = [] ∧ eo_bcc opts = []
      ∧ eo_send_mode opts = SendMode.Individual.
Proof.
  intros Hmax Hcodec. destruct (is_valid_email (sa_to args)) eqn:Hv.
  2: { unfold Mcp.send_email. by rewrite Hv. }
  rewrite send_email_eq by done.
  destruct (event_id_for parse_uuid args (mw_world s)) as [id w1] eqn:Hid.
  apply event_id_for_spec in Hid as (_ & Hf1 & _). cbv zeta.
  destruct (encode_event _) as [body|e] eqn:Henc; [|done].
  destruct (publish_once cfg body _) as [[[]|e] w3] eqn:Hp; [|done].
  apply publish_once_spec in Hp as [_ Hp]. intros [= _ <-]. split; [done|].
  eexists body, _, _. split_and!; [|split_and!; [by eapply Hcodec|reflexivity|done|simpl; lia]|done..].
  simpl in *. by rewrite Hp, Hf1.
Qed.
End mcp.

(** ** Concrete calls *)

Definition uuid_of : string → result Uuid string :=
  λ s, if String.eqb s "5" then Ok 5%N else Err "invalid character".
Definition no_json_text : string → result json string := λ _, Err "expected value at line 1 column 1".
Definition sample_mcp : McpConfig := mkMcpConfig "postgres://db" "amqp://mq" "anvil-notify" "email.requested".

Definition plain_call (to : string) : SendEmailArgs :=
  mkSendEmailArgs "ORDER" to None default_payload None None None None None (Some "5").

Notation sample_tool :=
  (run_tool (H := sample_env) (H0 := sample_wire_codec) uuid_of no_json_text "0.1.0" sample_mcp).

(** A service that checked someone a moment ago, and a fresh server. *)
Definition warm_service : McpWorld := mcp_new (set_block_cache (Some empty_snapshot) (world0 empty_db)).
Definition after_block : McpWorld :=
  (sample_tool (AddBlocklistEntry "blocked_email" "Bad@example.com" None) warm_service).2.

Lemma mcp_block_entry_delayed_witness :
  refuses (on_stores (check (H := sample_env) "bad@example.com") after_block).1
  ∧ (cache_live (Env := sample_env) (w_tick (mw_world after_block)) = false →
     refuses (check (H := sample_env) "bad@example.com" (mw_world after_block)).1)
  ∧ (∀ sn, w_block_cache (mw_world warm_service) = Some sn →
           cache_live (Env := sample_env) (w_tick (mw_world after_block)) = true →
           (check (H := sample_env) "bad@example.com" (mw_world after_block)).1
           = snapshot_check (H := sample_env) sn "bad@example.com").
Proof.
  eapply (mcp_block_entry_delayed (H := sample_env) (H0 := sample_wire_codec) uuid_of no_json_text
            "0.1.0" sample_mcp "Bad@example.com" None "bad@example.com" warm_service).
  - by intros b Hb%not_elem_of_nil.
  - reflexivity.
  - reflexivity.
  - vm_compute. reflexivity.
Defined.

(** The service still accepts the address. *)
Example service_not_told : (check (H := sample_env) "bad@example.com" (mw_world after_block)).1 = Ok tt.
Proof. vm_compute. reflexivity. Qed.

Definition old_template : NotificationTemplate := mkNotificationTemplate "old" "old" "old".
Definition warm_templates : McpWorld :=
  mcp_new (set_tpl_cache {["email:ORDER" := old_template]} (world0 empty_db)).
Definition new_template : UpsertTemplateArgs :=
  mkUpsertTemplateArgs "ORDER" default_channel "new" "<p>new</p>" "new" default_true.

Lemma mcp_template_delayed_witness :
  let s' := (sample_tool (UpsertTemplate new_template) warm_templates).2 in
  find_active "ORDER" "email" (w_db (mw_world s'))
  = Some (mkNotificationTemplate "new" "<p>new</p>" "new")
  ∧ (resolve (H := sample_env) "ORDER" "email" (mw_world s')).1 = Ok old_template.
Proof.
  pose proof (mcp_template_delayed (H := sample_env) (H0 := sample_wire_codec) uuid_of no_json_text
    "0.1.0" sample_mcp new_template warm_templates
    (Printed (JObj [("event_type", JStr "ORDER"); ("channel", JStr "email"); ("version", json_int 1);
                    ("active", JBool true); ("inserted", JBool true)]))
    (sample_tool (UpsertTemplate new_template) warm_templates).2 ltac:(vm_compute; reflexivity)) as [H1 H2].
  split; [exact H1|]. apply H2; reflexivity.
Defined.

(** An entry is stored as it is typed, but for its case: spaces around it make
    it match nothing, and unlike the API the tool does not refuse it. *)
Example untrimmed_entry_blocks_nobody :
  let '(r, s') := sample_tool (AddBlocklistEntry "blocked_email" " bad@example.com" None)
                    (mcp_new (world0 empty_db)) in
  is_ok r = true ∧ (check (H := sample_env) "bad@example.com" (mw_world s')).1 = Ok tt.
Proof. vm_compute. done. Qed.

(** Neither the sender override nor the payload is validated: an event whose
    From is no address and whose payload is null is published. *)
Definition careless_call : SendEmailArgs :=
  mkSendEmailArgs "ORDER" "a@example.com" None "{oops" (Some "not an address") None None None None (Some "5").

Example careless_call_published :
  is_ok (sample_tool (SendEmail careless_call) (mcp_new (world0 empty_db))).1 = true
  ∧ tool_payload no_json_text careless_call = JNull
  ∧ is_valid_email "not an address" = false.
Proof. by vm_compute. Qed.

(** [get_server_info] lists every tool there is. *)
Example every_tool_listed c : existsb (String.eqb (tool_name c)) listed_tools = true.
Proof. by destruct c. Qed.

(** The codec of the one event [plain_call] becomes at tick 0. *)
Definition plain_codec : EventCodec := {|
  decode_notification_event s :=
    if String.eqb s "event" then Ok (tool_event no_json_text (plain_call "a@example.com") 5 0) else Err "?";
  decode_email_event _ := Err "?";
|}.

Lemma mcp_event_sendable_witness :
  let s' := (run_tool (H := sample_env) (H0 := one_event_wire) uuid_of no_json_text "0.1.0" sample_mcp
               (SendEmail (plain_call "a@example.com")) (mcp_new (world0 empty_db))).2 in
  is_valid_email "a@example.com" = true
  ∧ ∃ body event opts,
      w_amqp (mw_world s') = [] ++ [declare_frame sample_mcp; event_frame sample_mcp body]
      ∧ sendable (H9 := plain_codec) consumer_config_default body event opts
      ∧ map r_email (eo_recipients opts) = ["a@example.com"] ∧ eo_cc opts = [] ∧ eo_bcc opts = []
      ∧ eo_send_mode opts = SendMode.Individual.
Proof.
  eapply (mcp_event_sendable (H := sample_env) (H0 := one_event_wire) uuid_of no_json_text
            sample_mcp (H1 := plain_codec) consumer_config_default (plain_call "a@example.com")
            (mcp_new (world0 empty_db))).
  - simpl. lia.
  - intros id now body. simpl. destruct (N.eqb_spec id 5) as [->|]; [|done].
    destruct (Z.eqb_spec now 0) as [->|]; [|done]. by intros [= <-].
  - vm_compute. reflexivity.
Defined.
