(* ===== verification/Anctl.v ===== *)
(** * The command line client: settings and output ([crates/anctl/src/config.rs],
    [output.rs], [cli.rs])

    [CliConfig], the display helpers, and the clap argument types the commands
    take.  Parsing the command line is clap's. *)

From S2P Require Import Prelude Json AppErr Event World CliQueries.

(** ** Settings *)

Record CliConfig : Type := mkCliConfig {
  cl_database_url : string;
  cl_amqp_url : string;
  cl_exchange : string;
  cl_routing_key : string;
  cl_http_port : Z;
  cl_api_key : option string;
  cl_outbox_database_url : option string;
  cl_api_url : option string;
}.

Definition localhost (cfg : CliConfig) : string := "http://localhost:" +:+ show_Z (cl_http_port cfg).

Definition api_base_url (cfg : CliConfig) : string := default (localhost cfg) (cl_api_url cfg).

(** The sources' values over the defaults [load] sets: port 8080, exchange
    [anvil-notify], routing key [email.requested]. *)
Definition load (database_url amqp_url : string) (exchange routing_key : option string)
    (port : option Z) (api_key outbox_database_url api_url : option string) : CliConfig :=
  mkCliConfig database_url amqp_url (default "anvil-notify" exchange)
    (default "email.requested" routing_key) (default 8080 port) api_key outbox_database_url api_url.

(** ** Display *)

(** [str::chars]: a byte with the UTF-8 continuation bytes after it. *)
Fixpoint chars (s : string) : list string :=
  match s with
  | EmptyString => []
  | String c s =>
      match chars s with
      | (String d _ as h) :: t =>
          if is_continuation d then String c h :: t else String c EmptyString :: h :: t
      | l => String c EmptyString :: l
      end
  end.

Fixpoint concat_all (l : list string) : string :=
  match l with [] => "" | s :: l => s +:+ concat_all l end.

Definition ellipsis : string := "…".
Definition usize_max : Z := 2 ^ 64 - 1.

(** [max] counts characters. *)
Definition truncate (s : string) (max : Z) : string :=
  let cs := chars s in
  if max <? Z.of_nat (length cs) then concat_all (take (Z.to_nat max) cs) +:+ ellipsis else s.

Definition opt (s : option string) : string := default "—" s.

(** What a command prints: a line, a table's rows, or pretty-printed JSON. *)
Inductive Printed : Type :=
  | Line (s : string)
  | Rows (rows : list (list string))
  | PrettyJson (v : json).

Definition print_table (rows : list (list string)) : Printed :=
  match rows with [] => Line "(no results)" | _ => Rows rows end.

Inductive OutputFormat : Type := Table | Json.

(** ** Arguments ([cli.rs]) *)

Inductive OutboxStatus : Type := Pending | InProgress | Published | Failed.

Definition as_sql_str (s : OutboxStatus) : string :=
  match s with
  | Pending => "PENDING"
  | InProgress => "IN_PROGRESS"
  | Published => "PUBLISHED"
  | Failed => "FAILED"
  end.

Record SendArgs : Type := mkSendArgs {
  sd_event_type : string;
  sd_to : list string;
  sd_name : list string;
  sd_cc : list string;
  sd_bcc : list string;
  sd_payload : string;
  sd_from_email : option string;
  sd_from_name : option string;
  sd_attachment : list string;
  sd_source : string;
  sd_event_id : option Uuid;
  sd_yes : bool;
  sd_subject : option string;
  sd_body_html : option string;
  sd_body_text : option string;
}.

Record StatusArgs : Type := mkStatusArgs { st_event_id : Uuid; st_email : option string }.
Record RetryArgs : Type := mkRetryArgs {
  rt_event_id : Uuid; rt_email : option string; rt_yes : bool }.
Record LogsArgs : Type := mkLogsArgs {
  lo_status : option string;
  lo_event_type : option string;
  lo_email : option string;
  lo_limit : Z;
  lo_full_error : bool;
}.
Record OutboxArgs : Type := mkOutboxArgs {
  oa_status : OutboxStatus; oa_limit : Z; oa_full_payload : bool }.

Inductive BlocklistAction : Type :=
  | BlList
  | BlAdd (kind value : string) (reason : option string)
  | BlRemove (id : Z)
  | BlFlush
  | BlReload.

Inductive TemplateAction : Type :=
  | TmList
  | TmShow (event_type : string)
  | TmCreate (event_type file channel : string) (dry_run yes inactive : bool)
  | TmActivate (event_type channel : string) (disable : bool)
  | TmFlush (event_type : option string).

Record HealthArgs : Type := mkHealthArgs { he_api_url : option string; he_ready : bool }.

(** ** Truncation *)

Lemma chars_concat s : concat_all (chars s) = s.
Proof.
  induction s as [|c s IH]; [done|]. cbn [chars].
  destruct (chars s) as [|[|d h] t] eqn:E; simpl in IH |- *; [by subst s| |].
  - simpl. change ("" +:+ ?x) with x in IH. rewrite <- IH. done.
  - destruct (is_continuation d); simpl; rewrite <- IH; done.
Qed.

(** Never inside a character: the text as it is when it is short enough, else
    its first [max] whole characters and an ellipsis. *)
Theorem truncate_spec s max :
  0 ≤ max →
  ∃ kept cut, chars s = kept ++ cut ∧ length kept = Nat.min (Z.to_nat max) (length (chars s))
              ∧ truncate s max = concat_all kept +:+ (if bool_decide (cut = []) then "" else ellipsis).
Proof.
  intros Hm. exists (take (Z.to_nat max) (chars s)), (drop (Z.to_nat max) (chars s)).
  split_and!; [by rewrite take_drop|by rewrite length_take|]. unfold truncate.
  destruct (Z.ltb_spec max (Z.of_nat (length (chars s)))).
  - rewrite bool_decide_false; [done|]. intros Hd%(f_equal length). rewrite length_drop in Hd. simpl in Hd. lia.
  - rewrite bool_decide_true by (apply drop_ge; lia). rewrite take_ge by lia.
    by rewrite str_app_nil, chars_concat.
Qed.

Example truncated : truncate "naïve" 3 = "naï…" ∧ truncate "naïve" 5 = "naïve" ∧ truncate "naïve" usize_max = "naïve".
Proof. by vm_compute. Qed.
