(* ===== verification/AnctlApi.v ===== *)
(** * The commands that call the HTTP API ([crates/anctl/src/cmd/]: [blocklist.rs],
    [template.rs], [retry.rs], [health.rs])

    Each command as the requests it sends and what it makes of the replies,
    over a client whose transport is a parameter; then against the router
    itself. *)

From S2P Require Import Prelude Json AppErr EmailValidation Event World Interfaces.
From S2P Require Import BlockList TemplateStore Publisher Api ApiSpec Routes J2 Anctl.

(** ** The HTTP client *)

Record ClientRequest : Type := mkClientRequest {
  cr_method : Method;
  cr_url : string;
  cr_bearer : option string;
  cr_json : option json;
}.

Record Reply : Type := mkReply {
  rp_status : Z;
  rp_text : string;
  rp_json : option json;
}.

Definition is_success (r : Reply) : bool := (200 <=? rp_status r) && (rp_status r <? 300).

(** [value[key].as_str()], [as_i64], [as_u64]: an absent key is [Null]. *)
Definition str_at (key : string) (v : json) : option string :=
  match json_get key v with Some v => as_str v | None => None end.
Definition as_i64 (v : json) : option Z :=
  match v with JNum (PosInt n) => if n <? 2 ^ 63 then Some n else None | JNum (NegInt n) => Some n | _ => None end.
Definition i64_at (key : string) (v : json) : option Z :=
  match json_get key v with Some v => as_i64 v | None => None end.
Definition u64_at (key : string) (v : json) : option Z :=
  match json_get key v with Some v => as_u64 v | None => None end.
Definition bool_at (key : string) (v : json) : option bool :=
  match json_get key v with Some v => as_bool v | None => None end.

Section commands.
Context `{Env}.
Context (cfg : CliConfig) (http : ClientRequest → M (result Reply string)).

Notation Cmd := (M (result (list Printed) string)).

Definition http_status (r : Reply) : string := status_text (rp_status r).

(** [maybe_auth(..).send().await.context("HTTP request failed")?]. *)
Definition send_authed (m : Method) (url : string) (body : option json) : M (result Reply string) :=
  let! r := http (mkClientRequest m url (cl_api_key cfg) body) in
  st_ret (map_err (λ e, "HTTP request failed: " +:+ e) r).

Definition failed {A} (what : string) (r : Reply) : M (result A string) :=
  st_ret (Err (what +:+ " failed (HTTP " +:+ http_status r +:+ "): " +:+ rp_text r)).

Definition body_of (r : Reply) : json := default JNull (rp_json r).

Definition failed_json {A} (what : string) (r : Reply) : M (result A string) :=
  st_ret (Err (what +:+ " failed (HTTP " +:+ http_status r +:+ "): "
               +:+ default "unknown error" (str_at "error" (body_of r)))).

Definition shown (l : list Printed) : Cmd := st_ret (Ok l).

(** ** [blocklist.rs] *)

Definition blocklist_row (e : json) : list string :=
  [show_Z (default 0 (i64_at "id" e)); default "" (str_at "kind" e); default "" (str_at "value" e);
   default "" (str_at "reason" e); default "" (str_at "created_at" e)].

Definition blocklist (action : BlocklistAction) (fmt : OutputFormat) : Cmd :=
  let base := api_base_url cfg in
  match action with
  | BlList =>
      let? resp := send_authed GET (base +:+ "/admin/blocklist") None in
      if negb (is_success resp) then failed "List" resp
      else
        match match rp_json resp with Some v => as_array v | None => None end with
        | None => st_ret (Err "Failed to parse response")
        | Some [] => shown [Line "(no active block/allow-list entries)"]
        | Some entries =>
            shown [match fmt with
                   | Json => PrettyJson (JArr entries)
                   | Table => print_table (map blocklist_row entries)
                   end]
        end
  | BlAdd kind value reason =>
      let body := JObj [("kind", JStr kind); ("value", JStr value); ("reason", json_opt_str reason)] in
      let? resp := send_authed POST (base +:+ "/admin/blocklist") (Some body) in
      if is_success resp
      then shown [Line ("✓ Entry added (id=" +:+ show_Z (default 0 (i64_at "id" (body_of resp)))
                        +:+ "): " +:+ kind +:+ " '" +:+ value +:+ "'")]
      else failed_json "Add" resp
  | BlRemove id =>
      let? resp := send_authed DELETE (base +:+ "/admin/blocklist/" +:+ show_Z id) None in
      if is_success resp then shown [Line ("✓ Entry " +:+ show_Z id +:+ " removed (soft-deleted).")]
      else failed "Remove" resp
  | BlFlush =>
      let? resp := send_authed DELETE (base +:+ "/admin/blocklist/cache") None in
      if is_success resp
      then shown [Line "✓ Block-list cache evicted. Next check will reload from DB."]
      else failed "Flush" resp
  | BlReload =>
      let? resp := send_authed POST (base +:+ "/admin/blocklist/cache") None in
      if is_success resp
      then shown [Line ("✓ Block-list cache reloaded ("
                        +:+ show_Z (default 0 (u64_at "entry_count" (body_of resp)))
                        +:+ " active entries).")]
      else failed_json "Reload" resp
  end.

(** ** [template.rs] *)

(** [TemplateListRow]; [None] when a field is absent or of another type. *)
Record ListedTemplate : Type := mkListedTemplate {
  lt_event_type : string;
  lt_channel : string;
  lt_subject : string;
  lt_version : Z;
  lt_active : bool;
  lt_updated_at : string;
}.

Definition template_row (t : json) : option ListedTemplate :=
  match str_at "event_type" t, str_at "channel" t, str_at "subject" t, i64_at "version" t,
        bool_at "active" t, str_at "updated_at" t with
  | Some ty, Some ch, Some subject, Some version, Some active, Some updated =>
      Some (mkListedTemplate ty ch (truncate subject 60) version active updated)
  | _, _, _, _, _, _ => None
  end.

Definition show_bool (b : bool) : string := if b then "true" else "false".

Definition row_cells (r : ListedTemplate) : list string :=
  [lt_event_type r; lt_channel r; lt_subject r; show_Z (lt_version r); show_bool (lt_active r);
   lt_updated_at r].

Definition row_json (r : ListedTemplate) : json :=
  JObj [("event_type", JStr (lt_event_type r)); ("channel", JStr (lt_channel r));
        ("subject", JStr (lt_subject r)); ("version", json_int (lt_version r));
        ("active", JBool (lt_active r)); ("updated_at", JStr (lt_updated_at r))].

Definition templates_of (v : json) : option (list json) :=
  match json_get "templates" v with Some v => as_array v | None => None end.

Definition show_one (event_type : string) (t : json) : list Printed :=
  [Line ("── " +:+ event_type +:+ " / " +:+ default "?" (str_at "channel" t)
         +:+ "  (v" +:+ show_Z (default 0 (i64_at "version" t)) +:+ ", active="
         +:+ show_bool (default false (bool_at "active" t)) +:+ ") ──");
   Line ("Subject:" +:+ newline +:+ default "" (str_at "subject" t) +:+ newline);
   Line ("HTML body:" +:+ newline +:+ default "" (str_at "body_html" t) +:+ newline);
   Line ("Text body:" +:+ newline +:+ default "" (str_at "body_text" t));
   Line (concat_all (repeat "─" 60))].

(** [fs::read_to_string] and a line read from the terminal. *)
Context (read_file : string → result string string) (read_line : result string string).

Definition upload_body (event_type channel : string) (s : J2Sections) (inactive : bool) : json :=
  JObj [("event_type", JStr event_type); ("channel", JStr channel); ("subject", JStr (j2_subject s));
        ("body_html", JStr (j2_body_html s)); ("body_text", JStr (j2_body_text s));
        ("active", JBool (negb inactive))].

Definition upload (event_type channel : string) (s : J2Sections) (inactive : bool) : Cmd :=
  let? resp := send_authed POST (api_base_url cfg +:+ "/templates")
                 (Some (upload_body event_type channel s inactive)) in
  if is_success resp
  then
    let body := body_of resp in
    shown [Line ("✓ Template " +:+ (if default false (bool_at "inserted" body) then "created" else "updated")
                 +:+ " (v" +:+ show_Z (default 0 (i64_at "version" body)) +:+ ", "
                 +:+ (if inactive then "inactive" else "active") +:+ ", HTTP " +:+ http_status resp +:+ ")")]
  else failed "Create" resp.

(** [matches!(input.trim().to_lowercase().as_str(), "y" | "yes")]. *)
Definition agreed (input : string) : bool :=
  let answer := to_lowercase (trim input) in String.eqb answer "y" || String.eqb answer "yes".

Definition create (event_type file channel : string) (dry_run yes inactive : bool) : Cmd :=
  let? content := st_ret (map_err (λ e, "Failed to read '" +:+ file +:+ "': " +:+ e) (read_file file)) in
  let? sections := st_ret (map_err (λ e, "Failed to parse '" +:+ file +:+ "': " +:+ e) (parse_j2 content)) in
  match validate_j2_syntax sections with
  | _ :: _ => st_ret (Err "Template has syntax errors — aborting")
  | [] =>
      if dry_run then shown [Line "(dry-run — not sent)"]
      else
        let? go := st_ret (if yes then Ok true else result_map agreed read_line) in
        if (go : bool) then upload event_type channel sections inactive else shown [Line "Aborted."]
  end.

(** [None] when the body is not JSON or holds no [templates]. *)
Definition listed_templates (v : option json) : result (list json) string :=
  match v with
  | None => Err "Invalid JSON response"
  | Some v => match templates_of v with Some ts => Ok ts | None => Err "Unexpected response shape" end
  end.

Definition list_templates_cmd (fmt : OutputFormat) : Cmd :=
  let? resp := send_authed GET (api_base_url cfg +:+ "/templates") None in
  if negb (is_success resp) then failed "List" resp
  else
    let? ts := st_ret (listed_templates (rp_json resp)) in
    let rows := omap template_row ts in
    shown [match fmt with
           | Json => PrettyJson (JArr (map row_json rows))
           | Table => print_table (map row_cells rows)
           end].

Definition show_template (event_type : string) (fmt : OutputFormat) : Cmd :=
  let? resp := send_authed GET (api_base_url cfg +:+ "/templates/" +:+ event_type) None in
  if rp_status resp =? 404
  then st_ret (Err ("No template found for event type '" +:+ event_type +:+ "'"))
  else if negb (is_success resp) then failed "Show" resp
  else
    match rp_json resp, fmt with
    | None, _ => st_ret (Err "Invalid JSON response")
    | Some v, Json => shown [PrettyJson v]
    | Some v, Table =>
        let? ts := st_ret (listed_templates (Some v)) in
        shown (flat_map (show_one event_type) ts)
    end.

Definition activate (event_type channel : string) (disable : bool) : Cmd :=
  let active := negb disable in
  let? resp := send_authed PATCH (api_base_url cfg +:+ "/templates/" +:+ event_type)
                 (Some (JObj [("channel", JStr channel); ("active", JBool active)])) in
  if rp_status resp =? 404
  then st_ret (Err ("No template found for '" +:+ event_type +:+ "' (" +:+ channel
                    +:+ "). Create it first with `anctl template create`."))
  else if negb (is_success resp) then failed "Activate" resp
  else shown [Line ("✓ Template " +:+ (if active then "activated" else "deactivated")
                    +:+ " (v" +:+ show_Z (default 0 (i64_at "version" (body_of resp)))
                    +:+ ", HTTP " +:+ http_status resp +:+ ")")].

Definition flush_templates (event_type : option string) : Cmd :=
  let base := api_base_url cfg in
  let url := match event_type with
             | Some et => base +:+ "/template-cache/" +:+ et
             | None => base +:+ "/template-cache"
             end in
  let? resp := send_authed DELETE url None in
  if is_success resp
  then shown [Line ("✓ Template cache flushed (HTTP " +:+ http_status resp +:+ ")")]
  else failed "Flush" resp.

Definition template (action : TemplateAction) (fmt : OutputFormat) : Cmd :=
  match action with
  | TmList => list_templates_cmd fmt
  | TmShow event_type => show_template event_type fmt
  | TmCreate event_type file channel dry_run yes inactive =>
      create event_type file channel dry_run yes inactive
  | TmActivate event_type channel disable => activate event_type channel disable
  | TmFlush event_type => flush_templates event_type
  end.

(** ** [retry.rs] *)

(** [confirm] is the answer to the prompt. *)
Definition retry (confirm : result bool string) (args : RetryArgs) : Cmd :=
  let base := localhost cfg in
  let? go := st_ret (if rt_yes args then Ok true else map_err (λ e, "Prompt failed: " +:+ e) confirm) in
  if negb go then shown [Line "Aborted."]
  else
    let id := uuid_str (rt_event_id args) in
    let url := match rt_email args with
               | Some email => base +:+ "/emails/" +:+ id +:+ "/recipients/" +:+ email +:+ "/retry"
               | None => base +:+ "/emails/" +:+ id +:+ "/retry"
               end in
    let? resp := send_authed POST url None in
    let body := body_of resp in
    if is_success resp
    then shown (Line ("✓ " +:+ default "OK" (str_at "message" body))
                :: match u64_at "recipientsReset" body with
                   | Some n => [Line ("  Recipients reset: " +:+ show_Z n)]
                   | None => []
                   end
                ++ match str_at "eventId" body with
                   | Some id => [Line ("  Event ID        : " +:+ id)]
                   | None => []
                   end)
    else st_ret (Err ("Retry failed (HTTP " +:+ http_status resp +:+ "): "
           +:+ default "unknown error"
                 (match str_at "error" body with Some e => Some e | None => as_str body end))).

(** ** [health.rs] *)

(** [trim_end_matches('/')]. *)
Fixpoint trim_end_slashes (s : string) : string :=
  match s with
  | EmptyString => EmptyString
  | String c s =>
      match trim_end_slashes s with
      | EmptyString => if Ascii.eqb c "/" then EmptyString else String c EmptyString
      | t => String c t
      end
  end.

(** [check_endpoint]: an unauthenticated GET. *)
Definition check_endpoint (url : string) : M (result (bool * list Printed) string) :=
  let? resp := http (mkClientRequest GET url None None) in
  let body := if is_empty_str (rp_text resp) then [] else [Line (rp_text resp)] in
  st_ret (Ok (if is_success resp then (true, Line ("OK  " +:+ url) :: body)
              else (false, Line ("UNHEALTHY  " +:+ url +:+ "  (HTTP " +:+ http_status resp +:+ ")") :: body))).

(** The exit is with code 1 when the flag is false. *)
Definition health (args : HealthArgs) : M (result (bool * list Printed) string) :=
  let base := trim_end_slashes (default (localhost cfg) (he_api_url args)) in
  let? h := check_endpoint (base +:+ "/health") in
  if he_ready args
  then
    let? r := check_endpoint (base +:+ "/ready") in
    st_ret (Ok (h.1 && r.1, h.2 ++ r.2))
  else st_ret (Ok h).
End commands.

(** ** Against the router *)

Section composed.
Context `{Env, NotificationStore, WireCodec}.
Context (state : ApiState) (hmac : string → string → string).
Context (decode_segment : string → option string).
Context (parse_uuid : string → option Uuid) (parse_i64 : string → option Z).
Context (de_send_request : json → option SendEmailRequest).
Context (probe_in_time : bool) (fallback : M ApiResponse).
Context (cfg : CliConfig).
(** The length of a value's encoding and the text of a response's body. *)
Context (json_length : json → Z) (json_text : option json → string).

Notation serve := (serve state hmac decode_segment parse_uuid parse_i64 de_send_request probe_in_time
                     fallback).

(** A client whose base URL is the service's.  A path is sent as it is, so this
    stands for the commands whose paths have no character a URL must escape. *)
Definition over_router (req : ClientRequest) : M (result Reply string) :=
  match strip_prefix (api_base_url cfg) (cr_url req) with
  | None => st_ret (Err "error sending request")
  | Some path =>
      let! r := serve (mkHttpRequest (cr_method req) path
                         (option_map (λ key, "Bearer " +:+ key) (cr_bearer req))
                         (match cr_json req with Some v => json_length v | None => 0 end)
                         (match cr_json req with Some v => Ok v | None => Err 415 end)) in
      st_ret (Ok (mkReply (rs_status r) (json_text (rs_body r)) (rs_body r)))
  end.

Lemma strip_base path : strip_prefix (api_base_url cfg) (api_base_url cfg +:+ path) = Some path.
Proof.
  generalize (api_base_url cfg). intros p. induction p as [|c p IH]; [done|].
  change (String c p +:+ path) with (String c (p +:+ path)). simpl. by rewrite Ascii.eqb_refl.
Qed.

Lemma bearer_cases auth next w :
  bearer_auth state hmac auth next w = next w
  ∨ ∃ resp, bearer_auth state hmac auth next w = (resp, w) ∧ (rs_status resp = 401 ∨ rs_status resp = 403).
Proof.
  unfold bearer_auth. destruct (as_api_key state); [|by left].
  destruct (match auth with Some _ => _ | None => _ end) as [t|]; [|right; by eexists; split; [|left]].
  destruct (negb _); [right; by eexists; split; [|right]|by left].
Qed.

Lemma error_not_success e : (200 <=? error_status e) && (error_status e <? 300) = false.
Proof. destruct e; try done. by destruct kind. Qed.

(** What a client sees of a protected endpoint: a refusal, or its handler's
    response. *)
Lemma protected_reply m path body e caps w :
  route m path = To e caps → stack_of e = Protected →
  let len := match body with Some v => json_length v | None => 0 end in
  let req := mkHttpRequest m path (option_map (λ key, "Bearer " +:+ key) (cl_api_key cfg)) len
               (match body with Some v => Ok v | None => Err 415 end) in
  let '(r, w') := send_authed cfg over_router m (api_base_url cfg +:+ path) body w in
  match r with
  | Err _ => False
  | Ok reply =>
      (is_success reply = false ∧ w' = w)
      ∨ ∃ resp, run_endpoint state decode_segment parse_uuid parse_i64 de_send_request probe_in_time
                  e caps req w = (resp, w')
                ∧ reply = mkReply (rs_status resp) (json_text (rs_body resp)) (rs_body resp)
  end.
Proof.
  intros Hr Hs. cbv zeta. unfold send_authed, over_router, st_bind. cbn [cr_url cr_method cr_bearer cr_json].
  rewrite strip_base. unfold Routes.serve. cbn [hq_method hq_path hq_authorization]. rewrite Hr.
  unfold layered. rewrite Hs. cbn [hq_authorization].
  match goal with |- context [bearer_auth state hmac ?a ?next w] =>
    destruct (bearer_cases a next w) as [->|(resp & -> & Hst)]; [destruct (next w) as [resp w1]|] end.
  - right. by exists resp.
  - left. split; [|done]. unfold is_success. simpl. by destruct Hst as [-> | ->].
Qed.

(** [anctl blocklist list] cannot succeed: it reads the reply as an array, and
    the service answers with an object. *)
Theorem blocklist_list_always_fails fmt w :
  ∃ e, (blocklist cfg over_router BlList fmt w).1 = Err e.
Proof.
  unfold blocklist. unfold st_try.
  pose proof (protected_reply GET "/admin/blocklist" None ListBlocklist [] w eq_refl eq_refl) as Hp.
  cbv zeta in Hp. destruct (send_authed _ _ _ _ _ w) as [[reply|e] w1]; [|done].
  destruct Hp as [[-> _]|(resp & Hresp & ->)]; [by eexists|].
  cbn [run_endpoint] in Hresp. unfold answer, st_bind in Hresp.
  destruct (list_blocklist w) as [[r|e] w2] eqn:Hl; injection Hresp as <- <-; unfold is_success; simpl.
  - unfold list_blocklist, st_try, st_ret in Hl. destruct (BlockList.list_entries w) as [[es|e] w3]; [|done].
    injection Hl as <- _. simpl. by eexists.
  - rewrite error_not_success. by eexists.
Qed.
(** ** Uploading a template *)

Lemma upsert_handler_Ok ty ch s inactive w resp w' :
  upsert_template (upload_body ty ch s inactive) w = (Ok resp, w') →
  ∃ v, TemplateStore.upsert (trim ty) (trim ch) (trim (j2_subject s)) (trim (j2_body_html s))
         (trim (j2_body_text s)) (negb inactive) w = (Ok v, w').
Proof.
  set (body := upload_body ty ch s inactive). unfold upsert_template, trimmed_field, require_field.
  change (str_field "event_type" body) with (Some ty). change (str_field "channel" body) with (Some ch).
  change (str_field "subject" body) with (Some (j2_subject s)).
  change (str_field "body_html" body) with (Some (j2_body_html s)).
  change (str_field "body_text" body) with (Some (j2_body_text s)).
  change (json_get "active" body) with (Some (JBool (negb inactive))). clear body.
  unfold must_not_be_empty, st_try, st_ret. cbn [result_map default as_bool from_option id].
  destruct (is_empty_str (trim ty)); [done|].
  destruct (is_empty_str (trim ch)); [done|].
  destruct (is_empty_str (trim (j2_subject s))); [done|].
  destruct (TemplateStore.upsert _ _ _ _ _ _ w) as [[[version inserted]|e] w1]; [|done].
  intros [= _ <-]. by exists (version, inserted).
Qed.

(** A parsed section is trimmed text. *)
Lemma parse_j2_trimmed content s :
  (∀ x, trim (trim x) = trim x) → parse_j2 content = Ok s →
  trim (j2_subject s) = j2_subject s ∧ trim (j2_body_html s) = j2_body_html s
  ∧ trim (j2_body_text s) = j2_body_text s.
Proof.
  intros Ht (_ & E1 & E2 & E3)%parse_j2_iff.
  assert (Hin : ∀ m c, assoc m (sections_of content) = Some c → trim c = c).
  { intros m c. unfold sections_of. induction (segments (lines content)).2 as [|seg l IH]; [done|].
    simpl. destruct (String.eqb m seg.1); [|done]. intros [= <-]. apply Ht. }
  split_and!; eapply Hin; eassumption.
Qed.

(** C33: from the file to the mail: when [anctl template create] reports success, the
    service has the file's three sections as its template from then on.  The
    very next event that resolves it gets them, whatever was cached, or finds
    the event type unknown if it was uploaded inactive; and none of the three
    can fail to parse when it is rendered. *)
Theorem template_create_effective read_file read_line file content s ty ch inactive w out w1 r w2 :
  (∀ x, trim (trim x) = trim x) →
  read_file file = Ok content → parse_j2 content = Ok s →
  contains_char ":" (trim ch) = false → tpl_cache_ok w →
  create cfg over_router read_file read_line ty file ch false true inactive w = (Ok out, w1) →
  resolve (trim ty) (trim ch) w1 = (r, w2) →
  match r with
  | Ok tpl =>
      inactive = false
      ∧ tpl = mkNotificationTemplate (j2_subject s) (j2_body_html s) (j2_body_text s)
      ∧ jinja_parse (nt_subject tpl) = None ∧ jinja_parse (nt_body_html tpl) = None
      ∧ jinja_parse (nt_body_text tpl) = None
  | Err (AppError.Template _) => inactive = true
  | Err e => ∃ m, e = AppError.Database m
  end.
Proof.
  intros Ht Hf Hp Hch Hok. unfold create, st_try, st_ret. rewrite Hf. cbn [map_err]. rewrite Hp. cbn [map_err].
  destruct (validate_j2_syntax s) as [|] eqn:Hv; [|done]. apply validate_j2_nil in Hv.
  unfold upload, st_try.
  pose proof (protected_reply POST "/templates" (Some (upload_body ty ch s inactive)) UpsertTemplate [] w
                eq_refl eq_refl) as Hr.
  cbv zeta in Hr. destruct (send_authed _ _ _ _ _ w) as [[reply|e] w0]; [|done].
  destruct Hr as [[-> _]|(resp & Hresp & ->)]; [done|].
  cbn [run_endpoint] in Hresp. unfold with_json in Hresp. cbn [hq_length hq_json] in Hresp.
  destruct (MAX_BODY_BYTES <? _); [by injection Hresp as <- <-|].
  unfold answer, st_bind in Hresp.
  destruct (upsert_template _ w) as [[x|e] w3] eqn:Hup; injection Hresp as <- <-; unfold is_success;
    cbn [into_response rs_status json_response rp_status].
  2: { by rewrite error_not_success. }
  destruct (upsert_handler_Ok _ _ _ _ _ _ _ Hup) as [v Hu].
  destruct (parse_j2_trimmed _ _ Ht Hp) as (E1 & E2 & E3). rewrite E1, E2, E3 in Hu.
  destruct (_ && _); [|done]. intros [= _ <-] Hres.
  pose proof (upsert_takes_effect _ _ _ _ _ _ _ _ _ _ _ Hch Hok Hu Hres) as Hspec.
  destruct r as [tpl|e]; [|destruct e; try done; by destruct inactive].
  destruct Hspec as [Ha ->]. by destruct inactive.
Qed.
End composed.

(** ** Concrete commands *)

Lemma trim_end_solid c s : is_white c = false → trim_end (String c s) = String c (trim_end s).
Proof. intros Hc. simpl. rewrite Hc. by destruct (trim_end s). Qed.

Lemma trim_end_idem s : trim_end (trim_end s) = trim_end s.
Proof.
  induction s as [|c s IH]; [done|]. simpl. destruct (trim_end s) as [|d t] eqn:E.
  - destruct (is_white c) eqn:Hc; [done|]. simpl. by rewrite Hc.
  - change (trim_end (String c (String d t))) with
      (match trim_end (String d t) with
       | EmptyString => if is_white c then EmptyString else String c EmptyString
       | t => String c t end). by rewrite IH.
Qed.

Lemma ascii_trim_idem s : ascii_trim (ascii_trim s) = ascii_trim s.
Proof.
  unfold ascii_trim. assert (Hh : trim_start s = "" ∨ ∃ c t, trim_start s = String c t ∧ is_white c = false).
  { induction s as [|c s IH]; [by left|]. simpl. destruct (is_white c) eqn:Hc; [done|]. right. by exists c, s. }
  destruct Hh as [->|(c & t & -> & Hc)]; [done|]. rewrite trim_end_solid by done. simpl trim_start. rewrite Hc.
  by rewrite trim_end_solid, trim_end_idem by done.
Qed.

Lemma all_chars_trim p s : all_chars p s = true → all_chars p (ascii_trim s) = true.
Proof.
  assert (Hs : all_chars p s = true → all_chars p (trim_start s) = true).
  { induction s as [|c s IH]; [done|]. simpl. intros [Hc Hs]%andb_prop. destruct (is_white c); [auto|].
    simpl. by rewrite Hc, Hs. }
  assert (He : ∀ s, all_chars p s = true → all_chars p (trim_end s) = true).
  { clear. induction s as [|c s IH]; [done|]. simpl. intros [Hc Hs]%andb_prop. specialize (IH Hs).
    destruct (trim_end s); [destruct (is_white c); simpl; by rewrite ?Hc|]. simpl in *. by rewrite Hc, IH. }
  intros Hp. by apply He, Hs.
Qed.

Lemma sample_trim_idem x : trim (H := sample_env) (trim (H := sample_env) x) = trim (H := sample_env) x.
Proof.
  unfold trim. simpl. destruct (all_chars is_ascii x) eqn:Ha; [|by rewrite Ha].
  by rewrite all_chars_trim, ascii_trim_idem.
Qed.

Definition sample_cli : CliConfig :=
  mkCliConfig "postgres://db" "amqp://mq" "anvil-notify" "email.requested" 8080 (Some "secret") None None.

Definition sample_http : ClientRequest → M (result Reply string) :=
  over_router (H := sample_env) (H0 := LogStore.EmailNotificationStore (H := sample_env))
    (H1 := sample_wire_codec) keyed_state sample_hmac Some (λ _, None) (λ _, None) (λ _, None) true
    (rejected 404) sample_cli (λ _, 100) (λ _, "").

Definition sample_files (file : string) : result string string :=
  if String.eqb file "order.j2" then Ok (print_sections sample_order) else Err "No such file or directory".

(** A world whose template cache holds something else for the type. *)
Definition stale_templates : World :=
  set_db (set_templates (λ _, [mkTemplateRow "ORDER" "email" "old" "old" "old" 1 true 0]) empty_db)
    (set_tpl_cache {["email:ORDER" := mkNotificationTemplate "old" "old" "old"]} (world0 empty_db)).

Lemma stale_templates_ok : tpl_cache_ok stale_templates.
Proof.
  intros ch ty tpl Hch. unfold stale_templates. simpl. intros Hl.
  apply lookup_singleton_Some in Hl as [Hk <-]. change "email:ORDER" with (cache_key "email" "ORDER") in Hk.
  by apply cache_key_inj in Hk as [<- <-].
Qed.

Definition uploaded : result (list Printed) string * World :=
  create (H := sample_env) sample_cli sample_http sample_files (Ok "n") "ORDER" "order.j2" "email"
    false true false stale_templates.

Lemma template_create_effective_witness :
  is_ok uploaded.1 = true
  ∧ match (resolve (H := sample_env) "ORDER" "email" uploaded.2).1 with
    | Ok tpl =>
        false = false
        ∧ tpl = mkNotificationTemplate (j2_subject sample_sections) (j2_body_html sample_sections)
                  (j2_body_text sample_sections)
        ∧ jinja_parse (Env := sample_env) (nt_subject tpl) = None
        ∧ jinja_parse (Env := sample_env) (nt_body_html tpl) = None
        ∧ jinja_parse (Env := sample_env) (nt_body_text tpl) = None
    | Err (AppError.Template _) => false = true
    | Err e => ∃ m, e = AppError.Database m
    end.
Proof.
  split; [vm_compute; reflexivity|].
  eapply (template_create_effective (H := sample_env)
    (H0 := LogStore.EmailNotificationStore (H := sample_env)) (H1 := sample_wire_codec)
    keyed_state sample_hmac Some (λ _, None) (λ _, None) (λ _, None) true (rejected 404) sample_cli
    (λ _, 100) (λ _, "") sample_files (Ok "n") "order.j2" (print_sections sample_order) sample_sections
    "ORDER" "email" false stale_templates).
  - exact sample_trim_idem.
  - reflexivity.
  - vm_compute. reflexivity.
  - reflexivity.
  - exact stale_templates_ok.
  - vm_compute. reflexivity.
  - apply surjective_pairing.
Defined.

(** [anctl retry] and [anctl health] do not ask [api_base_url]: with the
    service elsewhere they still call the local port. *)
Definition remote_cli : CliConfig :=
  mkCliConfig "postgres://db" "amqp://mq" "anvil-notify" "email.requested" 8080 None None
    (Some "https://notify.example.com").

(** A client that answers with the URL it was asked for. *)
Definition echo (req : ClientRequest) : M (result Reply string) := st_ret (Err (cr_url req)).

Theorem retry_ignores_api_url :
  let args := mkRetryArgs 42 None true in
  (retry (H := sample_env) remote_cli echo (Ok true) args (world0 empty_db)).1
  = Err "HTTP request failed: http://localhost:8080/emails/42/retry"
  ∧ (health (H := sample_env) remote_cli echo (mkHealthArgs None false) (world0 empty_db)).1
    = Err "http://localhost:8080/health"
  ∧ (blocklist (H := sample_env) remote_cli echo BlFlush Table (world0 empty_db)).1
    = Err "HTTP request failed: https://notify.example.com/admin/blocklist/cache".
Proof. by vm_compute. Qed.
