(* ===== verification/AnctlDb.v ===== *)
(** * The commands that use the database and the broker ([crates/anctl/src/cmd/]:
    [logs.rs], [status.rs], [outbox.rs])

    The listings, which read the tables through [CliQueries] and print rows. *)

From S2P Require Import Prelude Order Json AppErr EmailValidation Event World Interfaces.
From S2P Require Import LogStore LogInvariant LogTyped Delivery Settle Runner CliQueries Anctl.

Section listings.
Context `{Env}.
Context (db_lowercase : string → string).
(** chrono's [format("%Y-%m-%d %H:%M:%S UTC")], serde_json's [to_string], and
    the derived serialisers of the printed rows. *)
Context (fmt_ts : DateTime → string) (json_text : json → string) (print_json : list (list string) → json).

Notation Cmd := (M (result (list Printed) string)).

Definition display (fmt : OutputFormat) (rows : list (list string)) : Printed :=
  match fmt with Json => PrettyJson (print_json rows) | Table => print_table rows end.

(** [PgPoolOptions::connect]. *)
Definition connect_pool : M (result unit string) :=
  let! t := next_tick in
  st_ret (match db_err t with Some e => Err e | None => Ok tt end).

(** ** [logs.rs] *)

(** [format!("%{}%", filter.unwrap_or(""))]. *)
Definition partial_match (filter : option string) : string := "%" +:+ default "" filter +:+ "%".

Definition log_cells (max_err : Z) (r : NotificationLogRow) : list string :=
  [nr_event_id r; nr_event_type r; nr_recipient_email r; nr_status r; show_Z (nr_retry_count r);
   match nr_last_error r with Some e => truncate e max_err | None => "—" end;
   fmt_ts (nr_updated_at r)].

Definition logs (args : LogsArgs) (fmt : OutputFormat) : Cmd :=
  let? _ := connect_pool in
  let max_err := if lo_full_error args then usize_max else 60 in
  let? rows := list_notification_logs db_lowercase (lo_status args) (partial_match (lo_event_type args))
                 (partial_match (lo_email args)) (lo_limit args) in
  match rows with
  | [] => st_ret (Ok [Line "(no results)"])
  | _ => st_ret (Ok [display fmt (map (log_cells max_err) rows)])
  end.

(** ** [status.rs] *)

Definition status_cells (r : RecipientStatusRow) : list string :=
  [rr_recipient_email r; rr_status r; show_Z (rr_retry_count r); opt (rr_last_error r);
   fmt_ts (rr_updated_at r)].

Definition count_rows (status : string) (rows : list RecipientStatusRow) : nat :=
  length (base.filter (λ r, rr_status r = status) rows).

(** The totals the table is headed with; skipped ones only when there are any. *)
Definition status_summary (rows : list RecipientStatusRow) : string :=
  let skipped := count_rows "SKIPPED" rows in
  "Total: " +:+ show_nat (length rows) +:+ "  Sent: " +:+ show_nat (count_rows "SENT" rows)
  +:+ "  Pending: " +:+ show_nat (count_rows "PENDING" rows)
  +:+ "  Failed: " +:+ show_nat (count_rows "FAILED" rows)
  +:+ "  Blocked: " +:+ show_nat (count_rows "BLOCKED" rows)
  +:+ (if (0 <? skipped)%nat then "  Skipped: " +:+ show_nat skipped else "").

Definition status (args : StatusArgs) (fmt : OutputFormat) : Cmd :=
  let? _ := connect_pool in
  let id := uuid_str (st_event_id args) in
  match st_email args with
  | Some email =>
      let? row := get_status_for_recipient (st_event_id args) email in
      st_ret (Ok (match row with
                  | None => [Line ("No record found for " +:+ email +:+ " in event " +:+ id)]
                  | Some r => [display fmt [status_cells r]]
                  end))
  | None =>
      let? rows := get_status_for_event (st_event_id args) in
      match rows with
      | [] => st_ret (Ok [Line ("No records found for event " +:+ id)])
      | _ =>
          let header := match fmt with
                        | Table => [Line ("Event: " +:+ id); Line (status_summary rows); Line ""]
                        | Json => []
                        end in
          st_ret (Ok (header ++ [display fmt (map status_cells rows)]))
      end
  end.

(** ** [outbox.rs] *)

Definition outbox_cells (max_payload : Z) (r : OutboxRow) : list string :=
  [ox_event_id r; ox_event_type r; ox_status r; show_Z (ox_fail_count r);
   truncate (json_text (ox_payload r)) max_payload; fmt_ts (ox_created_at r);
   match ox_published_at r with Some t => fmt_ts t | None => "—" end].

Definition NO_OUTBOX_URL : string :=
  "outbox_database_url is not configured." +:+ String (ascii_of_nat 10)
  "Set AN__OUTBOX_DATABASE_URL or add outbox_database_url to config/local.toml.".

Definition outbox (cfg : CliConfig) (args : OutboxArgs) (fmt : OutputFormat) : Cmd :=
  match cl_outbox_database_url cfg with
  | None => st_ret (Err NO_OUTBOX_URL)
  | Some _ =>
      let? _ := connect_pool in
      let? rows := list_outbox_rows (as_sql_str (oa_status args)) (oa_limit args) in
      match rows with
      | [] => st_ret (Ok [Line ("(no " +:+ as_sql_str (oa_status args) +:+ " outbox rows)")])
      | _ =>
          let max_payload := if oa_full_payload args then usize_max else 80 in
          st_ret (Ok [display fmt (map (outbox_cells max_payload) rows)])
      end
  end.

(** ** Properties *)

(** A filter that is absent or holds no wildcard of [LIKE]. *)
Definition plain_filter (f : option string) : Prop := like_plain (default "" f) = true.
Definition contains_ci (f : option string) (s : string) : Prop :=
  contains_str (map_chars ascii_lower (default "" f)) (db_lower db_lowercase s) = true.

(** [anctl logs] prints exactly the newest of the rows that carry the status
    asked for and contain both texts, in either case, up to the limit. *)
Theorem logs_show args fmt w out w' :
  plain_filter (lo_event_type args) → plain_filter (lo_email args) →
  logs args fmt w = (Ok out, w') →
  ∃ all chosen,
    (∀ r, r ∈ all ↔ r ∈ db_log (w_db w) ∧ lr_channel r = "email"
                    ∧ (∀ s, lo_status args = Some s → lr_status r = s)
                    ∧ contains_ci (lo_event_type args) (lr_event_type r)
                    ∧ contains_ci (lo_email args) (lr_recipient_id r))
    ∧ first_by (λ r, - lr_updated_at r) (lo_limit args) all chosen
    ∧ out = (match chosen with
             | [] => [Line "(no results)"]
             | _ => [display fmt (map (log_cells (if lo_full_error args then usize_max else 60))
                                    (map log_row chosen))]
             end)
    ∧ w' = set_tick (S (S (w_tick w))) w.
Proof.
  intros Ht He. unfold logs, st_try. destruct (connect_pool w) as [[u|e] w0] eqn:Hc; [|done].
  assert (w0 = set_tick (S (w_tick w)) w) as ->.
  { unfold connect_pool in Hc. run_st in Hc. by injection Hc as _ <-. }
  destruct (list_notification_logs _ _ _ _ _ _) as [[rows|e] w1] eqn:Hl; [|done].
  apply logs_listing in Hl as (mt & me & all & chosen & Hmt & Hme & Hall & _ & Hf & -> & ->).
  destruct (ilike_contains db_lowercase _ Ht) as (ft & Hft & Hfs).
  destruct (ilike_contains db_lowercase _ He) as (fe & Hfe & Hes).
  unfold partial_match in Hmt, Hme. rewrite Hft in Hmt. rewrite Hfe in Hme. injection Hmt as <-. injection Hme as <-.
  intros Hrun. exists all, chosen. split_and!; [|done| |].
  - intros r. rewrite Hall. unfold asked_for, contains_ci. by rewrite Hfs, Hes.
  - destruct chosen; simpl in *; by injection Hrun as <- <-.
  - destruct chosen; simpl in *; by injection Hrun as _ <-.
Qed.

Lemma count_rows_map s rows :
  count_rows s (map status_row rows) = length (base.filter (λ r, lr_status r = s) rows).
Proof.
  unfold count_rows. induction rows as [|r rows IH]; [done|]. simpl. rewrite !filter_cons. simpl.
  case_decide; simpl; by rewrite IH.
Qed.

(** On a well-typed log the totals [anctl status] prints account for every row. *)
Theorem status_totals event_id w rows w' :
  log_typed (w_db w) → get_status_for_event event_id w = (Ok rows, w') →
  length rows = (count_rows "SENT" rows + count_rows "PENDING" rows + count_rows "FAILED" rows
                 + count_rows "BLOCKED" rows + count_rows "SKIPPED" rows)%nat.
Proof.
  intros Hd Hg. apply event_status_listing in Hg as (all & Hp & _ & -> & _).
  assert (Ht : Forall row_typed all).
  { rewrite Hp, Forall_forall. intros r [_ Hr]%list_elem_of_filter. unfold log_typed in Hd.
    rewrite Forall_forall in Hd. by apply Hd. }
  rewrite length_map, !count_rows_map. clear Hp. induction Ht as [|r all [_ Hs _ _] _ IH]; [done|].
  destruct (status_try_from (lr_status r)) as [st|] eqn:Hst; [|done]. apply status_try_from_spec in Hst.
  rewrite !filter_cons, Hst. cbn [length]. rewrite IH. destruct st; simpl; lia.
Qed.
End listings.

(** ** Concrete listings *)

Definition plain_logs : LogsArgs := mkLogsArgs (Some "PENDING") (Some "confirm") None 20 false.
Definition shown_logs (args : LogsArgs) : result (list Printed) string * World :=
  logs (H := sample_env) (λ s, s) (λ t, pretty t) (λ _, JNull) args Table sample_insert.

(** The one row there is matches, in capitals. *)
Example one_log_shown :
  (shown_logs plain_logs).1
  = Ok [Rows [["7"; "ORDER_CONFIRMATION"; "a@example.com"; "PENDING"; "0"; "—"; "1000000000"]]].
Proof. vm_compute. reflexivity. Qed.

Lemma logs_show_witness :
  ∃ all chosen,
    (∀ r, r ∈ all → lr_status r = "PENDING")
    ∧ first_by (λ r, - lr_updated_at r) 20 all chosen
    ∧ (shown_logs plain_logs).1
      = Ok (match chosen with
            | [] => [Line "(no results)"]
            | _ => [display (λ _, JNull) Table (map (log_cells (λ t, pretty t) 60) (map (log_row (H := sample_env)) chosen))]
            end).
Proof.
  destruct (logs_show (H := sample_env) (λ s, s) (λ t, pretty t) (λ _, JNull) plain_logs Table
    sample_insert [Rows [["7"; "ORDER_CONFIRMATION"; "a@example.com"; "PENDING"; "0"; "—"; "1000000000"]]]
    (shown_logs plain_logs).2) as (all & chosen & Hall & Hf & Hout & _).
  - vm_compute. reflexivity.
  - vm_compute. reflexivity.
  - vm_compute. reflexivity.
  - exists all, chosen. split_and!; [|exact Hf|by rewrite one_log_shown, Hout].
    intros r Hr. destruct (proj1 (Hall r) Hr) as (_ & _ & Hs & _). by apply Hs.
Defined.

Lemma status_totals_witness :
  match get_status_for_event (H := sample_env) 7 sample_insert with
  | (Ok rows, _) =>
      length rows = 1%nat
      ∧ length rows = (count_rows "SENT" rows + count_rows "PENDING" rows + count_rows "FAILED" rows
                       + count_rows "BLOCKED" rows + count_rows "SKIPPED" rows)%nat
  | _ => False
  end.
Proof.
  destruct (get_status_for_event (H := sample_env) 7 sample_insert) as [[rows|e] w'] eqn:Hg.
  - split; [vm_compute in Hg; by injection Hg as <- _|].
    apply (status_totals (H := sample_env) 7 sample_insert rows w'); [|exact Hg].
    constructor; [|constructor]. by constructor.
  - vm_compute in Hg. discriminate.
Defined.
