(* ===== verification/AnctlSend.v ===== *)
(** * [anctl send] ([crates/anctl/src/cmd/send.rs])

    The event the command line describes, the checks before it, and its
    publication on a connection of the command's own. *)

From S2P Require Import Prelude Json AppErr EmailValidation Event World Interfaces.
From S2P Require Import Runner Publisher ApiSpec Anctl.

Section send.
Context `{Env, WireCodec}.
Context (cfg : CliConfig).
(** [std::fs::read_to_string], [serde_json::from_str] at a value and at an
    attachment, and the answer to the prompt. *)
Context (read_file : string → result string string) (parse_json : string → result json string).
Context (parse_attachment : string → result AttachmentRef string) (confirm : result bool string).

Notation Cmd := (M (result (list Printed) string)).

(** ** The payload *)

(** [with_context]: the context, then its cause. *)
Definition in_context {A} (context : string) (r : result A string) : result A string :=
  map_err (λ e, context +:+ ": " +:+ e) r.

Definition read_payload (arg : string) : result json string :=
  match arg with
  | String "@" path =>
      result_bind (in_context ("Cannot read payload file: " +:+ path) (read_file path)) (λ text,
      in_context ("Invalid JSON in " +:+ path) (parse_json text))
  | _ => in_context "--payload must be valid JSON or @<path> to a JSON file" (parse_json arg)
  end.

(** ** The addresses *)

(** [args.name.get(i)]: the n-th name goes to the n-th address, if there is one. *)
Fixpoint named (emails names : list string) : list Recipient :=
  match emails with
  | [] => []
  | e :: es => mkRecipient e (head names) :: named es (tail names)
  end.

Definition checked_address (what : string) (email : string) : result string string :=
  if is_valid_email email then Ok email else Err (what +:+ email).

Definition copy_to (what email : string) : result Recipient string :=
  result_map (λ e, mkRecipient e None) (checked_address what email).

Definition recipients_of (args : SendArgs) : result (list Recipient) string :=
  match sd_to args with
  | [] => Err "At least one --to address is required"
  | to =>
      result_map (λ _, named to (sd_name args))
        (result_mapM (checked_address "Invalid email address: ") to)
  end.

Definition from_override_of (args : SendArgs) : result (option FromOverride) string :=
  match sd_from_email args with
  | Some email =>
      result_map (λ e, Some (mkFromOverride e (sd_from_name args)))
        (checked_address "Invalid --from-email address: " email)
  | None => Ok None
  end.

(** ** The attachments *)

Definition read_attachments (args : SendArgs) : result (list AttachmentRef) string :=
  result_mapM (λ raw, in_context ("Invalid attachment JSON: " +:+ raw) (parse_attachment raw))
    (sd_attachment args).

(** [att.validate(&Utc::now(), Utc::now())]: each reads the clock twice. *)
Fixpoint validate_attachments (l : list AttachmentRef) : M (result unit string) :=
  match l with
  | [] => st_ret (Ok tt)
  | att :: l =>
      let! t0 := next_tick in
      let! t1 := next_tick in
      match attachment_validate att (clock t0) (clock t1) with
      | Ok _ => validate_attachments l
      | Err e => st_ret (Err ("Attachment validation failed: " +:+ e))
      end
  end.

(** ** The event *)

(** All three parts given: the built-in template, whatever the type and payload
    on the command line. *)
Definition type_and_payload (args : SendArgs) (payload : json) : string * json :=
  match sd_subject args, sd_body_html args, sd_body_text args with
  | Some s, Some h, Some t =>
      ("GENERIC_HTML", JObj [("subject", JStr s); ("body_html", JStr h); ("body_text", JStr t)])
  | _, _, _ => (sd_event_type args, payload)
  end.

Definition new_event_id (args : SendArgs) : M Uuid :=
  match sd_event_id args with
  | Some id => st_ret id
  | None => let! t := next_tick in st_ret (fresh_uuid t)
  end.

Definition build_event (args : SendArgs) : M (result NotificationEvent string) :=
  let? payload := st_ret (read_payload (sd_payload args)) in
  let? recipients := st_ret (recipients_of args) in
  let? cc := st_ret (result_mapM (copy_to "Invalid --cc address: ") (sd_cc args)) in
  let? bcc := st_ret (result_mapM (copy_to "Invalid --bcc address: ") (sd_bcc args)) in
  let? attachments := st_ret (read_attachments args) in
  let? _ := validate_attachments attachments in
  let? from := st_ret (from_override_of args) in
  let tp := type_and_payload args payload in
  let! event_id := new_event_id args in
  let! now := next_tick in
  st_ret (Ok {|
    ne_event_id := event_id;
    ne_timestamp := clock now;
    ne_event_type := tp.1;
    ne_payload := tp.2;
    ne_metadata := mkMetadata (Some (sd_source args));
    ne_channel_overrides := mkChannelOverrides (Some {|
      eo_send_mode := SendMode.Individual;
      eo_group_retry_mode := GroupRetryMode.Whole;
      eo_retry_policy := RetryPolicy.Retry;
      eo_recipients := recipients;
      eo_cc := cc;
      eo_bcc := bcc;
      eo_from_override := from;
      eo_attachments := attachments;
      eo_sender_account := None;
      eo_send_at := None;
      eo_priority := None |}) |}).

(** What is shown before the prompt. *)
Definition preview (args : SendArgs) (event : NotificationEvent) : list Printed :=
  match co_email (ne_channel_overrides event) with
  | None => []
  | Some opts =>
      [Line "About to publish:";
       Line ("  Event type   : " +:+ ne_event_type event);
       Line ("  Event ID     : " +:+ uuid_str (ne_event_id event));
       Line ("  Recipients   : " +:+ join ", " (map r_email (eo_recipients opts)))]
      ++ (if bool_decide (eo_cc opts = []) then []
          else [Line ("  CC           : " +:+ join ", " (map r_email (eo_cc opts)))])
      ++ (if bool_decide (eo_bcc opts = []) then []
          else [Line ("  BCC          : " +:+ show_nat (length (eo_bcc opts)) +:+ " address(es) [hidden]")])
      ++ [Line ("  Attachments  : " +:+ show_nat (length (eo_attachments opts)))]
      ++ match sd_subject args with
         | Some s => [Line "  Body mode    : generic HTML (GENERIC_HTML template)";
                      Line ("  Subject      : " +:+ s)]
         | None => [Line ("  Body mode    : template (" +:+ ne_event_type event +:+ ")")]
         end
  end.

(** ** The publication *)

(** [Connection::connect], [create_channel] and [confirm_select], each with a
    context of its own. *)
Definition open_step (context : string) : M (result unit string) :=
  let! r := under_context context amqp_step in st_ret (map_err ah_chain r).

Definition publish (body : string) : M (result unit string) :=
  let? _ := open_step "Failed to connect to RabbitMQ" in
  let? _ := open_step "Failed to create AMQP channel" in
  let? _ := open_step "Failed to enable publisher confirms" in
  let! r := active (ExchangeDeclare (cl_exchange cfg) ExchangeKind.Direct) in
  let? _ := st_ret (in_context "exchange_declare failed" r) in
  let! r := basic_publish (cl_exchange cfg) (cl_routing_key cfg) persistent_json body in
  let? _ := st_ret (in_context "basic_publish failed" r) in
  let! r := await_confirm in
  let? _ := st_ret (in_context "Publisher confirm failed" r) in
  st_ret (Ok tt).

Definition published (event : NotificationEvent) : list Printed :=
  let id := uuid_str (ne_event_id event) in
  [Line ("✓ Published event " +:+ id); Line ("  Run `anctl status " +:+ id +:+ "` to track delivery.")].

(** Step 7: without [--yes] the user is asked. *)
Definition confirmed_by_user (args : SendArgs) : result bool string :=
  if sd_yes args then Ok true else in_context "Prompt failed" confirm.

(** Step 8. *)
Definition publish_event (event : NotificationEvent) : M (result (list Printed) string) :=
  let? body := st_ret (in_context "Failed to serialize event" (encode_event event)) in
  let? _ := publish body in
  st_ret (Ok (published event)).

Definition send (args : SendArgs) : Cmd :=
  let? event := build_event args in
  let shown := if sd_yes args then [] else preview args event in
  let? go := st_ret (confirmed_by_user args) in
  if negb go then st_ret (Ok (shown ++ [Line "Aborted."]))
  else
    let? out := publish_event event in
    st_ret (Ok (shown ++ out)).

(** ** Properties *)

(** What the command line asks for, at some moment between [t] and [t']: the
    payload read, or the three parts given instead of it; the people, in order,
    with their names; and a new id and the time, unless an id is given. *)
Record describes (args : SendArgs) (t t' : nat) (event : NotificationEvent) : Prop := {
  ds_id : match sd_event_id args with
          | Some id => ne_event_id event = id
          | None => ∃ n, (t <= n < t')%nat ∧ ne_event_id event = fresh_uuid n
          end;
  ds_time : ∃ n, (t <= n < t')%nat ∧ ne_timestamp event = clock n;
  ds_payload : ∃ payload, read_payload (sd_payload args) = Ok payload
    ∧ (ne_event_type event, ne_payload event)
      = match sd_subject args, sd_body_html args, sd_body_text args with
        | Some s, Some h, Some t =>
            ("GENERIC_HTML", JObj [("subject", JStr s); ("body_html", JStr h); ("body_text", JStr t)])
        | _, _, _ => (sd_event_type args, payload)
        end;
  ds_source : md_source (ne_metadata event) = Some (sd_source args);
  ds_opts : ∃ opts, co_email (ne_channel_overrides event) = Some opts
    ∧ map r_email (eo_recipients opts) = sd_to args
    ∧ (∀ i, option_map r_name (eo_recipients opts !! i) = (if (i <? length (sd_to args))%nat
                                                            then Some (sd_name args !! i) else None))
    ∧ eo_cc opts = map (λ e, mkRecipient e None) (sd_cc args)
    ∧ eo_bcc opts = map (λ e, mkRecipient e None) (sd_bcc args)
    ∧ eo_from_override opts = option_map (λ e, mkFromOverride e (sd_from_name args)) (sd_from_email args)
    ∧ Forall2 (λ raw att, parse_attachment raw = Ok att) (sd_attachment args) (eo_attachments opts)
    ∧ eo_send_mode opts = SendMode.Individual ∧ eo_group_retry_mode opts = GroupRetryMode.Whole
    ∧ eo_retry_policy opts = RetryPolicy.Retry
    ∧ eo_sender_account opts = None ∧ eo_send_at opts = None ∧ eo_priority opts = None;
}.

(** What it must satisfy to be published. *)
Record well_formed (args : SendArgs) : Prop := {
  wf_to : sd_to args ≠ [];
  wf_addresses : Forall (λ e, is_valid_email e = true) (sd_to args ++ sd_cc args ++ sd_bcc args);
  wf_from : ∀ e, sd_from_email args = Some e → is_valid_email e = true;
  wf_attachments : Forall (λ raw, ∃ att t0 t1, parse_attachment raw = Ok att ∧ attachment_ok att t0 t1)
                     (sd_attachment args);
}.

Lemma named_emails emails names : map r_email (named emails names) = emails.
Proof. revert names. induction emails as [|e es IH]; intros names; [done|]. simpl. by rewrite IH. Qed.

Lemma named_names emails names i :
  option_map r_name (named emails names !! i)
  = if (i <? length emails)%nat then Some (names !! i) else None.
Proof.
  revert names i. induction emails as [|e es IH]; intros names [|i]; [done..| |].
  - by destruct names.
  - change ((S i <? length (e :: es))%nat) with ((i <? length es)%nat). cbn [named lookup list_lookup].
    etrans; [apply IH|]. destruct (i <? length es)%nat; [|done]. by destruct names.
Qed.

Lemma checked_addresses what l l' :
  result_mapM (checked_address what) l = Ok l' → l' = l ∧ Forall (λ e, is_valid_email e = true) l.
Proof.
  rewrite result_mapM_Ok. induction 1 as [|e e' l l' He _ [-> IH]]; [done|].
  unfold checked_address in He. destruct (is_valid_email e) eqn:Hv; [|done]. injection He as <-. by auto.
Qed.

Lemma copies_to what l rs :
  result_mapM (copy_to what) l = Ok rs → rs = map (λ e, mkRecipient e None) l ∧ Forall (λ e, is_valid_email e = true) l.
Proof.
  rewrite result_mapM_Ok. induction 1 as [|e r l rs He _ [IH1 IH2]]; [done|].
  unfold copy_to, checked_address in He. destruct (is_valid_email e) eqn:Hv; [|done].
  injection He as <-. simpl. by rewrite IH1; auto.
Qed.

Lemma recipients_of_Ok args rs :
  recipients_of args = Ok rs →
  rs = named (sd_to args) (sd_name args) ∧ sd_to args ≠ []
  ∧ Forall (λ e, is_valid_email e = true) (sd_to args).
Proof.
  unfold recipients_of. destruct (sd_to args) as [|e es] eqn:E; [done|].
  destruct (result_mapM _ _) as [l|] eqn:Hm; [|done]. simpl. intros [= <-].
  by apply checked_addresses in Hm as [_ ?].
Qed.

Lemma from_override_of_Ok args from :
  from_override_of args = Ok from →
  from = option_map (λ e, mkFromOverride e (sd_from_name args)) (sd_from_email args)
  ∧ ∀ e, sd_from_email args = Some e → is_valid_email e = true.
Proof.
  unfold from_override_of, checked_address. destruct (sd_from_email args) as [e|]; [|by intros [= <-]].
  destruct (is_valid_email e) eqn:Hv; [|done]. intros [= <-]. split; [done|]. by intros ? [= <-].
Qed.

Lemma read_attachments_Ok args atts :
  read_attachments args = Ok atts → Forall2 (λ raw att, parse_attachment raw = Ok att) (sd_attachment args) atts.
Proof.
  unfold read_attachments. rewrite result_mapM_Ok. intros Hall. eapply Forall2_impl; [exact Hall|].
  intros raw att. unfold in_context. by destruct (parse_attachment raw).
Qed.

Lemma validate_attachments_spec atts w r w' :
  validate_attachments atts w = (r, w') →
  ticks_only w w' ∧ (w_tick w <= w_tick w')%nat
  ∧ (is_ok r = true → Forall (λ att, ∃ t0 t1, attachment_ok att t0 t1) atts).
Proof.
  revert w. induction atts as [|att atts IH]; intros w.
  { intros [= <- <-]. by split. }
  simpl. unfold next_tick. run_st. destruct (attachment_validate att _ _) as [[]|e] eqn:Hv.
  - intros (Ht & Hle & Hok)%IH. simpl in Hle. split_and!; [etrans; [|exact Ht]; by destruct w|lia|]. intros Hr.
    apply attachment_validate_iff in Hv. constructor; [by eexists _, _|by apply Hok].
  - intros [= <- <-]. split_and!; [by destruct w|simpl; lia|done].
Qed.

Lemma new_event_id_spec args w id w' :
  new_event_id args w = (id, w') →
  ticks_only w w' ∧ (w_tick w <= w_tick w')%nat
  ∧ match sd_event_id args with
    | Some given => id = given
    | None => ∃ n, (w_tick w <= n < w_tick w')%nat ∧ id = fresh_uuid n
    end.
Proof.
  unfold new_event_id, next_tick. run_st. destruct (sd_event_id args) as [g|]; intros [= <- <-].
  - by split_and!.
  - split_and!; [by destruct w|simpl; lia|]. exists (w_tick w). simpl. split; [lia|done].
Qed.

Lemma build_event_spec args w r w' :
  build_event args w = (r, w') →
  ticks_only w w' ∧ ∀ event, r = Ok event → well_formed args ∧ describes args (w_tick w) (w_tick w') event.
Proof.
  unfold build_event, st_try, st_ret. destruct (read_payload _) as [payload|e] eqn:Hread; [|by intros [= <- <-]].
  destruct (recipients_of args) as [rs|e] eqn:Hrs; [|by intros [= <- <-]].
  destruct (result_mapM (copy_to "Invalid --cc address: ") _) as [cc|e] eqn:Hcc; [|by intros [= <- <-]].
  destruct (result_mapM (copy_to "Invalid --bcc address: ") _) as [bcc|e] eqn:Hbcc; [|by intros [= <- <-]].
  destruct (read_attachments args) as [atts|e] eqn:Hatt; [|by intros [= <- <-]].
  destruct (validate_attachments atts w) as [[u|e] w1] eqn:Hv.
  2: { intros [= <- <-]. apply validate_attachments_spec in Hv as [? _]. by split. }
  apply validate_attachments_spec in Hv as (Ht1 & Hle1 & Hok).
  destruct (from_override_of args) as [from|e] eqn:Hfrom; [|by intros [= <- <-]].
  unfold st_bind, next_tick. destruct (new_event_id args w1) as [id w2] eqn:Hid.
  apply new_event_id_spec in Hid as (Ht2 & Hle2 & Hid).
  intros [= <- <-]. split; [do 2 (etrans; [eassumption|]); by destruct w2|].
  intros event [= <-].
  apply recipients_of_Ok in Hrs as (-> & Hne & Hto). apply copies_to in Hcc as [Hcc Hvc].
  apply copies_to in Hbcc as [Hbcc Hvb]. apply from_override_of_Ok in Hfrom as [-> Hvf].
  apply read_attachments_Ok in Hatt. split; constructor; simpl; try done.
  - rewrite !Forall_app. done.
  - specialize (Hok eq_refl). clear -Hatt Hok. induction Hatt as [|raw att l atts Hp _ IH]; [done|].
    apply Forall_cons in Hok as [(t0 & t1 & Ho) Hok]. constructor; [by exists att, t0, t1|by apply IH].
  - destruct (sd_event_id args); [done|]. destruct Hid as (n & ? & ->). exists n. split; [lia|done].
  - exists (w_tick w2). split; [lia|done].
  - exists payload. split; [done|]. unfold type_and_payload.
    by destruct (sd_subject args), (sd_body_html args), (sd_body_text args).
  - eexists. split; [done|]. simpl. split_and!; try done; [apply named_emails|apply named_names].
Qed.

Definition declare_frame : AmqpFrame := ExchangeDeclare (cl_exchange cfg) ExchangeKind.Direct.
Definition event_frame (body : string) : AmqpFrame :=
  BasicPublish (cl_exchange cfg) (cl_routing_key cfg) persistent_json body.

(** The world as it was, but for its clock and the frames sent. *)
Definition only_sent (sent : list AmqpFrame) (w w' : World) : Prop :=
  w' = mkWorld (w_tick w') (w_db w) (w_tpl_cache w) (w_block_cache w) (w_sends w) (w_amqp w ++ sent)
         (w_slept w) (w_held w).

Lemma ticks_only_sent w w' : ticks_only w w' → only_sent [] w w'.
Proof. unfold ticks_only, only_sent. intros E. rewrite E at 1. rewrite app_nil_r. done. Qed.

Lemma only_sent_trans a b w1 w2 w3 : only_sent a w1 w2 → only_sent b w2 w3 → only_sent (a ++ b) w1 w3.
Proof. unfold only_sent. intros E1 E2. rewrite E2, E1. simpl. by rewrite <- app_assoc. Qed.

Lemma open_step_spec context w r w' :
  open_step context w = (r, w') → ticks_only w w' ∧ (w_tick w <= w_tick w')%nat.
Proof.
  unfold open_step, under_context, amqp_step, next_tick. run_st. intros [= _ <-].
  split; [by destruct w|simpl; lia].
Qed.

(** Each failure leaves the broker with a prefix of the two frames. *)
Lemma publish_frames body w r w' :
  publish body w = (r, w') →
  ∃ sent, (w_tick w <= w_tick w')%nat ∧ only_sent sent w w'
          ∧ sent `prefix_of` [declare_frame; event_frame body]
          ∧ (is_ok r = true → sent = [declare_frame; event_frame body]).
Proof.
  assert (Hstep : ∀ c (k : M (result unit string)) w r w',
    (∀ w r w', k w = (r, w') →
       ∃ sent, (w_tick w <= w_tick w')%nat ∧ only_sent sent w w' ∧ sent `prefix_of` [declare_frame; event_frame body]
               ∧ (is_ok r = true → sent = [declare_frame; event_frame body])) →
    (let? _ := open_step c in k) w = (r, w') →
    ∃ sent, (w_tick w <= w_tick w')%nat ∧ only_sent sent w w' ∧ sent `prefix_of` [declare_frame; event_frame body]
            ∧ (is_ok r = true → sent = [declare_frame; event_frame body])).
  { intros c k v r0 v' Hk. unfold st_try. destruct (open_step c v) as [[u|e] v1] eqn:Ho.
    - intros (sent & Hle & Hs & Hpre & Hok)%Hk. apply open_step_spec in Ho as [Ho%ticks_only_sent Hle0].
      exists sent. split_and!; [lia|exact (only_sent_trans _ _ _ _ _ Ho Hs)|done..].
    - intros [= <- <-]. apply open_step_spec in Ho as [Ho%ticks_only_sent Hle0]. exists [].
      by split_and!; [| |apply prefix_nil|]. }
  unfold publish. do 3 (apply Hstep; clear w r w'; intros w r w').
  unfold active, command, basic_publish, await_confirm, next_tick. run_st.
  destruct (amqp_command _ _) as [u|e]; simpl.
  2: { intros [= <- <-]. exists []. split_and!; [simpl; lia|by apply ticks_only_sent; destruct w|apply prefix_nil|done]. }
  destruct (amqp_publish_err _) as [e|]; simpl.
  { intros [= <- <-]. exists [declare_frame]. split_and!; [simpl; lia|by destruct w|by exists [event_frame body]|done]. }
  destruct (amqp_confirm _) as [c|e]; simpl; intros [= <- <-]; exists [declare_frame; event_frame body];
    (split_and!; [simpl; lia| |reflexivity|done]); unfold only_sent, log_frame; simpl; by rewrite <- app_assoc.
Qed.

Lemma describes_later args t t1 t2 event :
  describes args t t1 event → (t1 <= t2)%nat → describes args t t2 event.
Proof.
  intros [Hid (n & ? & Ht) ? ? ?] Hle. constructor; [|exists n; split; [lia|done]|done..].
  destruct (sd_event_id args); [done|]. destruct Hid as (m & ? & ?). exists m. split; [lia|done].
Qed.

(** The user said yes, on the command line or at the prompt. *)
Definition agrees (args : SendArgs) : bool :=
  sd_yes args || match confirm with Ok b => b | Err _ => false end.

(** C34: [anctl send] publishes nothing unless every address and attachment on the
    command line passes the checks; when it reports success the event it
    describes, payload, people and all, is the last thing the broker was sent,
    or the user declined and nothing was; and an error leaves nothing, or part
    of the exchange that publishes that event.  The database, the caches and the
    mailbox are never touched. *)
Theorem send_outcome args w :
  let '(r, w') := send args w in
  ∃ sent, only_sent sent w w'
    ∧ (sent ≠ [] → well_formed args ∧ agrees args = true)
    ∧ match r with
      | Ok _ =>
          well_formed args
          ∧ if agrees args
            then ∃ event body, describes args (w_tick w) (w_tick w') event ∧ encode_event event = Ok body
                               ∧ sent = [declare_frame; event_frame body]
            else sent = []
      | Err _ =>
          sent = []
          ∨ ∃ event body, describes args (w_tick w) (w_tick w') event ∧ encode_event event = Ok body
                          ∧ sent `prefix_of` [declare_frame; event_frame body]
      end.
Proof.
  unfold send, st_try, st_ret. destruct (build_event args w) as [[event|e] w1] eqn:Hb.
  2: { apply build_event_spec in Hb as [Ht _]. exists []. split_and!; [by apply ticks_only_sent|done|].
       by left. }
  apply build_event_spec in Hb as [Ht Hev]. destruct (Hev _ eq_refl) as [Hwf Hd].
  apply ticks_only_sent in Ht.
  assert (Hgo : (∃ e, confirmed_by_user args = Err e) ∨ confirmed_by_user args = Ok (agrees args)).
  { unfold confirmed_by_user, agrees, in_context. destruct (sd_yes args); [by right|].
    destruct confirm; [by right|left; by eexists]. }
  destruct Hgo as [[e ->]| ->]; [exists []; split_and!; [done..|]; by left|].
  destruct (agrees args); simpl; [|by exists []].
  unfold publish_event, st_try, st_ret, in_context. destruct (encode_event event) as [body|e] eqn:Henc; simpl.
  2: { exists []. split_and!; [done..|]. by left. }
  destruct (publish body w1) as [r w2] eqn:Hp. apply publish_frames in Hp as (sent & Hle & Hs & Hpre & Hok).
  apply (describes_later _ _ _ (w_tick w2)) in Hd; [|done].
  destruct r as [u|e]; exists sent.
  - split_and!; [exact (only_sent_trans _ _ _ _ _ Ht Hs)|by auto|done|]. exists event, body. by auto.
  - split_and!; [exact (only_sent_trans _ _ _ _ _ Ht Hs)|by auto|]. right. by exists event, body.
Qed.
End send.

(** ** Concrete commands *)

Definition mail_args (payload : string) (subject html text : option string) : SendArgs :=
  mkSendArgs "ORDER" ["a@example.com"; "b@example.com"] ["Ann"] [] ["c@example.com"] payload None None []
    "anctl" (Some 5%N) true subject html text.
Definition mail_cli : CliConfig :=
  mkCliConfig "postgres://db" "amqp://mq" "anvil-notify" "email.requested" 8080 None None None.
Definition braces_only (s : string) : result json string :=
  if String.eqb s "{}" then Ok (JObj []) else Err "expected value at line 1 column 1".

Definition attachment_none (s : string) : result AttachmentRef string := Err "missing field `url`".

Notation sample_send nacking args :=
  (send (H := nacking) (H0 := one_event_wire) mail_cli (λ _, Err "No such file or directory") braces_only
     attachment_none (Ok true) args (world0 empty_db)).

(** A refusal of the broker is not told from its confirmation. *)
Example refused_is_reported_published :
  (∀ t, amqp_confirm (Env := nacking) t = Ok ConfirmNack)
  ∧ (sample_send nacking (mail_args "{}" None None None)).1
    = Ok [Line "✓ Published event 5"; Line "  Run `anctl status 5` to track delivery."].
Proof. split; [done|]. vm_compute. reflexivity. Qed.

(** With the three parts given the payload is not used, but it is still read. *)
Example unused_payload_refused :
  is_ok (sample_send sample_env (mail_args "{}" (Some "s") (Some "h") (Some "t"))).1 = true
  ∧ (sample_send sample_env (mail_args "oops" (Some "s") (Some "h") (Some "t"))).1
    = Err "--payload must be valid JSON or @<path> to a JSON file: expected value at line 1 column 1".
Proof. by vm_compute. Qed.
