(* ===== verification/AnctlMain.v ===== *)
(** * [anctl] as a whole ([crates/anctl/src/main.rs])

    The commands and their dispatch. *)

From S2P Require Import Prelude Json AppErr Event World Interfaces.
From S2P Require Import LogInvariant CliQueries Anctl AnctlApi AnctlDb AnctlSend.

Inductive Command : Type :=
  | Send (args : SendArgs)
  | Status (args : StatusArgs)
  | Retry (args : RetryArgs)
  | Logs (args : LogsArgs)
  | Outbox (args : OutboxArgs)
  | Blocklist (action : BlocklistAction)
  | Template (action : TemplateAction)
  | Health (args : HealthArgs).

(** What clap parses; the output format defaults to the table. *)
Record Cli : Type := mkCli {
  cli_config : option string;
  cli_output : OutputFormat;
  cli_command : Command;
}.

Section main.
Context `{Env, WireCodec}.
Context (cfg : CliConfig) (http : ClientRequest → M (result Reply string)).
Context (read_file : string → result string string) (read_line : result string string).
Context (confirm : result bool string).
Context (parse_json : string → result json string) (parse_attachment : string → result AttachmentRef string).
Context (db_lowercase : string → string) (fmt_ts : DateTime → string).
Context (json_text : json → string) (print_json : list (list string) → json).

(** What a command printed, and whether the process exits with code 0. *)
Definition exiting (m : M (result (list Printed) string)) : M (result (bool * list Printed) string) :=
  let? out := m in st_ret (Ok (true, out)).

Definition main (command : Command) (fmt : OutputFormat) : M (result (bool * list Printed) string) :=
  match command with
  | Send args => exiting (send cfg read_file parse_json parse_attachment confirm args)
  | Status args => exiting (status fmt_ts print_json args fmt)
  | Retry args => exiting (retry cfg http confirm args)
  | Logs args => exiting (logs db_lowercase fmt_ts print_json args fmt)
  | Outbox args => exiting (outbox fmt_ts json_text print_json cfg args fmt)
  | Blocklist action => exiting (blocklist cfg http action fmt)
  | Template action => exiting (template cfg http read_file read_line action fmt)
  | Health args => health cfg http args
  end.

(** ** Properties *)

(** A relation that time passing and the answers to requests keep. *)
Section effects.
Context (R : relation World) `{!PreOrder R}.
Hypothesis R_tick : ∀ w, R w (set_tick (S (w_tick w)) w).
Hypothesis R_http : ∀ req, keeps R (http req).

Lemma keeps_tick : keeps R next_tick.
Proof. exact R_tick. Qed.

Lemma keeps_fetch_all {A} (select : Db → result (list A) string) : keeps R (fetch_all select).
Proof.
  unfold fetch_all. apply keeps_bind; [done|apply keeps_tick|]. intros t.
  destruct (db_err t); [by apply keeps_ret|]. apply keeps_bind; [done|by apply keeps_get|].
  intros d. by apply keeps_ret.
Qed.

Ltac keeps_all :=
  repeat first
    [ apply keeps_tick | apply keeps_fetch_all | apply R_http | apply keeps_ret; exact _
    | apply keeps_try; [exact _| |intros] | apply keeps_bind; [exact _| |intros]
    | progress unfold connect_pool, send_authed, failed, failed_json, shown, check_endpoint, upload, create,
        list_templates_cmd, show_template, activate, flush_templates
    | progress (cbv beta iota zeta) | case_goal ].

Lemma status_keeps args fmt : keeps R (status fmt_ts print_json args fmt).
Proof. unfold status, get_status_for_recipient, get_status_for_event. keeps_all. Qed.

Lemma logs_keeps args fmt : keeps R (logs db_lowercase fmt_ts print_json args fmt).
Proof. unfold logs, list_notification_logs. keeps_all. Qed.

Lemma outbox_keeps args fmt : keeps R (outbox fmt_ts json_text print_json cfg args fmt).
Proof. unfold outbox, list_outbox_rows. keeps_all. Qed.

Lemma retry_keeps args : keeps R (retry cfg http confirm args).
Proof. unfold retry. keeps_all. Qed.

Lemma blocklist_keeps action fmt : keeps R (blocklist cfg http action fmt).
Proof. unfold blocklist. destruct action; keeps_all. Qed.

Lemma template_keeps action fmt : keeps R (template cfg http read_file read_line action fmt).
Proof. unfold template. destruct action; keeps_all. Qed.

Lemma health_keeps args : keeps R (health cfg http args).
Proof. unfold health. keeps_all. Qed.

(** Every command but [send] acts on the service only through its requests: what
    the requests and the passing of time leave alone (the delivery log, the
    templates, the broker) the command leaves alone, whatever it reads, prints
    or asks the user. *)
Theorem commands_only_ask command fmt :
  (∀ args, command ≠ Send args) → keeps R (main command fmt).
Proof.
  intros Hs. destruct command; simpl; [by destruct (Hs args)|..|apply health_keeps].
  all: apply keeps_try; [exact _| |intros out; by apply keeps_ret].
  - apply status_keeps.
  - apply retry_keeps.
  - apply logs_keeps.
  - apply outbox_keeps.
  - apply blocklist_keeps.
  - apply template_keeps.
Qed.
End effects.
End main.

(** The process: the settings file is read before the command runs. *)
Definition run_cli `{Env, WireCodec} (settings : option string → result CliConfig string) (cli : Cli)
    http read_file read_line confirm parse_json parse_attachment db_lowercase fmt_ts json_text print_json :
    M (result (bool * list Printed) string) :=
  match settings (cli_config cli) with
  | Err e => st_ret (Err e)
  | Ok cfg => main cfg http read_file read_line confirm parse_json parse_attachment db_lowercase fmt_ts
                json_text print_json (cli_command cli) (cli_output cli)
  end.

#[local] Instance db_same_preorder : PreOrder (λ w w' : World, w_db w' = w_db w).
Proof. split; [by intros w|]. intros w1 w2 w3 E1 E2. by rewrite E2. Qed.

(** With the service down, [anctl logs] reads the one row and changes nothing. *)
Definition down : ClientRequest → M (result Reply string) := λ _, st_ret (Err "connection refused").

Lemma commands_only_ask_witness :
  (main (H := sample_env) (H0 := sample_wire_codec) mail_cli down (λ _, Err "") (Err "") (Err "")
     braces_only attachment_none (λ s, s) (λ t, pretty t) (λ _, "") (λ _, JNull) (Logs plain_logs) Table
     sample_insert).1 = Ok (true, [Rows [["7"; "ORDER_CONFIRMATION"; "a@example.com"; "PENDING"; "0"; "—";
                                          "1000000000"]]])
  ∧ w_db (main (H := sample_env) (H0 := sample_wire_codec) mail_cli down (λ _, Err "") (Err "") (Err "")
     braces_only attachment_none (λ s, s) (λ t, pretty t) (λ _, "") (λ _, JNull) (Logs plain_logs) Table
     sample_insert).2 = w_db sample_insert.
Proof.
  split; [vm_compute; reflexivity|].
  apply (commands_only_ask (H := sample_env) (H0 := sample_wire_codec) mail_cli down (λ _, Err "") (Err "")
    (Err "") braces_only attachment_none (λ s, s) (λ t, pretty t) (λ _, "") (λ _, JNull)
    (λ w w', w_db w' = w_db w) (PreOrder0 := db_same_preorder)).
  - by intros w.
  - by intros req w.
  - by intros args.
Defined.
